(* ===== verification/_CoqProject ===== *)
-Q . S2P
Prelude.v
GoRt.v
Fmt.v
Transport.v
Address.v
Varint.v
Tlv.v
TlvSpec.v
TlvDecode.v
TlvSafe.v
TlvRoundtrip.v
TlvCanon.v
Crypto.v
Frame.v
FrameFacts.v
FrameClaims.v
Session.v
SessionFacts.v
Negotiate.v
NegotiateFacts.v
RateLimit.v
RateLimitFacts.v
Media.v
MediaFacts.v
Handler.v
Server.v
ServerFacts.v
Pipeline.v
MediaServer.v
HandlerFacts.v
Client.v
EndToEnd.v
Hub.v
HubFacts.v
Conversation.v
Crud.v
CrudFacts.v
Logger.v
Quic.v
QuicFacts.v
Program.v
ProgramFacts.v
ExampleServer.v
CrudProgram.v
Serve.v
Conc.v
Goroutines.v
SystemFacts.v
System.v
Alias.v
Examples.v
ExamplePrograms.v
