(* ===== verification/Prelude.v ===== *)
(** * Hush: a verification development

    Hush ([src/], Go) is a request/response protocol over QUIC or TLS: payloads
    are TLV maps ([src/tlv]), carried in length-prefixed frames ([src/frame]),
    sealed under a per-session AES-GCM key that a handshake derives
    ([src/session]); a server ([src/server]) keeps the sessions, rate limits and
    dispatches requests, and media tokens ([src/media]) are bound to sessions.

    ** How the program is modelled

    The definitions are a shallow embedding of the Go code: one definition per
    function or method, under the Go name ([Map_Set] for the method [Set] of
    [Map], [tlv_String] for the function [tlv.String]), with the guards, early
    returns and panics of the source.
    - A function that can fail returns [GoRt.res]: [Ok], [Err] (a non-nil
      [error], with its wrapping), [Panic], or [OutOfFuel].
    - Code that changes a reader, a writer, a random source or a store is in the
      state monad [GoRt.M], which keeps the state on failure, or takes and
      returns the record that models the struct.
    - Integers are [Z] with their wrap-around written out ([wrapU], [wrapS]);
      [[]byte] is [list byte], [string] is [string], a Go map is a [gmap], a map
      range is a loop over any order of its entries.  A nil slice or pointer
      whose nilness the code tests is [None].
    - Pointers that are shared and written through are locations of a heap
      (sessions, in [Session]; subscribers, in [Hub]; maps and the arrays of
      their entries, in [Alias]).
    - A goroutine is either one computation, run while nobody else does anything
      ([Server], [Quic]), or a program of steps in a pool ([Conc], [Goroutines]);
      [Goroutines.goroutines_alone] relates the two.
    - The clock is an argument: each [time.Now()] is a [Time] parameter, and
      theorems quantify over the readings.  A method that runs under its
      object's mutex is one step; interleavings are lists of steps or a step
      relation.
    - Code outside [src/] is an interface: [Crypto.CryptoOps] for Go's crypto
      packages with its documented laws [CryptoLaws] ([ToyCrypto] is an
      instance, for examples only).

    ** The files

    - [Prelude]: notations, tactics, hint databases; bytes, machine integers,
      big-endian encodings.  [GoRt]: errors, panics, slices, readers, writers,
      time.  [Varint]: [encoding/binary]'s varints.  [Fmt]: formatting, hexadecimal,
      the time of day, trimming.  [Address]: the client's address over [net/url].
      [Transport] ([src/transport]): dialing and listening, over sockets, QUIC and
      TLS as parameters.
    - [Tlv] ([tlv/types.go], [tlv/encode.go]), [TlvDecode] ([tlv/decode.go]):
      values, maps, encoder and decoder.  [TlvSpec] has well-formedness, sizes
      and nesting; [TlvSafe] totality, the one panic, and typing of decoded
      data; [TlvRoundtrip] the round trips and the stream decoder; [TlvCanon]
      re-encoding of what was decoded.
    - [Alias] ([tlv/types.go] again, over a memory of maps and arrays): when two
      maps share their entries ([MapValue]) and when a copy is independent
      ([Clone], [GetMap], [Value.Map]).
    - [Crypto] ([session/crypto.go]): key derivation and the AES-GCM envelope.
    - [Frame] ([frame/*.go]), [FrameFacts], [FrameClaims]: frames, requests and
      responses; round trips up to the frame limit, authenticity, replay.
    - [Session] ([session/session.go]), [SessionFacts]: the session store as a
      refinement of a finite map, garbage collection, retention and expiry over
      all runs of a step relation.
    - [Negotiate] ([session/negotiate.go]), [NegotiateFacts]: the handshake; both
      sides agree, and whom the server accepts.
    - [RateLimit] ([server/ratelimit.go]), [RateLimitFacts]: the sliding-window
      limiter equals a log-based specification on every run.
    - [Media] ([media/media.go]), [MediaFacts]: media tokens over all runs.
    - [Handler] ([server/handler.go], [server/middleware.go]): the environment a
      server runs in ([Env]: clock, random source, limiters, sessions, log, and
      a state [A] of the application's own), contexts, handlers, and every
      built-in middleware.
    - [Server] ([server/server.go]): options, registration, one QUIC stream
      ([handleStream]) and one TCP connection ([handleTCPConnection]) over the
      two byte streams of a [Conn].  [ServerFacts]: panics that a stream survives
      and those that end a TCP server, and the life of a connection's session.
      [Pipeline]: a TCP connection with handlers over the application's state is
      a fold of them over the requests that arrive.  [HandlerFacts]: the order of
      middleware, and what a rate limiter lets through.
    - [Client] ([client/client.go]): dialing, requests over both transports,
      closing.  [EndToEnd]: a client's call and the server's round that serves
      it fit together; what a failed call leaves behind.
    - [Conversation]: a client that dials and makes calls, and the goroutine of
      its connection, run against each other over TCP.
    - [Quic] ([handleConnection]), [QuicFacts]: a QUIC connection under any
      schedule of accepted streams and of their goroutines refines a machine of
      independent requests; each is answered once its goroutine has run.
    - [Serve]: the three entry points that listen, and their accept loops.
    - [Conc]: goroutines over shared state, schedules, and a rely-guarantee
      logic for them.  [Goroutines]: the server's goroutines (listeners,
      collectors, connections, streams) cut into single accesses.  [SystemFacts],
      [System]: under every schedule a server with TCP and QUIC clients gives the
      answers of a sequential run of its handlers, crashes nowhere, and comes to
      rest with every client answered.
    - [MediaServer]: the session table under the steps of all goroutines,
      handshakes that fail and collections included, and the media tokens whose
      life hangs on it.
    - [Hub] ([server/stream.go]): the event hub and its handlers.  [HubFacts]: over
      all interleavings of its operations, no channel is closed twice, what a
      subscriber receives and may lose, identifiers used twice, and the life of
      a subscription.
    - [Logger] ([server/logger.go]): the terminal logger and its lines.
    - [Program]: what a command-line client does after dialing, as a tree of its
      calls and prints, and running it on a [Client].  [ProgramFacts]: over QUIC,
      a program and the server's goroutines for its connection do what the
      program does on the answers of the handlers.  [ExampleServer]: what the
      servers of the examples do until they serve.
    - [Crud] ([examples/crud]), [CrudFacts]: the notes example answers every
      sequence of requests as a log of the requests before says.  [CrudProgram]:
      its server and its client as programs; what the client prints.
    - [Examples]: the handlers of the chat and weather servers; a chat message
      reaches the whole room.  [ExamplePrograms]: their servers and clients as
      programs.

    ** Fuel

    The decoder recurses on shrinking slices; the model recurses on fuel, three
    times the payload length plus three ([TlvDecode.fuel_for]), and
    [TlvSafe.decodeValue_total] shows that it never runs out.  [DecodeAll]'s
    loop has the number of unread bytes plus one, which [TlvCanon.DecodeAll_total]
    shows to be enough.  The loop of a TCP connection has the rounds it is given; in
    [System.server_serves_all] one more than the client's requests, and nothing
    runs out.  Varint reading has the ten rounds of the Go loop.

    ** Not modelled

    Sockets, TLS and QUIC themselves: third-party code and I/O; what they give is
    an argument or a parameter.  In [Quic], where streams can outlive their
    connection, a run of [handleStream] is one step; in [Goroutines] it is many,
    but the connection stays open, and the
    call of a handler is one step, though the examples' handlers hold their mutex
    for a part of it only.  [Touch] of a session that two streams use at
    once is a data race in the code and an atomic write here.  What
    [url.Parse] makes of an IPv6 literal is a parameter.  Floats are their bit patterns.  Sharing
    of byte slices and of array elements between a value and the buffer it came
    from (the code copies where it decodes).  In the examples, contexts with
    deadlines: a call that times out is one whose stream cannot be opened or
    whose answer does not come. *)

From Stdlib Require Import ZArith Lia.
From Stdlib Require Export Strings.Byte Strings.String.
From stdpp Require Export base list gmap strings numbers.

#[global] Open Scope Z_scope.
#[global] Open Scope list_scope.

(** ** Bytes and byte strings *)

Declare Scope hush_scope.
Delimit Scope hush_scope with hush.
#[global] Open Scope hush_scope.

(** Go's [byte] is Rocq's [Byte.byte]; a Go [[]byte] is a [list byte] and a
    Go [string] (an immutable byte sequence) a [String.string]. *)
Abbreviation byte := Init.Byte.byte.

#[export] Instance byte_eq_dec : EqDecision byte := Byte.byte_eq_dec.

(** The unsigned value of a byte, and the conversion [byte(z)], which keeps
    the low eight bits. *)
Definition byteZ (b : byte) : Z := Z.of_N (Byte.to_N b).
Definition Zbyte (z : Z) : byte :=
  default x00 (Byte.of_N (Z.to_N (z `mod` 256))).

(** The conversions [[]byte(s)] and [string(b)]. *)
Definition bytes_of (s : string) : list byte := String.list_byte_of_string s.
Definition string_of (b : list byte) : string := String.string_of_list_byte b.

(** [len(x)] as Go computes it: an [int]. *)
Definition len {A} (l : list A) : Z := Z.of_nat (length l).

Lemma byteZ_range b : 0 <= byteZ b < 256.
Proof. unfold byteZ. pose proof (Byte.to_N_bounded b). lia. Qed.

Lemma byteZ_Zbyte z : byteZ (Zbyte z) = z `mod` 256.
Proof.
  unfold byteZ, Zbyte. pose proof (Z.mod_pos_bound z 256 ltac:(lia)).
  destruct (Byte.of_N _) as [b|] eqn:E; simpl.
  - apply Byte.to_of_N in E. lia.
  - apply Byte.of_N_None_iff in E. lia.
Qed.

Lemma Zbyte_byteZ b : Zbyte (byteZ b) = b.
Proof.
  unfold Zbyte. rewrite Z.mod_small by apply byteZ_range.
  unfold byteZ. by rewrite N2Z.id, Byte.of_to_N.
Qed.

#[export] Instance byte_countable : Countable byte := inj_countable' byteZ Zbyte Zbyte_byteZ.

#[export] Instance byteZ_inj : Inj (=) (=) byteZ.
Proof. intros a b H. by rewrite <-(Zbyte_byteZ a), <-(Zbyte_byteZ b), H. Qed.

Lemma byteZ_Zbyte_small z : 0 <= z < 256 -> byteZ (Zbyte z) = z.
Proof. intros. rewrite byteZ_Zbyte. by apply Z.mod_small. Qed.

Lemma string_of_bytes_of s : string_of (bytes_of s) = s.
Proof. apply String.string_of_list_byte_of_string. Qed.

Lemma bytes_of_string_of b : bytes_of (string_of b) = b.
Proof. apply String.list_byte_of_string_of_list_byte. Qed.

Lemma length_bytes_of s : length (bytes_of s) = String.length s.
Proof.
  unfold bytes_of, String.list_byte_of_string. rewrite length_map.
  induction s as [|c s IH]; simpl; [done | by rewrite IH].
Qed.

#[export] Instance bytes_of_inj : Inj (=) (=) bytes_of.
Proof.
  intros s s' H. by rewrite <-(string_of_bytes_of s), H, string_of_bytes_of.
Qed.

Lemma len_nonneg {A} (l : list A) : 0 <= len l.
Proof. unfold len. lia. Qed.

Lemma len_app {A} (l k : list A) : len (l ++ k) = len l + len k.
Proof. unfold len. rewrite length_app. lia. Qed.

Lemma len_cons {A} (x : A) l : len (x :: l) = 1 + len l.
Proof. unfold len. simpl. lia. Qed.

Lemma len_nil {A} : len (@nil A) = 0.
Proof. done. Qed.

Create HintDb hush.
Create Rewrite HintDb hush_len.
#[export] Hint Resolve len_nonneg byteZ_range : hush.
#[export] Hint Rewrite @len_app @len_cons @len_nil : hush_len.

(** ** Machine integers *)

(** [uintN(z)]: the low [w] bits.  [intN(u)]: the two's complement reading of
    the low [w] bits. *)
Definition wrapU (w : Z) (z : Z) : Z := z `mod` 2 ^ w.
Definition wrapS (w : Z) (z : Z) : Z :=
  let u := wrapU w z in if u <? 2 ^ (w - 1) then u else u - 2 ^ w.

Definition in_uint (w : Z) (z : Z) : bool := (0 <=? z) && (z <? 2 ^ w).
Definition in_int (w : Z) (z : Z) : bool :=
  (- 2 ^ (w - 1) <=? z) && (z <? 2 ^ (w - 1)).

Lemma in_uint_spec w z : in_uint w z = true <-> 0 <= z < 2 ^ w.
Proof. unfold in_uint. rewrite andb_true_iff. lia. Qed.

Lemma in_int_spec w z : in_int w z = true <-> - 2 ^ (w - 1) <= z < 2 ^ (w - 1).
Proof. unfold in_int. rewrite andb_true_iff. lia. Qed.

Lemma wrapU_range w z : 0 <= w -> in_uint w (wrapU w z) = true.
Proof.
  intros. apply in_uint_spec, Z.mod_pos_bound. by apply Z.pow_pos_nonneg.
Qed.

Lemma wrapU_small w z : 0 <= z < 2 ^ w -> wrapU w z = z.
Proof. apply Z.mod_small. Qed.

Lemma pow2_pred w : 0 < w -> 2 ^ w = 2 * 2 ^ (w - 1).
Proof. intros. rewrite <-Z.pow_succ_r by lia. f_equal. lia. Qed.

Lemma wrapS_range w z : 0 < w -> in_int w (wrapS w z) = true.
Proof.
  intros Hw. apply in_int_spec. unfold wrapS, wrapU.
  pose proof (pow2_pred w Hw).
  pose proof (Z.mod_pos_bound z (2 ^ w) ltac:(lia)).
  destruct (Z.ltb_spec (z `mod` 2 ^ w) (2 ^ (w - 1))); lia.
Qed.

(** Converting a signed integer to unsigned and back is the identity. *)
Lemma wrapS_wrapU w z : 0 < w -> in_int w z = true -> wrapS w (wrapU w z) = z.
Proof.
  intros Hw Hz%in_int_spec. unfold wrapS, wrapU.
  pose proof (pow2_pred w Hw).
  rewrite Z.mod_mod by lia.
  destruct (Z.leb_spec 0 z).
  - rewrite Z.mod_small by lia.
    by rewrite (proj2 (Z.ltb_lt _ _)) by lia.
  - rewrite <-(Z_mod_plus_full z 1 (2 ^ w)), Z.mod_small by lia.
    destruct (Z.ltb_spec (z + 1 * 2 ^ w) (2 ^ (w - 1))); lia.
Qed.

Lemma wrapS_small w z : 0 < w -> in_int w z = true -> wrapS w z = z.
Proof.
  intros Hw Hz. rewrite <-(wrapS_wrapU w z) at 2 by done.
  unfold wrapS, wrapU. by rewrite Z.mod_mod by (apply Z.pow_nonzero; lia).
Qed.

(** ** Big-endian integers ([encoding/binary]) *)

(** [binary.BigEndian.PutUint]: [n] bytes, most significant first. *)
Fixpoint be_put (n : nat) (z : Z) : list byte :=
  match n with
  | O => []
  | S m => Zbyte (Z.shiftr z (8 * Z.of_nat m)) :: be_put m z
  end.

(** [binary.BigEndian.Uint]: the value of a byte sequence, most significant
    byte first. *)
Definition be_get (bs : list byte) : Z :=
  fold_left (fun acc b => 256 * acc + byteZ b) bs 0.

Lemma length_be_put n z : length (be_put n z) = n.
Proof. induction n; simpl; auto. Qed.

Lemma len_be_put n z : len (be_put n z) = Z.of_nat n.
Proof. unfold len. by rewrite length_be_put. Qed.

Lemma be_fold acc bs :
  fold_left (fun acc b => 256 * acc + byteZ b) bs acc
  = acc * 256 ^ len bs + be_get bs.
Proof.
  unfold be_get. revert acc. induction bs as [|b bs IH]; intros acc;
    cbn [fold_left].
  - rewrite len_nil. lia.
  - rewrite IH, (IH (256 * 0 + byteZ b)), len_cons, Z.pow_add_r by auto with hush lia.
    lia.
Qed.

Lemma be_get_cons b bs : be_get (b :: bs) = byteZ b * 256 ^ len bs + be_get bs.
Proof. unfold be_get at 1. cbn [fold_left]. by rewrite be_fold. Qed.

Lemma be_get_nil : be_get [] = 0.
Proof. done. Qed.

Lemma be_get_range bs : 0 <= be_get bs < 256 ^ len bs.
Proof.
  induction bs as [|b bs IH]; [done|].
  rewrite be_get_cons, len_cons, Z.pow_add_r by auto with hush lia.
  pose proof (byteZ_range b). nia.
Qed.

Lemma be_get_put n z : be_get (be_put n z) = z `mod` 256 ^ Z.of_nat n.
Proof.
  induction n as [|n IH]; simpl be_put; [by rewrite Z.mod_1_r|].
  rewrite be_get_cons, IH, len_be_put, byteZ_Zbyte, Z.shiftr_div_pow2 by lia.
  replace (2 ^ (8 * Z.of_nat n)) with (256 ^ Z.of_nat n)
    by (rewrite Z.pow_mul_r by lia; done).
  rewrite Nat2Z.inj_succ, Z.pow_succ_r by lia.
  assert (0 < 256 ^ Z.of_nat n) by lia.
  rewrite (Z.mul_comm 256), Z.rem_mul_r by lia. lia.
Qed.

Lemma be_get_put_small n z :
  0 <= z < 256 ^ Z.of_nat n -> be_get (be_put n z) = z.
Proof. intros. rewrite be_get_put. by apply Z.mod_small. Qed.

(** Only the low [n] bytes of the integer matter. *)
Lemma be_put_high n z k : be_put n (k * 256 ^ Z.of_nat n + z) = be_put n z.
Proof.
  revert z k. induction n as [|n IH]; intros z k; [done|]. simpl be_put.
  rewrite Nat2Z.inj_succ, Z.pow_succ_r by lia. f_equal.
  - apply byteZ_inj. rewrite !byteZ_Zbyte, !Z.shiftr_div_pow2 by lia.
    replace (2 ^ (8 * Z.of_nat n)) with (256 ^ Z.of_nat n)
      by (rewrite Z.pow_mul_r by lia; done).
    replace (k * (256 * 256 ^ Z.of_nat n) + z)
      with (z + (256 * k) * 256 ^ Z.of_nat n) by lia.
    rewrite Z.div_add by lia.
    replace (z `div` 256 ^ Z.of_nat n + 256 * k)
      with (z `div` 256 ^ Z.of_nat n + k * 256) by lia.
    by rewrite Z.mod_add by lia.
  - rewrite Z.mul_assoc. apply IH.
Qed.

Lemma be_put_get bs : be_put (length bs) (be_get bs) = bs.
Proof.
  induction bs as [|b bs IH]; [done|]. simpl be_put.
  rewrite be_get_cons, Z.shiftr_div_pow2 by lia.
  pose proof (be_get_range bs). pose proof (byteZ_range b).
  replace (2 ^ (8 * Z.of_nat (length bs))) with (256 ^ len bs)
    by (rewrite Z.pow_mul_r by lia; done).
  rewrite Z.div_add_l, Z.div_small, Z.add_0_r, Zbyte_byteZ by lia.
  f_equal. unfold len. by rewrite be_put_high.
Qed.

Lemma be_put_inj n z z' :
  0 <= z < 256 ^ Z.of_nat n -> 0 <= z' < 256 ^ Z.of_nat n ->
  be_put n z = be_put n z' -> z = z'.
Proof.
  intros Hz Hz' H%(f_equal be_get). by rewrite !be_get_put_small in H.
Qed.

(** ** Prefixes and suffixes of byte strings *)

Lemma take_app_exact {A} n (l k : list A) : length l = n -> take n (l ++ k) = l.
Proof. intros <-. apply take_app_length. Qed.

Lemma drop_app_exact {A} n (l k : list A) : length l = n -> drop n (l ++ k) = k.
Proof. intros <-. apply drop_app_length. Qed.

Lemma take_len_app {A} (l k : list A) : take (Z.to_nat (len l)) (l ++ k) = l.
Proof. unfold len. rewrite Nat2Z.id. apply take_app_length. Qed.

Lemma drop_len_app {A} (l k : list A) : drop (Z.to_nat (len l)) (l ++ k) = k.
Proof. unfold len. rewrite Nat2Z.id. apply drop_app_length. Qed.

Lemma len_drop {A} n (l : list A) : len (drop n l) = Z.max 0 (len l - Z.of_nat n).
Proof. unfold len. rewrite length_drop. lia. Qed.

Lemma len_take {A} n (l : list A) : len (take n l) = Z.min (Z.of_nat n) (len l).
Proof. unfold len. rewrite length_take. lia. Qed.

#[export] Hint Rewrite @len_drop @len_take len_be_put : hush_len.

(** Destruct the innermost [match] or [if] of a hypothesis or of the goal,
    remembering the equation. *)
Ltac split_match_in H :=
  match type of H with
  | context [match ?x with _ => _ end] => destruct x eqn:?
  end.

Ltac split_match :=
  match goal with
  | |- context [match ?x with _ => _ end] => destruct x eqn:?
  end.

(** Turn boolean comparisons in the context into propositions. *)
Ltac reflect_bool :=
  repeat match goal with
  | H : (_ <? _) = true |- _ => apply Z.ltb_lt in H
  | H : (_ <? _) = false |- _ => apply Z.ltb_ge in H
  | H : (_ <=? _) = true |- _ => apply Z.leb_le in H
  | H : (_ <=? _) = false |- _ => apply Z.leb_gt in H
  | H : (_ =? _) = true |- _ => apply Z.eqb_eq in H
  | H : (_ =? _) = false |- _ => apply Z.eqb_neq in H
  | H : (_ && _) = true |- _ => apply andb_true_iff in H as [? ?]
  | H : (_ || _) = false |- _ => apply orb_false_iff in H as [? ?]
  | H : in_uint _ _ = true |- _ => apply in_uint_spec in H
  | H : in_int _ _ = true |- _ => apply in_int_spec in H
  end.

(** [lia] for goals with [div] and [mod] by constants. *)
Ltac zlia := Z.to_euclidean_division_equations; lia.

Lemma elem_of_insert_inv {A} (l : list A) i x y : x ∈ <[i := y]> l -> x = y \/ x ∈ l.
Proof.
  intros [j Hj]%list_elem_of_lookup. apply list_lookup_insert_Some in Hj as [(_ & -> & _)|[_ Hj]]; [by left|].
  right. by eapply list_elem_of_lookup_2.
Qed.

Lemma insert_at_length {A} (l k : list A) x y : <[length l := y]> (l ++ x :: k) = l ++ y :: k.
Proof. induction l as [|z l IH]; cbn; [done|by f_equal]. Qed.
