(* ===== verification/GoRt.v ===== *)
(** * The parts of Go and of its standard library the source uses

    Errors and their wrapping ([fmt.Errorf] with [%w], [errors.Is]), panics,
    slice expressions, [time.Time], [io.Reader] / [io.Writer] with
    [io.ReadFull], and [encoding/binary]'s varints.  Every definition states
    the documented behaviour of the Go function it is named after. *)

From Stdlib Require Import Ascii.
From S2P Require Import Prelude.

(** ** Errors *)

(** The arguments of a formatted error, left unformatted. *)
Inductive arg := AInt (z : Z) | AStr (s : string).

(** An error value: the sentinels the source compares against, an error built
    by [fmt.Errorf], one that wraps another ([%w]), or an error that comes
    from code outside the repository. *)
Inductive error :=
| io_EOF
| io_ErrUnexpectedEOF
| errOverflow
| Errorf (fmt : string) (args : list arg)
| Wrapf (fmt : string) (args : list arg) (wrapped : error)
| ExtErr (msg : string).

#[export] Instance arg_eq_dec : EqDecision arg.
Proof. solve_decision. Defined.
#[export] Instance error_eq_dec : EqDecision error.
Proof. solve_decision. Defined.

(** [errors.Is(err, target)]: [err] or an error it wraps equals [target]. *)
Fixpoint errors_Is (err target : error) : bool :=
  bool_decide (err = target) ||
  match err with Wrapf _ _ w => errors_Is w target | _ => false end.

(** ** Results of a Go function

    A function that returns [(T, error)] returns [Ok v] (a nil error), or
    [Err e]; a run-time panic is the third outcome.  [OutOfFuel] is the
    model's own: the fuel of a recursive definition was not enough; each such
    definition has a theorem that its fuel is. *)
Inductive panic :=
| PTypeAssertion
| PSliceBounds
| PNilDeref
| PCloseClosed
| PExplicit (e : error)
| POther (msg : string).

Inductive res (A : Type) :=
| Ok (a : A)
| Err (e : error)
| Panic (p : panic)
| OutOfFuel.
Arguments Ok {A} a.
Arguments Err {A} e.
Arguments Panic {A} p.
Arguments OutOfFuel {A}.

#[export] Instance res_ret : MRet res := @Ok.
#[export] Instance res_bind : MBind res := fun A B f r =>
  match r with
  | Ok a => f a
  | Err e => Err e
  | Panic p => Panic p
  | OutOfFuel => OutOfFuel
  end.

(** [if err != nil { return ..., fmt.Errorf("...: %w", err) }] *)
Definition wrap_err {A} (fmt : string) (args : list arg) (r : res A) : res A :=
  match r with Err e => Err (Wrapf fmt args e) | _ => r end.

Definition is_ok {A} (r : res A) : bool :=
  match r with Ok _ => true | _ => false end.
Definition is_err {A} (r : res A) : bool :=
  match r with Err _ => true | _ => false end.
Definition is_panic {A} (r : res A) : bool :=
  match r with Panic _ => true | _ => false end.

(** A computation that returns normally: a value or an error, no panic. *)
Definition returns {A} (r : res A) : Prop :=
  match r with Ok _ | Err _ => True | _ => False end.

Lemma res_bind_Ok {A B} (r : res A) (f : A -> res B) b :
  r ≫= f = Ok b <-> exists a, r = Ok a /\ f a = Ok b.
Proof. destruct r; cbn; naive_solver. Qed.

Lemma returns_bind {A B} (r : res A) (f : A -> res B) :
  returns r -> (forall a, r = Ok a -> returns (f a)) -> returns (r ≫= f).
Proof. destruct r; cbn; naive_solver. Qed.

Lemma returns_wrap {A} fmt args (r : res A) : returns r -> returns (wrap_err fmt args r).
Proof. by destruct r. Qed.

#[export] Hint Resolve returns_wrap : hush.

(** Invert a successful monadic computation into its steps. *)
Ltac inv_res :=
  repeat match goal with
  | H : (_ ≫= _) = Ok _ |- _ => apply res_bind_Ok in H as (? & ? & ?)
  | H : mret _ = Ok _ |- _ => injection H as ?; subst
  | H : Ok _ = Ok _ |- _ => injection H as ?; subst
  | H : Err _ = Ok _ |- _ => discriminate H
  | H : Panic _ = Ok _ |- _ => discriminate H
  | H : OutOfFuel = Ok _ |- _ => discriminate H
  end.

(** [for _, x := range l { b, err := f(x); ...; buf = append(buf, b...) }] *)
Definition append_all {A B} (f : A -> res (list B)) : list A -> res (list B) :=
  fix loop l :=
    match l with
    | [] => mret []
    | x :: l' => b ← f x; rest ← loop l'; mret (b ++ rest)
    end.

Lemma append_all_app {A B} (f : A -> res (list B)) l k :
  append_all f (l ++ k) = a ← append_all f l; b ← append_all f k; mret (a ++ b).
Proof.
  induction l as [|x l IH]; cbn.
  - by destruct (append_all f k).
  - rewrite IH. destruct (f x); cbn; try done.
    destruct (append_all f l); cbn; try done.
    destruct (append_all f k); cbn; try done. by rewrite app_assoc.
Qed.

(** A slice expression [b[lo:hi]]: it panics unless [0 <= lo <= hi <= len(b)]
    (the source never slices beyond the length). *)
Definition slice {A} (b : list A) (lo hi : Z) : res (list A) :=
  if (0 <=? lo) && (lo <=? hi) && (hi <=? len b)
  then Ok (take (Z.to_nat (hi - lo)) (drop (Z.to_nat lo) b))
  else Panic PSliceBounds.

Lemma slice_ok {A} (b : list A) lo hi :
  0 <= lo -> lo <= hi -> hi <= len b ->
  slice b lo hi = Ok (take (Z.to_nat (hi - lo)) (drop (Z.to_nat lo) b)).
Proof.
  intros. unfold slice.
  by rewrite !(proj2 (Z.leb_le _ _)) by lia.
Qed.

Lemma slice_tail {A} (buf : list A) n :
  0 <= n <= len buf -> slice buf n (len buf) = Ok (drop (Z.to_nat n) buf).
Proof.
  intros Hn. rewrite slice_ok by lia. f_equal.
  apply take_ge. unfold len in *. rewrite length_drop. lia.
Qed.

Lemma slice_app {A} (p b k : list A) :
  slice (p ++ b ++ k) (len p) (len p + len b) = Ok b.
Proof.
  rewrite slice_ok; [| unfold len; rewrite ?length_app; lia..].
  f_equal. unfold len.
  rewrite drop_app_exact by lia. rewrite take_app_exact; [done|lia].
Qed.

(** Dereferencing a pointer that may be nil. *)
Definition deref {A} (p : option A) : res A :=
  match p with Some a => Ok a | None => Panic PNilDeref end.

(** ** Formatting *)

(** [%02x] of a byte, and [%x] of a byte slice. *)
Definition hex_digit (n : Z) : ascii :=
  ascii_of_nat (Z.to_nat (if n <? 10 then 48 + n else 87 + n)).
Definition hex_byte (b : byte) : string :=
  String (hex_digit (byteZ b `div` 16)) (String (hex_digit (byteZ b `mod` 16)) "").
Definition hex_bytes (bs : list byte) : string :=
  fold_right (fun b s => hex_byte b +:+ s) "" bs.

(** ** Computations over a mutable state *)

(** [M S A]: code that reads and writes a state of type [S]; the state is
    kept also when the code fails or panics. *)
Definition M (S A : Type) : Type := S -> S * res A.

#[export] Instance M_ret {S} : MRet (M S) := fun A a s => (s, Ok a).
#[export] Instance M_bind {S} : MBind (M S) := fun A B f m s =>
  match m s with
  | (s', Ok a) => f a s'
  | (s', Err e) => (s', Err e)
  | (s', Panic p) => (s', Panic p)
  | (s', OutOfFuel) => (s', OutOfFuel)
  end.

Definition lift {S A} (r : res A) : M S A := fun s => (s, r).
Definition wrap_errM {S A} (fmt : string) (args : list arg) (m : M S A) : M S A :=
  fun s => let '(s', r) := m s in (s', wrap_err fmt args r).

(** [defer d()]: [d] runs however [m] ends; its own panic takes over. *)
Definition deferring {S B} (m : M S B) (d : M S unit) : M S B := fun st =>
  let '(st, r) := m st in
  match d st with (st, Panic p) => (st, Panic p) | (st, _) => (st, r) end.

(** ** Readers *)

(** An [io.Reader] in the middle of a stream: the bytes still to come, and the
    error every read returns after them ([io.EOF] at a clean end). *)
Record Reader := mkReader { unread : list byte; ends : error }.

Definition reader_of (b : list byte) : Reader := mkReader b io_EOF.

(** [bufio.Reader.ReadByte]. *)
Definition ReadByte : M Reader byte := fun r =>
  match unread r with
  | [] => (r, Err (ends r))
  | b :: bs => (mkReader bs (ends r), Ok b)
  end.

(** [io.ReadFull(r, buf)] with [n = len(buf)]: the error is the reader's own
    if no byte was read, and [io.ErrUnexpectedEOF] if an [io.EOF] follows some
    of the bytes. *)
Definition ReadFull (n : Z) : M Reader (list byte) := fun r =>
  if n <=? len (unread r)
  then (mkReader (drop (Z.to_nat n) (unread r)) (ends r),
        Ok (take (Z.to_nat n) (unread r)))
  else (mkReader [] (ends r),
        Err (if (0 <? len (unread r)) && bool_decide (ends r = io_EOF)
             then io_ErrUnexpectedEOF else ends r)).

Lemma ReadFull_app n b k e :
  n = len b -> ReadFull n (mkReader (b ++ k) e) = (mkReader k e, Ok b).
Proof.
  intros ->. unfold ReadFull. cbn [unread ends].
  rewrite (proj2 (Z.leb_le _ _)) by (rewrite len_app; pose proof (len_nonneg k); lia).
  unfold len. rewrite Nat2Z.id.
  by rewrite drop_app_length, take_app_length.
Qed.

Lemma ReadFull_short n r :
  len (unread r) < n ->
  exists e, ReadFull n r = (mkReader [] (ends r), Err e).
Proof.
  intros H. unfold ReadFull. rewrite (proj2 (Z.leb_gt _ _)) by lia. eauto.
Qed.

Lemma ReadFull_inv n r r' b :
  ReadFull n r = (r', Ok b) -> 0 <= n ->
  unread r = b ++ unread r' /\ len b = n /\ ends r' = ends r.
Proof.
  unfold ReadFull. destruct (Z.leb_spec n (len (unread r))); [|done].
  intros [= <- <-] Hn. cbn [unread ends]. rewrite take_drop. split; [done|].
  split; [|done]. rewrite len_take. lia.
Qed.

(** ** Writers *)

(** An [io.Writer]: the bytes it accepted, and, if it is going to fail, how
    many more it accepts and the error it then returns. *)
Record Writer := mkWriter { written : list byte; failing : option (nat * error) }.

Definition empty_writer : Writer := mkWriter [] None.

(** [w.Write(buf)]: the number of bytes accepted and the error. *)
Definition WriterWrite (buf : list byte) (w : Writer) : Writer * (Z * option error) :=
  match failing w with
  | None => (mkWriter (written w ++ buf) None, (len buf, None))
  | Some (k, e) =>
      if (length buf <=? k)%nat
      then (mkWriter (written w ++ buf) (Some ((k - length buf)%nat, e)), (len buf, None))
      else (mkWriter (written w ++ take k buf) (Some (0%nat, e)), (Z.of_nat k, Some e))
  end.

Lemma WriterWrite_ok buf w :
  failing w = None ->
  WriterWrite buf w = (mkWriter (written w ++ buf) None, (len buf, None)).
Proof. intros H. unfold WriterWrite. by rewrite H. Qed.

(** ** Time *)

(** A [time.Time] as nanoseconds since the Unix epoch, a [time.Duration] as an
    [int64] number of nanoseconds. *)
Abbreviation Time := Z (only parsing).
Abbreviation Duration := Z (only parsing).

Definition Millisecond : Duration := 1000000.
Definition Second : Duration := 1000 * Millisecond.
Definition Minute : Duration := 60 * Second.
Definition Hour : Duration := 60 * Minute.

Definition maxDuration : Duration := 2 ^ 63 - 1.
Definition minDuration : Duration := - 2 ^ 63.

(** [t.Sub(u)], which saturates; [time.Since(u)] is [now.Sub(u)]. *)
Definition time_Sub (t u : Time) : Duration :=
  Z.max minDuration (Z.min maxDuration (t - u)).

(** [-d] on an [int64] duration wraps at the least value. *)
Definition dur_neg (d : Duration) : Duration := wrapS 64 (- d).

(** [t.UnixMilli()] (floor of the milliseconds, as an [int64]) and
    [time.UnixMilli(ms)]. *)
Definition time_UnixMilli (t : Time) : Z := wrapS 64 (t `div` Millisecond).
Definition UnixMilli_time (ms : Z) : Time := ms * Millisecond.

Lemma time_Sub_gt t u d :
  minDuration <= d < maxDuration -> (d <? time_Sub t u) = (d <? t - u).
Proof.
  intros Hd. apply eq_bool_prop_intro. rewrite !Is_true_true, !Z.ltb_lt.
  unfold time_Sub, minDuration, maxDuration in *. lia.
Qed.

Lemma dur_neg_small d : - 2 ^ 63 < d < 2 ^ 63 -> dur_neg d = - d.
Proof.
  intros Hd. unfold dur_neg, wrapS, wrapU.
  destruct (Z.leb_spec d 0).
  - rewrite Z.mod_small by lia. by rewrite (proj2 (Z.ltb_lt _ _)) by lia.
  - rewrite <-(Z_mod_plus_full _ 1), Z.mod_small by lia.
    rewrite (proj2 (Z.ltb_ge _ _)) by lia. lia.
Qed.
