(* ===== verification/Fmt.v ===== *)
(** * Text

    The parts of [fmt], [encoding/hex], [time] and [strings] that the logger and
    the example programs use. *)

From Stdlib Require Import Ascii.
From stdpp Require Import pretty.
From S2P Require Import Prelude GoRt.

(** ** [fmt.Sprintf] with the verbs of the source

    [%d] and [%v] of an integer in decimal, [%x] and [%0Nx] in hexadecimal; [%s],
    [%v] and [%w] of a string or the text of an error, [%x] of bytes (passed as a
    string), [%q] of a string.  A verb without an argument is reported in the
    text, as Go does. *)
Fixpoint hex_int (fuel : nat) (z : Z) : string :=
  match fuel with
  | O => ""
  | S fuel => (if z <? 16 then "" else hex_int fuel (z / 16)) +:+ String (hex_digit (z mod 16)) ""
  end.
Definition pad (width : nat) (s : string) : string :=
  String.string_of_list_ascii (replicate (width - String.length s) "0"%char) +:+ s.

(** Bytes that are not printable ASCII are escaped; those of longer UTF-8
    sequences are taken to be printable. *)
Definition quote_char (c : ascii) : string :=
  let z := Z.of_N (N_of_ascii c) in
  if (z =? 34) || (z =? 92) then String "\" (String c "")
  else if z =? 7 then "\a" else if z =? 8 then "\b" else if z =? 9 then "\t" else if z =? 10 then "\n"
  else if z =? 11 then "\v" else if z =? 12 then "\f" else if z =? 13 then "\r"
  else if (z <? 32) || (z =? 127) then "\x" +:+ pad 2 (hex_int 2 z)
  else String c "".
Definition quote (s : string) : string :=
  let q := String (ascii_of_nat 34) "" in
  q +:+ fold_right (fun c s => quote_char c +:+ s) "" (String.list_ascii_of_string s) +:+ q.

Definition verb (v : ascii) (a : arg) : string :=
  match a with
  | AInt z => if bool_decide (v = "x"%char) then hex_int 16 z else pretty z
  | AStr s =>
      if bool_decide (v = "x"%char) then hex_bytes (bytes_of s)
      else if bool_decide (v = "q"%char) then quote s else s
  end.
Definition padded (width : ascii) (a : arg) : string :=
  match a with AInt z => pad (nat_of_ascii width - 48) (hex_int 16 z) | AStr s => s end.

Fixpoint Sprintf (fmt : string) (args : list arg) : string :=
  match fmt with
  | EmptyString => ""
  | String c rest =>
      if bool_decide (c = "%"%char) then
        match rest, args with
        | EmptyString, _ => "%!(NOVERB)"
        | String "%"%char fmt, _ => "%" +:+ Sprintf fmt args
        | String v fmt, [] => "%!" +:+ String v "(MISSING)" +:+ Sprintf fmt []
        | String "0"%char (String width (String "x"%char fmt)), a :: args => padded width a +:+ Sprintf fmt args
        | String v fmt, a :: args => verb v a +:+ Sprintf fmt args
        end
      else String c (Sprintf rest args)
  end.

Example Sprintf_example :
  Sprintf "[%04x] %s: %d%%, key %x" [AInt 42; AStr "done"; AInt 100; AStr "AB"] = "[002a] done: 100%, key 4142".
Proof. reflexivity. Qed.

(** [err.Error()]: the wrapped error is the last argument. *)
Fixpoint error_text (e : error) : string :=
  match e with
  | io_EOF => "EOF"
  | io_ErrUnexpectedEOF => "unexpected EOF"
  | errOverflow => "binary: varint overflows a 64-bit integer"
  | Errorf fmt args => Sprintf fmt args
  | Wrapf fmt args wrapped => Sprintf fmt (args ++ [AStr (error_text wrapped)])
  | ExtErr msg => msg
  end.

(** The newline character. *)
Definition nl : string := String (ascii_of_nat 10) "".

(** ** [hex.DecodeString] *)

Definition fromHexChar (c : ascii) : option Z :=
  let z := Z.of_N (N_of_ascii c) in
  if (48 <=? z) && (z <=? 57) then Some (z - 48)
  else if (97 <=? z) && (z <=? 102) then Some (z - 87)
  else if (65 <=? z) && (z <=? 70) then Some (z - 55)
  else None.

Definition err_hex (msg : string) : error := ExtErr ("encoding/hex: " +:+ msg).
(** The first character that is not a digit is reported before an odd length. *)
Fixpoint hex_DecodeString (s : string) : res (list byte) :=
  match s with
  | EmptyString => Ok []
  | String h EmptyString =>
      match fromHexChar h with Some _ => Err (err_hex "odd length hex string") | None => Err (err_hex "invalid byte") end
  | String h (String l s) =>
      match fromHexChar h, fromHexChar l with
      | Some x, Some y => bs ← hex_DecodeString s; Ok (Zbyte (16 * x + y) :: bs)
      | _, _ => Err (err_hex "invalid byte")
      end
  end.

(** ** [time.Now().Format("15:04:05")]; [zone] is the offset of local time *)

Definition two_digits (n : Z) : string := (if n <? 10 then "0" else "") +:+ pretty n.
Definition time_of_day (zone : Z) (now : Time) : string :=
  let s := (now / Second + zone) mod 86400 in
  two_digits (s / 3600) +:+ ":" +:+ two_digits (s / 60 mod 60) +:+ ":" +:+ two_digits (s mod 60).

Example time_of_day_example : time_of_day 3600 (45296 * Second) = "13:34:56".
Proof. reflexivity. Qed.

(** ** [strings.TrimSpace] *)

(** The UTF-8 encodings of the runes for which [unicode.IsSpace]. *)
Definition spaces : list (list Z) :=
  [[32]; [9]; [10]; [11]; [12]; [13]; [194; 133]; [194; 160]; [225; 154; 128]] ++
  ((fun b => [226; 128; b]) <$> [128; 129; 130; 131; 132; 133; 134; 135; 136; 137; 138; 168; 169; 175]) ++
  [[226; 129; 159]; [227; 128; 128]].

(** [s] without [prefix] at its start, if it has it. *)
Fixpoint strip (prefix : list Z) (s : list byte) : option (list byte) :=
  match prefix, s with
  | [], _ => Some s
  | z :: prefix, b :: s => if byteZ b =? z then strip prefix s else None
  | _, [] => None
  end.
(** Without the leading spaces; each is a byte at least. *)
Fixpoint trim_left (sp : list (list Z)) (fuel : nat) (s : list byte) : list byte :=
  match fuel, list_find is_Some ((fun p => strip p s) <$> sp) with
  | S fuel, Some (_, Some s) => trim_left sp fuel s
  | _, _ => s
  end.
Definition TrimSpace (s : string) : string :=
  let s := trim_left spaces (String.length s) (bytes_of s) in
  string_of (rev (trim_left (reverse <$> spaces) (length s) (rev s))).

Example TrimSpace_example : TrimSpace "  hello world	" = "hello world".
Proof. vm_compute. reflexivity. Qed.

(** ** Facts *)

Lemma hex_digit_value n : 0 <= n < 16 -> fromHexChar (hex_digit n) = Some n.
Proof.
  intros H. assert (forall k, (k < 16)%nat -> fromHexChar (hex_digit (Z.of_nat k)) = Some (Z.of_nat k)) as Hk
    by (intros k Hk; do 16 (destruct k as [|k]; [reflexivity|]); lia).
  rewrite <-(Z2Nat.id n) by lia. apply Hk. lia.
Qed.

(** A secret survives being printed with [%x] and read back. *)
Lemma hex_DecodeString_hex_bytes bs : hex_DecodeString (hex_bytes bs) = Ok bs.
Proof.
  induction bs as [|b bs IH]; [done|]. pose proof (byteZ_range b).
  change (hex_bytes (b :: bs)) with
    (String (hex_digit (byteZ b `div` 16)) (String (hex_digit (byteZ b `mod` 16)) (hex_bytes bs))).
  cbn [hex_DecodeString]. rewrite !hex_digit_value by (split; [apply Z.div_pos || apply Z.mod_pos_bound; lia|
    apply Z.div_lt_upper_bound || apply Z.mod_pos_bound; lia]).
  rewrite IH. cbn [mbind res_bind]. by rewrite <-Z_div_mod_eq_full, Zbyte_byteZ.
Qed.

(** The level in front of a line. *)
Lemma Sprintf_level level fmt args :
  Sprintf ("[%s] " +:+ fmt) (AStr level :: args) = "[" +:+ level +:+ "] " +:+ Sprintf fmt args.
Proof. reflexivity. Qed.
