(* ===== verification/Transport.v ===== *)
(** * Dialing and listening

    [src/transport/dial.go] and [src/transport/tcp.go].  Sockets, QUIC and TLS
    are parameters: functions from what they are given to a connection, a
    listener or an error. *)

From S2P Require Import Prelude GoRt.

(** The parts of a [tls.Config] the source sets or looks at; a certificate with
    its key is what [tls.LoadX509KeyPair] makes of two files. *)
Definition Certificate : Type := list byte.
Record TLSConfig := mkTLSConfig {
  NextProtos : list string;
  ServerName : string;
  InsecureSkipVerify : bool;
  Certificates : list Certificate
}.
Definition empty_tls : TLSConfig := mkTLSConfig [] "" false [].
Definition set_protos (protos : list string) (cfg : TLSConfig) : TLSConfig :=
  mkTLSConfig protos (ServerName cfg) (InsecureSkipVerify cfg) (Certificates cfg).

Definition ALPN : string := "hush/1".
(** [DefaultALPN] is a variable of the package: this is its first value. *)
Definition initial_DefaultALPN : string := "hush/1".

(** [tlsConf.Clone()], then the default protocol if there is none. *)
Definition default_protos (DefaultALPN : string) (cfg : TLSConfig) : TLSConfig :=
  match NextProtos cfg with [] => set_protos [DefaultALPN] cfg | _ => cfg end.

Section transport.
Context (DefaultALPN : string).
Context {PacketConn Listener RawConn Conn : Type}.
Context (quic_DialAddr : string -> TLSConfig -> res Conn).
Context (net_ResolveUDPAddr : string -> res string) (net_ListenUDP : string -> res PacketConn).
Context (quic_Listen : PacketConn -> TLSConfig -> res Listener).
Context (net_Dial : string -> res RawConn) (tls_Handshake : RawConn -> TLSConfig -> res Conn).
Context (tls_Listen : string -> TLSConfig -> res Listener).

Definition transport_Dial (addr : string) (tlsConf : option TLSConfig) : res Conn :=
  let tlsConf := default empty_tls tlsConf in
  wrap_err "transport: dial %s: %w" [AStr addr] (quic_DialAddr addr (default_protos DefaultALPN tlsConf)).

(** [tlsConf.Clone()] of nil is nil; the length of its [NextProtos] is not. *)
Definition transport_Listen (addr : string) (tlsConf : option TLSConfig) : res Listener :=
  udpAddr ← wrap_err "transport: resolve %s: %w" [AStr addr] (net_ResolveUDPAddr addr);
  udpConn ← wrap_err "transport: listen udp %s: %w" [AStr addr] (net_ListenUDP udpAddr);
  tlsConf ← deref tlsConf;
  wrap_err "transport: listen quic: %w" [] (quic_Listen udpConn (default_protos DefaultALPN tlsConf)).

(** A raw connection whose TLS handshake fails is closed. *)
Definition transport_DialTCP (addr : string) (tlsConf : option TLSConfig) : M (list RawConn) Conn := fun closed =>
  let tlsConf := default_protos DefaultALPN (default empty_tls tlsConf) in
  match wrap_err "transport: dial tcp %s: %w" [AStr addr] (net_Dial addr) with
  | Ok raw =>
      match wrap_err "transport: tls handshake %s: %w" [AStr addr] (tls_Handshake raw tlsConf) with
      | Err err => (raw :: closed, Err err)
      | r => (closed, r)
      end
  | Err err => (closed, Err err) | Panic p => (closed, Panic p) | OutOfFuel => (closed, OutOfFuel)
  end.

Definition transport_ListenTCP (addr : string) (tlsConf : option TLSConfig) : res Listener :=
  match tlsConf with
  | None => Err (Errorf "transport: tls config required for TCP listen" [])
  | Some tlsConf =>
      wrap_err "transport: listen tcp %s: %w" [AStr addr] (tls_Listen addr (default_protos DefaultALPN tlsConf))
  end.
End transport.
