(* ===== verification/Address.v ===== *)
(** * The client's address

    [resolveHushAddr] of [src/client/client.go], with the parts of [net/url]
    it runs through: [url.Parse] on a URL whose scheme is known, and
    [URL.Port].  Only the host of the result is kept.  What [url.Parse] makes
    of a host in brackets, an IPv6 literal, is a parameter. *)

From Stdlib Require Import Ascii.
From S2P Require Import Prelude GoRt.

Abbreviation chars := (list ascii).
Definition chars_of (s : string) : chars := String.list_ascii_of_string s.
Definition string_of_chars (l : chars) : string := String.string_of_list_ascii l.
Definition code (c : ascii) : Z := Z.of_N (N_of_ascii c).

Definition is_digit (c : ascii) : bool := (48 <=? code c) && (code c <=? 57).
Definition is_alnum (c : ascii) : bool :=
  is_digit c || (97 <=? code c) && (code c <=? 122) || (65 <=? code c) && (code c <=? 90).
Definition one_of (s : string) (c : ascii) : bool := bool_decide (c ∈ chars_of s).
Definition unhex (c : ascii) : option Z :=
  if is_digit c then Some (code c - 48)
  else if (97 <=? code c) && (code c <=? 102) then Some (code c - 87)
  else if (65 <=? code c) && (code c <=? 70) then Some (code c - 55)
  else None.

(** [strings.Cut(s, c)]: what is before the first [c], and after it. *)
Fixpoint cut_char (c : ascii) (s : chars) : chars * option chars :=
  match s with
  | [] => ([], None)
  | x :: s => if bool_decide (x = c) then ([], Some s) else let '(a, b) := cut_char c s in (x :: a, b)
  end.
(** The same at the last one. *)
Definition cut_last (c : ascii) (s : chars) : option (chars * chars) :=
  match cut_char c (rev s) with
  | (a, Some b) => Some (rev b, rev a)
  | (_, None) => None
  end.

(** ** [net/url] *)

(** [validOptionalPort]: nothing, or a colon and digits. *)
Definition validOptionalPort (p : chars) : bool :=
  match p with
  | [] => true
  | c :: p => bool_decide (c = ":"%char) && forallb is_digit p
  end.

(** [shouldEscape] for a host. *)
Definition host_char (c : ascii) : bool := is_alnum c || one_of "!$&'()*+,;=:[]<>-_.~" c || (code c =? 34).

(** [unescape]: in a host, only "%25" and bytes of 128 and more are escaped,
    and every other byte below 128 has to be a host's. *)
Fixpoint unescape (host : bool) (s : chars) : option chars :=
  match s with
  | [] => Some []
  | c :: s =>
      if bool_decide (c = "%"%char) then
        match s with
        | h :: l :: s =>
            match unhex h, unhex l with
            | Some x, Some y =>
                if host && (x <? 8) && negb ((x =? 2) && (y =? 5)) then None else
                cons (ascii_of_N (Z.to_N (16 * x + y))) <$> unescape host s
            | _, _ => None
            end
        | _ => None
        end
      else if host && (code c <? 128) && negb (host_char c) then None else cons c <$> unescape host s
  end.

(** Each rune of the user information; those above 127 are refused, as are
    their bytes here. *)
Definition validUserinfo (s : chars) : bool :=
  forallb (fun c => is_alnum c || one_of "-._:~!$&'()*+,;=%@" c) s.

Section url.
Context (ip_literal : chars -> option chars).

(** [parseHost]: a colon in a host name starts the port. *)
Definition parseHost (host : chars) : option chars :=
  match host with
  | c :: _ =>
      if bool_decide (c = "["%char) then ip_literal host else
      match cut_char ":"%char host with
      | (_, Some port) => if validOptionalPort (":"%char :: port) then unescape true host else None
      | (_, None) => unescape true host
      end
  | [] => Some []
  end.

Definition parseAuthority (authority : chars) : option chars :=
  match cut_last "@"%char authority with
  | None => parseHost authority
  | Some (userinfo, host) =>
      host ← parseHost host;
      if negb (validUserinfo userinfo) then None else
      let '(username, password) := cut_char ":"%char userinfo in
      _ ← unescape false username;
      _ ← unescape false (default [] password);
      Some host
  end.

(** [url.Parse] of [scheme ++ "//" ++ rest], for a scheme of letters and a
    colon: the host, if the URL is valid.  The fragment is cut off first, then
    the query, and the path ends the authority. *)
Definition url_Host (rest : chars) : option chars :=
  let '(u, fragment) := cut_char "#"%char rest in
  if existsb (fun c => (code c <? 32) || (code c =? 127)) u then None else
  let '(u, _) := cut_char "?"%char u in
  let '(authority, path) := cut_char "/"%char u in
  host ← parseAuthority authority;
  _ ← unescape false (default [] path);
  _ ← unescape false (default [] fragment);
  Some host.

(** [u.Port()]: what follows the last colon of the host, if it is a port. *)
Definition url_Port (host : chars) : chars :=
  match cut_last ":"%char host with
  | Some (_, port) => if validOptionalPort (":"%char :: port) then port else []
  | None => []
  end.

(** ** The address *)

Definition resolve_rest (addr : string) (rest : chars) : string :=
  match url_Host rest with
  | Some host =>
      string_of_chars (match url_Port host with [] => host ++ chars_of ":443" | _ => host end)
  | None => addr
  end.

Definition resolveHushAddr (addr : string) : string :=
  if String.prefix "hush://" addr || String.prefix "tcps://" addr
  then resolve_rest addr (drop 7 (chars_of addr))
  else addr.

(** ** Theorems *)

Lemma cut_char_none c s : c ∉ s -> cut_char c s = (s, None).
Proof.
  induction s as [|x s IH]; [done|]. intros H. cbn [cut_char]. rewrite bool_decide_false by set_solver.
  by rewrite IH by set_solver.
Qed.
Lemma cut_char_app c a b : c ∉ a -> cut_char c (a ++ c :: b) = (a, Some b).
Proof.
  induction a as [|x a IH]; intros H; cbn [cut_char app]; [by rewrite bool_decide_true|].
  rewrite bool_decide_false by set_solver. by rewrite IH by set_solver.
Qed.
Lemma elem_of_rev (c : ascii) s : c ∈ rev s <-> c ∈ s.
Proof. by rewrite !list_elem_of_In, <-in_rev. Qed.
Lemma cut_last_app c a b : c ∉ b -> cut_last c (a ++ c :: b) = Some (a, b).
Proof.
  intros H. unfold cut_last. rewrite rev_app_distr. cbn [rev]. rewrite <-app_assoc. cbn [app].
  rewrite cut_char_app by (by rewrite elem_of_rev). by rewrite !rev_involutive.
Qed.
Lemma cut_last_none c s : c ∉ s -> cut_last c s = None.
Proof. intros H. unfold cut_last. by rewrite cut_char_none by (by rewrite elem_of_rev). Qed.

(** The characters of a host name: letters, digits, and "-._~"; and those of a
    path without escapes. *)
Definition name_char (c : ascii) : bool := is_alnum c || one_of "-._~" c.
Definition path_char (c : ascii) : bool := name_char c || one_of "/:@!$&'()*+,;=" c.

Lemma name_char_spec c : name_char c = true ->
  host_char c && (code c <? 128) && negb (one_of ":/?#@[%" c) && path_char c = true.
Proof. destruct c as [[] [] [] [] [] [] [] []]; vm_compute; done. Qed.
Lemma path_char_spec c : path_char c = true -> negb ((code c <? 32) || (code c =? 127)) && negb (one_of "?#%" c) = true.
Proof. destruct c as [[] [] [] [] [] [] [] []]; vm_compute; done. Qed.
Lemma digit_name c : is_digit c = true -> name_char c = true.
Proof. unfold name_char, is_alnum. by intros ->. Qed.

Lemma not_among (P : ascii -> bool) c chars s :
  (forall x, P x = true -> one_of chars x = false) -> one_of chars c = true -> forallb P s = true -> c ∉ s.
Proof.
  intros HP Hc Hs Hin. rewrite forallb_forall in Hs. rewrite list_elem_of_In in Hin.
  rewrite (HP c (Hs c Hin)) in Hc. done.
Qed.
Lemma name_not c s : one_of ":/?#@[%" c = true -> forallb name_char s = true -> c ∉ s.
Proof.
  apply not_among. intros x Hx%name_char_spec. by destruct (one_of _ x); [rewrite andb_false_r in Hx|].
Qed.
Lemma path_not c s : one_of "?#%" c = true -> forallb path_char s = true -> c ∉ s.
Proof.
  apply not_among. intros x Hx%path_char_spec. by destruct (one_of _ x); [rewrite andb_false_r in Hx|].
Qed.
Lemma name_path s : forallb name_char s = true -> forallb path_char s = true.
Proof.
  rewrite !forallb_forall. intros H c Hc. by destruct (andb_prop _ _ (name_char_spec c (H c Hc))).
Qed.

Lemma unescape_plain host s :
  (forall c, c ∈ s -> c <> "%"%char /\ (host = true -> host_char c = true)) -> unescape host s = Some s.
Proof.
  induction s as [|c s IH]; intros H; [done|]. destruct (H c) as [Hne Hh]; [by left|]. cbn [unescape].
  rewrite bool_decide_false by done. rewrite IH by (intros x Hx; apply H; by right).
  destruct host; cbn [andb]; [|done]. rewrite Hh by done. by rewrite andb_false_r.
Qed.

Lemma name_plain host s : forallb name_char s = true -> unescape host s = Some s.
Proof.
  intros Hs. apply unescape_plain. intros c Hc. split; [|intros _].
  - intros ->. by apply (name_not "%"%char s).
  - rewrite forallb_forall in Hs. rewrite list_elem_of_In in Hc. pose proof (name_char_spec c (Hs c Hc)) as H.
    by destruct (host_char c).
Qed.
Lemma path_plain s : forallb path_char s = true -> unescape false s = Some s.
Proof.
  intros Hs. apply unescape_plain. intros c Hc. split; [|done]. intros ->. by apply (path_not "%"%char s).
Qed.
Lemma digits_name p : forallb is_digit p = true -> forallb name_char p = true.
Proof. rewrite !forallb_forall. intros H c Hc. by apply digit_name, H. Qed.

(** A port, or none; [None] for a host without a colon. *)
Definition with_port (h : chars) (p : option chars) : chars :=
  match p with None => h | Some p => h ++ ":"%char :: p end.
Definition port_ok (p : option chars) : Prop := forallb is_digit (default [] p) = true.

Lemma with_port_not c h p : one_of "/?#@[%" c = true -> forallb name_char h = true -> port_ok p -> c ∉ with_port h p.
Proof.
  intros Hc Hh Hp. assert (one_of ":/?#@[%" c = true) as Hc'.
  { unfold one_of in *. rewrite bool_decide_eq_true in *. change (c ∈ ":"%char :: chars_of "/?#@[%"). by right. }
  pose proof (name_not c h Hc' Hh). destruct p as [p|]; [|done]. pose proof (name_not c p Hc' (digits_name p Hp)).
  assert (c <> ":"%char) by (by intros ->). unfold with_port. set_solver.
Qed.

Lemma parseHost_name h p : forallb name_char h = true -> port_ok p -> parseHost (with_port h p) = Some (with_port h p).
Proof.
  intros Hh Hp. assert (unescape true (with_port h p) = Some (with_port h p)) as Hu.
  { destruct p as [p|]; [|by apply name_plain]. apply unescape_plain. intros c Hc.
    assert (c <> "%"%char) as Hne by (intros ->; by apply (with_port_not "%"%char h (Some p))). split; [done|]. intros _.
    unfold with_port in Hc. apply elem_of_app in Hc as [Hc|[->|Hc]%elem_of_cons]; [|done|].
    - rewrite forallb_forall in Hh. rewrite list_elem_of_In in Hc. pose proof (name_char_spec c (Hh c Hc)) as H.
      by destruct (host_char c).
    - pose proof (digits_name p Hp) as Hn. rewrite forallb_forall in Hn. rewrite list_elem_of_In in Hc.
      pose proof (name_char_spec c (Hn c Hc)) as H. by destruct (host_char c). }
  unfold parseHost. destruct (with_port h p) as [|c host] eqn:E; [done|].
  rewrite bool_decide_false by (intros ->; apply (with_port_not "["%char h p); [done..|rewrite E; by left]).
  rewrite <-E in *. destruct p as [p|]; cbn [with_port] in *.
  - rewrite cut_char_app by (by apply name_not). cbn [validOptionalPort]. by rewrite bool_decide_true, Hp.
  - rewrite cut_char_none by (by apply name_not). done.
Qed.

Lemma with_port_path h p : forallb name_char h = true -> port_ok p -> forallb path_char (with_port h p) = true.
Proof.
  intros Hh Hp. destruct p as [p|]; [|by apply name_path]. unfold with_port. rewrite forallb_app, name_path by done.
  cbn [forallb]. by rewrite (name_path p (digits_name p Hp)).
Qed.

Lemma url_Host_name h p path :
  forallb name_char h = true -> port_ok p -> forallb path_char path = true -> (path = [] \/ exists q, path = "/"%char :: q) ->
  url_Host (with_port h p ++ path) = Some (with_port h p).
Proof.
  intros Hh Hp Hpath Hslash. unfold url_Host.
  assert (forallb path_char (with_port h p ++ path) = true) as Hall by (by rewrite forallb_app, with_port_path).
  rewrite cut_char_none by (by apply path_not).
  assert (existsb (fun c => (code c <? 32) || (code c =? 127)) (with_port h p ++ path) = false) as ->.
  { apply not_true_is_false. rewrite existsb_exists. intros (c & Hc & Hbad). rewrite forallb_forall in Hall.
    pose proof (path_char_spec c (Hall c Hc)) as H. by rewrite Hbad in H. }
  rewrite (cut_char_none "?"%char) by (by apply path_not).
  assert (cut_char "/"%char (with_port h p ++ path)
    = (with_port h p, match path with [] => None | _ :: q => Some q end)) as ->.
  { destruct Hslash as [->|[q ->]]; [rewrite app_nil_r; apply cut_char_none|apply cut_char_app]; by apply with_port_not. }
  unfold parseAuthority. rewrite cut_last_none by (by apply with_port_not). rewrite parseHost_name by done. cbn [mbind option_bind].
  destruct Hslash as [->|[q ->]]; [done|]. cbn [from_option id].
  rewrite (path_plain q); [done|]. cbn [forallb] in Hpath. by destruct (path_char "/"%char).
Qed.

Lemma url_Port_name h p : forallb name_char h = true -> port_ok p -> url_Port (with_port h p) = default [] p.
Proof.
  intros Hh Hp. unfold url_Port. destruct p as [p|]; cbn [with_port from_option id].
  - rewrite cut_last_app by (apply name_not; [done|by apply digits_name]). cbn [validOptionalPort].
    by rewrite bool_decide_true, Hp.
  - by rewrite cut_last_none by (by apply name_not).
Qed.

Lemma chars_app a b : chars_of (a +:+ b) = chars_of a ++ chars_of b.
Proof.
  induction a as [|c a IH]; [done|]. change (chars_of (String c a +:+ b)) with (c :: chars_of (a +:+ b)). by rewrite IH.
Qed.
Lemma chars_string a : string_of_chars (chars_of a) = a.
Proof. apply String.string_of_list_ascii_of_string. Qed.
Lemma string_chars l : chars_of (string_of_chars l) = l.
Proof. apply String.list_ascii_of_string_of_list_ascii. Qed.

Lemma string_app_assoc (a b c : string) : (a +:+ b) +:+ c = a +:+ b +:+ c.
Proof. induction a as [|x a IH]; [done|]. change (String x ((a +:+ b) +:+ c) = String x (a +:+ b +:+ c)). by rewrite IH. Qed.
Lemma string_app_nil (a : string) : a +:+ "" = a.
Proof. induction a as [|x a IH]; [done|]. change (String x (a +:+ "") = String x a). by rewrite IH. Qed.

Lemma prefix_app (a b : string) : String.prefix a (a +:+ b) = true.
Proof.
  induction a as [|x a IH]; [by destruct b|]. change (String x a +:+ b) with (String x (a +:+ b)). cbn [String.prefix].
  by destruct (ascii_dec x x).
Qed.

Lemma resolve_scheme scheme h p path :
  scheme = "hush://" \/ scheme = "tcps://" ->
  forallb name_char (chars_of h) = true -> port_ok (chars_of <$> p) ->
  forallb path_char (chars_of path) = true -> (path = "" \/ exists q, path = "/" +:+ q) ->
  resolveHushAddr (scheme +:+ (h +:+ default "" (String.append ":" <$> p)) +:+ path)
  = match default "" p with "" => (h +:+ default "" (String.append ":" <$> p)) +:+ ":443" | p => h +:+ ":" +:+ p end.
Proof.
  intros Hs Hh Hp Hpath Hslash. set (host := h +:+ _).
  assert (chars_of host = with_port (chars_of h) (chars_of <$> p)) as Hhost.
  { unfold host. destruct p as [p|]; cbn [from_option id fmap option_fmap option_map with_port]; rewrite chars_app; [done|].
    by rewrite app_nil_r. }
  assert (resolveHushAddr (scheme +:+ host +:+ path)
    = resolve_rest (scheme +:+ host +:+ path) (chars_of (host +:+ path))) as ->.
  { unfold resolveHushAddr. rewrite (chars_app scheme). destruct Hs as [->| ->]; rewrite prefix_app, ?orb_true_r; reflexivity. }
  unfold resolve_rest. rewrite chars_app, Hhost, url_Host_name, url_Port_name; try done.
  2: { destruct Hslash as [->|[q ->]]; [by left|right; by exists (chars_of q)]. }
  rewrite <-Hhost. destruct p as [[|c p]|]; cbn [from_option id fmap option_fmap option_map chars_of].
  - change (chars_of "") with (@nil ascii). by rewrite <-chars_app, chars_string.
  - change (chars_of (String c p)) with (c :: chars_of p). cbn [from_option id]. apply chars_string.
  - by rewrite <-chars_app, chars_string.
Qed.

(** C35. What the client dials.  An address without one of the two schemes is left
    alone.  With a scheme, a host name without a port gets the port 443, one
    with a port keeps it, and a path is dropped; but a host name with a colon
    and no port gets a second colon. *)
Theorem resolveHushAddr_spec scheme h p path :
  scheme = "hush://" \/ scheme = "tcps://" ->
  forallb name_char (chars_of h) = true -> forallb is_digit (chars_of p) = true ->
  forallb path_char (chars_of path) = true -> (path = "" \/ exists q, path = "/" +:+ q) ->
  resolveHushAddr (scheme +:+ h +:+ path) = h +:+ ":443" /\
  (p <> "" -> resolveHushAddr (scheme +:+ h +:+ ":" +:+ p +:+ path) = h +:+ ":" +:+ p) /\
  resolveHushAddr (scheme +:+ h +:+ ":" +:+ path) = h +:+ "::443" /\
  (forall addr, String.prefix "hush://" addr = false -> String.prefix "tcps://" addr = false ->
     resolveHushAddr addr = addr).
Proof.
  intros Hs Hh Hp Hpath Hslash. split_and!.
  - pose proof (resolve_scheme scheme h None path Hs Hh eq_refl Hpath Hslash) as H. cbn in H.
    by rewrite !string_app_nil in H.
  - intros Hne. pose proof (resolve_scheme scheme h (Some p) path Hs Hh Hp Hpath Hslash) as H. cbn in H.
    rewrite !string_app_assoc in H. destruct p; [done|]. exact H.
  - pose proof (resolve_scheme scheme h (Some ""%string) path Hs Hh eq_refl Hpath Hslash) as H. cbn in H.
    rewrite !string_app_assoc in H. exact H.
  - intros addr H1 H2. unfold resolveHushAddr. by rewrite H1, H2.
Qed.
End url.

Lemma resolveHushAddr_spec_witness :
  resolveHushAddr (fun _ => None) "hush://api.example.com/v1" = "api.example.com:443" /\
  resolveHushAddr (fun _ => None) "tcps://api.example.com:8443/v1" = "api.example.com:8443" /\
  resolveHushAddr (fun _ => None) "hush://api.example.com:/v1" = "api.example.com::443" /\
  resolveHushAddr (fun _ => None) "localhost:4433" = "localhost:4433".
Proof.
  destruct (resolveHushAddr_spec (fun _ => None) "hush://" "api.example.com" "8443" "/v1"
    (or_introl eq_refl) eq_refl eq_refl eq_refl (or_intror (ex_intro _ "v1"%string eq_refl))) as (H1 & _ & H3 & H4).
  destruct (resolveHushAddr_spec (fun _ => None) "tcps://" "api.example.com" "8443" "/v1"
    (or_intror eq_refl) eq_refl eq_refl eq_refl (or_intror (ex_intro _ "v1"%string eq_refl))) as (_ & H2 & _).
  split_and!; [exact H1|by apply H2|exact H3|by apply H4].
Defined.
