(* ===== verification/Varint.v ===== *)
(** * Unsigned LEB128 varints, as [encoding/binary] implements them

    [PutUvarint], [Uvarint] (from a slice) and [ReadUvarint] (from a byte
    reader) are the Go standard library functions the TLV codec is built on.
    The lemmas give their round trip, the bounds on the bytes consumed, and
    that [PutUvarint] writes the shortest encoding. *)

From S2P Require Import Prelude GoRt.

Definition MaxVarintLen64 : Z := 10.

(** [binary.PutUvarint] writes while [x >= 0x80]; a [uint64] needs at most ten
    bytes, the fuel. *)
Fixpoint put_uvarint (fuel : nat) (x : Z) : list byte :=
  match fuel with
  | O => []
  | S f =>
      if x <? 128 then [Zbyte x]
      else Zbyte (Z.lor (x `mod` 256) 128) :: put_uvarint f (Z.shiftr x 7)
  end.

Definition PutUvarint (x : Z) : list byte := put_uvarint 10 x.

(** [binary.Uvarint(buf)]: the value and the number of bytes read, [(0, 0)] if
    the buffer is too small, [(0, -(i+1))] if the value overflows 64 bits. *)
Fixpoint uvarint_loop (buf : list byte) (i x s : Z) : Z * Z :=
  match buf with
  | [] => (0, 0)
  | b :: rest =>
      if i =? MaxVarintLen64 then (0, - (i + 1))
      else if byteZ b <? 128 then
        if (i =? MaxVarintLen64 - 1) && (1 <? byteZ b) then (0, - (i + 1))
        else (Z.lor x (wrapU 64 (Z.shiftl (byteZ b) s)), i + 1)
      else uvarint_loop rest (i + 1)
             (Z.lor x (wrapU 64 (Z.shiftl (Z.land (byteZ b) 127) s))) (s + 7)
  end.

Definition Uvarint (buf : list byte) : Z * Z := uvarint_loop buf 0 0 0.

(** [binary.ReadUvarint(r)] returns a value together with the error. *)
Fixpoint read_uvarint_loop (fuel : nat) (i x s : Z) (r : Reader)
  : Reader * (Z * option error) :=
  match fuel with
  | O => (r, (x, Some errOverflow))
  | S f =>
      match ReadByte r with
      | (r', Ok b) =>
          if byteZ b <? 128 then
            if (i =? MaxVarintLen64 - 1) && (1 <? byteZ b)
            then (r', (x, Some errOverflow))
            else (r', (Z.lor x (wrapU 64 (Z.shiftl (byteZ b) s)), None))
          else read_uvarint_loop f (i + 1)
                 (Z.lor x (wrapU 64 (Z.shiftl (Z.land (byteZ b) 127) s)))
                 (s + 7) r'
      | (r', _) =>
          (r', (x, Some (if (0 <? i) && bool_decide (ends r = io_EOF)
                         then io_ErrUnexpectedEOF else ends r)))
      end
  end.

Definition ReadUvarint : Reader -> Reader * (Z * option error) :=
  read_uvarint_loop 10 0 0 0.

#[global] Arguments PutUvarint : simpl never.
#[global] Arguments Uvarint : simpl never.
#[global] Arguments ReadUvarint : simpl never.

(** ** Bit arithmetic *)

Lemma lor_shiftl_add x b s :
  0 <= s -> 0 <= x < 2 ^ s -> Z.lor x (Z.shiftl b s) = x + b * 2 ^ s.
Proof.
  intros Hs Hx. rewrite <-Z.shiftl_mul_pow2 by lia.
  symmetry. apply Z.add_nocarry_lor, Z.bits_inj'. intros n Hn.
  rewrite Z.land_spec, Z.bits_0, Z.shiftl_spec by lia.
  destruct (Z.ltb_spec n s).
  - by rewrite (Z.testbit_neg_r b) by lia; rewrite andb_false_r.
  - rewrite <-(Z.mod_small x (2 ^ s)) by lia.
    by rewrite Z.mod_pow2_bits_high by lia.
Qed.

Lemma land_127 z : Z.land z 127 = z `mod` 128.
Proof. change 127 with (Z.ones 7). by rewrite Z.land_ones by lia. Qed.

Lemma lor_128 z : 0 <= z < 256 -> Z.lor z 128 = z `mod` 128 + 128.
Proof.
  intros Hz. rewrite (Z.div_mod z 128) at 1 by lia.
  assert (z `div` 128 = 0 \/ z `div` 128 = 1) as [-> | ->] by zlia.
  - rewrite Z.add_0_l. apply (lor_shiftl_add _ 1 7); [lia|].
    by apply Z.mod_pos_bound.
  - assert (0 <= z `mod` 128 < 128) by zlia.
    replace (128 * 1 + z `mod` 128) with (Z.lor (z `mod` 128) 128).
    + rewrite <-Z.lor_assoc. apply (lor_shiftl_add _ 1 7); lia.
    + rewrite (lor_shiftl_add _ 1 7) by lia. lia.
Qed.

(** One step of the accumulation of a varint. *)
Lemma accumulate x c s :
  0 <= s -> s <= 64 -> 0 <= x < 2 ^ s -> 0 <= c < 2 ^ (64 - s) ->
  Z.lor x (wrapU 64 (Z.shiftl c s)) = x + c * 2 ^ s.
Proof.
  intros Hs Hs' Hx Hc.
  assert (0 <= c * 2 ^ s < 2 ^ 64).
  { replace (2 ^ 64) with (2 ^ (64 - s) * 2 ^ s)
      by (rewrite <-Z.pow_add_r by lia; f_equal; lia). nia. }
  rewrite wrapU_small by (rewrite Z.shiftl_mul_pow2; lia).
  by apply lor_shiftl_add.
Qed.

Lemma shiftr_7 x : Z.shiftr x 7 = x `div` 128.
Proof. by rewrite Z.shiftr_div_pow2. Qed.

(** The continuation byte [PutUvarint] writes for [x >= 0x80]. *)
Lemma byteZ_cont x :
  byteZ (Zbyte (Z.lor (x `mod` 256) 128)) = x `mod` 128 + 128.
Proof.
  rewrite byteZ_Zbyte, lor_128 by zlia. zlia.
Qed.

(** The running bounds of the accumulation: [2^(64-7i)] for the part of the
    value not read yet. *)
Lemma pow_rest i : 0 <= i <= 8 -> 2 ^ (64 - 7 * i) = 128 * 2 ^ (64 - 7 * (i + 1)).
Proof. 
  intros. replace (64 - 7 * i) with (7 + (64 - 7 * (i + 1))) by lia.
  by rewrite Z.pow_add_r by lia.
Qed.

Lemma pow_read i : 0 <= i -> 2 ^ (7 * (i + 1)) = 128 * 2 ^ (7 * i).
Proof. intros. replace (7 * (i + 1)) with (7 + 7 * i) by lia. by rewrite Z.pow_add_r by lia. Qed.

Lemma pow_rest_small i : 9 <= i -> 2 ^ (64 - 7 * i) <= 2.
Proof.
  intros. transitivity (2 ^ 1); [|done]. apply Z.pow_le_mono_r; lia.
Qed.

(** ** Round trip *)

Lemma uvarint_loop_put fuel y i x rest :
  0 <= i -> i + Z.of_nat fuel = 10 ->
  0 <= x < 2 ^ (7 * i) -> 0 <= y < 2 ^ (64 - 7 * i) ->
  uvarint_loop (put_uvarint fuel y ++ rest) i x (7 * i)
  = (x + y * 2 ^ (7 * i), i + len (put_uvarint fuel y)).
Proof.
  revert y i x. induction fuel as [|f IH]; intros y i x Hi Hf Hx Hy.
  { replace i with 10 in Hy by lia. cbn in Hy. lia. }
  assert (Hi10 : (i =? MaxVarintLen64) = false) by (unfold MaxVarintLen64; lia).
  cbn [put_uvarint]. destruct (Z.ltb_spec y 128) as [Hlt|Hge]; cbn [app uvarint_loop];
    rewrite Hi10.
  - rewrite byteZ_Zbyte_small by lia.
    rewrite (proj2 (Z.ltb_lt y 128)) by lia.
    replace ((i =? _) && (1 <? y)) with false; [|symmetry; apply andb_false_iff].
    + rewrite accumulate by lia. by rewrite len_cons, len_nil, Z.add_0_r.
    + unfold MaxVarintLen64. destruct (Z.eqb_spec i (10 - 1)); [right|by left].
      pose proof (pow_rest_small i). lia.
  - assert (i <= 8).
    { destruct (Z.leb_spec i 8); [done|]. pose proof (pow_rest_small i). lia. }
    rewrite byteZ_cont, land_127.
    pose proof (Z.mod_pos_bound y 128 ltac:(lia)).
    rewrite (proj2 (Z.ltb_ge _ 128)) by lia.
    replace ((y `mod` 128 + 128) `mod` 128) with (y `mod` 128) by zlia.
    pose proof (pow_rest i ltac:(lia)). pose proof (pow_read i ltac:(lia)).
    rewrite accumulate, shiftr_7 by lia.
    replace (7 * i + 7) with (7 * (i + 1)) by lia.
    rewrite IH; [|lia|lia| |].
    + rewrite len_cons, pow_read by lia. f_equal; [|lia].
      rewrite (Z.div_mod y 128) at 3 by lia. lia.
    + nia.
    + split; [by apply Z.div_pos; lia|]. apply Z.div_lt_upper_bound; lia.
Qed.

Lemma put_uvarint_length fuel x : len (put_uvarint fuel x) <= Z.of_nat fuel.
Proof.
  revert x. induction fuel as [|f IH]; intros x; cbn [put_uvarint]; [done|].
  destruct (x <? 128); rewrite ?len_cons, ?len_nil; [lia|].
  specialize (IH (Z.shiftr x 7)). lia.
Qed.

(** [Uvarint] reads back what [PutUvarint] wrote, whatever follows. *)
Lemma Uvarint_PutUvarint x rest :
  0 <= x < 2 ^ 64 -> Uvarint (PutUvarint x ++ rest) = (x, len (PutUvarint x)).
Proof.
  intros. unfold Uvarint, PutUvarint.
  etransitivity; [apply (uvarint_loop_put 10 x 0 0 rest); lia|]. f_equal; lia.
Qed.

Lemma put_uvarint_pos f x : 1 <= len (put_uvarint (S f) x).
Proof.
  cbn [put_uvarint]. destruct (x <? 128); rewrite len_cons;
    [done|pose proof (len_nonneg (put_uvarint f (x ≫ 7))); lia].
Qed.

Lemma PutUvarint_length x : 1 <= len (PutUvarint x) <= 10.
Proof. split; [apply put_uvarint_pos|apply (put_uvarint_length 10)]. Qed.

(** A value below [2^(7k)] needs at most [k] bytes. *)
Lemma put_uvarint_short k fuel x :
  (0 < k)%nat -> 0 <= x < 2 ^ (7 * Z.of_nat k) -> len (put_uvarint fuel x) <= Z.of_nat k.
Proof.
  revert fuel x. induction k as [|k IH]; intros fuel x Hk Hx; [lia|].
  destruct fuel as [|f]; cbn [put_uvarint]; [unfold len; simpl; lia|].
  destruct (Z.ltb_spec x 128); rewrite len_cons, ?len_nil; [lia|].
  destruct k as [|k]; [cbn in Hx; lia|].
  assert (len (put_uvarint f (Z.shiftr x 7)) <= Z.of_nat (S k)); [|lia].
  apply IH; [lia|]. rewrite shiftr_7.
  replace (7 * Z.of_nat (S (S k))) with (7 + 7 * Z.of_nat (S k)) in Hx by lia.
  rewrite Z.pow_add_r in Hx by lia. split; [apply Z.div_pos; lia|].
  apply Z.div_lt_upper_bound; lia.
Qed.

(** ** What a successful read means *)

Lemma uvarint_loop_inv buf i x v n :
  0 <= i <= 10 -> 0 <= x < 2 ^ (7 * i) ->
  uvarint_loop buf i x (7 * i) = (v, n) -> 0 < n ->
  i < n <= 10 /\ n - i <= len buf /\
  exists y, v = x + y * 2 ^ (7 * i) /\ 0 <= y < 2 ^ (64 - 7 * i) /\
    len (put_uvarint (Z.to_nat (10 - i)) y) <= n - i.
Proof.
  revert i x. induction buf as [|b buf IH]; intros i x Hi Hx H Hn;
    cbn [uvarint_loop] in H; [simplify_eq; lia|].
  unfold MaxVarintLen64 in H. pose proof (byteZ_range b).
  destruct (Z.eqb_spec i 10); [simplify_eq; lia|].
  replace (Z.to_nat (10 - i)) with (S (Z.to_nat (10 - (i + 1)))) by lia.
  rewrite len_cons. pose proof (len_nonneg buf).
  destruct (Z.ltb_spec (byteZ b) 128) as [Hlt|Hge].
  - destruct ((i =? 10 - 1) && (1 <? byteZ b)) eqn:Hov; [simplify_eq; lia|].
    assert (Hb : byteZ b < 2 ^ (64 - 7 * i)).
    { apply andb_false_iff in Hov. destruct (Z.eqb_spec i 9) as [->|].
      - destruct Hov as [Hov|Hov]; reflect_bool; [lia|]. cbn. lia.
      - rewrite pow_rest by lia. lia. }
    rewrite accumulate in H by lia. simplify_eq.
    split; [lia|]. split; [lia|]. exists (byteZ b). split; [done|]. split; [lia|].
    cbn [put_uvarint]. rewrite (proj2 (Z.ltb_lt _ _)) by lia.
    rewrite len_cons, len_nil. lia.
  - assert (i <= 8) as Hi8.
    { destruct (Z.leb_spec i 8); [done|]. exfalso. replace i with 9 in H by lia.
      destruct buf; cbn [uvarint_loop] in H; [simplify_eq; lia|].
      replace (9 + 1 =? MaxVarintLen64) with true in H by done. simplify_eq. }
    pose proof (pow_rest i ltac:(lia)). pose proof (pow_read i ltac:(lia)).
    rewrite land_127 in H.
    assert (0 <= byteZ b `mod` 128 < 128) by zlia.
    rewrite accumulate in H by lia.
    replace (7 * i + 7) with (7 * (i + 1)) in H by lia.
    apply IH in H as (? & ? & y & -> & Hy & Hlen); [|lia|nia|done].
    split; [lia|]. split; [lia|]. exists (byteZ b `mod` 128 + 128 * y).
    split; [lia|]. split; [nia|].
    cbn [put_uvarint]. destruct (Z.ltb_spec (byteZ b `mod` 128 + 128 * y) 128);
      rewrite len_cons, ?len_nil; [lia|].
    rewrite shiftr_7. replace ((byteZ b `mod` 128 + 128 * y) `div` 128) with y by zlia.
    lia.
Qed.

(** A positive count means a 64-bit value, read from at most ten bytes of the
    buffer, whose shortest encoding is no longer than what was read. *)
Lemma Uvarint_inv buf v n :
  Uvarint buf = (v, n) -> 0 < n ->
  0 <= v < 2 ^ 64 /\ 1 <= n <= 10 /\ n <= len buf /\ len (PutUvarint v) <= n.
Proof.
  intros H Hn.
  apply (uvarint_loop_inv buf 0 0) in H as (? & ? & y & -> & Hy & Hlen); try lia.
  change (Z.to_nat (10 - 0)) with 10%nat in Hlen.
  change (2 ^ (64 - 7 * 0)) with (2 ^ 64) in Hy.
  replace (0 + y * 2 ^ (7 * 0)) with y by lia. unfold PutUvarint. lia.
Qed.

(** Without a positive count there is no value. *)
Lemma uvarint_loop_nonpos buf i x s v n :
  0 <= i -> uvarint_loop buf i x s = (v, n) -> n <= 0 -> v = 0.
Proof.
  revert i x s. induction buf as [|b buf IH]; intros i x s Hi H Hn;
    cbn [uvarint_loop] in H; [by simplify_eq|].
  repeat (split_match_in H; simplify_eq; try lia; try done).
  eapply IH; [|exact H|done]. lia.
Qed.

Lemma Uvarint_nonpos buf v n : Uvarint buf = (v, n) -> n <= 0 -> v = 0.
Proof. by apply uvarint_loop_nonpos. Qed.

Lemma uvarint_loop_count buf i x s v n :
  uvarint_loop buf i x s = (v, n) -> 0 < n -> i < n.
Proof.
  revert i x s. induction buf as [|b buf IH]; intros i x s H Hn;
    cbn [uvarint_loop] in H; [simplify_eq; lia|].
  repeat (split_match_in H; simplify_eq; try lia). apply IH in H; lia.
Qed.

(** [ReadUvarint] on a reader agrees with [Uvarint] on the unread bytes. *)
Lemma read_uvarint_loop_spec buf fuel i x s e v n :
  0 <= i -> i + Z.of_nat fuel = 10 ->
  uvarint_loop buf i x s = (v, n) -> 0 < n ->
  read_uvarint_loop fuel i x s (mkReader buf e)
  = (mkReader (drop (Z.to_nat (n - i)) buf) e, (v, None)).
Proof.
  revert fuel i x s. induction buf as [|b buf IH]; intros fuel i x s Hi Hf H Hn;
    cbn [uvarint_loop] in H; [simplify_eq; lia|].
  destruct fuel as [|f].
  { replace i with 10 in H by lia. cbn in H. by simplify_eq. }
  cbn [read_uvarint_loop ReadByte unread ends].
  destruct (i =? MaxVarintLen64); [simplify_eq; lia|].
  destruct (byteZ b <? 128).
  - destruct ((i =? MaxVarintLen64 - 1) && (1 <? byteZ b)); [simplify_eq; lia|].
    simplify_eq. by replace (i + 1 - i) with 1 by lia.
  - pose proof (uvarint_loop_count _ _ _ _ _ _ H Hn).
    rewrite (IH f (i + 1) _ _) by (done || lia).
    by replace (Z.to_nat (n - i)) with (S (Z.to_nat (n - (i + 1)))) by lia.
Qed.

Lemma ReadUvarint_PutUvarint x rest e :
  0 <= x < 2 ^ 64 ->
  ReadUvarint (mkReader (PutUvarint x ++ rest) e) = (mkReader rest e, (x, None)).
Proof.
  intros Hx. pose proof (PutUvarint_length x).
  unfold ReadUvarint.
  erewrite read_uvarint_loop_spec;
    [|lia|lia|exact (Uvarint_PutUvarint x rest Hx)|lia].
  rewrite Z.sub_0_r. unfold len. rewrite Nat2Z.id.
  by rewrite drop_app_length.
Qed.

Example varint_624485 : PutUvarint 624485 = [xe5; x8e; x26].
Proof. reflexivity. Qed.
