(* ===== verification/Tlv.v ===== *)
(** * The TLV value model and its encoder

    [src/tlv/types.go] and [src/tlv/encode.go]: the dynamically typed [Value],
    the ordered string-keyed [Map] with its operations, and the encoder
    ([marshalPayload], [marshalValue], [Encode], [MustEncode]).  A Go [Value]
    pairs a type byte with an [interface{}]; the two can disagree, and then the
    typed accessors and the encoder panic, so the model keeps them apart too. *)

From S2P Require Import Prelude GoRt Varint.

(** ** Types ([types.go], lines 10-66) *)

Inductive TypeCode :=
| TypeString | TypeBytes | TypeUint8 | TypeUint16 | TypeUint32 | TypeUint64
| TypeInt32 | TypeInt64 | TypeFloat32 | TypeFloat64 | TypeBool | TypeArray
| TypeMap | TypeNull | TypeTimestamp.

#[export] Instance TypeCode_eq_dec : EqDecision TypeCode.
Proof. solve_decision. Defined.

(** The constant table: the byte of each named type. *)
Definition code_byte (c : TypeCode) : byte :=
  match c with
  | TypeString => x01 | TypeBytes => x02 | TypeUint8 => x03 | TypeUint16 => x04
  | TypeUint32 => x05 | TypeUint64 => x06 | TypeInt32 => x07 | TypeInt64 => x08
  | TypeFloat32 => x09 | TypeFloat64 => x0a | TypeBool => x0b | TypeArray => x0c
  | TypeMap => x0d | TypeNull => x0e | TypeTimestamp => x0f
  end.
Coercion code_byte : TypeCode >-> Init.Byte.byte.

(** A [switch] over a type byte: the named constant it equals, [None] for the
    [default] case. *)
Definition code_of (b : byte) : option TypeCode :=
  match b with
  | x01 => Some TypeString | x02 => Some TypeBytes | x03 => Some TypeUint8
  | x04 => Some TypeUint16 | x05 => Some TypeUint32 | x06 => Some TypeUint64
  | x07 => Some TypeInt32 | x08 => Some TypeInt64 | x09 => Some TypeFloat32
  | x0a => Some TypeFloat64 | x0b => Some TypeBool | x0c => Some TypeArray
  | x0d => Some TypeMap | x0e => Some TypeNull | x0f => Some TypeTimestamp
  | _ => None
  end.

Lemma code_of_byte (c : TypeCode) : code_of c = Some c.
Proof. by destruct c. Qed.

Lemma code_of_inv b (c : TypeCode) : code_of b = Some c -> b = code_byte c.
Proof. destruct b; intros [= <-]; done. Qed.

#[export] Hint Rewrite code_of_byte : hush_len.

(** [Type.String]. *)
Definition Type_String (t : byte) : string :=
  match code_of t with
  | Some TypeString => "string" | Some TypeBytes => "bytes"
  | Some TypeUint8 => "uint8" | Some TypeUint16 => "uint16"
  | Some TypeUint32 => "uint32" | Some TypeUint64 => "uint64"
  | Some TypeInt32 => "int32" | Some TypeInt64 => "int64"
  | Some TypeFloat32 => "float32" | Some TypeFloat64 => "float64"
  | Some TypeBool => "bool" | Some TypeArray => "array" | Some TypeMap => "map"
  | Some TypeNull => "null" | Some TypeTimestamp => "timestamp"
  | None => "unknown(0x" +:+ hex_byte t +:+ ")"
  end.

(** ** Values ([types.go], lines 68-148) *)

(** The dynamic content of a [Value]: the Go types the package stores in
    [data].  A [float32] and a [float64] are represented by their IEEE 754 bit
    patterns, a slice by its elements. *)
Inductive Value := mkValue (Typ : byte) (data : Data)
with Data :=
| DNil
| DString (s : string)
| DBytes (b : list byte)
| DUint8 (n : Z) | DUint16 (n : Z) | DUint32 (n : Z) | DUint64 (n : Z)
| DInt32 (n : Z) | DInt64 (n : Z)
| DFloat32 (bits : Z) | DFloat64 (bits : Z)
| DBool (b : bool)
| DArray (vs : list Value)
| DTime (t : Time)
| DMap (entries : list MapEntry)
with MapEntry := mkEntry (Key : string) (Val : Value).

(** [Map] is the slice of its entries; a [*Map] that may be nil is an
    [option Map]. *)
Abbreviation Map := (list MapEntry).

Definition Typ (v : Value) : byte := let 'mkValue t _ := v in t.
Definition data (v : Value) : Data := let 'mkValue _ d := v in d.
Definition Key (e : MapEntry) : string := let 'mkEntry k _ := e in k.
Definition Val (e : MapEntry) : Value := let 'mkEntry _ v := e in v.

(** The zero [Value{}]. *)
Definition zeroValue : Value := mkValue x00 DNil.

(** The accessors are type assertions [v.data.(T)]. *)
Definition Value_String (v : Value) : res string :=
  match data v with DString s => Ok s | _ => Panic PTypeAssertion end.
Definition Value_Bytes (v : Value) : res (list byte) :=
  match data v with DBytes b => Ok b | _ => Panic PTypeAssertion end.
Definition Value_Uint8 (v : Value) : res Z :=
  match data v with DUint8 n => Ok n | _ => Panic PTypeAssertion end.
Definition Value_Uint16 (v : Value) : res Z :=
  match data v with DUint16 n => Ok n | _ => Panic PTypeAssertion end.
Definition Value_Uint32 (v : Value) : res Z :=
  match data v with DUint32 n => Ok n | _ => Panic PTypeAssertion end.
Definition Value_Uint64 (v : Value) : res Z :=
  match data v with DUint64 n => Ok n | _ => Panic PTypeAssertion end.
Definition Value_Int32 (v : Value) : res Z :=
  match data v with DInt32 n => Ok n | _ => Panic PTypeAssertion end.
Definition Value_Int64 (v : Value) : res Z :=
  match data v with DInt64 n => Ok n | _ => Panic PTypeAssertion end.
Definition Value_Float32 (v : Value) : res Z :=
  match data v with DFloat32 n => Ok n | _ => Panic PTypeAssertion end.
Definition Value_Float64 (v : Value) : res Z :=
  match data v with DFloat64 n => Ok n | _ => Panic PTypeAssertion end.
Definition Value_Bool (v : Value) : res bool :=
  match data v with DBool b => Ok b | _ => Panic PTypeAssertion end.
Definition Value_Array (v : Value) : res (list Value) :=
  match data v with DArray vs => Ok vs | _ => Panic PTypeAssertion end.
Definition Value_Map (v : Value) : res Map :=
  match data v with DMap m => Ok m | _ => Panic PTypeAssertion end.
Definition Value_Timestamp (v : Value) : res Time :=
  match data v with DTime t => Ok t | _ => Panic PTypeAssertion end.
Definition IsNull (v : Value) : bool := bool_decide (Typ v = TypeNull).

(** The constructors. *)
Definition tlv_String (s : string) : Value := mkValue TypeString (DString s).
Definition tlv_Bytes (b : list byte) : Value := mkValue TypeBytes (DBytes b).
Definition tlv_Uint8 (n : Z) : Value := mkValue TypeUint8 (DUint8 n).
Definition tlv_Uint16 (n : Z) : Value := mkValue TypeUint16 (DUint16 n).
Definition tlv_Uint32 (n : Z) : Value := mkValue TypeUint32 (DUint32 n).
Definition tlv_Uint64 (n : Z) : Value := mkValue TypeUint64 (DUint64 n).
Definition tlv_Int32 (n : Z) : Value := mkValue TypeInt32 (DInt32 n).
Definition tlv_Int64 (n : Z) : Value := mkValue TypeInt64 (DInt64 n).
Definition tlv_Float32 (bits : Z) : Value := mkValue TypeFloat32 (DFloat32 bits).
Definition tlv_Float64 (bits : Z) : Value := mkValue TypeFloat64 (DFloat64 bits).
Definition tlv_Bool (b : bool) : Value := mkValue TypeBool (DBool b).
Definition tlv_Array (vs : list Value) : Value := mkValue TypeArray (DArray vs).
Definition tlv_Null : Value := mkValue TypeNull DNil.
Definition tlv_Timestamp (t : Time) : Value := mkValue TypeTimestamp (DTime t).
Definition MapValue (m : Map) : Value := mkValue TypeMap (DMap m).

(** ** Maps ([types.go], lines 150-238) *)

Definition NewMap : Map := [].

(** [Set] overwrites the first entry with the key, or appends one. *)
Fixpoint Map_Set (m : Map) (key : string) (v : Value) : Map :=
  match m with
  | [] => [mkEntry key v]
  | e :: m' =>
      if bool_decide (Key e = key) then mkEntry (Key e) v :: m'
      else e :: Map_Set m' key v
  end.

(** [Get] returns [(Value{}, false)] when the key is absent. *)
Fixpoint Map_Get (m : Map) (key : string) : Value * bool :=
  match m with
  | [] => (zeroValue, false)
  | e :: m' => if bool_decide (Key e = key) then (Val e, true) else Map_Get m' key
  end.

Definition Map_GetString (m : Map) (key : string) : res (string * bool) :=
  let '(v, ok) := Map_Get m key in
  if negb ok || bool_decide (Typ v <> TypeString) then Ok ("", false)
  else s ← Value_String v; Ok (s, true).

Definition Map_GetUint64 (m : Map) (key : string) : res (Z * bool) :=
  let '(v, ok) := Map_Get m key in
  if negb ok || bool_decide (Typ v <> TypeUint64) then Ok (0, false)
  else n ← Value_Uint64 v; Ok (n, true).

Definition Map_GetBytes (m : Map) (key : string) : res (list byte * bool) :=
  let '(v, ok) := Map_Get m key in
  if negb ok || bool_decide (Typ v <> TypeBytes) then Ok ([], false)
  else b ← Value_Bytes v; Ok (b, true).

Definition Map_GetMap (m : Map) (key : string) : res (option Map * bool) :=
  let '(v, ok) := Map_Get m key in
  if negb ok || bool_decide (Typ v <> TypeMap) then Ok (None, false)
  else original ← Value_Map v; Ok (Some original, true).

(** [Iter] calls [f] on the entries in order until it returns false; [f] acts
    on a state [A] of the caller. *)
Fixpoint Map_Iter {A} (m : Map) (f : string -> Value -> A -> bool * A) (a : A) : A :=
  match m with
  | [] => a
  | e :: m' => let '(continue, a') := f (Key e) (Val e) a in
               if continue then Map_Iter m' f a' else a'
  end.

Definition Map_Clone (m : Map) : Map := map (fun e => mkEntry (Key e) (Val e)) m.

(** ** The encoder ([types.go], lines 240-334; [encode.go]) *)

(** [marshalValue]'s output for a payload: type, varint length, payload. *)
Definition tlv_frame (t : byte) (payload : list byte) : list byte :=
  t :: PutUvarint (wrapU 64 (len payload)) ++ payload.

(** [marshalPayload], with [marshalValue] of the elements in line (Rocq's
    recursion is on the value). *)
Fixpoint marshalPayload (v : Value) : res (list byte) :=
  let 'mkValue t d := v in
  match code_of t with
  | Some TypeString => match d with DString s => Ok (bytes_of s) | _ => Panic PTypeAssertion end
  | Some TypeBytes => match d with DBytes b => Ok b | _ => Panic PTypeAssertion end
  | Some TypeUint8 => match d with DUint8 n => Ok [Zbyte n] | _ => Panic PTypeAssertion end
  | Some TypeUint16 => match d with DUint16 n => Ok (be_put 2 n) | _ => Panic PTypeAssertion end
  | Some TypeUint32 => match d with DUint32 n => Ok (be_put 4 n) | _ => Panic PTypeAssertion end
  | Some TypeUint64 => match d with DUint64 n => Ok (be_put 8 n) | _ => Panic PTypeAssertion end
  | Some TypeInt32 =>
      match d with DInt32 n => Ok (be_put 4 (wrapU 32 n)) | _ => Panic PTypeAssertion end
  | Some TypeInt64 =>
      match d with DInt64 n => Ok (be_put 8 (wrapU 64 n)) | _ => Panic PTypeAssertion end
  | Some TypeFloat32 => match d with DFloat32 n => Ok (be_put 4 n) | _ => Panic PTypeAssertion end
  | Some TypeFloat64 => match d with DFloat64 n => Ok (be_put 8 n) | _ => Panic PTypeAssertion end
  | Some TypeBool =>
      match d with DBool b => Ok (if b then [x01] else [x00]) | _ => Panic PTypeAssertion end
  | Some TypeNull => Ok []
  | Some TypeTimestamp =>
      match d with
      | DTime t => Ok (be_put 8 (wrapU 64 (time_UnixMilli t)))
      | _ => Panic PTypeAssertion
      end
  | Some TypeArray =>
      match d with
      | DArray vs =>
          append_all (fun elem =>
            p ← marshalPayload elem; Ok (tlv_frame (Typ elem) p)) vs
      | _ => Panic PTypeAssertion
      end
  | Some TypeMap =>
      match d with
      | DMap m =>
          append_all (fun '(mkEntry key val) =>
            let keyBuf := tlv_frame TypeString (bytes_of key) in
            p ← marshalPayload val;
            Ok (keyBuf ++ tlv_frame (Typ val) p)) m
      | _ => Panic PTypeAssertion
      end
  | None => Err (Errorf "tlv: unknown type 0x%02x" [AInt (byteZ t)])
  end.

Definition marshalValue (v : Value) : res (list byte) :=
  payload ← marshalPayload v; Ok (tlv_frame (Typ v) payload).

(** [Encode(w, v)]: the byte count and the error of the write. *)
Definition Encode (v : Value) (w : Writer) : Writer * res (Z * option error) :=
  match marshalValue v with
  | Ok buf => let '(w', r) := WriterWrite buf w in (w', Ok r)
  | Err e => (w, Ok (0, Some e))
  | Panic p => (w, Panic p)
  | OutOfFuel => (w, OutOfFuel)
  end.

Definition EncodeMap (m : Map) (w : Writer) : Writer * res (Z * option error) :=
  Encode (MapValue m) w.

(** [MustEncode] panics on an error. *)
Definition MustEncode (v : Value) : res (list byte) :=
  match marshalValue v with Err e => Panic (PExplicit e) | r => r end.

Definition MustEncodeMap (m : Map) : res (list byte) := MustEncode (MapValue m).
