(* ===== verification/TlvSpec.v ===== *)
(** * What a TLV value is: typing, sizes, nesting

    The invariants the TLV theorems are stated with: [value_wf] (the type byte
    and the dynamic content agree, integers are in range, map keys are
    distinct), the size of an encoding, the depth the decoder will count for
    it, and the normal form a decoded value has; the induction principle for
    the nested value type; the laws of the ordered map; and that encoding a
    well-formed value succeeds with the predicted size. *)

From S2P Require Import Prelude GoRt Varint Tlv.

(** ** Induction on values *)

Section value_ind.
Variable P : Value -> Prop.
Hypothesis Hleaf : forall t d,
  (forall vs, d <> DArray vs) -> (forall m, d <> DMap m) -> P (mkValue t d).
Hypothesis Harray : forall t vs, Forall P vs -> P (mkValue t (DArray vs)).
Hypothesis Hmap : forall t m,
  Forall (fun e => P (Val e)) m -> P (mkValue t (DMap m)).

Fixpoint Value_nested_ind (v : Value) : P v.
Proof using All.
  destruct v as [t d]. destruct d; try (by apply Hleaf).
  - apply Harray.
    induction vs as [|v vs IH]; constructor; [apply Value_nested_ind|exact IH].
  - apply Hmap.
    induction entries as [|[k v] m IH]; constructor; [apply Value_nested_ind|exact IH].
Qed.
End value_ind.

(** ** Well-formed values *)

Fixpoint value_wf (v : Value) : bool :=
  let 'mkValue t d := v in
  match code_of t, d with
  | Some TypeString, DString _ => true
  | Some TypeBytes, DBytes _ => true
  | Some TypeUint8, DUint8 n => in_uint 8 n
  | Some TypeUint16, DUint16 n => in_uint 16 n
  | Some TypeUint32, DUint32 n => in_uint 32 n
  | Some TypeUint64, DUint64 n => in_uint 64 n
  | Some TypeInt32, DInt32 n => in_int 32 n
  | Some TypeInt64, DInt64 n => in_int 64 n
  | Some TypeFloat32, DFloat32 n => in_uint 32 n
  | Some TypeFloat64, DFloat64 n => in_uint 64 n
  | Some TypeBool, DBool _ => true
  | Some TypeNull, DNil => true
  | Some TypeTimestamp, DTime t => in_int 64 (t `div` Millisecond)
  | Some TypeArray, DArray vs => forallb value_wf vs
  | Some TypeMap, DMap m =>
      bool_decide (NoDup (map Key m)) && forallb (fun '(mkEntry _ x) => value_wf x) m
  | _, _ => false
  end.

Definition map_wf (m : Map) : bool :=
  bool_decide (NoDup (map Key m)) && forallb (fun e => value_wf (Val e)) m.

(** The value a decoder returns for the encoding of [v]: timestamps keep their
    milliseconds only. *)
Fixpoint norm (v : Value) : Value :=
  let 'mkValue t d := v in
  mkValue t
    match d with
    | DTime x => DTime (x `div` Millisecond * Millisecond)
    | DArray vs => DArray (map norm vs)
    | DMap m => DMap (map (fun '(mkEntry k x) => mkEntry k (norm x)) m)
    | _ => d
    end.

Definition norm_map (m : Map) : Map := map (fun e => mkEntry (Key e) (norm (Val e))) m.

(** The length of [tlv_frame] around a payload of [n] bytes, and of the payload
    of a value. *)
Definition frame_size (n : Z) : Z := 1 + len (PutUvarint (wrapU 64 n)) + n.

Definition sumZ (l : list Z) : Z := fold_right Z.add 0 l.

Fixpoint psize (v : Value) : Z :=
  let 'mkValue _ d := v in
  match d with
  | DNil => 0
  | DString s => len (bytes_of s)
  | DBytes b => len b
  | DUint8 _ | DBool _ => 1
  | DUint16 _ => 2
  | DUint32 _ | DInt32 _ | DFloat32 _ => 4
  | DUint64 _ | DInt64 _ | DFloat64 _ | DTime _ => 8
  | DArray vs => sumZ (map (fun x => frame_size (psize x)) vs)
  | DMap m => sumZ (map (fun '(mkEntry k x) =>
                frame_size (len (bytes_of k)) + frame_size (psize x)) m)
  end.

(** Every value nested in [v], map keys included, has a payload of at most
    [max] bytes. *)
Fixpoint nested_fits (max : Z) (v : Value) : bool :=
  let 'mkValue _ d := v in
  match d with
  | DArray vs => forallb (fun x => (psize x <=? max) && nested_fits max x) vs
  | DMap m => forallb (fun '(mkEntry k x) =>
                (len (bytes_of k) <=? max) && ((psize x <=? max) && nested_fits max x)) m
  | _ => true
  end.

(** The deepest level the decoder counts below a value: one per array, two per
    map (the key counts as well as the value). *)
Fixpoint height (v : Value) : Z :=
  let 'mkValue _ d := v in
  match d with
  | DArray vs => fold_right Z.max 0 (map (fun x => 1 + height x) vs)
  | DMap m => fold_right Z.max 0 (map (fun '(mkEntry _ x) => 2 + height x) m)
  | _ => 0
  end.

(** ** Basic facts *)

Lemma sumZ_cons x l : sumZ (x :: l) = x + sumZ l.
Proof. done. Qed.

Lemma frame_size_pos n : 0 <= n -> 2 + n <= frame_size n.
Proof. unfold frame_size. pose proof (PutUvarint_length (wrapU 64 n)). lia. Qed.

Lemma len_tlv_frame t p : len (tlv_frame t p) = frame_size (len p).
Proof. unfold tlv_frame, frame_size. rewrite len_cons, len_app. lia. Qed.

Lemma psize_nonneg v : 0 <= psize v.
Proof.
  induction v as [t d Ha Hm | t vs IH | t m IH] using Value_nested_ind.
  - destruct d; cbn; auto with hush lia; by (edestruct Ha + edestruct Hm).
  - cbn. induction IH as [|v vs Hv _ IH]; cbn [map]; [done|].
    rewrite sumZ_cons. pose proof (frame_size_pos _ Hv). lia.
  - cbn [psize]. induction IH as [|[k v] m Hv _ IH]; cbn [map]; [done|]. cbn [Val] in Hv.
    rewrite sumZ_cons. pose proof (frame_size_pos _ Hv).
    pose proof (frame_size_pos _ (len_nonneg (bytes_of k))).
    pose proof (len_nonneg (bytes_of k)). lia.
Qed.

Lemma height_nonneg v : 0 <= height v.
Proof.
  destruct v as [t d]; destruct d; cbn; try done.
  - induction vs; cbn; lia.
  - induction entries; cbn; lia.
Qed.

#[export] Hint Resolve psize_nonneg height_nonneg : hush.

Lemma value_wf_entries m :
  forallb (fun '(mkEntry _ x) => value_wf x) m = forallb (fun e => value_wf (Val e)) m.
Proof. induction m as [|[k v] m IH]; cbn; [done|by rewrite IH]. Qed.

Lemma MapValue_wf m : value_wf (MapValue m) = map_wf m.
Proof. unfold map_wf. cbn. by rewrite value_wf_entries. Qed.

Lemma norm_MapValue m : norm (MapValue m) = MapValue (norm_map m).
Proof.
  unfold norm_map, MapValue. cbn. do 2 f_equal. apply map_ext. by intros [].
Qed.

Lemma Typ_norm v : Typ (norm v) = Typ v.
Proof. by destruct v. Qed.

Lemma Keys_norm_map m : map Key (norm_map m) = map Key m.
Proof. unfold norm_map. rewrite map_map. by apply map_ext. Qed.

(** ** The ordered map *)

Lemma Map_Get_Set_eq m k v : Map_Get (Map_Set m k v) k = (v, true).
Proof.
  induction m as [|[k' v'] m IH]; cbn; [by rewrite bool_decide_true|].
  destruct (bool_decide (k' = k)) eqn:E; cbn; rewrite E; done.
Qed.

Lemma Map_Get_Set_ne m k k' v :
  k <> k' -> Map_Get (Map_Set m k v) k' = Map_Get m k'.
Proof.
  intros Hne. induction m as [|[k1 v1] m IH]; cbn; [by rewrite bool_decide_false|].
  destruct (decide (k1 = k)) as [->|].
  - by rewrite bool_decide_true by done; cbn; rewrite bool_decide_false by done.
  - rewrite (bool_decide_false (k1 = k)) by done. cbn. by rewrite IH.
Qed.

(** [Set] keeps the order of the keys and appends a new one at the end. *)
Lemma Map_Set_keys m k v :
  map Key (Map_Set m k v)
  = if bool_decide (k ∈ map Key m) then map Key m else map Key m ++ [k].
Proof.
  induction m as [|[k' v'] m IH]; cbn; [done|].
  destruct (decide (k' = k)) as [->|Hne].
  - rewrite bool_decide_true by done. by rewrite bool_decide_true by set_solver.
  - rewrite (bool_decide_false (k' = k)) by done. cbn. rewrite IH.
    destruct (decide (k ∈ map Key m)).
    + by rewrite !bool_decide_true by set_solver.
    + by rewrite !bool_decide_false by set_solver.
Qed.

Lemma Map_Set_NoDup m k v : NoDup (map Key m) -> NoDup (map Key (Map_Set m k v)).
Proof.
  intros H. rewrite Map_Set_keys. case_bool_decide as Hin; [done|].
  apply list.NoDup_app. split; [done|]. split; [set_solver|]. apply NoDup_singleton.
Qed.

Lemma Map_Set_fresh m k v : k ∉ map Key m -> Map_Set m k v = m ++ [mkEntry k v].
Proof.
  induction m as [|[k' v'] m IH]; cbn; intros Hk; [done|].
  rewrite bool_decide_false by set_solver. by rewrite IH by set_solver.
Qed.

Lemma Map_Set_wf m k v :
  map_wf m = true -> value_wf v = true -> map_wf (Map_Set m k v) = true.
Proof.
  unfold map_wf. rewrite !andb_true_iff, !bool_decide_eq_true.
  intros [Hnd Hm] Hv. split; [by apply Map_Set_NoDup|]. clear Hnd.
  induction m as [|[k' v'] m IH]; cbn in *; [by rewrite Hv|].
  apply andb_true_iff in Hm as [Hv' Hm].
  destruct (bool_decide (k' = k)); cbn; [by rewrite Hv, Hm|by rewrite Hv', IH].
Qed.

Lemma Map_Get_In m k v : Map_Get m k = (v, true) -> exists k', mkEntry k' v ∈ m.
Proof.
  induction m as [|[k' v'] m IH]; cbn; [done|].
  destruct (bool_decide (k' = k)); intros H; [simplify_eq; eexists; left|].
  destruct (IH H) as [k1 ?]. exists k1. by right.
Qed.

Lemma Map_Get_absent m k : k ∉ map Key m <-> Map_Get m k = (zeroValue, false).
Proof.
  induction m as [|[k' v'] m IH]; cbn; [set_solver|].
  destruct (decide (k' = k)) as [->|].
  - rewrite bool_decide_true by done. split; [set_solver|done].
  - rewrite bool_decide_false by done. set_solver.
Qed.

Lemma Map_Get_wf m k v : map_wf m = true -> Map_Get m k = (v, true) -> value_wf v = true.
Proof.
  unfold map_wf. intros [_ Hm]%andb_true_iff. revert Hm.
  induction m as [|[k' x] m IH]; cbn; [done|]. intros [Hx Hm]%andb_true_iff.
  destruct (bool_decide (k' = k)); [by intros [= <-]|by apply IH].
Qed.

(** The typed getters check the type byte before the type assertion, so on a
    well-formed map they never panic. *)
Lemma Map_getters_return m k :
  map_wf m = true ->
  returns (Map_GetString m k) /\ returns (Map_GetUint64 m k) /\
  returns (Map_GetBytes m k) /\ returns (Map_GetMap m k).
Proof.
  intros Hm. unfold Map_GetString, Map_GetUint64, Map_GetBytes, Map_GetMap.
  destruct (Map_Get m k) as [v ok] eqn:Hg. destruct ok; [|done].
  pose proof (Map_Get_wf _ _ _ Hm Hg) as Hv. destruct v as [t d]. cbn [negb orb Typ].
  repeat split; (case_bool_decide as Ht; [done|]); subst t;
    destruct d; try discriminate Hv; done.
Qed.

(** ** Encoding well-formed values *)

(** The payload and the encoding of a value, where encoding succeeds. *)
Definition payload_of (v : Value) : list byte :=
  match marshalPayload v with Ok p => p | _ => [] end.
Definition enc (v : Value) : list byte := tlv_frame (Typ v) (payload_of v).
Definition enc_entry (e : MapEntry) : list byte :=
  tlv_frame TypeString (bytes_of (Key e)) ++ enc (Val e).

Lemma append_all_Ok {A B} (f : A -> res (list B)) g l :
  Forall (fun x => f x = Ok (g x)) l -> append_all f l = Ok (concat (map g l)).
Proof. induction 1 as [|x l Hx _ IH]; cbn; [done|]. by rewrite Hx, IH. Qed.

Lemma Forall_conj {A} (P Q : A -> Prop) l :
  Forall P l -> Forall Q l -> Forall (fun x => P x /\ Q x) l.
Proof. induction 1; inversion 1; constructor; auto. Qed.

Lemma forallb_Forall {A} (f : A -> bool) l : forallb f l = true <-> Forall (fun x => f x = true) l.
Proof.
  induction l as [|x l IH]; cbn; [done|].
  rewrite andb_true_iff, IH. split; [intros []; by constructor|by inversion 1].
Qed.

(** Case analysis on a well-formed value by its type. *)
Ltac wf_cases t d H :=
  destruct (code_of t) as [[]|] eqn:Ht; cbn in H; rewrite ?Ht in H; try discriminate H;
  try (is_var d; destruct d; try discriminate H); apply code_of_inv in Ht; subst t; cbn [code_byte] in *.

Lemma len_concat {A B} (g : A -> list B) l : len (concat (map g l)) = sumZ (map (fun x => len (g x)) l).
Proof. induction l as [|x l IH]; cbn [map concat]; [done|]. by rewrite len_app, IH. Qed.

(** Encoding the elements of an array, the entries of a map, one by one. *)
Lemma append_all_values vs :
  Forall (fun e => marshalPayload e = Ok (payload_of e)) vs ->
  append_all (fun elem => p ← marshalPayload elem; Ok (tlv_frame (Typ elem) p)) vs
  = Ok (concat (map enc vs)).
Proof.
  intros H. apply append_all_Ok. eapply Forall_impl; [|exact H].
  intros e He. unfold enc. by rewrite He.
Qed.

Lemma append_all_entries m :
  Forall (fun e => marshalPayload (Val e) = Ok (payload_of (Val e))) m ->
  append_all (fun '(mkEntry key val) =>
    let keyBuf := tlv_frame TypeString (bytes_of key) in
    p ← marshalPayload val; Ok (keyBuf ++ tlv_frame (Typ val) p)) m
  = Ok (concat (map enc_entry m)).
Proof.
  intros H. apply append_all_Ok. eapply Forall_impl; [|exact H].
  intros [k x] He. cbn [Val] in He. unfold enc_entry, enc. by rewrite He.
Qed.

Lemma marshalPayload_ok v :
  value_wf v = true -> marshalPayload v = Ok (payload_of v) /\ len (payload_of v) = psize v.
Proof.
  induction v as [t d Ha Hm | t vs IH | t m IH] using Value_nested_ind; intros Hwf.
  - wf_cases t d Hwf; try by (edestruct Ha + edestruct Hm). all: split; try done.
    by destruct b.
  - wf_cases t (DArray vs) Hwf. apply forallb_Forall in Hwf.
    pose proof (Forall_conj _ _ _ IH Hwf) as Hall.
    unfold payload_of. cbn [marshalPayload code_of psize].
    rewrite append_all_values
      by (eapply Forall_impl; [|exact Hall]; intros e [He Hw]; by destruct (He Hw)).
    split; [done|]. rewrite len_concat. f_equal.
    apply map_ext_Forall. eapply Forall_impl; [|exact Hall].
    intros e [He Hw]. destruct (He Hw) as [_ Hl].
    unfold enc. by rewrite len_tlv_frame, Hl.
  - wf_cases t (DMap m) Hwf. apply andb_true_iff in Hwf as [_ Hwf].
    rewrite value_wf_entries in Hwf. apply forallb_Forall in Hwf.
    pose proof (Forall_conj _ _ _ IH Hwf) as Hall.
    unfold payload_of. cbn [marshalPayload code_of psize].
    rewrite append_all_entries
      by (eapply Forall_impl; [|exact Hall]; intros e [He Hw]; by destruct (He Hw)).
    split; [done|]. rewrite len_concat. f_equal.
    apply map_ext_Forall. eapply Forall_impl; [|exact Hall].
    intros [k x] [He Hw]. destruct (He Hw) as [_ Hl]. cbn [Val] in Hl.
    unfold enc_entry, enc. cbn [Key Val]. by rewrite len_app, !len_tlv_frame, Hl.
Qed.

Lemma marshalValue_ok v : value_wf v = true -> marshalValue v = Ok (enc v).
Proof. intros H. unfold marshalValue, enc. by destruct (marshalPayload_ok v H) as [-> _]. Qed.

Lemma len_payload_of v : value_wf v = true -> len (payload_of v) = psize v.
Proof. intros H. by destruct (marshalPayload_ok v H). Qed.

Lemma len_enc v : value_wf v = true -> len (enc v) = frame_size (psize v).
Proof. intros H. unfold enc. by rewrite len_tlv_frame, len_payload_of. Qed.

Lemma MustEncode_ok v : value_wf v = true -> MustEncode v = Ok (enc v).
Proof. intros H. unfold MustEncode. by rewrite marshalValue_ok. Qed.

Lemma MustEncodeMap_ok m : map_wf m = true -> MustEncodeMap m = Ok (enc (MapValue m)).
Proof. intros H. apply MustEncode_ok. by rewrite MapValue_wf. Qed.

Lemma payload_of_array vs :
  Forall (fun e => value_wf e = true) vs ->
  payload_of (tlv_Array vs) = concat (map enc vs).
Proof.
  intros H. unfold payload_of, tlv_Array. cbn [marshalPayload code_of code_byte].
  rewrite append_all_values; [done|]. eapply Forall_impl; [|exact H].
  intros e He. by destruct (marshalPayload_ok e He).
Qed.

Lemma payload_of_map m :
  Forall (fun e => value_wf (Val e) = true) m ->
  payload_of (MapValue m) = concat (map enc_entry m).
Proof.
  intros H. unfold payload_of, MapValue. cbn [marshalPayload code_of code_byte].
  rewrite append_all_entries; [done|]. eapply Forall_impl; [|exact H].
  intros e He. by destruct (marshalPayload_ok (Val e) He).
Qed.
