(* ===== verification/TlvDecode.v ===== *)
(** * The TLV decoder

    [src/tlv/decode.go]: [Decode], [DecodeAll], [DecodeBytes], [DecodeMap] and
    the mutually recursive [decodeValue] / [decodeValueBytes].  The Go code
    recurses on shrinking slices; here the recursion is on fuel, three times
    the payload length plus three (each byte pays for one call of
    [decodeValue], one of [decodeValueBytes] and one round of a loop), and
    [decodeValue_total] proves that this fuel always suffices. *)

From S2P Require Import Prelude GoRt Varint Tlv TlvSpec.

Definition MaxDecodeDepth : Z := 64.

(** The payload limit of [decodeReader] and [decodeValueBytes] (512 KiB). *)
Definition maxPayload : Z := 524288.

Definition err_depth (depth : Z) : error :=
  Errorf "tlv: nested depth %d exceeds maximum %d" [AInt depth; AInt MaxDecodeDepth].
Definition err_too_large (length : Z) : error :=
  Errorf "tlv: payload too large (%d bytes, max 524288)" [AInt length].
Definition err_varint : error := Errorf "tlv: invalid varint length" [].

(** A fixed-width field: [n] bytes are needed, and only they are read. *)
Definition need (payload : list byte) (n : nat) (msg : string) : res (list byte) :=
  if len payload <? Z.of_nat n then Err (Errorf msg []) else slice payload 0 (Z.of_nat n).

(** ** [decodeValue], its two loops, and [decodeValueBytes] *)

Fixpoint decodeValue (fuel : nat) (t : byte) (payload : list byte) (depth : Z) : res Value :=
  match fuel with O => OutOfFuel | S fuel =>
  if MaxDecodeDepth <? depth then Err (err_depth depth) else
  match code_of t with
  | Some TypeString => Ok (tlv_String (string_of payload))
  | Some TypeBytes => Ok (tlv_Bytes payload)
  | Some TypeUint8 => b ← need payload 1 "tlv: uint8 needs 1 byte"; Ok (tlv_Uint8 (be_get b))
  | Some TypeUint16 => b ← need payload 2 "tlv: uint16 needs 2 bytes"; Ok (tlv_Uint16 (be_get b))
  | Some TypeUint32 => b ← need payload 4 "tlv: uint32 needs 4 bytes"; Ok (tlv_Uint32 (be_get b))
  | Some TypeUint64 => b ← need payload 8 "tlv: uint64 needs 8 bytes"; Ok (tlv_Uint64 (be_get b))
  | Some TypeInt32 =>
      b ← need payload 4 "tlv: int32 needs 4 bytes"; Ok (tlv_Int32 (wrapS 32 (be_get b)))
  | Some TypeInt64 =>
      b ← need payload 8 "tlv: int64 needs 8 bytes"; Ok (tlv_Int64 (wrapS 64 (be_get b)))
  | Some TypeFloat32 =>
      b ← need payload 4 "tlv: float32 needs 4 bytes"; Ok (tlv_Float32 (be_get b))
  | Some TypeFloat64 =>
      b ← need payload 8 "tlv: float64 needs 8 bytes"; Ok (tlv_Float64 (be_get b))
  | Some TypeBool =>
      b ← need payload 1 "tlv: bool needs 1 byte"; Ok (tlv_Bool (negb (be_get b =? 0)))
  | Some TypeNull => Ok tlv_Null
  | Some TypeTimestamp =>
      b ← need payload 8 "tlv: timestamp needs 8 bytes";
      Ok (tlv_Timestamp (UnixMilli_time (wrapS 64 (be_get b))))
  | Some TypeArray => elems ← decodeArray fuel payload depth []; Ok (tlv_Array elems)
  | Some TypeMap => m ← decodeEntries fuel payload depth NewMap; Ok (MapValue m)
  | None => Err (Errorf "tlv: unknown type 0x%02x" [AInt (byteZ t)])
  end
  end
(** The loop of the [TypeArray] case. *)
with decodeArray (fuel : nat) (buf : list byte) (depth : Z) (elems : list Value)
  : res (list Value) :=
  match fuel with O => OutOfFuel | S fuel =>
  if len buf <=? 0 then Ok elems else
  '(v, n) ← decodeValueBytes fuel buf depth;
  buf ← slice buf n (len buf);
  decodeArray fuel buf depth (elems ++ [v])
  end
(** The loop of the [TypeMap] case. *)
with decodeEntries (fuel : nat) (buf : list byte) (depth : Z) (m : Map) : res Map :=
  match fuel with O => OutOfFuel | S fuel =>
  if len buf <=? 0 then Ok m else
  '(key, n) ← decodeValueBytes fuel buf (depth + 1);
  if bool_decide (Typ key <> TypeString)
  then Err (Errorf "tlv: map key must be string, got %s" [AStr (Type_String (Typ key))])
  else
  buf ← slice buf n (len buf);
  if len buf =? 0
  then k ← Value_String key;
       Err (Errorf "tlv: map entry missing value for key %q" [AStr k])
  else
  '(val, n2) ← decodeValueBytes fuel buf (depth + 1);
  buf ← slice buf n2 (len buf);
  k ← Value_String key;
  decodeEntries fuel buf depth (Map_Set m k val)
  end
with decodeValueBytes (fuel : nat) (buf : list byte) (depth : Z) : res (Value * Z) :=
  match fuel with O => OutOfFuel | S fuel =>
  match buf with
  | [] => Err io_ErrUnexpectedEOF
  | t :: rest =>
      let '(length, n) := Uvarint rest in
      if maxPayload <? length then Err (err_too_large length) else
      if n <=? 0 then Err err_varint else
      let start := 1 + n in
      if len buf <? wrapU 64 (start + length) then Err io_ErrUnexpectedEOF else
      p ← slice buf (wrapS 64 start) (wrapS 64 (wrapU 64 (start + length)));
      v ← decodeValue fuel t p (depth + 1);
      Ok (v, wrapS 64 (wrapU 64 (start + length)))
  end
  end.

(** Fuel for a payload of [n] bytes. *)
Definition fuel_for (n : nat) : nat := 3 * n + 3.

(** ** The entry points *)

Definition DecodeBytes (buf : list byte) : res Value :=
  match buf with
  | [] => Err io_ErrUnexpectedEOF
  | t :: rest =>
      let '(length, n) := Uvarint rest in
      if n <=? 0 then Err err_varint else
      let payloadStart := 1 + n in
      if len buf <? wrapU 64 (payloadStart + length) then Err io_ErrUnexpectedEOF else
      p ← slice buf payloadStart (wrapU 64 (payloadStart + length));
      decodeValue (fuel_for (List.length p)) t p 0
  end.

Definition MustDecode (buf : list byte) : res Value :=
  match DecodeBytes buf with Err e => Panic (PExplicit e) | r => r end.

Definition DecodeMap (buf : list byte) : res Map :=
  v ← DecodeBytes buf;
  if bool_decide (Typ v <> TypeMap)
  then Err (Errorf "tlv: expected map, got %s" [AStr (Type_String (Typ v))])
  else Value_Map v.

(** [decodeReader]; [ReadUvarint]'s value is compared before its error. *)
Definition decodeReader : M Reader Value := fun br =>
  match ReadByte br with
  | (br, Ok t) =>
      let '(br, (length, err)) := ReadUvarint br in
      if maxPayload <? length then (br, Err (err_too_large length)) else
      match err with
      | Some e => (br, Err (Wrapf "tlv: read length: %w" [] e))
      | None =>
          let '(br, payload) :=
            if 0 <? length then ReadFull length br else (br, Ok []) in
          match payload with
          | Ok p => (br, decodeValue (fuel_for (List.length p)) t p 0)
          | Err e => (br, Err (Wrapf "tlv: read payload: %w" [] e))
          | Panic p => (br, Panic p)
          | OutOfFuel => (br, OutOfFuel)
          end
      end
  | (br, Err e) => (br, Err (Wrapf "tlv: read type: %w" [] e))
  | (br, Panic p) => (br, Panic p)
  | (br, OutOfFuel) => (br, OutOfFuel)
  end.

(** [Decode(r)]: the buffered reader may take more from [r] than the value. *)
Definition Decode (r : Reader) : res Value := snd (decodeReader r).

(** The loop of [DecodeAll]; every round but the last consumes a byte, so the
    fuel is the number of unread bytes plus one. *)
Fixpoint decodeAll_loop (fuel : nat) (br : Reader) (vals : list Value) : res (list Value) :=
  match fuel with O => OutOfFuel | S fuel =>
  match decodeReader br with
  | (br, Ok v) => decodeAll_loop fuel br (vals ++ [v])
  | (_, Err e) => if errors_Is e io_EOF then Ok vals else Err e
  | (_, Panic p) => Panic p
  | (_, OutOfFuel) => OutOfFuel
  end
  end.

Definition DecodeAll (r : Reader) : res (list Value) :=
  decodeAll_loop (S (length (unread r))) r [].
