(* ===== verification/TlvSafe.v ===== *)
(** * The TLV decoder is safe

    The decoder's fuel suffices and [decodeValue] never panics; what it
    returns is a well-formed value; [decodeValueBytes] consumes between two
    bytes and the whole buffer; and the one panic of the package's entry
    points, the 64-bit wrap-around of [payloadStart + length] in
    [DecodeBytes], is characterised exactly. *)

From S2P Require Import Prelude GoRt Varint Tlv TlvSpec TlvDecode.

(** ** Field reads and slices *)

Lemma need_Ok payload n msg b :
  need payload n msg = Ok b -> b = take n payload /\ length b = n.
Proof.
  unfold need. destruct (Z.ltb_spec (len payload) (Z.of_nat n)) as [|Hn]; [done|].
  rewrite slice_ok by lia. intros [= <-]. unfold len in Hn.
  rewrite Z.sub_0_r, Nat2Z.id, drop_0, length_take. split; [done|lia].
Qed.

Lemma need_enough payload n msg :
  Z.of_nat n <= len payload -> need payload n msg = Ok (take n payload).
Proof.
  intros Hn. unfold need. rewrite (proj2 (Z.ltb_ge _ _)) by lia.
  rewrite slice_ok by lia. by rewrite Z.sub_0_r, Nat2Z.id, drop_0.
Qed.

Lemma returns_need payload n msg : returns (need payload n msg).
Proof.
  unfold need. destruct (Z.ltb_spec (len payload) (Z.of_nat n)); [done|].
  by rewrite slice_ok by lia.
Qed.

Lemma be_get_need payload n msg b :
  need payload n msg = Ok b -> 0 <= be_get b < 256 ^ Z.of_nat n.
Proof. intros [_ <-]%need_Ok. apply be_get_range. Qed.

(** ** [decodeValueBytes] without its machine arithmetic

    Under the payload limit nothing wraps: the function splits the buffer into
    the type byte, the varint, the payload and the rest. *)
Lemma decodeValueBytes_eq fuel t rest depth :
  decodeValueBytes (S fuel) (t :: rest) depth =
    let '(length, n) := Uvarint rest in
    if maxPayload <? length then Err (err_too_large length) else
    if n <=? 0 then Err err_varint else
    if len rest <? n + length then Err io_ErrUnexpectedEOF else
    v ← decodeValue fuel t (take (Z.to_nat length) (drop (Z.to_nat n) rest)) (depth + 1);
    Ok (v, 1 + n + length).
Proof.
  cbn [decodeValueBytes]. destruct (Uvarint rest) as [length n] eqn:Hu.
  destruct (Z.ltb_spec maxPayload length) as [|Hmax]; [done|].
  destruct (Z.leb_spec n 0) as [|Hn]; [done|].
  destruct (Uvarint_inv _ _ _ Hu Hn) as (Hl & Hn10 & Hlen & _).
  unfold maxPayload in Hmax.
  assert (Hw : wrapU 64 (1 + n + length) = 1 + n + length) by (apply wrapU_small; lia).
  assert (Hs : forall z, 0 <= z < 1000000 -> wrapS 64 z = z).
  { intros z Hz. unfold wrapS. rewrite wrapU_small by lia.
    by rewrite (proj2 (Z.ltb_lt _ _)) by lia. }
  rewrite Hw, !Hs, len_cons by lia.
  replace (1 + len rest <? 1 + n + length) with (len rest <? n + length)
    by (apply eq_bool_prop_intro; rewrite !Is_true_true, !Z.ltb_lt; lia).
  destruct (Z.ltb_spec (len rest) (n + length)); [done|].
  rewrite slice_ok by (rewrite ?len_cons; lia). cbn [mbind res_bind].
  replace (Z.to_nat (1 + n)) with (S (Z.to_nat n)) by lia. cbn [drop].
  by replace (1 + n + length - (1 + n)) with length by lia.
Qed.

(** The number of bytes a successful [decodeValueBytes] consumes. *)
Lemma decodeValueBytes_count fuel buf depth v n :
  decodeValueBytes fuel buf depth = Ok (v, n) -> 2 <= n <= len buf.
Proof.
  destruct fuel as [|fuel]; [done|]. destruct buf as [|t rest]; [done|].
  rewrite decodeValueBytes_eq, len_cons.
  destruct (Uvarint rest) as [length c] eqn:Hu.
  destruct (maxPayload <? length); [done|].
  destruct (Z.leb_spec c 0); [done|].
  destruct (Uvarint_inv _ _ _ Hu ltac:(lia)) as (Hl & Hn10 & Hlen & _).
  destruct (Z.ltb_spec (len rest) (c + length)); [done|].
  intros H'. inv_res. lia.
Qed.

(** ** What decoding returns is well formed *)

Lemma UnixMilli_time_wf ms :
  in_int 64 ms = true -> value_wf (tlv_Timestamp (UnixMilli_time ms)) = true.
Proof. intros H. cbn. unfold UnixMilli_time. by rewrite Z.div_mul. Qed.

Lemma in_uint_be_get payload n msg b w :
  need payload n msg = Ok b -> w = 8 * Z.of_nat n -> in_uint w (be_get b) = true.
Proof.
  intros H%be_get_need ->. apply in_uint_spec. by rewrite Z.pow_mul_r by lia.
Qed.

Section decode_wf.
(** What each of the four functions promises about its result. *)
Let wfs := Forall (fun v => value_wf v = true).
Definition value_post fuel := forall t p depth v,
  decodeValue fuel t p depth = Ok v -> value_wf v = true /\ Typ v = t.
Definition array_post fuel := forall buf depth el vs,
  wfs el -> decodeArray fuel buf depth el = Ok vs -> wfs vs.
Definition entries_post fuel := forall buf depth m m',
  map_wf m = true -> decodeEntries fuel buf depth m = Ok m' -> map_wf m' = true.
Definition bytes_post fuel := forall buf depth v n,
  decodeValueBytes fuel buf depth = Ok (v, n) -> value_wf v = true.

Lemma decodeValue_wf_step fuel :
  array_post fuel -> entries_post fuel -> value_post (S fuel).
Proof.
  intros IHa IHm t p depth v H. cbn [decodeValue] in H.
  destruct (MaxDecodeDepth <? depth); [done|].
  destruct (code_of t) as [c|] eqn:Ht; [|done]. apply code_of_inv in Ht as ->.
  destruct c; inv_res; (split; [|done]); try done;
    try (by cbn; eapply in_uint_be_get); try (by cbn; apply wrapS_range).
  - cbn. apply forallb_Forall. eapply IHa; [|done]. constructor.
  - rewrite MapValue_wf. eapply IHm; [|done]. done.
  - by apply UnixMilli_time_wf, wrapS_range.
Qed.

Lemma decodeArray_wf_step fuel :
  bytes_post fuel -> array_post fuel -> array_post (S fuel).
Proof.
  intros IHb IHa buf depth el vs Hel H. cbn [decodeArray] in H.
  destruct (len buf <=? 0); inv_res; [done|].
  destruct x as [v n]. inv_res. eapply IHa; [|done].
  apply Forall_app. split; [done|]. repeat constructor. by eapply IHb.
Qed.

Lemma decodeEntries_wf_step fuel :
  bytes_post fuel -> entries_post fuel -> entries_post (S fuel).
Proof.
  intros IHb IHm buf depth m m' Hm H. cbn [decodeEntries] in H.
  destruct (len buf <=? 0); inv_res; [done|]. destruct x as [key n].
  case_bool_decide; [done|]. inv_res. destruct (len _ =? 0); inv_res.
  destruct x0 as [val n2]. inv_res. eapply IHm; [|done].
  apply Map_Set_wf; [done|]. by eapply IHb.
Qed.

Lemma decodeValueBytes_wf_step fuel : value_post fuel -> bytes_post (S fuel).
Proof.
  intros IHv buf depth v n H. destruct buf as [|t rest]; [done|].
  rewrite decodeValueBytes_eq in H. destruct (Uvarint rest) as [length c].
  repeat (case_match; [done|]). inv_res. by eapply IHv.
Qed.

Lemma decode_wf_all fuel :
  value_post fuel /\ array_post fuel /\ entries_post fuel /\ bytes_post fuel.
Proof.
  induction fuel as [|fuel (IHv & IHa & IHm & IHb)];
    [by repeat split|].
  auto using decodeValue_wf_step, decodeArray_wf_step, decodeEntries_wf_step,
    decodeValueBytes_wf_step.
Qed.
End decode_wf.

Lemma decodeValue_wf fuel t p depth v :
  decodeValue fuel t p depth = Ok v -> value_wf v = true /\ Typ v = t.
Proof. apply decode_wf_all. Qed.

Lemma decodeValueBytes_wf fuel buf depth v n :
  decodeValueBytes fuel buf depth = Ok (v, n) -> value_wf v = true.
Proof. apply decode_wf_all. Qed.

(** ** Decoding always returns *)

(** A well-formed string value is a string. *)
Lemma Value_String_wf v :
  value_wf v = true -> Typ v = TypeString -> exists s, v = tlv_String s.
Proof.
  destruct v as [t d]. cbn [Typ]. intros H ->. destruct d; try discriminate H. eauto.
Qed.

Section decode_total.
Definition value_total fuel := forall t p depth,
  3 * len p + 3 <= Z.of_nat fuel -> returns (decodeValue fuel t p depth).
Definition array_total fuel := forall buf depth el,
  3 * len buf + 2 <= Z.of_nat fuel -> returns (decodeArray fuel buf depth el).
Definition entries_total fuel := forall buf depth m,
  3 * len buf + 2 <= Z.of_nat fuel -> returns (decodeEntries fuel buf depth m).
Definition bytes_total fuel := forall buf depth,
  3 * len buf + 1 <= Z.of_nat fuel -> returns (decodeValueBytes fuel buf depth).

Lemma decodeValue_total_step fuel :
  array_total fuel -> entries_total fuel -> value_total (S fuel).
Proof.
  intros IHa IHm t p depth Hf. cbn [decodeValue].
  destruct (MaxDecodeDepth <? depth); [done|].
  destruct (code_of t) as [[]|]; try done;
    (apply returns_bind; [|done]); try apply returns_need.
  - apply IHa. lia.
  - apply IHm. lia.
Qed.

Lemma decodeArray_total_step fuel :
  bytes_total fuel -> array_total fuel -> array_total (S fuel).
Proof.
  intros IHb IHa buf depth el Hf. cbn [decodeArray].
  destruct (len buf <=? 0); [done|].
  apply returns_bind; [apply IHb; lia|]. intros [v n] H.
  apply decodeValueBytes_count in H. rewrite slice_tail by lia.
  apply IHa. rewrite len_drop. lia.
Qed.

Lemma decodeEntries_total_step fuel :
  bytes_total fuel -> entries_total fuel -> entries_total (S fuel).
Proof.
  intros IHb IHm buf depth m Hf. cbn [decodeEntries].
  destruct (len buf <=? 0); [done|].
  apply returns_bind; [apply IHb; lia|]. intros [key n] Hk.
  pose proof (decodeValueBytes_count _ _ _ _ _ Hk).
  pose proof (decodeValueBytes_wf _ _ _ _ _ Hk) as Hwf.
  case_bool_decide as Ht; [done|].
  destruct (Value_String_wf key Hwf Ht) as [k ->].
  rewrite slice_tail by lia. cbn [mbind res_bind].
  destruct (len _ =? 0); [done|].
  apply returns_bind; [apply IHb; rewrite len_drop; lia|]. intros [val n2] Hv.
  apply decodeValueBytes_count in Hv. rewrite slice_tail by lia.
  apply IHm. rewrite !len_drop in *. lia.
Qed.

Lemma decodeValueBytes_total_step fuel : value_total fuel -> bytes_total (S fuel).
Proof.
  intros IHv buf depth Hf. destruct buf as [|t rest]; [done|].
  rewrite decodeValueBytes_eq, len_cons in *.
  destruct (Uvarint rest) as [length c] eqn:Hu.
  destruct (maxPayload <? length); [done|].
  destruct (Z.leb_spec c 0); [done|].
  destruct (Z.ltb_spec (len rest) (c + length)); [done|].
  apply returns_bind; [|done]. apply IHv.
  rewrite len_take, len_drop. pose proof (len_nonneg rest). lia.
Qed.

Lemma decode_total_all fuel :
  value_total fuel /\ array_total fuel /\ entries_total fuel /\ bytes_total fuel.
Proof.
  induction fuel as [|fuel (IHv & IHa & IHm & IHb)].
  - repeat split; intros ? *; pose proof (len_nonneg (A:=byte)); intros; exfalso.
    all: match goal with H : context [len ?x], Hn : forall _, _ |- _ => specialize (Hn x); lia end.
  - auto using decodeValue_total_step, decodeArray_total_step,
      decodeEntries_total_step, decodeValueBytes_total_step.
Qed.
End decode_total.

(** ** The safety theorems *)

(** C36. The recursive decoder is total: on every type byte, payload and depth,
    [decodeValue] returns a value or an error. It never panics (no slice
    expression leaves the buffer and every type assertion holds), and the
    fuel computed from the payload's length never runs out, so the loops over
    nested values terminate. *)
Theorem decodeValue_total t (payload : list byte) depth :
  returns (decodeValue (fuel_for (length payload)) t payload depth).
Proof.
  destruct (decode_total_all (fuel_for (length payload))) as [H _].
  apply H. unfold fuel_for, len. lia.
Qed.

Lemma fuel_for_len (p : list byte) : 3 * len p + 3 <= Z.of_nat (fuel_for (length p)).
Proof. unfold fuel_for, len. lia. Qed.
#[export] Hint Resolve fuel_for_len : hush.

Lemma returns_not_panic {A} (r : res A) : returns r -> is_panic r = false.
Proof. by destruct r. Qed.

(** [DecodeBytes] without machine arithmetic, away from the wrap-around. *)
Lemma DecodeBytes_eq t rest length n :
  Uvarint rest = (length, n) -> 0 < n -> 1 + n + length < 2 ^ 64 ->
  DecodeBytes (t :: rest) =
    if len rest <? n + length then Err io_ErrUnexpectedEOF
    else let p := take (Z.to_nat length) (drop (Z.to_nat n) rest) in
         decodeValue (fuel_for (List.length p)) t p 0.
Proof.
  intros Hu Hn Hw. unfold DecodeBytes. rewrite Hu.
  destruct (Uvarint_inv _ _ _ Hu Hn) as (Hl & Hn10 & Hlen & _).
  rewrite (proj2 (Z.leb_gt n 0)) by lia. rewrite wrapU_small, len_cons by lia.
  replace (1 + len rest <? 1 + n + length) with (len rest <? n + length)
    by (apply eq_bool_prop_intro; rewrite !Is_true_true, !Z.ltb_lt; lia).
  destruct (Z.ltb_spec (len rest) (n + length)); [done|].
  rewrite slice_ok by (rewrite ?len_cons; lia). cbn [mbind res_bind].
  replace (Z.to_nat (1 + n)) with (S (Z.to_nat n)) by lia. cbn [drop].
  by replace (1 + n + length - (1 + n)) with length by lia.
Qed.

(** When the sum wraps, the length check passes and the slice expression has
    its bounds in the wrong order. *)
Lemma DecodeBytes_wrap t rest length n :
  Uvarint rest = (length, n) -> 0 < n -> 2 ^ 64 <= 1 + n + length ->
  DecodeBytes (t :: rest) = Panic PSliceBounds.
Proof.
  intros Hu Hn Hw. unfold DecodeBytes. rewrite Hu.
  destruct (Uvarint_inv _ _ _ Hu Hn) as (Hl & Hn10 & Hlen & _).
  rewrite (proj2 (Z.leb_gt n 0)), len_cons by lia.
  assert (wrapU 64 (1 + n + length) = 1 + n + length - 2 ^ 64) as ->.
  { unfold wrapU. rewrite <-(Z_mod_plus_full _ (-1)), Z.mod_small; lia. }
  rewrite (proj2 (Z.ltb_ge _ _)) by lia. unfold slice.
  by rewrite (proj2 (Z.leb_gt (1 + n) _)), andb_false_r by lia.
Qed.

(** The sum wraps around 64 bits. *)
Definition wraps (buf : list byte) : Prop :=
  exists t rest length n, buf = t :: rest /\ Uvarint rest = (length, n) /\
    0 < n /\ 2 ^ 64 <= 1 + n + length.

Lemma DecodeBytes_cases buf : wraps buf \/ returns (DecodeBytes buf).
Proof.
  destruct buf as [|t rest]; [by right|].
  destruct (Uvarint rest) as [length n] eqn:Hu.
  destruct (Z.leb_spec n 0) as [Hn|Hn].
  { right. unfold DecodeBytes. by rewrite Hu, (proj2 (Z.leb_le n 0)) by lia. }
  destruct (Z.ltb_spec (1 + n + length) (2 ^ 64)) as [Hw|Hw].
  - right. rewrite (DecodeBytes_eq _ _ _ _ Hu Hn Hw).
    destruct (len rest <? n + length); [done|]. apply decode_total_all, fuel_for_len.
  - left. by exists t, rest, length, n.
Qed.

(** C23. The only panic of [DecodeBytes] (and so of [DecodeMap] and of frame
    parsing, which call it on received bytes): it panics exactly when the
    varint length is so large that [payloadStart + length] wraps around
    64 bits, and then always with slice bounds out of range. *)
Theorem DecodeBytes_panic_iff buf p :
  DecodeBytes buf = Panic p <-> p = PSliceBounds /\ wraps buf.
Proof.
  split.
  - intros H. destruct (DecodeBytes_cases buf) as [Hw|Hr]; [|by rewrite H in Hr].
    split; [|done]. destruct Hw as (t & rest & length & n & -> & Hu & Hn & Hw).
    rewrite (DecodeBytes_wrap _ _ _ _ Hu Hn Hw) in H. by simplify_eq.
  - intros (-> & t & rest & length & n & -> & Hu & Hn & Hw).
    by eapply DecodeBytes_wrap.
Qed.

(** The crafted input: type byte, then the varint of 2^64 - 1. *)
Definition poison (t : byte) : list byte :=
  t :: [xff; xff; xff; xff; xff; xff; xff; xff; xff; x01].

Lemma DecodeBytes_panic_iff_example : DecodeBytes (poison x0d) = Panic PSliceBounds.
Proof. vm_compute. reflexivity. Qed.

Lemma DecodeBytes_typed t rest v :
  DecodeBytes (t :: rest) = Ok v -> value_wf v = true /\ Typ v = t.
Proof.
  unfold DecodeBytes. destruct (Uvarint rest) as [length n].
  destruct (n <=? 0); [done|]. destruct (_ <? _); [done|].
  intros H. inv_res. by eapply decodeValue_wf.
Qed.

Lemma DecodeMap_inv buf m :
  DecodeMap buf = Ok m -> DecodeBytes buf = Ok (MapValue m) /\ map_wf m = true.
Proof.
  unfold DecodeMap. intros H. inv_res. case_bool_decide as Ht; [done|].
  destruct buf as [|t rest]; [done|].
  match goal with H : DecodeBytes _ = Ok _ |- _ => pose proof H as [Hwf _]%DecodeBytes_typed end.
  destruct x as [ty d]. cbn [Typ] in Ht. subst ty.
  destruct d; try discriminate. unfold Value_Map in *. cbn [data] in *. inv_res.
  split; [done|]. by rewrite <-MapValue_wf.
Qed.

(** C30. The type invariant of decoded data: a value [DecodeBytes] returns has
    the type byte of the wire, its content is of that type with integers in
    range and timestamps in milliseconds, the same holds for everything nested
    in it, and the keys of every map are distinct; on a map [DecodeMap]
    returns, the typed getters never panic, whatever the key. *)
Theorem decoded_well_formed t rest v :
  DecodeBytes (t :: rest) = Ok v ->
  value_wf v = true /\ Typ v = t /\
  forall m, DecodeMap (t :: rest) = Ok m ->
    v = MapValue m /\
    forall k, returns (Map_GetString m k) /\ returns (Map_GetUint64 m k) /\
              returns (Map_GetBytes m k) /\ returns (Map_GetMap m k).
Proof.
  intros Hv. destruct (DecodeBytes_typed _ _ _ Hv) as [H1 H2].
  split; [done|]. split; [done|]. intros m [Hm Hwf]%DecodeMap_inv.
  rewrite Hv in Hm. simplify_eq. split; [done|].
  intros k. by apply Map_getters_return.
Qed.

Lemma decoded_well_formed_witness :
  exists m, Map_GetUint64 m "a" = Ok (7, true) /\ returns (Map_GetString m "b").
Proof.
  exists [mkEntry "a" (tlv_Uint64 7)].
  destruct (decoded_well_formed x0d
    [x0d; x01; x01; x61; x06; x08; x00; x00; x00; x00; x00; x00; x00; x07]
    (MapValue [mkEntry "a" (tlv_Uint64 7)]) ltac:(vm_compute; reflexivity))
    as (_ & _ & H).
  destruct (H _ ltac:(vm_compute; reflexivity)) as [_ H'].
  split; [reflexivity|apply H'].
Defined.
