(* ===== verification/TlvRoundtrip.v ===== *)
(** * Encoding and decoding TLV values

    The decoder inverts the encoder on well-formed values, up to the
    milliseconds of timestamps, exactly when the nesting the decoder counts is
    within [MaxDecodeDepth]; encodings concatenate into streams that
    [DecodeAll] splits again; and re-encoding a decoded value gives a canonical
    form that is never longer than the input. *)

From S2P Require Import Prelude GoRt Varint Tlv TlvSpec TlvDecode TlvSafe.

(** ** One frame *)

Lemma frame_split t p rest :
  tlv_frame t p ++ rest = t :: PutUvarint (wrapU 64 (len p)) ++ p ++ rest.
Proof. unfold tlv_frame. cbn. by rewrite <-app_assoc. Qed.

Lemma decodeValueBytes_frame fuel t p rest depth :
  len p <= maxPayload ->
  decodeValueBytes (S fuel) (tlv_frame t p ++ rest) depth =
    v ← decodeValue fuel t p (depth + 1); Ok (v, len (tlv_frame t p)).
Proof.
  intros Hp. unfold maxPayload in Hp. pose proof (len_nonneg p).
  rewrite frame_split, decodeValueBytes_eq.
  assert (Hw : wrapU 64 (len p) = len p) by (apply wrapU_small; lia).
  rewrite Hw, Uvarint_PutUvarint by lia.
  pose proof (PutUvarint_length (len p)).
  unfold maxPayload. rewrite (proj2 (Z.ltb_ge 524288 _)) by lia.
  rewrite (proj2 (Z.leb_gt _ _)) by lia.
  rewrite (proj2 (Z.ltb_ge _ _))
    by (rewrite !len_app; pose proof (len_nonneg rest); lia).
  rewrite drop_len_app, take_len_app.
  destruct (decodeValue fuel t p (depth + 1)); cbn; try done.
  unfold tlv_frame. rewrite len_cons, len_app, Hw. do 2 f_equal. lia.
Qed.

Lemma slice_after {A} (a b : list A) : slice (a ++ b) (len a) (len (a ++ b)) = Ok b.
Proof.
  rewrite slice_tail by (rewrite len_app; pose proof (len_nonneg a); pose proof (len_nonneg b); lia).
  by rewrite drop_len_app.
Qed.

Lemma len_frame_pos t p : 2 <= len (tlv_frame t p).
Proof.
  unfold tlv_frame. rewrite len_cons, len_app.
  pose proof (PutUvarint_length (wrapU 64 (len p))). pose proof (len_nonneg p). lia.
Qed.

(** ** The decoder on an encoding *)

(** What decoding the encoding of [v] at [depth] gives: the normal form if the
    levels below fit, an error otherwise. *)
Definition decodes (r : res Value) (v : Value) (depth : Z) : Prop :=
  (depth + height v <= MaxDecodeDepth -> r = Ok (norm v)) /\
  (MaxDecodeDepth < depth + height v -> is_err r = true).

Definition decode_spec (v : Value) : Prop := forall fuel depth,
  value_wf v = true -> nested_fits maxPayload v = true -> 0 <= depth ->
  3 * psize v + 3 <= Z.of_nat fuel ->
  decodes (decodeValue fuel (Typ v) (payload_of v) depth) v depth.

(** Scalars. *)
Lemma be_put_need n z msg :
  need (be_put n z) n msg = Ok (be_put n z).
Proof.
  rewrite need_enough by (rewrite len_be_put; lia). f_equal.
  apply take_ge. by rewrite length_be_put.
Qed.

Lemma be_get_put_w n w z :
  w = 8 * Z.of_nat n -> in_uint w z = true -> be_get (be_put n z) = z.
Proof.
  intros -> Hz%in_uint_spec. rewrite Z.pow_mul_r in Hz by lia.
  by apply be_get_put_small.
Qed.

Lemma wrapS_get_put n w z :
  w = 8 * Z.of_nat n -> 0 < w -> in_int w z = true ->
  wrapS w (be_get (be_put n (wrapU w z))) = z.
Proof.
  intros Hw H0 Hz. rewrite (be_get_put_w n w) by (done || by apply wrapU_range; lia).
  by apply wrapS_wrapU.
Qed.

Lemma decode_scalar t d :
  (forall vs, d <> DArray vs) -> (forall m, d <> DMap m) -> decode_spec (mkValue t d).
Proof.
  intros Ha Hm fuel depth Hwf _ Hd Hf.
  pose proof (psize_nonneg (mkValue t d)).
  destruct fuel as [|fuel]; [lia|]. unfold decodes, payload_of.
  replace (height (mkValue t d)) with 0
    by (destruct d; try done; by (edestruct Ha + edestruct Hm)).
  cbn [decodeValue].
  split; intros Hdepth; [rewrite (proj2 (Z.ltb_ge _ _)) by lia|
                         by rewrite (proj2 (Z.ltb_lt _ _)) by lia].
  clear Hf H. wf_cases t d Hwf; try (by (edestruct Ha + edestruct Hm));
    cbn [Typ marshalPayload code_of code_byte norm].
  all: try (change [Zbyte n] with (be_put 1 n)).
  all: try (rewrite be_put_need; cbn [mbind res_bind]; unfold tlv_Uint8, tlv_Uint16,
    tlv_Uint32, tlv_Uint64, tlv_Int32, tlv_Int64, tlv_Float32, tlv_Float64, tlv_Timestamp).
  all: try (do 3 f_equal; first [by eapply be_get_put_w | by apply wrapS_get_put]).
  - by rewrite string_of_bytes_of.
  - by destruct b.
  - assert (Hms : in_int 64 (t0 `div` Millisecond) = true) by done.
    assert (time_UnixMilli t0 = t0 `div` Millisecond) as ->
      by (unfold time_UnixMilli; by apply wrapS_small).
    by rewrite (wrapS_get_put 8 64 (t0 `div` Millisecond)) by done.
Qed.

(** One nested value: its frame at the head of a buffer. *)
Lemma decode_enc_head v fuel depth rest :
  decode_spec v -> value_wf v = true ->
  psize v <= maxPayload -> nested_fits maxPayload v = true -> -1 <= depth ->
  3 * psize v + 4 <= Z.of_nat fuel ->
  (depth + 1 + height v <= MaxDecodeDepth ->
   decodeValueBytes fuel (enc v ++ rest) depth = Ok (norm v, len (enc v))) /\
  (MaxDecodeDepth < depth + 1 + height v ->
   is_err (decodeValueBytes fuel (enc v ++ rest) depth) = true).
Proof.
  intros Hv Hwf Hs Hfit Hd Hf. destruct fuel as [|fuel]; [pose proof (psize_nonneg v); lia|].
  unfold enc. rewrite decodeValueBytes_frame by (by rewrite len_payload_of).
  destruct (Hv fuel (depth + 1) Hwf Hfit ltac:(lia) ltac:(lia)) as [H1 H2].
  split; intros H; [by rewrite H1|]. specialize (H2 H). by destruct (decodeValue _ _ _ _).
Qed.

(** The length of an encoding, as the fuel bounds need it. *)
Lemma len_enc_size v : value_wf v = true -> psize v + 2 <= len (enc v).
Proof. intros H. rewrite len_enc by done. pose proof (frame_size_pos _ (psize_nonneg v)). lia. Qed.

(** What the element loop needs of each element. *)
Definition elem_ok (v : Value) : Prop :=
  decode_spec v /\ value_wf v = true /\ psize v <= maxPayload /\
  nested_fits maxPayload v = true.

(** Arrays: the loop over the concatenated encodings of the elements. *)
Lemma decodeArray_spec depth vs fuel acc :
  0 <= depth -> Forall elem_ok vs ->
  3 * len (concat (map enc vs)) + 2 <= Z.of_nat fuel ->
  (Forall (fun e => depth + 1 + height e <= MaxDecodeDepth) vs ->
   decodeArray fuel (concat (map enc vs)) depth acc = Ok (acc ++ map norm vs)) /\
  (Exists (fun e => MaxDecodeDepth < depth + 1 + height e) vs ->
   is_err (decodeArray fuel (concat (map enc vs)) depth acc) = true).
Proof.
  intros Hd Hall. revert fuel acc.
  induction Hall as [|e vs (He & Hwf & Hs & Hfit) _ IH]; intros fuel acc Hf.
  { cbn [map concat] in *. rewrite (@len_nil byte) in Hf. destruct fuel; [lia|]. cbn.
    rewrite app_nil_r. split; [done|by inversion 1]. }
  cbn [map concat] in *. rewrite len_app in Hf. pose proof (len_enc_size e Hwf) as Hlen.
  pose proof (psize_nonneg e). pose proof (len_nonneg (concat (map enc vs))).
  destruct fuel as [|fuel]; [lia|]. cbn [decodeArray].
  rewrite (proj2 (Z.leb_gt _ _)) by (rewrite len_app; lia).
  destruct (decode_enc_head e fuel depth (concat (map enc vs)) He Hwf Hs Hfit
              ltac:(lia) ltac:(lia)) as [H1 H2].
  destruct (IH fuel (acc ++ [norm e]) ltac:(lia)) as [H3 H4].
  split.
  - inversion 1; subst. rewrite H1 by done. cbn [mbind res_bind].
    rewrite slice_after. cbn [mbind res_bind]. rewrite H3 by done. by rewrite <-app_assoc.
  - intros Hex. destruct (Z.leb_spec (depth + 1 + height e) MaxDecodeDepth).
    + rewrite H1 by done. cbn [mbind res_bind]. rewrite slice_after. cbn [mbind res_bind].
      apply H4. inversion Hex; subst; [lia|done].
    + specialize (H2 ltac:(done)). by destruct (decodeValueBytes _ _ _).
Qed.

(** Maps: the loop over the concatenated entries; the keys read so far, [acc],
    are disjoint from the ones to come, so each [Set] appends. *)
Definition entry_ok (e : MapEntry) : Prop :=
  elem_ok (Val e) /\ len (bytes_of (Key e)) <= maxPayload.

Lemma key_spec k : decode_spec (tlv_String k).
Proof. by apply decode_scalar. Qed.

Lemma enc_entry_split e : enc_entry e = enc (tlv_String (Key e)) ++ enc (Val e).
Proof. done. Qed.

Lemma decode_key k fuel depth rest :
  len (bytes_of k) <= maxPayload -> 0 <= depth -> 3 * len (bytes_of k) + 4 <= Z.of_nat fuel ->
  (depth + 2 <= MaxDecodeDepth ->
   decodeValueBytes fuel (enc (tlv_String k) ++ rest) (depth + 1)
   = Ok (tlv_String k, len (enc (tlv_String k)))) /\
  (MaxDecodeDepth < depth + 2 ->
   is_err (decodeValueBytes fuel (enc (tlv_String k) ++ rest) (depth + 1)) = true).
Proof.
  intros Hk Hd Hf.
  destruct (decode_enc_head (tlv_String k) fuel (depth + 1) rest (key_spec k)
              ltac:(done) Hk ltac:(done) ltac:(lia) Hf) as [H1 H2].
  cbn [height tlv_String] in *. split; intros H; [apply H1|apply H2]; lia.
Qed.

(** One round of the entry loop, on an entry that fits ([Some] of the entry
    read) or is too deep ([None]). *)
Lemma decodeEntries_step e fuel depth rest acc :
  entry_ok e -> 0 <= depth -> Key e ∉ map Key acc ->
  3 * len (enc_entry e ++ rest) + 1 <= Z.of_nat fuel ->
  (depth + 2 + height (Val e) <= MaxDecodeDepth ->
   decodeEntries (S fuel) (enc_entry e ++ rest) depth acc
   = decodeEntries fuel rest depth (acc ++ [mkEntry (Key e) (norm (Val e))])) /\
  (MaxDecodeDepth < depth + 2 + height (Val e) ->
   is_err (decodeEntries (S fuel) (enc_entry e ++ rest) depth acc) = true).
Proof.
  intros ((He & Hwf & Hs & Hfit) & Hk) Hd Hacc Hf. destruct e as [k v]. cbn [Key Val] in *.
  rewrite enc_entry_split, <-app_assoc in *. cbn [Key Val] in *. rewrite !len_app in Hf.
  pose proof (len_enc_size v Hwf). pose proof (len_enc_size (tlv_String k) eq_refl) as Hlk.
  cbn [psize tlv_String] in Hlk. pose proof (len_nonneg (bytes_of k)).
  pose proof (psize_nonneg v). pose proof (len_nonneg rest). pose proof (height_nonneg v).
  destruct (decode_key k fuel depth (enc v ++ rest) Hk Hd ltac:(lia)) as [K1 K2].
  destruct (decode_enc_head v fuel (depth + 1) rest He Hwf Hs Hfit ltac:(lia) ltac:(lia)) as [V1 V2].
  replace (depth + 1 + 1 + height v) with (depth + 2 + height v) in V1, V2 by lia.
  cbn [decodeEntries]. rewrite (proj2 (Z.leb_gt _ _)) by (rewrite !len_app; lia).
  destruct (Z.leb_spec (depth + 2) MaxDecodeDepth) as [Hd2|Hd2].
  - rewrite K1 by lia. cbn [mbind res_bind]. rewrite bool_decide_false by (by intros []).
    rewrite slice_after. cbn [mbind res_bind].
    rewrite (proj2 (Z.eqb_neq _ _)) by (rewrite len_app; lia).
    split; intros Hdep; [rewrite V1 by done|].
    + cbn [mbind res_bind]. rewrite slice_after.
      cbn [mbind res_bind Value_String data tlv_String]. by rewrite Map_Set_fresh.
    + specialize (V2 Hdep). by destruct (decodeValueBytes fuel (enc v ++ rest) _).
  - split; [lia|]. intros _. specialize (K2 Hd2). by destruct (decodeValueBytes _ _ _).
Qed.

Lemma decodeEntries_spec depth m fuel acc :
  0 <= depth -> Forall entry_ok m ->
  NoDup (map Key acc ++ map Key m) ->
  3 * len (concat (map enc_entry m)) + 2 <= Z.of_nat fuel ->
  (Forall (fun e => depth + 2 + height (Val e) <= MaxDecodeDepth) m ->
   decodeEntries fuel (concat (map enc_entry m)) depth acc = Ok (acc ++ norm_map m)) /\
  (Exists (fun e => MaxDecodeDepth < depth + 2 + height (Val e)) m ->
   is_err (decodeEntries fuel (concat (map enc_entry m)) depth acc) = true).
Proof.
  intros Hd Hall. revert fuel acc.
  induction Hall as [|e m He _ IH]; intros fuel acc Hnd Hf.
  { cbn [map concat] in *. rewrite (@len_nil byte) in Hf. destruct fuel; [lia|]. cbn.
    rewrite app_nil_r. split; [done|by inversion 1]. }
  cbn [map concat] in *. set (rest := concat (map enc_entry m)) in *.
  assert (Hacc : Key e ∉ map Key acc).
  { apply list.NoDup_app in Hnd as (_ & Hdis & _). intros Hin. apply (Hdis _ Hin). by left. }
  assert (2 <= len (enc_entry e)).
  { rewrite enc_entry_split, len_app. pose proof (len_nonneg (enc (Val e))).
    pose proof (len_enc_size (tlv_String (Key e)) eq_refl).
    pose proof (psize_nonneg (tlv_String (Key e))). lia. }
  rewrite len_app in Hf. pose proof (len_nonneg rest). destruct fuel as [|fuel]; [lia|].
  destruct (decodeEntries_step e fuel depth rest acc He Hd Hacc) as [H1 H2];
    [rewrite len_app; lia|].
  destruct (IH fuel (acc ++ [mkEntry (Key e) (norm (Val e))])) as [H3 H4].
  { rewrite map_app, <-app_assoc. exact Hnd. }
  { lia. }
  split.
  - inversion 1; subst. rewrite H1, H3 by done. by rewrite <-app_assoc.
  - intros Hex. destruct (Z.leb_spec (depth + 2 + height (Val e)) MaxDecodeDepth).
    + rewrite H1 by done. apply H4. inversion Hex; subst; [lia|done].
    + by apply H2.
Qed.

(** ** Every value *)

Lemma fold_max_le {A} (f : A -> Z) d k l :
  d + fold_right Z.max 0 (map f l) <= k <-> d <= k /\ Forall (fun x => d + f x <= k) l.
Proof.
  induction l as [|x l IH]; cbn [map fold_right].
  - split; [split; [lia|constructor]|lia].
  - rewrite Forall_cons_iff. rewrite <-Z.add_max_distr_l, Z.max_lub_iff, IH. tauto.
Qed.

Lemma fold_max_gt {A} (f : A -> Z) d k l :
  d <= k -> k < d + fold_right Z.max 0 (map f l) -> Exists (fun x => k < d + f x) l.
Proof.
  intros Hd. induction l as [|x l IH]; cbn [map fold_right]; [lia|]. intros H.
  destruct (Z.ltb_spec k (d + f x)); [by left|]. right. apply IH. lia.
Qed.

Lemma decode_array_value t vs : Forall decode_spec vs -> decode_spec (mkValue t (DArray vs)).
Proof.
  intros IH fuel depth Hwf Hfit Hd Hf.
  pose proof (len_payload_of _ Hwf) as Hlen. pose proof (psize_nonneg (mkValue t (DArray vs))).
  wf_cases t (DArray vs) Hwf. apply forallb_Forall in Hwf, Hfit.
  assert (Hall : Forall elem_ok vs).
  { pose proof (Forall_conj _ _ _ IH (Forall_conj _ _ _ Hwf Hfit)) as Hc.
    eapply Forall_impl; [|exact Hc]. intros e (? & ? & He). by reflect_bool. }
  destruct fuel as [|fuel]; [lia|].
  change (mkValue x0c (DArray vs)) with (tlv_Array vs) in *.
  change (Typ (tlv_Array vs)) with (code_byte TypeArray).
  rewrite payload_of_array in * by done.
  unfold decodes. cbn [decodeValue height code_of code_byte tlv_Array].
  destruct (Z.ltb_spec MaxDecodeDepth depth) as [Hdd|Hdd].
  { split; [|done]. intros Hh. apply fold_max_le in Hh. lia. }
  destruct (decodeArray_spec depth vs fuel [] Hd Hall ltac:(lia)) as [H1 H2]. split.
  - intros [_ Hh]%fold_max_le. rewrite H1; [done|].
    eapply Forall_impl; [|exact Hh]. cbn; lia.
  - intros Hh%fold_max_gt; [|done].
    assert (He : Exists (fun e => MaxDecodeDepth < depth + 1 + height e) vs)
      by (eapply Exists_impl; [|exact Hh]; cbn; lia).
    specialize (H2 He). by destruct (decodeArray _ _ _ _).
Qed.

Lemma decode_map_value t m :
  Forall (fun e => decode_spec (Val e)) m -> decode_spec (mkValue t (DMap m)).
Proof.
  intros IH fuel depth Hwf Hfit Hd Hf.
  pose proof (len_payload_of _ Hwf) as Hlen. pose proof (psize_nonneg (mkValue t (DMap m))).
  wf_cases t (DMap m) Hwf. apply andb_true_iff in Hwf as [Hnd Hwf].
  apply bool_decide_eq_true in Hnd.
  rewrite value_wf_entries in Hwf. apply forallb_Forall in Hwf, Hfit.
  assert (Hall : Forall entry_ok m).
  { pose proof (Forall_conj _ _ _ IH (Forall_conj _ _ _ Hwf Hfit)) as Hc.
    eapply Forall_impl; [|exact Hc]. intros [k x] (? & ? & He).
    unfold entry_ok, elem_ok.
    cbn [Val Key] in *. reflect_bool. tauto. }
  destruct fuel as [|fuel]; [lia|].
  change (mkValue x0d (DMap m)) with (MapValue m) in *.
  change (Typ (MapValue m)) with (code_byte TypeMap).
  rewrite payload_of_map in * by done.
  unfold decodes. rewrite norm_MapValue.
  cbn [decodeValue height code_of code_byte MapValue].
  replace (map (fun '(mkEntry _ x) => 2 + height x) m) with (map (fun e => 2 + height (Val e)) m)
    by (apply map_ext; by intros []).
  destruct (Z.ltb_spec MaxDecodeDepth depth) as [Hdd|Hdd].
  { split; [|done]. intros Hh. apply fold_max_le in Hh. lia. }
  destruct (decodeEntries_spec depth m fuel [] Hd Hall Hnd ltac:(lia)) as [H1 H2]. split.
  - intros [_ Hh]%fold_max_le. unfold NewMap. rewrite H1; [done|].
    eapply Forall_impl; [|exact Hh]. cbn; lia.
  - intros Hh%fold_max_gt; [|done].
    assert (He : Exists (fun e => MaxDecodeDepth < depth + 2 + height (Val e)) m)
      by (eapply Exists_impl; [|exact Hh]; cbn; lia).
    specialize (H2 He). unfold NewMap. by destruct (decodeEntries _ _ _ _).
Qed.

Lemma decode_spec_all v : decode_spec v.
Proof.
  induction v using Value_nested_ind;
    auto using decode_scalar, decode_array_value, decode_map_value.
Qed.

(** [DecodeBytes] on a frame followed by anything is [decodeValue] on its
    payload. *)
Lemma DecodeBytes_frame t p rest :
  len p < 2 ^ 63 ->
  DecodeBytes (tlv_frame t p ++ rest) = decodeValue (fuel_for (List.length p)) t p 0.
Proof.
  intros Hp. pose proof (len_nonneg p). pose proof (PutUvarint_length (len p)).
  rewrite frame_split, wrapU_small by lia.
  rewrite (DecodeBytes_eq _ _ (len p) (len (PutUvarint (len p)))) by
    (try apply Uvarint_PutUvarint; lia).
  rewrite (proj2 (Z.ltb_ge _ _))
    by (rewrite !len_app; pose proof (len_nonneg rest); lia).
  by rewrite drop_len_app, take_len_app.
Qed.

Lemma DecodeBytes_enc v rest :
  value_wf v = true -> nested_fits maxPayload v = true -> psize v < 2 ^ 63 ->
  (height v <= MaxDecodeDepth -> DecodeBytes (enc v ++ rest) = Ok (norm v)) /\
  (MaxDecodeDepth < height v -> is_err (DecodeBytes (enc v ++ rest)) = true).
Proof.
  intros Hwf Hfit Hs. unfold enc. rewrite DecodeBytes_frame by (by rewrite len_payload_of).
  apply (decode_spec_all v (fuel_for (List.length (payload_of v))) 0); try done.
  rewrite <-(len_payload_of v Hwf). apply fuel_for_len.
Qed.

(** ** The round-trip theorems *)

(** C6. Decoding inverts encoding: for a well-formed value whose nested
    payloads are within the decoder's 512 KiB limit and whose nesting is within
    its depth limit, [MustEncode] succeeds and [DecodeBytes] of the result,
    whatever bytes follow it, is the value back, timestamps truncated to
    milliseconds and nothing else changed. *)
Theorem MustEncode_DecodeBytes v rest :
  value_wf v = true -> nested_fits maxPayload v = true -> psize v < 2 ^ 63 ->
  height v <= MaxDecodeDepth ->
  exists buf, MustEncode v = Ok buf /\ DecodeBytes (buf ++ rest) = Ok (norm v).
Proof.
  intros Hwf Hfit Hs Hh. exists (enc v). split; [by apply MustEncode_ok|].
  by apply DecodeBytes_enc.
Qed.

Definition sample_value : Value :=
  MapValue [mkEntry "id" (tlv_Int64 (-5));
            mkEntry "tags" (tlv_Array [tlv_String "a"; tlv_Null; tlv_Bool true]);
            mkEntry "at" (tlv_Timestamp 1234567890)].

Lemma MustEncode_DecodeBytes_witness :
  exists buf, MustEncode sample_value = Ok buf /\
    DecodeBytes (buf ++ [xff]) = Ok (norm sample_value) /\ norm sample_value <> sample_value.
Proof.
  destruct (MustEncode_DecodeBytes sample_value [xff]) as (buf & H1 & H2);
    [vm_compute; reflexivity|vm_compute; reflexivity|vm_compute; reflexivity
    |vm_compute; discriminate|].
  exists buf. split; [exact H1|]. split; [exact H2|vm_compute; discriminate].
Defined.

(** C29. The depth limit is exact, and maps count twice: an encoding decodes
    exactly when [height], which adds one per array and two per map, is at most
    64; one level more is an error, not a panic or a truncated value. *)
Theorem DecodeBytes_depth_exact v rest :
  value_wf v = true -> nested_fits maxPayload v = true -> psize v < 2 ^ 63 ->
  exists buf, MustEncode v = Ok buf /\
    is_ok (DecodeBytes (buf ++ rest)) = (height v <=? MaxDecodeDepth) /\
    is_err (DecodeBytes (buf ++ rest)) = negb (height v <=? MaxDecodeDepth).
Proof.
  intros Hwf Hfit Hs. exists (enc v). split; [by apply MustEncode_ok|].
  destruct (DecodeBytes_enc v rest Hwf Hfit Hs) as [H1 H2].
  destruct (Z.leb_spec (height v) MaxDecodeDepth) as [Hh|Hh].
  - by rewrite H1.
  - specialize (H2 Hh). by destruct (DecodeBytes _).
Qed.

(** [n] maps inside each other: the decoder accepts 32, not 33. *)
Fixpoint nest_maps (n : nat) : Value :=
  match n with O => tlv_Null | S n => MapValue [mkEntry "" (nest_maps n)] end.
Fixpoint nest_arrays (n : nat) : Value :=
  match n with O => tlv_Null | S n => tlv_Array [nest_arrays n] end.

Lemma DecodeBytes_depth_exact_witness :
  (exists buf, MustEncode (nest_maps 33) = Ok buf /\ is_err (DecodeBytes (buf ++ [])) = true) /\
  (exists buf, MustEncode (nest_arrays 64) = Ok buf /\ is_ok (DecodeBytes (buf ++ [])) = true).
Proof.
  split.
  - destruct (DecodeBytes_depth_exact (nest_maps 33) []) as (buf & H1 & _ & H2);
      [vm_compute; reflexivity..|]. exists buf. split; [exact H1|exact H2].
  - destruct (DecodeBytes_depth_exact (nest_arrays 64) []) as (buf & H1 & H2 & _);
      [vm_compute; reflexivity..|]. exists buf. split; [exact H1|exact H2].
Defined.

(** ** Streams *)

(** A value of a stream: top-level values are also limited to 512 KiB. *)
Definition stream_ok (v : Value) : Prop :=
  value_wf v = true /\ nested_fits maxPayload v = true /\
  psize v <= maxPayload /\ height v <= MaxDecodeDepth.

Lemma decodeReader_enc v rest e :
  stream_ok v ->
  decodeReader (mkReader (enc v ++ rest) e) = (mkReader rest e, Ok (norm v)).
Proof.
  intros (Hwf & Hfit & Hs & Hh). unfold enc. rewrite frame_split.
  pose proof (len_payload_of v Hwf) as Hl. unfold maxPayload in Hs.
  pose proof (psize_nonneg v). rewrite wrapU_small, Hl by lia.
  unfold decodeReader, ReadByte. cbn [unread ends].
  rewrite ReadUvarint_PutUvarint by lia. unfold maxPayload.
  rewrite (proj2 (Z.ltb_ge _ _)) by lia.
  assert (Hd : decodeValue (fuel_for (List.length (payload_of v))) (Typ v) (payload_of v) 0
               = Ok (norm v)).
  { apply (decode_spec_all v); try done. rewrite <-Hl. apply fuel_for_len. }
  destruct (Z.ltb_spec 0 (psize v)).
  - rewrite ReadFull_app by done. by rewrite Hd.
  - assert (payload_of v = []) as E.
    { apply length_zero_iff_nil. unfold len in Hl. lia. }
    rewrite E in *. by rewrite Hd.
Qed.

Lemma decodeAll_loop_enc vs fuel rest e acc :
  Forall stream_ok vs -> (length vs <= fuel)%nat ->
  decodeAll_loop fuel (mkReader (concat (map enc vs) ++ rest) e) acc
  = decodeAll_loop (fuel - length vs) (mkReader rest e) (acc ++ map norm vs).
Proof.
  intros Hall. revert fuel acc.
  induction Hall as [|v vs Hv _ IH]; intros fuel acc Hf; cbn [map concat length] in *.
  - by rewrite app_nil_r, Nat.sub_0_r.
  - destruct fuel as [|fuel]; [lia|]. cbn [decodeAll_loop].
    rewrite <-app_assoc, decodeReader_enc by done. rewrite IH by lia.
    by rewrite <-app_assoc.
Qed.

Lemma length_encs vs :
  Forall stream_ok vs -> (length vs <= length (concat (map enc vs)))%nat.
Proof.
  induction 1 as [|v vs [Hwf _] _ IH]; cbn [map concat length]; [done|].
  rewrite length_app. pose proof (len_enc_size v Hwf). pose proof (psize_nonneg v).
  unfold len in *. lia.
Qed.

(** What [DecodeAll] does with a stream of encoded values and a tail it cannot
    decode. *)
Lemma DecodeAll_tail vs rest br err :
  Forall stream_ok vs -> decodeReader (reader_of rest) = (br, Err err) ->
  DecodeAll (reader_of (concat (map enc vs) ++ rest))
  = if errors_Is err io_EOF then Ok (map norm vs) else Err err.
Proof.
  intros Hall Hrest. unfold DecodeAll, reader_of. cbn [unread].
  pose proof (length_encs vs Hall). rewrite length_app.
  rewrite decodeAll_loop_enc by (done || lia).
  replace (S (length (concat (map enc vs)) + length rest) - length vs)%nat
    with (S (length (concat (map enc vs)) + length rest - length vs)) by lia.
  cbn [decodeAll_loop app]. unfold reader_of in Hrest. by rewrite Hrest.
Qed.

(** A stream of encoded values decodes to exactly those values, in order:
    [DecodeAll] splits the concatenation of any number of encodings. *)
Theorem DecodeAll_stream vs :
  Forall stream_ok vs -> DecodeAll (reader_of (concat (map enc vs))) = Ok (map norm vs).
Proof.
  intros Hall. rewrite <-(app_nil_r (concat _)).
  by rewrite (DecodeAll_tail vs [] (reader_of []) (Wrapf "tlv: read type: %w" [] io_EOF)).
Qed.

Lemma DecodeAll_stream_witness :
  DecodeAll (reader_of (concat (map enc [tlv_String "a"; tlv_Uint64 2; tlv_Bool true])))
  = Ok [tlv_String "a"; tlv_Uint64 2; tlv_Bool true].
Proof.
  apply (DecodeAll_stream [tlv_String "a"; tlv_Uint64 2; tlv_Bool true]).
  repeat constructor; vm_compute; congruence.
Defined.

(** A truncated stream can look complete: when the stream is cut right
    after a type byte, or right after the length of a non-empty payload,
    [DecodeAll] drops the partial value and reports no error, because the
    [io.EOF] of the failed read is taken for the end of the stream. *)
Theorem DecodeAll_truncated vs t n tail :
  Forall stream_ok vs -> 0 < n <= maxPayload ->
  tail = [t] \/ tail = t :: PutUvarint n ->
  DecodeAll (reader_of (concat (map enc vs) ++ tail)) = Ok (map norm vs).
Proof.
  intros Hall Hn [-> | ->].
  - by rewrite (DecodeAll_tail vs [t] (reader_of []) (Wrapf "tlv: read length: %w" [] io_EOF)).
  - rewrite (DecodeAll_tail vs _ (reader_of []) (Wrapf "tlv: read payload: %w" [] io_EOF)); [done..|].
    unfold decodeReader, reader_of, ReadByte. cbn [unread ends]. unfold maxPayload in *.
    rewrite <-(app_nil_r (PutUvarint n)), ReadUvarint_PutUvarint by lia.
    rewrite (proj2 (Z.ltb_ge _ _)), (proj2 (Z.ltb_lt _ _)) by lia. unfold ReadFull.
    cbn [unread ends]. rewrite (@len_nil byte).
    by rewrite (proj2 (Z.leb_gt _ _)) by lia.
Qed.

Lemma DecodeAll_truncated_witness :
  DecodeAll (reader_of (concat (map enc [tlv_Uint64 2]) ++ [x01])) = Ok [tlv_Uint64 2].
Proof.
  apply (DecodeAll_truncated [tlv_Uint64 2] x01 1 [x01]).
  - repeat constructor; vm_compute; congruence.
  - split; vm_compute; congruence.
  - left. reflexivity.
Defined.
