(* ===== verification/TlvCanon.v ===== *)
(** * Canonical form, and totality of the stream decoder

    A decoded value re-encodes to a canonical encoding, at most as long as the
    input, that decodes to the same value; and [DecodeAll] returns on every
    stream. *)

From S2P Require Import Prelude GoRt Varint Tlv TlvSpec TlvDecode TlvSafe TlvRoundtrip.

(** ** Sizes grow with the payload *)

Lemma put_uvarint_mono fuel x y :
  0 <= x <= y -> len (put_uvarint fuel x) <= len (put_uvarint fuel y).
Proof.
  revert x y. induction fuel as [|f IH]; intros x y Hxy; cbn [put_uvarint]; [lia|].
  destruct (Z.ltb_spec x 128), (Z.ltb_spec y 128); rewrite ?len_cons; rewrite ?(@len_nil byte);
    try lia; [pose proof (len_nonneg (put_uvarint f (y ≫ 7))); lia|].
  assert (len (put_uvarint f (x ≫ 7)) <= len (put_uvarint f (y ≫ 7))); [|lia].
  apply IH. rewrite !shiftr_7. split; [apply Z.div_pos; lia|]. apply Z.div_le_mono; lia.
Qed.

Lemma frame_size_mono x y : 0 <= x <= y -> y < 2 ^ 64 -> frame_size x <= frame_size y.
Proof.
  intros Hxy Hy. unfold frame_size. rewrite !wrapU_small by lia.
  pose proof (put_uvarint_mono 10 x y Hxy). unfold PutUvarint. lia.
Qed.

Lemma psize_cons_map k v m :
  psize (MapValue (mkEntry k v :: m))
  = frame_size (len (bytes_of k)) + frame_size (psize v) + psize (MapValue m).
Proof. done. Qed.

Lemma psize_cons_array v vs :
  psize (tlv_Array (v :: vs)) = frame_size (psize v) + psize (tlv_Array vs).
Proof. done. Qed.

Lemma psize_Map_Set m k v :
  psize (MapValue (Map_Set m k v))
  <= psize (MapValue m) + frame_size (len (bytes_of k)) + frame_size (psize v).
Proof.
  induction m as [|[k' x] m IH]; cbn [Map_Set].
  - rewrite psize_cons_map. lia.
  - destruct (bool_decide (Key (mkEntry k' x) = k)); rewrite !psize_cons_map; [|lia].
    cbn [Key]. pose proof (frame_size_pos _ (psize_nonneg x)).
    pose proof (frame_size_pos _ (len_nonneg (bytes_of k))). pose proof (psize_nonneg x).
    pose proof (len_nonneg (bytes_of k)). lia.
Qed.

(** ** What the decoder guarantees of a value *)

(** The value is its own normal form, what is nested in it is within the
    payload limit, its levels fit below [depth], and its encoding's payload is
    at most [bound] bytes. *)
Definition canonical (depth bound : Z) (v : Value) : Prop :=
  norm v = v /\ nested_fits maxPayload v = true /\
  depth + height v <= MaxDecodeDepth /\ psize v <= bound.

(** A nested value as [decodeValueBytes] read it from [n] bytes. *)
Definition nested_canonical (depth n : Z) (v : Value) : Prop :=
  canonical (depth + 1) maxPayload v /\ frame_size (psize v) <= n.

Definition array_canonical (depth : Z) (vs : list Value) : Prop :=
  Forall (canonical (depth + 1) maxPayload) vs.
Definition entries_canonical (depth : Z) (m : Map) : Prop :=
  Forall (fun e => canonical (depth + 2) maxPayload (Val e) /\
                   len (bytes_of (Key e)) <= maxPayload) m.

Lemma array_canonical_value depth vs bound :
  depth <= MaxDecodeDepth -> array_canonical depth vs -> psize (tlv_Array vs) <= bound ->
  canonical depth bound (tlv_Array vs).
Proof.
  intros Hd Hall Hs. unfold canonical. cbn [norm nested_fits height tlv_Array code_byte].
  split; [|split; [|split; [|done]]].
  - unfold tlv_Array. do 2 f_equal. rewrite <-(map_id vs) at 2. apply map_ext_Forall.
    eapply Forall_impl; [|exact Hall]. by intros v (? & _).
  - apply forallb_Forall. eapply Forall_impl; [|exact Hall].
    intros v (_ & Hf & _ & Hv). cbn beta. rewrite Hf. by rewrite (proj2 (Z.leb_le _ _)).
  - apply fold_max_le. split; [done|]. eapply Forall_impl; [|exact Hall].
    intros v (_ & _ & Hh & _). cbn beta. lia.
Qed.

Lemma entries_canonical_value depth m bound :
  depth <= MaxDecodeDepth -> entries_canonical depth m -> psize (MapValue m) <= bound ->
  canonical depth bound (MapValue m).
Proof.
  intros Hd Hall Hs. unfold canonical. rewrite norm_MapValue.
  cbn [nested_fits height MapValue].
  split; [|split; [|split; [|done]]].
  - f_equal. unfold norm_map. rewrite <-(map_id m) at 2. apply map_ext_Forall.
    eapply Forall_impl; [|exact Hall]. intros [k v] ((Hn & _) & _). cbn in *. by rewrite Hn.
  - apply forallb_Forall. eapply Forall_impl; [|exact Hall].
    intros [k v] ((_ & Hf & _ & Hv) & Hk). cbn [Key Val] in *. rewrite Hf.
    by rewrite !(proj2 (Z.leb_le _ _)).
  - replace (map (fun '(mkEntry _ x) => 2 + height x) m)
      with (map (fun e => 2 + height (Val e)) m) by (apply map_ext; by intros []).
    apply fold_max_le. split; [done|]. eapply Forall_impl; [|exact Hall].
    intros v ((_ & _ & Hh & _) & _). cbn beta. lia.
Qed.

Lemma Map_Set_canonical depth m k v :
  entries_canonical depth m -> canonical (depth + 2) maxPayload v ->
  len (bytes_of k) <= maxPayload -> entries_canonical depth (Map_Set m k v).
Proof.
  intros Hm Hv Hk. induction Hm as [|[k' x] m Hx Hm IH]; cbn [Map_Set].
  - by constructor; [|constructor].
  - destruct (bool_decide _); constructor; try done. destruct Hx. by split.
Qed.

Section canon.
Definition value_canon fuel := forall t p depth v,
  decodeValue fuel t p depth = Ok v -> canonical depth (len p) v.
Definition array_canon fuel := forall buf depth el vs,
  decodeArray fuel buf depth el = Ok vs -> array_canonical depth el ->
  array_canonical depth vs /\ psize (tlv_Array vs) <= psize (tlv_Array el) + len buf.
Definition entries_canon fuel := forall buf depth m m',
  decodeEntries fuel buf depth m = Ok m' -> entries_canonical depth m ->
  entries_canonical depth m' /\ psize (MapValue m') <= psize (MapValue m) + len buf.
Definition bytes_canon fuel := forall buf depth v n,
  decodeValueBytes fuel buf depth = Ok (v, n) -> nested_canonical depth n v.

Lemma psize_snoc_array vs v :
  psize (tlv_Array (vs ++ [v])) = psize (tlv_Array vs) + frame_size (psize v).
Proof.
  induction vs as [|w vs IH]; [cbn [app]; rewrite psize_cons_array; cbn; lia|].
  cbn [app]. rewrite !psize_cons_array. lia.
Qed.

(** A value without nested values. *)
Lemma canonical_scalar depth bound v :
  depth <= MaxDecodeDepth -> norm v = v -> nested_fits maxPayload v = true ->
  height v = 0 -> psize v <= bound -> canonical depth bound v.
Proof. unfold canonical. intros ? ? ? -> ?. repeat split; try done; lia. Qed.

Lemma need_len payload n msg b : need payload n msg = Ok b -> Z.of_nat n <= len payload.
Proof. intros [-> Hn]%need_Ok. rewrite length_take in Hn. unfold len. lia. Qed.

Lemma decodeValue_canon_step fuel :
  array_canon fuel -> entries_canon fuel -> value_canon (S fuel).
Proof.
  intros IHa IHm t p depth v H. cbn [decodeValue] in H. pose proof (len_nonneg p).
  destruct (Z.ltb_spec MaxDecodeDepth depth); [done|].
  destruct (code_of t) as [[]|]; try done; inv_res;
    try (apply canonical_scalar; try done;
         match goal with H : need _ _ _ = Ok _ |- _ => exact (need_len _ _ _ _ H) end).
  - apply canonical_scalar; try done. cbn [psize tlv_String]. rewrite bytes_of_string_of. lia.
  - match goal with H : decodeArray _ _ _ _ = Ok _ |- _ =>
      destruct (IHa _ _ _ _ H (Forall_nil _)) as [? Hs] end.
    by apply array_canonical_value.
  - match goal with H : decodeEntries _ _ _ _ = Ok _ |- _ =>
      destruct (IHm _ _ _ _ H (Forall_nil _)) as [? Hs] end.
    by apply entries_canonical_value.
  - apply canonical_scalar; try done;
      [|match goal with H : need _ _ _ = Ok _ |- _ => exact (need_len _ _ _ _ H) end].
    cbn. unfold UnixMilli_time, tlv_Timestamp. by rewrite Z.div_mul.
Qed.

Lemma decodeArray_canon_step fuel :
  bytes_canon fuel -> array_canon fuel -> array_canon (S fuel).
Proof.
  intros IHb IHa buf depth el vs H Hel. cbn [decodeArray] in H.
  destruct (Z.leb_spec (len buf) 0); inv_res; [split; [done|pose proof (len_nonneg buf); lia]|].
  destruct x as [v n]. inv_res.
  match goal with H : decodeValueBytes _ _ _ = Ok _ |- _ =>
    pose proof (decodeValueBytes_count _ _ _ _ _ H); apply IHb in H as [Hv Hs] end.
  match goal with H : slice _ _ _ = Ok _ |- _ =>
    rewrite slice_tail in H by lia; injection H as <- end.
  match goal with H : decodeArray _ _ _ _ = Ok _ |- _ => apply IHa in H as [? Hs'] end.
  - apply Forall_app. split; [done|]. by constructor; [|constructor].
  - split; [done|]. rewrite psize_snoc_array, len_drop in Hs'. lia.
Qed.

Lemma decodeValueBytes_canon_step fuel : value_canon fuel -> bytes_canon (S fuel).
Proof.
  intros IHv buf depth v n H. destruct buf as [|t rest]; [done|].
  rewrite decodeValueBytes_eq in H. destruct (Uvarint rest) as [length c] eqn:Hu.
  destruct (Z.ltb_spec maxPayload length) as [|Hmax]; [done|].
  destruct (Z.leb_spec c 0); [done|].
  destruct (Uvarint_inv _ _ _ Hu ltac:(lia)) as (Hl & Hc & Hlen & Hmin).
  destruct (Z.ltb_spec (len rest) (c + length)); [done|]. inv_res.
  match goal with H : decodeValue _ _ _ _ = Ok _ |- _ =>
    apply IHv in H as (Hn & Hf & Hh & Hs) end.
  rewrite len_take, len_drop in Hs. unfold maxPayload in *.
  assert (psize v <= length) by lia. pose proof (psize_nonneg v).
  split; [repeat split; try done; unfold maxPayload in *; lia|].
  pose proof (frame_size_mono (psize v) length ltac:(lia) ltac:(lia)) as Hm.
  unfold frame_size at 2 in Hm. rewrite wrapU_small in Hm by lia. lia.
Qed.

Lemma decodeEntries_canon_step fuel :
  bytes_canon fuel -> entries_canon fuel -> entries_canon (S fuel).
Proof.
  intros IHb IHm buf depth m m' H Hm. cbn [decodeEntries] in H.
  destruct (Z.leb_spec (len buf) 0); inv_res; [split; [done|pose proof (len_nonneg buf); lia]|].
  destruct x as [key n]. case_bool_decide as Ht; [done|]. inv_res.
  destruct (len _ =? 0); inv_res. destruct x0 as [val n2]. inv_res.
  rename select (decodeValueBytes _ buf _ = _) into Hk.
  rename select (decodeValueBytes _ _ _ = _) into Hv.
  rename select (decodeEntries _ _ _ _ = _) into Hrec.
  pose proof (decodeValueBytes_count _ _ _ _ _ Hk).
  destruct (Value_String_wf _ (decodeValueBytes_wf _ _ _ _ _ Hk) Ht) as [k ->].
  rename select (slice buf _ _ = _) into Hb. rewrite slice_tail in Hb by lia.
  injection Hb as <-. pose proof (decodeValueBytes_count _ _ _ _ _ Hv).
  rename select (slice _ _ _ = _) into Hb. rewrite slice_tail in Hb by lia.
  injection Hb as <-. apply IHb in Hk as [(_ & _ & _ & Hks) Hkn], Hv as [Hvc Hvn].
  cbn [Value_String data tlv_String] in *. inv_res.
  change (psize (tlv_String x1)) with (len (bytes_of x1)) in *.
  replace (depth + 1 + 1) with (depth + 2) in Hvc by lia.
  destruct (IHm _ _ _ _ Hrec) as [? Hs]; [by apply Map_Set_canonical|].
  split; [done|]. pose proof (psize_Map_Set m x1 val). rewrite !len_drop in *. lia.
Qed.

Lemma decode_canon_all fuel :
  value_canon fuel /\ array_canon fuel /\ entries_canon fuel /\ bytes_canon fuel.
Proof.
  induction fuel as [|fuel (IHv & IHa & IHm & IHb)]; [by repeat split|].
  auto using decodeValue_canon_step, decodeArray_canon_step, decodeEntries_canon_step,
    decodeValueBytes_canon_step.
Qed.
End canon.

Lemma DecodeBytes_canonical buf v :
  DecodeBytes buf = Ok v -> canonical 0 (len buf) v /\ frame_size (psize v) <= len buf.
Proof.
  destruct buf as [|t rest]; [done|]. intros H.
  destruct (Uvarint rest) as [length n] eqn:Hu.
  destruct (Z.leb_spec n 0) as [Hn|Hn].
  { unfold DecodeBytes in H. by rewrite Hu, (proj2 (Z.leb_le n 0)) in H by lia. }
  destruct (Z.ltb_spec (1 + n + length) (2 ^ 64)) as [Hw|Hw];
    [|by rewrite (DecodeBytes_wrap _ _ _ _ Hu Hn Hw) in H].
  rewrite (DecodeBytes_eq _ _ _ _ Hu Hn Hw) in H.
  destruct (Uvarint_inv _ _ _ Hu Hn) as (Hl & Hc & Hlen & Hmin).
  destruct (Z.ltb_spec (len rest) (n + length)); [done|]. cbn zeta in H.
  apply decode_canon_all in H as (H1 & H2 & H3 & Hs). rewrite len_take, len_drop in Hs.
  rewrite len_cons. assert (psize v <= length) by lia. pose proof (psize_nonneg v).
  split; [repeat split; try done; lia|].
  pose proof (frame_size_mono (psize v) length ltac:(lia) ltac:(lia)) as Hm.
  unfold frame_size at 2 in Hm. rewrite wrapU_small in Hm by lia. lia.
Qed.

(** C31. Canonical re-encoding: whatever bytes a value was decoded from (with
    overlong varints, oversized fixed fields, repeated keys, non-zero booleans,
    trailing bytes), it encodes again without error to at most as many bytes,
    and those decode to exactly the same value. *)
Theorem DecodeBytes_canonicalise buf v :
  DecodeBytes buf = Ok v -> len buf < 2 ^ 63 ->
  exists buf', MustEncode v = Ok buf' /\ len buf' <= len buf /\ DecodeBytes buf' = Ok v.
Proof.
  intros H Hlen. destruct (DecodeBytes_canonical _ _ H) as ((Hn & Hfit & Hh & _) & Hs).
  pose proof (frame_size_pos _ (psize_nonneg v)).
  destruct buf as [|t rest]; [done|].
  destruct (DecodeBytes_typed _ _ _ H) as [Hwf _].
  exists (enc v). split; [by apply MustEncode_ok|].
  split; [by rewrite len_enc|].
  rewrite <-Hn at 2. rewrite <-(app_nil_r (enc v)). apply DecodeBytes_enc; try done; lia.
Qed.

Lemma DecodeBytes_canonicalise_witness :
  exists buf', MustEncode (tlv_Bool true) = Ok buf' /\ len buf' <= len [x0b; x82; x00; x07; x09; x55] /\
    DecodeBytes buf' = Ok (tlv_Bool true).
Proof.
  apply (DecodeBytes_canonicalise [x0b; x82; x00; x07; x09; x55] (tlv_Bool true));
    vm_compute; reflexivity.
Defined.

(** ** [DecodeAll] returns on every stream *)

Lemma ReadByte_shrinks r r' b : ReadByte r = (r', Ok b) -> len (unread r') = len (unread r) - 1.
Proof.
  unfold ReadByte. destruct r as [[|c bs] e]; cbn [unread]; [done|].
  intros [= <- <-]. cbn [unread]. rewrite len_cons. lia.
Qed.

Lemma ReadByte_unread r r' x : ReadByte r = (r', x) -> len (unread r') <= len (unread r).
Proof.
  unfold ReadByte. destruct r as [[|c bs] e]; cbn [unread]; intros [= <- <-]; cbn [unread];
    rewrite ?len_cons; lia.
Qed.

Lemma read_uvarint_shrinks fuel i x s r r' res :
  read_uvarint_loop fuel i x s r = (r', res) -> len (unread r') <= len (unread r).
Proof.
  revert i x s r. induction fuel as [|f IH]; intros i x s r H; cbn [read_uvarint_loop] in H;
    [simplify_eq; lia|].
  destruct (ReadByte r) as [r1 [b|e|p|]] eqn:Hr; apply ReadByte_unread in Hr;
    [|simplify_eq; lia..].
  destruct (byteZ b <? 128); [case_match; simplify_eq; lia|]. apply IH in H. lia.
Qed.

Lemma ReadFull_shrinks n r r' b : ReadFull n r = (r', Ok b) -> len (unread r') <= len (unread r).
Proof.
  unfold ReadFull. case_match; intros [= <- <-]. cbn [unread].
  rewrite len_drop. pose proof (len_nonneg (unread r)). lia.
Qed.

Lemma ReadFull_returns n r : returns (snd (ReadFull n r)).
Proof. unfold ReadFull. by case_match. Qed.

Lemma decodeReader_progress r r' v :
  decodeReader r = (r', Ok v) -> len (unread r') < len (unread r).
Proof.
  unfold decodeReader. destruct (ReadByte r) as [r1 [t|e|p|]] eqn:Hb; try done.
  apply ReadByte_shrinks in Hb.
  destruct (ReadUvarint r1) as [r2 [length err]] eqn:Hu. apply read_uvarint_shrinks in Hu.
  destruct (maxPayload <? length); [done|]. destruct err; [done|].
  destruct (0 <? length).
  - destruct (ReadFull length r2) as [r3 [p|e|p|]] eqn:Hf; try done.
    apply ReadFull_shrinks in Hf. intros [= <- _]. lia.
  - intros [= <- _]. lia.
Qed.

Lemma decodeReader_returns r : returns (snd (decodeReader r)).
Proof.
  unfold decodeReader. destruct (ReadByte r) as [r1 [t|e|p|]] eqn:Hb; try done.
  - destruct (ReadUvarint r1) as [r2 [length err]].
    destruct (maxPayload <? length); [done|]. destruct err; [done|].
    destruct (0 <? length).
    + pose proof (ReadFull_returns length r2) as Hr.
      destruct (ReadFull length r2) as [r3 [p|e|p|]]; try done.
      apply decode_total_all, fuel_for_len.
    + apply decode_total_all, fuel_for_len.
  - unfold ReadByte in Hb. destruct (unread r); by simplify_eq.
  - unfold ReadByte in Hb. destruct (unread r); by simplify_eq.
Qed.

(** [DecodeAll] terminates on every stream, however it ends: each round
    reads at least one byte, so the loop is bounded by the length of the
    stream, and it returns the values or an error, never a panic. *)
Theorem DecodeAll_total r : returns (DecodeAll r).
Proof.
  unfold DecodeAll.
  assert (Hloop : forall fuel br vals, (length (unread br) < fuel)%nat ->
    returns (decodeAll_loop fuel br vals)); [|apply Hloop; lia].
  induction fuel as [|fuel IH]; intros br vals Hf; [lia|]. cbn [decodeAll_loop].
  pose proof (decodeReader_returns br) as Hr.
  destruct (decodeReader br) as [br' [v|e|p|]] eqn:Hd; try done.
  - apply IH. apply decodeReader_progress in Hd. unfold len in Hd. lia.
  - by case_match.
Qed.
