(* ===== verification/Crypto.v ===== *)
(** * Session cryptography

    [src/session/crypto.go]: key pairs, shared secrets, key derivation and the
    AES-GCM envelope.  The primitives of Go's [crypto] packages are an
    interface, [CryptoOps], with the laws their documentation states,
    [CryptoLaws]; [Encrypt], [Decrypt] and [DeriveSessionKey] are the source's
    code over it.  [ToyCrypto] is a small concrete instance, used to evaluate
    examples: it satisfies the laws and offers no security. *)

From S2P Require Import Prelude GoRt.

Definition KeySize : Z := 32.
Definition NonceSize : Z := 12.
Definition TagSize : Z := 16.
Definition PubKeySize : Z := 32.

(** ** The primitives *)

(** [crypto/cipher]'s GCM for an AES key (no additional data, a 12-byte nonce),
    [crypto/ecdh]'s X25519 and [crypto/hkdf] with SHA-256.  Private and public
    keys are their byte encodings. *)
Class CryptoOps := {
  gcm_Seal : list byte -> list byte -> list byte -> list byte;
  gcm_Open : list byte -> list byte -> list byte -> res (list byte);
  x25519_Public : list byte -> list byte;
  x25519_ECDH : list byte -> list byte -> res (list byte);
  hkdf_Key : list byte -> list byte -> string -> Z -> res (list byte)
}.

(** What the documentation of those functions promises: [Open] accepts exactly
    what [Seal] produced under the same key and nonce, the tag is 16 bytes;
    X25519 commutes and public keys are 32 bytes; HKDF gives a key of the
    requested length; none of them panics. *)
Class CryptoLaws (C : CryptoOps) := {
  gcm_Open_Seal : forall k n p, gcm_Open k n (gcm_Seal k n p) = Ok p;
  gcm_Open_inv : forall k n c p, gcm_Open k n c = Ok p -> c = gcm_Seal k n p;
  gcm_Open_returns : forall k n c, returns (gcm_Open k n c);
  gcm_Seal_len : forall k n p, len (gcm_Seal k n p) = len p + TagSize;
  x25519_commutes : forall a b,
    x25519_ECDH a (x25519_Public b) = x25519_ECDH b (x25519_Public a);
  x25519_Public_len : forall a, len (x25519_Public a) = PubKeySize;
  x25519_ECDH_returns : forall a b, returns (x25519_ECDH a b);
  hkdf_Key_returns : forall s salt info n, returns (hkdf_Key s salt info n);
  hkdf_Key_len : forall s salt info n k, hkdf_Key s salt info n = Ok k -> len k = n
}.

(** [aes.NewCipher] accepts 16, 24 and 32 byte keys; [cipher.NewGCM] accepts
    every block cipher with a 16-byte block, as AES is. *)
Definition aes_NewCipher (key : list byte) : res (list byte) :=
  if bool_decide (len key = 16 \/ len key = 24 \/ len key = 32) then Ok key
  else Err (Errorf "crypto/aes: invalid key size %d" [AInt (len key)]).
Definition cipher_NewGCM (block : list byte) : res (list byte) := Ok block.

(** [ecdh.X25519().NewPublicKey]. *)
Definition NewPublicKey (b : list byte) : res (list byte) :=
  if len b =? 32 then Ok b
  else Err (ExtErr "crypto/ecdh: invalid public key").

Section crypto.
Context `{C : CryptoOps}.

(** ** The package's functions

    Code that draws randomness runs over the state of [rand.Reader]. *)

(** [GenerateKeyPair]: 32 random bytes are a private key. *)
Definition GenerateKeyPair : M Reader (list byte) := ReadFull 32.

Definition SharedSecret (priv pub : list byte) : res (list byte) := x25519_ECDH priv pub.

Definition DeriveSessionKey (sharedSecret apiKeySecret : list byte) : res (list byte) :=
  wrap_err "hkdf: %w" [] (hkdf_Key apiKeySecret sharedSecret "hush-v1-key" KeySize).

Definition Encrypt (key plaintext : list byte) : M Reader (list byte) :=
  block ← lift (wrap_err "aes: %w" [] (aes_NewCipher key));
  gcm ← lift (wrap_err "gcm: %w" [] (cipher_NewGCM block));
  nonce ← wrap_errM "nonce: %w" [] (ReadFull NonceSize);
  let ciphertext := gcm_Seal gcm nonce plaintext in
  mret (nonce ++ ciphertext).

Definition Decrypt (key data : list byte) : res (list byte) :=
  if len data <? NonceSize + TagSize
  then Err (Errorf "session: ciphertext too short (%d bytes)" [AInt (len data)])
  else
  block ← wrap_err "aes: %w" [] (aes_NewCipher key);
  gcm ← wrap_err "gcm: %w" [] (cipher_NewGCM block);
  nonce ← slice data 0 NonceSize;
  ciphertext ← slice data NonceSize (len data);
  wrap_err "gcm decrypt: %w" [] (gcm_Open gcm nonce ciphertext).

(** [RandomBytes(n)]. *)
Definition RandomBytes (n : Z) : M Reader (list byte) :=
  wrap_errM "rand: %w" [] (ReadFull n).
End crypto.

(** ** Lemmas *)

Definition valid_key (key : list byte) : Prop := len key = 16 \/ len key = 24 \/ len key = 32.

Lemma aes_NewCipher_valid key : valid_key key -> aes_NewCipher key = Ok key.
Proof. intros. unfold aes_NewCipher. by rewrite bool_decide_true. Qed.

Lemma aes_NewCipher_inv key k : aes_NewCipher key = Ok k -> k = key /\ valid_key key.
Proof. unfold aes_NewCipher. case_bool_decide; by intros [= <-]. Qed.

Lemma aes_NewCipher_returns key : returns (aes_NewCipher key).
Proof. unfold aes_NewCipher. by case_bool_decide. Qed.

Section crypto_facts.
Context `{L : CryptoLaws}.

(** [Encrypt] consumes twelve random bytes. *)
Lemma Encrypt_eq key plaintext nonce rnd e :
  valid_key key -> len nonce = NonceSize ->
  Encrypt key plaintext (mkReader (nonce ++ rnd) e)
  = (mkReader rnd e, Ok (nonce ++ gcm_Seal key nonce plaintext)).
Proof.
  intros Hk Hn. unfold Encrypt. rewrite aes_NewCipher_valid by done.
  unfold mbind, M_bind, lift, wrap_errM. cbn [wrap_err cipher_NewGCM].
  by rewrite ReadFull_app.
Qed.

Lemma Decrypt_envelope key nonce c :
  valid_key key -> len nonce = NonceSize -> TagSize <= len c ->
  Decrypt key (nonce ++ c) = wrap_err "gcm decrypt: %w" [] (gcm_Open key nonce c).
Proof.
  intros Hk Hn Hc. unfold Decrypt.
  rewrite (proj2 (Z.ltb_ge _ _)) by (rewrite len_app; lia).
  rewrite aes_NewCipher_valid by done. cbn [wrap_err mbind res_bind cipher_NewGCM].
  rewrite (slice_ok _ 0) by (rewrite ?len_app; unfold NonceSize, TagSize in *; lia).
  rewrite Z.sub_0_r, <-Hn, drop_0, take_len_app. cbn [mbind res_bind].
  rewrite slice_tail by (rewrite ?len_app; pose proof (len_nonneg c); unfold NonceSize, TagSize in *; lia).
  by rewrite drop_len_app.
Qed.

Lemma Decrypt_Seal key nonce plaintext :
  valid_key key -> len nonce = NonceSize ->
  Decrypt key (nonce ++ gcm_Seal key nonce plaintext) = Ok plaintext.
Proof.
  intros Hk Hn. rewrite Decrypt_envelope;
    [|done..|rewrite gcm_Seal_len; pose proof (len_nonneg plaintext); lia].
  by rewrite gcm_Open_Seal.
Qed.

Lemma Decrypt_returns key data : returns (Decrypt key data).
Proof.
  unfold Decrypt. destruct (Z.ltb_spec (len data) (NonceSize + TagSize)) as [|Hd]; [done|].
  unfold NonceSize, TagSize in *.
  apply returns_bind; [apply returns_wrap, aes_NewCipher_returns|]. intros block _.
  cbn [cipher_NewGCM wrap_err mbind res_bind].
  rewrite (slice_ok _ 0) by lia. cbn [mbind res_bind].
  rewrite slice_tail by lia. cbn [mbind res_bind].
  apply returns_wrap, gcm_Open_returns.
Qed.

(** What decrypts is an envelope [Encrypt] could have produced: a 12-byte
    nonce and the sealing of the plaintext under the same key. *)
Lemma Decrypt_inv key data plaintext :
  Decrypt key data = Ok plaintext ->
  valid_key key /\ exists nonce, len nonce = NonceSize /\
    data = nonce ++ gcm_Seal key nonce plaintext.
Proof.
  unfold Decrypt. destruct (Z.ltb_spec (len data) (NonceSize + TagSize)) as [|Hd]; [done|].
  unfold NonceSize, TagSize in *. intros H.
  apply res_bind_Ok in H as (block & Hb & H).
  destruct (aes_NewCipher key) as [k'| | |] eqn:Hk; cbn in Hb; try done.
  apply aes_NewCipher_inv in Hk as [-> Hk]. injection Hb as <-.
  cbn [cipher_NewGCM wrap_err mbind res_bind] in H.
  rewrite (slice_ok _ 0) in H by lia. cbn [mbind res_bind] in H.
  rewrite slice_tail in H by lia. cbn [mbind res_bind] in H.
  destruct (gcm_Open _ _ _) as [p| | |] eqn:Ho; cbn in H; try done. injection H as <-.
  apply gcm_Open_inv in Ho. split; [done|]. eexists. split; cycle 1.
  - rewrite <-Ho, Z.sub_0_r, drop_0. by rewrite take_drop.
  - rewrite len_take, drop_0. lia.
Qed.

Lemma DeriveSessionKey_len shared secret k :
  DeriveSessionKey shared secret = Ok k -> len k = KeySize.
Proof.
  unfold DeriveSessionKey. destruct (hkdf_Key _ _ _ _) eqn:E; cbn; try done.
  intros [= <-]. by eapply hkdf_Key_len.
Qed.

Lemma DeriveSessionKey_returns shared secret : returns (DeriveSessionKey shared secret).
Proof. apply returns_wrap, hkdf_Key_returns. Qed.
End crypto_facts.

(** ** A concrete instance for examples *)

Definition toy_tag (k n p : list byte) : list byte :=
  be_put 16 (be_get (k ++ n ++ p)).

Definition toy_Open (k n c : list byte) : res (list byte) :=
  let p := take (length c - 16) c in
  if bool_decide (c = p ++ toy_tag k n p) then Ok p
  else Err (ExtErr "cipher: message authentication failed").

#[export] Instance ToyCrypto : CryptoOps := {
  gcm_Seal k n p := p ++ toy_tag k n p;
  gcm_Open := toy_Open;
  x25519_Public a := be_put 32 (be_get a);
  x25519_ECDH a b := Ok (be_put 32 (be_get a + be_get b));
  hkdf_Key s salt info n :=
    if n <? 0 then Err (ExtErr "hkdf: negative key length")
    else Ok (be_put (Z.to_nat n) (be_get s + be_get salt))
}.

Lemma toy_take (p t : list byte) : length t = 16%nat -> take (length (p ++ t) - 16) (p ++ t) = p.
Proof. intros H. apply take_app_exact. rewrite length_app. lia. Qed.

Lemma be_put_mod n z z' :
  z `mod` 256 ^ Z.of_nat n = z' `mod` 256 ^ Z.of_nat n -> be_put n z = be_put n z'.
Proof.
  intros H. assert (0 < 256 ^ Z.of_nat n) by lia.
  rewrite (Z.div_mod z (256 ^ Z.of_nat n)), (Z.div_mod z' (256 ^ Z.of_nat n)) by lia.
  rewrite !(Z.mul_comm (256 ^ Z.of_nat n)), !be_put_high. by rewrite H.
Qed.

#[export] Instance ToyCrypto_laws : CryptoLaws ToyCrypto.
Proof.
  assert (Htag : forall k n p, length (toy_tag k n p) = 16%nat)
    by (intros; apply length_be_put).
  split.
  - intros k n p. cbn [gcm_Open gcm_Seal ToyCrypto]. unfold toy_Open.
    rewrite toy_take by done. by rewrite bool_decide_true.
  - intros k n c p. cbn [gcm_Open gcm_Seal ToyCrypto]. unfold toy_Open.
    case_bool_decide as Hc; [|done]. intros [= <-]. exact Hc.
  - intros k n c. cbn [gcm_Open ToyCrypto]. unfold toy_Open. by case_bool_decide.
  - intros k n p. cbn [gcm_Seal ToyCrypto]. rewrite len_app. unfold len at 2.
    by rewrite Htag.
  - intros a b. cbn [x25519_ECDH x25519_Public ToyCrypto]. f_equal. apply be_put_mod.
    rewrite !be_get_put, !Zplus_mod_idemp_r. f_equal. lia.
  - intros a. apply len_be_put.
  - done.
  - intros s salt info n. cbn. by case_match.
  - intros s salt info n k. cbn. destruct (Z.ltb_spec n 0); [done|].
    intros [= <-]. rewrite len_be_put. lia.
Qed.
