(* ===== verification/Frame.v ===== *)
(** * Wire frames, requests and responses

    [src/frame/frame.go], [request.go] and [response.go]: the length-prefixed
    frame, and the requests and responses it carries, plain or encrypted.  A
    key argument is an [option]: nil means no encryption. *)

From S2P Require Import Prelude GoRt Varint Tlv TlvSpec TlvDecode Crypto.

(** ** Frames ([frame.go]) *)

Definition MaxFrameSize : Z := 2 ^ 20.
Definition FrameOverhead : Z := 4 + 12 + 16.
Definition FrameMinData : Z := 4.

Record Frame := mkFrame { SequenceNumber : Z; FrameData : list byte }.

Definition ErrFrameTooLarge : error :=
  Errorf "frame: payload exceeds max size (%d bytes)" [AInt MaxFrameSize].
Definition ErrFrameTooShort : error :=
  Errorf "frame: payload too short (min %d bytes)" [AInt FrameMinData].

Definition err_frame_large (frameLen : Z) : error :=
  Wrapf "frame: too large (%d bytes, max %d): %w" [AInt frameLen; AInt MaxFrameSize] ErrFrameTooLarge.
Definition err_frame_short (frameLen : Z) : error :=
  Wrapf "frame: too short (%d bytes): %w" [AInt frameLen] ErrFrameTooShort.
Definition err_frame_write (totalLen : Z) : error :=
  Wrapf "frame: write size exceeds max (%d bytes): %w" [AInt totalLen] ErrFrameTooLarge.

(** [Read]. *)
Definition Read : M Reader Frame :=
  lenBuf ← wrap_errM "frame: read length: %w" [] (ReadFull 4);
  let frameLen := be_get lenBuf in
  if MaxFrameSize <? frameLen then lift (Err (err_frame_large frameLen)) else
  if frameLen <? FrameMinData then lift (Err (err_frame_short frameLen)) else
  data ← wrap_errM "frame: read payload: %w" [] (ReadFull frameLen);
  seq ← lift (slice data 0 4);
  rest ← lift (slice data 4 (len data));
  mret (mkFrame (be_get seq) rest).

(** [Write]: the count and error of the write. *)
Definition Write (seq : Z) (frameData : list byte) (w : Writer) : Writer * (Z * option error) :=
  let totalLen := 4 + len frameData in
  if MaxFrameSize <? totalLen then (w, (0, Some (err_frame_write totalLen)))
  else
    let buf := be_put 4 (wrapU 32 totalLen) ++ be_put 4 seq ++ frameData in
    WriterWrite buf w.

Definition ReadFrameLen : M Reader Z :=
  lenBuf ← wrap_errM "frame: read length: %w" [] (ReadFull 4);
  mret (be_get lenBuf).

Definition MaxSafePayload : Z := MaxFrameSize - FrameOverhead.
Definition WireOverhead : Z := 36.

(** ** Requests ([request.go]) *)

(** Writing needs the state of [rand.Reader] (for the nonce) and a writer. *)
Record Sink := mkSink { entropy : Reader; sink : Writer }.

Definition with_entropy {A} (m : M Reader A) : M Sink A := fun s =>
  let '(rnd, r) := m (entropy s) in (mkSink rnd (sink s), r).

(** [_, err = Write(w, seq, data); return err]. *)
Definition write_frame (seq : Z) (data : list byte) : M Sink unit := fun s =>
  let '(w, (_, err)) := Write seq data (sink s) in
  (mkSink (entropy s) w, match err with None => Ok tt | Some e => Err e end).

Record Request := mkRequest { Opcode : Z; Payload : option Map }.

(** The plaintext of a request: opcode, then the map's TLV if there is one. *)
Definition request_plaintext (r : Request) : res (list byte) :=
  let opBuf := be_put 2 (Opcode r) in
  match Payload r with
  | None => Ok opBuf
  | Some m => tlvData ← MustEncodeMap m; Ok (opBuf ++ tlvData)
  end.

Section frame.
Context `{C : CryptoOps}.

Definition EncodeRequest (key : option (list byte)) (seq : Z) (r : Request)
  : M Reader (list byte) :=
  plaintext ← lift (request_plaintext r);
  match key with
  | None => mret plaintext
  | Some key => wrap_errM "frame: encrypt request: %w" [] (Encrypt key plaintext)
  end.

Definition WriteRequest (key : option (list byte)) (seq : Z) (r : Request) : M Sink unit :=
  data ← with_entropy (EncodeRequest key seq r);
  write_frame seq data.

Definition DecryptRequest (key : option (list byte)) (f : Frame) : res Request :=
  plaintext ← match key with
              | None => Ok (FrameData f)
              | Some key => wrap_err "frame: decrypt request: %w" [] (Decrypt key (FrameData f))
              end;
  if len plaintext <? 2 then Err (Errorf "frame: request too short" []) else
  opBytes ← slice plaintext 0 2;
  let opcode := be_get opBytes in
  if 2 <? len plaintext then
    body ← slice plaintext 2 (len plaintext);
    m ← wrap_err "frame: decode request tlv: %w" [] (DecodeMap body);
    Ok (mkRequest opcode (Some m))
  else Ok (mkRequest opcode None).

Definition ReadRequest (key : option (list byte)) : M Reader (Request * Z) :=
  f ← Read;
  req ← lift (DecryptRequest key f);
  mret (req, SequenceNumber f).
End frame.

(** ** Responses ([response.go]) *)

(** A [StatusCode] is a [uint8]. *)
Definition StatusSuccess : Z := 0.
Definition StatusBadRequest : Z := 1.
Definition StatusUnauthenticated : Z := 2.
Definition StatusPermissionDenied : Z := 3.
Definition StatusNotFound : Z := 4.
Definition StatusSessionExpired : Z := 5.
Definition StatusRateLimited : Z := 6.
Definition StatusInternalError : Z := 7.

Definition StatusCode_String (s : Z) : string :=
  if s =? StatusSuccess then "success"
  else if s =? StatusBadRequest then "bad_request"
  else if s =? StatusUnauthenticated then "unauthenticated"
  else if s =? StatusPermissionDenied then "permission_denied"
  else if s =? StatusNotFound then "not_found"
  else if s =? StatusSessionExpired then "session_expired"
  else if s =? StatusRateLimited then "rate_limited"
  else if s =? StatusInternalError then "internal_error"
  else if 128 <=? s then "app_error(0x" +:+ hex_byte (Zbyte s) +:+ ")"
  else "unknown(0x" +:+ hex_byte (Zbyte s) +:+ ")".

Record Response := mkResponse { Status : Z; RPayload : option Map; Seq : Z }.

Definition response_plaintext (r : Response) : res (list byte) :=
  match RPayload r with
  | None => Ok [Zbyte (Status r)]
  | Some m => tlvData ← MustEncodeMap m; Ok (Zbyte (Status r) :: tlvData)
  end.

Section frame_response.
Context `{C : CryptoOps}.

Definition EncodeResponse (key : option (list byte)) (seq : Z) (r : Response)
  : M Reader (list byte) :=
  plaintext ← lift (response_plaintext r);
  match key with
  | None => mret plaintext
  | Some key => wrap_errM "frame: encrypt response: %w" [] (Encrypt key plaintext)
  end.

Definition WriteResponse (key : option (list byte)) (seq : Z) (r : Response) : M Sink unit :=
  data ← with_entropy (EncodeResponse key seq r);
  write_frame seq data.

Definition DecryptResponse (key : option (list byte)) (f : Frame) : res Response :=
  plaintext ← match key with
              | None => Ok (FrameData f)
              | Some key => wrap_err "frame: decrypt response: %w" [] (Decrypt key (FrameData f))
              end;
  match plaintext with
  | [] => Err (Errorf "frame: response too short" [])
  | status :: _ =>
      if 1 <? len plaintext then
        body ← slice plaintext 1 (len plaintext);
        m ← wrap_err "frame: decode response tlv: %w" [] (DecodeMap body);
        Ok (mkResponse (byteZ status) (Some m) (SequenceNumber f))
      else Ok (mkResponse (byteZ status) None (SequenceNumber f))
  end.

Definition ReadResponse (key : option (list byte)) : M Reader Response :=
  f ← Read;
  lift (DecryptResponse key f).
End frame_response.
