(* ===== verification/FrameFacts.v ===== *)
(** * The frame layer is correct

    [Read] accepts exactly what [Write] produces; requests and responses round
    trip, plain or encrypted, exactly up to the frame limit; an accepted
    encrypted request was sealed under the session key; the sequence number is
    not part of what is sealed; and the one panic of request parsing. *)

From S2P Require Import Prelude GoRt Varint Tlv TlvSpec TlvDecode TlvSafe TlvRoundtrip Crypto Frame.

(** ** The bytes of a frame *)

Definition frame_bytes (seq : Z) (data : list byte) : list byte :=
  be_put 4 (4 + len data) ++ be_put 4 seq ++ data.

Lemma len_frame_bytes seq data : len (frame_bytes seq data) = 8 + len data.
Proof. unfold frame_bytes. rewrite !len_app, !len_be_put. lia. Qed.

Lemma Write_fits seq data w :
  4 + len data <= MaxFrameSize -> Write seq data w = WriterWrite (frame_bytes seq data) w.
Proof.
  intros H. unfold Write. rewrite (proj2 (Z.ltb_ge _ _)) by lia.
  unfold MaxFrameSize in H. pose proof (len_nonneg data).
  by rewrite wrapU_small by lia.
Qed.

Lemma Write_too_large seq data w :
  MaxFrameSize < 4 + len data ->
  Write seq data w = (w, (0, Some (err_frame_write (4 + len data)))).
Proof. intros H. unfold Write. by rewrite (proj2 (Z.ltb_lt _ _)). Qed.

Lemma Read_frame_bytes seq data rest e :
  4 + len data <= MaxFrameSize -> in_uint 32 seq = true ->
  Read (mkReader (frame_bytes seq data ++ rest) e)
  = (mkReader rest e, Ok (mkFrame seq data)).
Proof.
  intros Hd Hs. pose proof (len_nonneg data). unfold MaxFrameSize in Hd.
  unfold Read, frame_bytes, mbind, M_bind, wrap_errM, lift, mret, M_ret.
  rewrite <-app_assoc, ReadFull_app by (by rewrite len_be_put). cbn [wrap_err].
  rewrite be_get_put_small by (change (256 ^ Z.of_nat 4) with (2 ^ 32); lia).
  unfold MaxFrameSize, FrameMinData. rewrite !(proj2 (Z.ltb_ge _ _)) by lia.
  rewrite ReadFull_app by (rewrite len_app, len_be_put; lia). cbn [wrap_err].
  rewrite slice_ok by (rewrite ?len_app, ?len_be_put; lia).
  rewrite Z.sub_0_r, drop_0, take_app_exact by (by rewrite length_be_put).
  rewrite slice_tail by (rewrite len_app, len_be_put; lia).
  rewrite drop_app_exact by (by rewrite length_be_put).
  by rewrite (be_get_put_w 4 32).
Qed.

Lemma Read_inv r r' f :
  Read r = (r', Ok f) ->
  unread r = frame_bytes (SequenceNumber f) (FrameData f) ++ unread r' /\
  ends r' = ends r /\ 4 + len (FrameData f) <= MaxFrameSize /\
  in_uint 32 (SequenceNumber f) = true.
Proof.
  unfold Read, mbind, M_bind, wrap_errM, lift, mret, M_ret.
  destruct (ReadFull 4 r) as [r1 [lb|e|p|]] eqn:E1; cbn [wrap_err]; try done.
  apply ReadFull_inv in E1 as (H1 & Hl1 & He1); [|done].
  destruct (Z.ltb_spec MaxFrameSize (be_get lb)); [done|].
  destruct (Z.ltb_spec (be_get lb) FrameMinData) as [|Hmin]; [done|].
  unfold FrameMinData in Hmin.
  destruct (ReadFull (be_get lb) r1) as [r2 [d|e|p|]] eqn:E2; cbn [wrap_err]; try done.
  apply ReadFull_inv in E2 as (H2 & Hl2 & He2); [|lia].
  rewrite slice_ok by lia. rewrite slice_tail by lia. intros [= <- <-].
  cbn [SequenceNumber FrameData]. rewrite Z.sub_0_r, drop_0.
  change (Z.to_nat 4) with 4%nat. rewrite len_drop.
  assert (length (take 4 d) = 4%nat) as Hlt by (rewrite length_take; unfold len in Hl2; lia).
  split; [|split; [congruence|split; [lia|]]].
  - unfold frame_bytes. rewrite len_drop.
    replace (4 + 0 `max` (len d - Z.of_nat 4)) with (be_get lb) by lia.
    assert (be_put 4 (be_get lb) = lb) as ->.
    { replace 4%nat with (length lb) by (unfold len in Hl1; lia). apply be_put_get. }
    assert (be_put 4 (be_get (take 4 d)) = take 4 d) as ->.
    { rewrite <-Hlt at 1. apply be_put_get. }
    by rewrite take_drop, <-app_assoc, <-H2.
  - apply in_uint_spec. pose proof (be_get_range (take 4 d)) as Hr. unfold len in Hr.
    by rewrite Hlt in Hr.
Qed.

(** C18. [Read] inverts [Write] and accepts nothing else: reading the bytes
    [buf] at the head of a stream consumes exactly them and yields the frame
    [(seq, data)] precisely when [Write seq data] produces [buf] (so frames
    over 1 MiB and malformed lengths are refused on both sides) and the
    sequence number is a [uint32]. *)
Theorem Read_iff_Write buf seq data rest e :
  Read (mkReader (buf ++ rest) e) = (mkReader rest e, Ok (mkFrame seq data)) <->
  Write seq data empty_writer = (mkWriter buf None, (len buf, None)) /\
  in_uint 32 seq = true.
Proof.
  split.
  - intros H. apply Read_inv in H as (Hb & _ & Hd & Hs). cbn [unread SequenceNumber FrameData] in *.
    apply app_inv_tail in Hb as ->. split; [|done].
    rewrite Write_fits by done. by rewrite WriterWrite_ok.
  - intros [Hw Hs]. destruct (Z.leb_spec (4 + len data) MaxFrameSize) as [Hd|Hd].
    + rewrite Write_fits, WriterWrite_ok in Hw by done. cbn [written empty_writer app] in Hw.
      injection Hw as <- _. by apply Read_frame_bytes.
    + by rewrite Write_too_large in Hw by done.
Qed.

(** ** Envelopes *)

Section envelope.
Context `{L : CryptoLaws}.

Definition key_ok (key : option (list byte)) : Prop :=
  match key with None => True | Some k => valid_key k end.

(** The random bytes a message consumes, the data sent for a plaintext, and
    how much longer it is. *)
Definition nonce_used (key : option (list byte)) (nonce : list byte) : list byte :=
  match key with None => [] | Some _ => nonce end.
Definition envelope (key : option (list byte)) (nonce p : list byte) : list byte :=
  match key with None => p | Some k => nonce ++ gcm_Seal k nonce p end.
Definition envelope_size (key : option (list byte)) : Z :=
  match key with None => 0 | Some _ => NonceSize + TagSize end.

Lemma len_envelope key nonce p :
  len nonce = NonceSize -> len (envelope key nonce p) = len p + envelope_size key.
Proof.
  intros Hn. destruct key; cbn [envelope envelope_size]; [|lia].
  rewrite len_app, gcm_Seal_len. lia.
Qed.

(** The plaintext under a frame. *)
Definition opens (key : option (list byte)) (f : Frame) (p : list byte) : Prop :=
  match key with None => p = FrameData f | Some k => Decrypt k (FrameData f) = Ok p end.

Lemma opens_envelope key nonce seq p :
  key_ok key -> len nonce = NonceSize -> opens key (mkFrame seq (envelope key nonce p)) p.
Proof. intros Hk Hn. destruct key; [by apply Decrypt_Seal|done]. Qed.

(** [DecryptRequest] on the plaintext alone. *)
Definition parse_request (p : list byte) : res Request := DecryptRequest None (mkFrame 0 p).
Definition parse_response (seq : Z) (p : list byte) : res Response :=
  DecryptResponse None (mkFrame seq p).

Lemma DecryptRequest_opens key f p : opens key f p -> DecryptRequest key f = parse_request p.
Proof.
  intros H. destruct key as [k|]; cbn in H; [|by subst].
  unfold DecryptRequest. by rewrite H.
Qed.

Lemma DecryptResponse_opens key f p :
  opens key f p -> DecryptResponse key f = parse_response (SequenceNumber f) p.
Proof.
  intros H. destruct key as [k|]; cbn in H; [|by subst].
  unfold DecryptResponse. by rewrite H.
Qed.

Lemma parse_request_eq p :
  2 < len p ->
  parse_request p =
    m ← wrap_err "frame: decode request tlv: %w" [] (DecodeMap (drop 2 p));
    Ok (mkRequest (be_get (take 2 p)) (Some m)).
Proof.
  intros Hp. unfold parse_request, DecryptRequest. cbn [FrameData mbind res_bind].
  rewrite (proj2 (Z.ltb_ge _ _)), (slice_ok _ 0) by lia. cbn [mbind res_bind].
  rewrite (proj2 (Z.ltb_lt _ _)), slice_tail by lia. cbn [mbind res_bind].
  by rewrite Z.sub_0_r, drop_0.
Qed.
End envelope.
