(* ===== verification/FrameClaims.v ===== *)
(** * Requests and responses: round trips, integrity, replay, panics *)

From S2P Require Import Prelude GoRt Varint Tlv TlvSpec TlvDecode TlvSafe TlvRoundtrip Crypto Frame FrameFacts.

(** ** What a message can carry *)

(** A payload the decoder gives back: well formed, within its two limits. *)
Definition payload_ok (p : option Map) : Prop :=
  match p with
  | None => True
  | Some m => map_wf m = true /\ nested_fits maxPayload (MapValue m) = true /\
              height (MapValue m) <= MaxDecodeDepth
  end.

(** The encoding of a payload, its length, and the payload that arrives. *)
Definition payload_bytes (p : option Map) : list byte :=
  match p with None => [] | Some m => enc (MapValue m) end.
Definition payload_size (p : option Map) : Z :=
  match p with None => 0 | Some m => frame_size (psize (MapValue m)) end.

Definition request_wf (r : Request) : Prop :=
  in_uint 16 (Opcode r) = true /\ payload_ok (Payload r).
Definition norm_request (r : Request) : Request :=
  mkRequest (Opcode r) (norm_map <$> Payload r).
Definition request_bytes (r : Request) : list byte :=
  be_put 2 (Opcode r) ++ payload_bytes (Payload r).

Definition response_wf (r : Response) : Prop :=
  in_uint 8 (Status r) = true /\ payload_ok (RPayload r).
Definition norm_response (seq : Z) (r : Response) : Response :=
  mkResponse (Status r) (norm_map <$> RPayload r) seq.
Definition response_bytes (r : Response) : list byte :=
  Zbyte (Status r) :: payload_bytes (RPayload r).

Lemma len_payload_bytes p : payload_ok p -> len (payload_bytes p) = payload_size p.
Proof.
  destruct p as [m|]; cbn [payload_ok payload_bytes payload_size]; [|done].
  intros (Hm & _). apply len_enc. by rewrite MapValue_wf.
Qed.

Lemma payload_size_pos p : 0 <= payload_size p /\ (p <> None -> 2 <= payload_size p).
Proof.
  destruct p as [m|]; cbn [payload_size]; [|split; [lia|done]].
  pose proof (psize_nonneg (MapValue m)). pose proof (frame_size_pos (psize (MapValue m))). lia.
Qed.

Lemma DecodeMap_enc m :
  payload_ok (Some m) -> psize (MapValue m) < 2 ^ 63 ->
  DecodeMap (enc (MapValue m)) = Ok (norm_map m).
Proof.
  intros (Hm & Hf & Hh) Hs. unfold DecodeMap. rewrite <-MapValue_wf in Hm.
  destruct (DecodeBytes_enc (MapValue m) [] Hm Hf Hs) as [Hd _].
  rewrite app_nil_r in Hd. rewrite Hd by done. cbn [mbind res_bind].
  by rewrite norm_MapValue, bool_decide_false by (by intros H; apply H).
Qed.

Lemma psize_bound p m : payload_size p < 2 ^ 62 -> p = Some m -> psize (MapValue m) < 2 ^ 63.
Proof.
  intros H ->. cbn [payload_size] in H. pose proof (psize_nonneg (MapValue m)).
  pose proof (frame_size_pos (psize (MapValue m))). lia.
Qed.

Lemma request_plaintext_ok r :
  request_wf r -> request_plaintext r = Ok (request_bytes r).
Proof.
  destruct r as [op [m|]]; intros [_ Hp]; unfold request_plaintext, request_bytes;
    cbn [Payload Opcode payload_bytes]; [|by rewrite app_nil_r].
  destruct Hp as (Hm & _). by rewrite MustEncodeMap_ok.
Qed.

Lemma response_plaintext_ok r :
  response_wf r -> response_plaintext r = Ok (response_bytes r).
Proof.
  destruct r as [st [m|] sq]; intros [_ Hp]; unfold response_plaintext, response_bytes;
    cbn [RPayload Status payload_bytes]; [|done].
  destruct Hp as (Hm & _). by rewrite MustEncodeMap_ok.
Qed.

Lemma len_request_bytes r : request_wf r -> len (request_bytes r) = 2 + payload_size (Payload r).
Proof.
  intros [_ Hp]. unfold request_bytes.
  by rewrite len_app, len_be_put, len_payload_bytes.
Qed.

Lemma len_response_bytes r : response_wf r -> len (response_bytes r) = 1 + payload_size (RPayload r).
Proof. intros [_ Hp]. unfold response_bytes. by rewrite len_cons, len_payload_bytes. Qed.

Section messages.
Context `{L : CryptoLaws}.

Lemma parse_request_bytes r :
  request_wf r -> payload_size (Payload r) < 2 ^ 62 ->
  parse_request (request_bytes r) = Ok (norm_request r).
Proof.
  intros Hr Hs. pose proof Hr as [Hop Hp]. pose proof (len_request_bytes r Hr) as Hl.
  destruct r as [op p]. cbn [Payload Opcode] in *.
  destruct (payload_size_pos p) as [_ H2].
  destruct p as [m|]; unfold request_bytes in *; cbn [payload_bytes Payload Opcode] in *.
  - rewrite parse_request_eq by (specialize (H2 ltac:(done)); lia).
    rewrite drop_app_exact, take_app_exact by apply length_be_put.
    rewrite DecodeMap_enc by (done || by eapply psize_bound).
    cbn [mbind res_bind wrap_err]. by rewrite (be_get_put_w 2 16).
  - rewrite app_nil_r in *. unfold parse_request, DecryptRequest.
    cbn [FrameData mbind res_bind]. rewrite Hl. cbn [Z.ltb Z.compare payload_size Z.add].
    rewrite (slice_ok _ 0) by (rewrite ?len_be_put; lia). cbn [mbind res_bind].
    rewrite Z.sub_0_r, drop_0, take_ge by (rewrite length_be_put; lia).
    by rewrite (be_get_put_w 2 16).
Qed.

Lemma parse_response_bytes seq r :
  response_wf r -> payload_size (RPayload r) < 2 ^ 62 ->
  parse_response seq (response_bytes r) = Ok (norm_response seq r).
Proof.
  intros Hr Hs. pose proof Hr as [Hst Hp]. pose proof (len_response_bytes r Hr) as Hl.
  destruct r as [st p sq]. cbn [RPayload Status] in *. apply in_uint_spec in Hst.
  destruct (payload_size_pos p) as [H0 H2].
  unfold parse_response, DecryptResponse, response_bytes in *.
  cbn [FrameData mbind res_bind SequenceNumber RPayload Status] in *.
  assert (byteZ (Zbyte st) = st) as ->.
  { rewrite byteZ_Zbyte. apply Z.mod_small. exact Hst. }
  destruct p as [m|]; cbn [payload_bytes] in *.
  - specialize (H2 ltac:(done)).
    rewrite (proj2 (Z.ltb_lt _ _)), slice_tail by lia. cbn [mbind res_bind].
    change (drop (Z.to_nat 1) (Zbyte st :: enc (MapValue m))) with (enc (MapValue m)).
    by rewrite DecodeMap_enc by (done || by eapply psize_bound).
  - cbn [payload_size]. done.
Qed.

(** The two encoders draw a nonce if there is a key, and seal. *)
Lemma seal_plaintext fmt key p nonce rnd e :
  key_ok key -> len nonce = NonceSize ->
  match key with
  | None => mret p
  | Some k => wrap_errM fmt [] (Encrypt k p)
  end (mkReader (nonce_used key nonce ++ rnd) e)
  = (mkReader rnd e, Ok (envelope key nonce p)).
Proof.
  intros Hk Hn. destruct key as [k|]; cbn [nonce_used envelope]; [|done].
  unfold wrap_errM. by rewrite Encrypt_eq.
Qed.

Lemma EncodeRequest_ok key seq r nonce rnd e :
  request_wf r -> key_ok key -> len nonce = NonceSize ->
  EncodeRequest key seq r (mkReader (nonce_used key nonce ++ rnd) e)
  = (mkReader rnd e, Ok (envelope key nonce (request_bytes r))).
Proof.
  intros Hr Hk Hn. unfold EncodeRequest. rewrite request_plaintext_ok by done.
  unfold mbind at 1, M_bind at 1, lift. by apply seal_plaintext.
Qed.

Lemma EncodeResponse_ok key seq r nonce rnd e :
  response_wf r -> key_ok key -> len nonce = NonceSize ->
  EncodeResponse key seq r (mkReader (nonce_used key nonce ++ rnd) e)
  = (mkReader rnd e, Ok (envelope key nonce (response_bytes r))).
Proof.
  intros Hr Hk Hn. unfold EncodeResponse. rewrite response_plaintext_ok by done.
  unfold mbind at 1, M_bind at 1, lift. by apply seal_plaintext.
Qed.

(** Writing a sealed plaintext: the frame if it fits, nothing if not. *)
Definition frame_outcome (seq : Z) (data : list byte) (w : Writer) : Writer * res unit :=
  if 4 + len data <=? MaxFrameSize
  then (mkWriter (written w ++ frame_bytes seq data) None, Ok tt)
  else (w, Err (err_frame_write (4 + len data))).

Lemma write_frame_eq seq data rnd w :
  failing w = None ->
  write_frame seq data (mkSink rnd w)
  = (mkSink rnd (frame_outcome seq data w).1, (frame_outcome seq data w).2).
Proof.
  intros Hw. unfold write_frame, frame_outcome. cbn [sink entropy].
  destruct (Z.leb_spec (4 + len data) MaxFrameSize).
  - by rewrite Write_fits, WriterWrite_ok.
  - by rewrite Write_too_large.
Qed.

Lemma WriteRequest_eq key seq r nonce rnd e w :
  request_wf r -> key_ok key -> len nonce = NonceSize -> failing w = None ->
  WriteRequest key seq r (mkSink (mkReader (nonce_used key nonce ++ rnd) e) w)
  = let o := frame_outcome seq (envelope key nonce (request_bytes r)) w in
    (mkSink (mkReader rnd e) o.1, o.2).
Proof.
  intros Hr Hk Hn Hw. unfold WriteRequest, with_entropy, mbind, M_bind. cbn [entropy sink].
  rewrite EncodeRequest_ok by done. by apply write_frame_eq.
Qed.

Lemma WriteResponse_eq key seq r nonce rnd e w :
  response_wf r -> key_ok key -> len nonce = NonceSize -> failing w = None ->
  WriteResponse key seq r (mkSink (mkReader (nonce_used key nonce ++ rnd) e) w)
  = let o := frame_outcome seq (envelope key nonce (response_bytes r)) w in
    (mkSink (mkReader rnd e) o.1, o.2).
Proof.
  intros Hr Hk Hn Hw. unfold WriteResponse, with_entropy, mbind, M_bind. cbn [entropy sink].
  rewrite EncodeResponse_ok by done. by apply write_frame_eq.
Qed.

Lemma ReadRequest_frame key seq data rest e :
  4 + len data <= MaxFrameSize -> in_uint 32 seq = true ->
  ReadRequest key (mkReader (frame_bytes seq data ++ rest) e)
  = (mkReader rest e, req ← DecryptRequest key (mkFrame seq data); Ok (req, seq)).
Proof.
  intros Hd Hs. unfold ReadRequest. unfold mbind at 1, M_bind at 1.
  rewrite Read_frame_bytes by done. unfold mbind, M_bind, lift, mret, M_ret.
  by destruct (DecryptRequest _ _).
Qed.

Lemma ReadResponse_frame key seq data rest e :
  4 + len data <= MaxFrameSize -> in_uint 32 seq = true ->
  ReadResponse key (mkReader (frame_bytes seq data ++ rest) e)
  = (mkReader rest e, DecryptResponse key (mkFrame seq data)).
Proof.
  intros Hd Hs. unfold ReadResponse, mbind, M_bind.
  by rewrite Read_frame_bytes by done.
Qed.
End messages.

Section message_theorems.
Context `{L : CryptoLaws}.

(** C8. A request survives the wire, plain or encrypted: [WriteRequest] of a
    request the decoder's limits allow either sends one frame, from which
    [ReadRequest] with the same key, whatever follows on the stream, takes
    exactly that frame and returns the opcode, the payload (timestamps cut to
    milliseconds) and the sequence number; or, exactly when the plaintext,
    the encryption overhead and the 4-byte sequence number exceed 1 MiB, it
    fails with [ErrFrameTooLarge] and has written nothing. *)
Theorem WriteRequest_ReadRequest key seq r nonce rnd e w rest e' :
  request_wf r -> key_ok key -> len nonce = NonceSize -> in_uint 32 seq = true ->
  failing w = None ->
  let size := 4 + (2 + payload_size (Payload r)) + envelope_size key in
  let s := mkSink (mkReader (nonce_used key nonce ++ rnd) e) w in
  (size <= MaxFrameSize ->
    exists buf, len buf = 4 + size /\
      WriteRequest key seq r s
      = (mkSink (mkReader rnd e) (mkWriter (written w ++ buf) None), Ok tt) /\
      ReadRequest key (mkReader (buf ++ rest) e')
      = (mkReader rest e', Ok (norm_request r, seq))) /\
  (MaxFrameSize < size ->
    WriteRequest key seq r s = (mkSink (mkReader rnd e) w, Err (err_frame_write size)) /\
    errors_Is (err_frame_write size) ErrFrameTooLarge = true).
Proof.
  intros Hr Hk Hn Hs Hw size s. subst s. rewrite WriteRequest_eq by done.
  unfold frame_outcome. rewrite len_envelope, len_request_bytes by done.
  replace (4 + (2 + payload_size (Payload r) + envelope_size key)) with size by lia.
  split; intros Hsize.
  - exists (frame_bytes seq (envelope key nonce (request_bytes r))).
    rewrite len_frame_bytes, len_envelope, len_request_bytes by done. split; [lia|].
    rewrite (proj2 (Z.leb_le _ _)) by done. split; [done|].
    assert (payload_size (Payload r) < 2 ^ 62).
    { unfold MaxFrameSize in Hsize. subst size. destruct key; cbn [envelope_size] in Hsize;
        unfold NonceSize, TagSize in *; lia. }
    rewrite ReadRequest_frame; [|rewrite len_envelope, len_request_bytes by done; lia|done].
    erewrite DecryptRequest_opens by (by apply opens_envelope).
    by rewrite parse_request_bytes.
  - rewrite (proj2 (Z.leb_gt _ _)) by done. split; [done|]. apply orb_true_r.
Qed.

(** The same for responses: the status byte, the payload and the
    sequence number arrive, exactly up to the frame limit. *)
Theorem WriteResponse_ReadResponse key seq r nonce rnd e w rest e' :
  response_wf r -> key_ok key -> len nonce = NonceSize -> in_uint 32 seq = true ->
  failing w = None ->
  let size := 4 + (1 + payload_size (RPayload r)) + envelope_size key in
  let s := mkSink (mkReader (nonce_used key nonce ++ rnd) e) w in
  (size <= MaxFrameSize ->
    exists buf, len buf = 4 + size /\
      WriteResponse key seq r s
      = (mkSink (mkReader rnd e) (mkWriter (written w ++ buf) None), Ok tt) /\
      ReadResponse key (mkReader (buf ++ rest) e')
      = (mkReader rest e', Ok (norm_response seq r))) /\
  (MaxFrameSize < size ->
    WriteResponse key seq r s = (mkSink (mkReader rnd e) w, Err (err_frame_write size)) /\
    errors_Is (err_frame_write size) ErrFrameTooLarge = true).
Proof.
  intros Hr Hk Hn Hs Hw size s. subst s. rewrite WriteResponse_eq by done.
  unfold frame_outcome. rewrite len_envelope, len_response_bytes by done.
  replace (4 + (1 + payload_size (RPayload r) + envelope_size key)) with size by lia.
  split; intros Hsize.
  - exists (frame_bytes seq (envelope key nonce (response_bytes r))).
    rewrite len_frame_bytes, len_envelope, len_response_bytes by done. split; [lia|].
    rewrite (proj2 (Z.leb_le _ _)) by done. split; [done|].
    assert (payload_size (RPayload r) < 2 ^ 62).
    { unfold MaxFrameSize in Hsize. subst size. destruct key; cbn [envelope_size] in Hsize;
        unfold NonceSize, TagSize in *; lia. }
    rewrite ReadResponse_frame; [|rewrite len_envelope, len_response_bytes by done; lia|done].
    erewrite DecryptResponse_opens by (by apply opens_envelope).
    cbn [SequenceNumber]. by rewrite parse_response_bytes.
  - rewrite (proj2 (Z.leb_gt _ _)) by done. split; [done|]. apply orb_true_r.
Qed.

Lemma ReadRequest_inv key r r' req seq :
  ReadRequest key r = (r', Ok (req, seq)) ->
  exists data, unread r = frame_bytes seq data ++ unread r' /\ ends r' = ends r /\
    4 + len data <= MaxFrameSize /\ in_uint 32 seq = true /\
    DecryptRequest key (mkFrame seq data) = Ok req.
Proof.
  unfold ReadRequest. unfold mbind at 1, M_bind at 1.
  destruct (Read r) as [r1 [f|x|x|]] eqn:Hr; try done.
  apply Read_inv in Hr as (H1 & H2 & H3 & H4). unfold mbind, M_bind, lift, mret, M_ret.
  destruct (DecryptRequest key f) eqn:Hd; try done. intros [= <- <- <-].
  exists (FrameData f). by repeat split.
Qed.

(** C19. What an encrypted session accepts was sealed under its key: the
    server takes [buf] from the stream as the request [req] exactly when
    [buf] is the frame of a nonce and the AES-GCM sealing, under the session
    key, of a plaintext that parses as [req]; anything tampered with, or
    sealed under another key, is refused. *)
Theorem ReadRequest_authentic k buf rest e req seq :
  ReadRequest (Some k) (mkReader (buf ++ rest) e) = (mkReader rest e, Ok (req, seq)) <->
  valid_key k /\ in_uint 32 seq = true /\
  exists nonce p, len nonce = NonceSize /\ parse_request p = Ok req /\
    buf = frame_bytes seq (nonce ++ gcm_Seal k nonce p) /\ len buf <= 4 + MaxFrameSize.
Proof.
  split.
  - intros H. apply ReadRequest_inv in H as (data & Hb & _ & Hlen & Hs & Hd).
    cbn [unread] in Hb. apply app_inv_tail in Hb as ->.
    unfold DecryptRequest in Hd. cbn [FrameData] in Hd. apply res_bind_Ok in Hd as (p & Hp & Hd).
    destruct (Decrypt k data) as [p'| | |] eqn:Hdec; cbn in Hp; try done. injection Hp as <-.
    apply Decrypt_inv in Hdec as (Hk & nonce & Hn & ->).
    split; [done|]. split; [done|]. exists nonce, p'. split; [done|]. split; [exact Hd|].
    split; [done|]. rewrite len_frame_bytes. lia.
  - intros (Hk & Hs & nonce & p & Hn & Hp & -> & Hlen). rewrite len_frame_bytes in Hlen.
    rewrite ReadRequest_frame by (done || lia).
    by erewrite (DecryptRequest_opens (Some k) _ p), Hp by (by apply Decrypt_Seal).
Qed.

(** C37. Nothing ties a request to its position: the sequence number travels
    outside the sealed data and is not checked, so a recorded request frame
    is accepted again, any number of times, and under any sequence number;
    encryption alone gives no replay protection. *)
Theorem ReadRequest_replay key r r' req seq :
  ReadRequest key r = (r', Ok (req, seq)) ->
  exists data, unread r = frame_bytes seq data ++ unread r' /\
    forall seq' rest e, in_uint 32 seq' = true ->
      ReadRequest key (mkReader (frame_bytes seq' data ++ rest) e)
      = (mkReader rest e, Ok (req, seq')).
Proof.
  intros H. apply ReadRequest_inv in H as (data & Hb & _ & Hlen & _ & Hd).
  exists data. split; [done|]. intros seq' rest e Hs.
  rewrite ReadRequest_frame by done.
  assert (DecryptRequest key (mkFrame seq' data) = DecryptRequest key (mkFrame seq data)) as ->
    by done. by rewrite Hd.
Qed.

Lemma DecodeMap_panic_iff b : is_panic (DecodeMap b) = true <-> wraps b.
Proof.
  split.
  - destruct (DecodeBytes_cases b) as [|Hr]; [done|]. unfold DecodeMap.
    destruct (DecodeBytes b) as [v|x|x|] eqn:Hv; try done. cbn [mbind res_bind].
    case_bool_decide as Ht; [done|]. destruct b as [|t b]; [done|].
    apply DecodeBytes_typed in Hv as [Hwf _]. destruct v as [ty d].
    cbn [Typ] in Ht. subst ty. by destruct d.
  - intros (t & b' & l & n & -> & Hu & Hn & Hw). unfold DecodeMap.
    by rewrite (DecodeBytes_wrap _ _ _ _ Hu Hn Hw).
Qed.

Lemma parse_request_panic_iff p :
  is_panic (parse_request p) = true <-> 2 < len p /\ wraps (drop 2 p).
Proof.
  destruct (Z.ltb_spec 2 (len p)) as [Hp|Hp].
  - rewrite parse_request_eq by done. rewrite <-DecodeMap_panic_iff.
    destruct (DecodeMap (drop 2 p)); cbn; naive_solver.
  - split; [|lia]. unfold parse_request, DecryptRequest. cbn [FrameData mbind res_bind].
    destruct (Z.ltb_spec (len p) 2); [done|].
    rewrite (slice_ok _ 0) by lia. cbn [mbind res_bind].
    by rewrite (proj2 (Z.ltb_ge 2 (len p))) by lia.
Qed.

(** When the code that parses a request panics (on a TCP connection
    nothing recovers it): exactly when the frame opens under the session key,
    or there is no encryption, to a plaintext longer than the opcode whose
    TLV length field wraps the decoder's 64-bit arithmetic. *)
Theorem DecryptRequest_panic_iff key f :
  is_panic (DecryptRequest key f) = true <->
  exists p, opens key f p /\ 2 < len p /\ wraps (drop 2 p).
Proof.
  split.
  - intros H. destruct key as [k|].
    + destruct (Decrypt k (FrameData f)) as [p|x|x|] eqn:Hd.
      * exists p. split; [done|]. apply parse_request_panic_iff.
        by rewrite <-(DecryptRequest_opens (Some k) f p).
      * unfold DecryptRequest in H. by rewrite Hd in H.
      * pose proof (Decrypt_returns k (FrameData f)) as Hr. by rewrite Hd in Hr.
      * pose proof (Decrypt_returns k (FrameData f)) as Hr. by rewrite Hd in Hr.
    + exists (FrameData f). split; [done|]. apply parse_request_panic_iff.
      by rewrite <-(DecryptRequest_opens None f (FrameData f)).
  - intros (p & Ho & Hp). rewrite (DecryptRequest_opens _ _ p) by done.
    by apply parse_request_panic_iff.
Qed.
End message_theorems.

(** ** Witnesses *)

Definition sample_key : list byte := be_put 32 12345.
Definition sample_nonce : list byte := be_put 12 77.
Definition sample_request : Request :=
  mkRequest 1 (Some [mkEntry "text" (tlv_String "hello"); mkEntry "at" (tlv_Timestamp 1500000)]).
Definition sample_response : Response :=
  mkResponse 200 (Some [mkEntry "n" (tlv_Uint64 7)]) 0.

Lemma sample_request_wf : request_wf sample_request.
Proof. repeat split; by vm_compute. Qed.
Lemma sample_response_wf : response_wf sample_response.
Proof. repeat split; by vm_compute. Qed.
Lemma sample_key_ok : key_ok (Some sample_key).
Proof. right; right. reflexivity. Qed.

Lemma WriteRequest_ReadRequest_witness :
  exists buf,
    ReadRequest (Some sample_key) (mkReader (buf ++ [x00]) io_EOF)
    = (mkReader [x00] io_EOF, Ok (norm_request sample_request, 9)) /\
    norm_request sample_request <> sample_request.
Proof.
  destruct (WriteRequest_ReadRequest (Some sample_key) 9 sample_request sample_nonce [] io_EOF
    empty_writer [x00] io_EOF sample_request_wf sample_key_ok eq_refl eq_refl eq_refl)
    as [H _].
  destruct (H ltac:(vm_compute; discriminate)) as (buf & _ & _ & Hr).
  exists buf. split; [exact Hr|vm_compute; discriminate].
Defined.

Lemma WriteResponse_ReadResponse_witness :
  exists buf,
    ReadResponse None (mkReader (buf ++ []) io_EOF)
    = (mkReader [] io_EOF, Ok (norm_response 9 sample_response)).
Proof.
  destruct (WriteResponse_ReadResponse None 9 sample_response sample_nonce [] io_EOF
    empty_writer [] io_EOF sample_response_wf I eq_refl eq_refl eq_refl)
    as [H _].
  destruct (H ltac:(vm_compute; discriminate)) as (buf & _ & _ & Hr).
  exists buf. exact Hr.
Defined.

Lemma ReadRequest_replay_witness :
  exists data,
    ReadRequest None (mkReader (frame_bytes 4000000000 data ++ []) io_EOF)
    = (mkReader [] io_EOF, Ok (mkRequest 5 None, 4000000000)).
Proof.
  destruct (ReadRequest_replay None (mkReader (frame_bytes 1 (be_put 2 5)) io_EOF)
    (mkReader [] io_EOF) (mkRequest 5 None) 1 ltac:(vm_compute; reflexivity))
    as (data & _ & H).
  exists data. apply H. reflexivity.
Defined.

Lemma ReadRequest_authentic_witness :
  exists nonce p, len nonce = NonceSize /\ parse_request p = Ok (mkRequest 5 None) /\
    exists buf, buf = frame_bytes 3 (nonce ++ gcm_Seal sample_key nonce p) /\
      ReadRequest (Some sample_key) (mkReader (buf ++ []) io_EOF)
      = (mkReader [] io_EOF, Ok (mkRequest 5 None, 3)).
Proof.
  exists sample_nonce, (be_put 2 5). split; [reflexivity|]. split; [reflexivity|].
  eexists. split; [reflexivity|].
  apply (ReadRequest_authentic (L := ToyCrypto_laws)). split; [exact sample_key_ok|].
  split; [reflexivity|]. exists sample_nonce, (be_put 2 5).
  split; [reflexivity|]. split; [reflexivity|]. split; [reflexivity|].
  vm_compute; discriminate.
Defined.

Lemma DecryptRequest_panic_iff_witness :
  is_panic (DecryptRequest None (mkFrame 1 (be_put 2 5 ++ poison x0d))) = true.
Proof.
  apply (DecryptRequest_panic_iff (L := ToyCrypto_laws)).
  exists (be_put 2 5 ++ poison x0d). split; [reflexivity|]. split; [reflexivity|].
  exists x0d, [xff; xff; xff; xff; xff; xff; xff; xff; xff; x01], (2 ^ 64 - 1), 10.
  repeat split; vm_compute; congruence.
Defined.
