(* ===== verification/Session.v ===== *)
(** * Sessions and the session store

    [src/session/session.go].  A [*Session] is shared between the store and the
    goroutines of its connection, and [Touch] writes through it, so sessions
    live in a heap and the store holds pointers.  Every read of the clock is an
    argument. *)

From S2P Require Import Prelude GoRt.

Definition DefaultIdleTimeout : Duration := 5 * Minute.
Definition DefaultMaxLifetime : Duration := 24 * Hour.
Definition DefaultGCInterval : Duration := 1 * Minute.

Record SessionConfig := mkSessionConfig {
  IdleTimeout : Duration;
  MaxLifetime : Duration;
  GCInterval : Duration
}.

Definition fillDefaults (c : SessionConfig) : SessionConfig :=
  mkSessionConfig
    (if IdleTimeout c <=? 0 then DefaultIdleTimeout else IdleTimeout c)
    (if MaxLifetime c <=? 0 then DefaultMaxLifetime else MaxLifetime c)
    (if GCInterval c <=? 0 then DefaultGCInterval else GCInterval c).

Record Session := mkSession {
  ID : Z;
  APIKeyID : string;
  SKey : option (list byte);
  CreatedAt : Time;
  LastUsed : Time
}.

Definition NewSession (now : Time) (id : Z) (apiKeyID : string) (key : option (list byte))
  : Session := mkSession id apiKeyID key now now.

Definition Session_Touch (now : Time) (s : Session) : Session :=
  mkSession (ID s) (APIKeyID s) (SKey s) (CreatedAt s) now.

(** ** The heap of sessions *)

Abbreviation Heap := (gmap positive Session).

Definition load (h : Heap) (l : positive) : res Session := deref (h !! l).

(** [s.Touch()] on a pointer. *)
Definition Touch (now : Time) (l : positive) (h : Heap) : Heap := alter (Session_Touch now) l h.

(** ** The store *)

Record SessionStore := mkStore {
  config : SessionConfig;
  sessions : gmap Z positive
}.

Definition NewSessionStore (c : SessionConfig) : SessionStore := mkStore (fillDefaults c) ∅.

Definition Store_Get (ss : SessionStore) (id : Z) : option positive := sessions ss !! id.

(** [ss.sessions[s.ID] = s] reads the ID through the pointer. *)
Definition Store_Set (h : Heap) (l : positive) (ss : SessionStore) : res SessionStore :=
  s ← load h l;
  Ok (mkStore (config ss) (<[ID s := l]> (sessions ss))).

Definition Store_Delete (id : Z) (ss : SessionStore) : SessionStore :=
  mkStore (config ss) (delete id (sessions ss)).

Definition IsExpired (now : Time) (ss : SessionStore) (s : Session) : bool :=
  MaxLifetime (config ss) <? time_Sub now (CreatedAt s).

Definition IsIdleDead (now : Time) (ss : SessionStore) (s : Session) : bool :=
  IdleTimeout (config ss) <? time_Sub now (LastUsed s).

(** The loop of [GC]: [visits] lists the sessions in the order the map is
    ranged over, each with the clock reading of its round.  Deleting a visited
    key does not change what the range visits next. *)
Fixpoint GC_loop (h : Heap) (visits : list (Z * positive * Time)) (ss : SessionStore)
  : res SessionStore :=
  match visits with
  | [] => Ok ss
  | (id, l, now) :: visits =>
      s ← load h l;
      GC_loop h visits
        (if MaxLifetime (config ss) <? time_Sub now (CreatedAt s)
         then mkStore (config ss) (delete id (sessions ss)) else ss)
  end.

(** A range over the sessions: every pair once, in some order. *)
Definition ranges (ss : SessionStore) (visits : list (Z * positive * Time)) : Prop :=
  map fst visits ≡ₚ map_to_list (sessions ss).

Definition Store_GC (h : Heap) (visits : list (Z * positive * Time)) (ss : SessionStore)
  : res SessionStore := GC_loop h visits ss.

Definition Store_Len (ss : SessionStore) : Z := Z.of_nat (size (sessions ss)).
Definition Store_Config (ss : SessionStore) : SessionConfig := config ss.

(** ** The invariant and the abstract store *)

Definition config_ok (c : SessionConfig) : Prop :=
  0 < IdleTimeout c <= maxDuration /\ 0 < MaxLifetime c <= maxDuration /\
  0 < GCInterval c <= maxDuration.

(** Every stored pointer is allocated and filed under its session's ID. *)
Definition store_ok (h : Heap) (ss : SessionStore) : Prop :=
  config_ok (config ss) /\
  forall id l, sessions ss !! id = Some l -> exists s, h !! l = Some s /\ ID s = id.

(** What the store promises, without pointers: the live sessions by ID. *)
Definition view (h : Heap) (ss : SessionStore) : gmap Z Session :=
  omap (fun l => h !! l) (sessions ss).

Lemma lookup_view h ss id :
  view h ss !! id = l ← sessions ss !! id; h !! l.
Proof. unfold view. by rewrite lookup_omap. Qed.

Lemma fillDefaults_ok c :
  IdleTimeout c <= maxDuration -> MaxLifetime c <= maxDuration -> GCInterval c <= maxDuration ->
  config_ok (fillDefaults c).
Proof.
  intros Hi Hm Hg. unfold config_ok, fillDefaults. cbn [IdleTimeout MaxLifetime GCInterval].
  unfold DefaultIdleTimeout, DefaultMaxLifetime, DefaultGCInterval, Hour, Minute, Second,
    Millisecond, maxDuration in *.
  repeat match goal with |- context [?x <=? 0] => destruct (Z.leb_spec x 0) end; lia.
Qed.

Lemma fillDefaults_id c : config_ok c -> fillDefaults c = c.
Proof.
  intros (Hi & Hm & Hg). destruct c as [i m g]. unfold fillDefaults.
  cbn [IdleTimeout MaxLifetime GCInterval] in *.
  by rewrite !(proj2 (Z.leb_gt _ 0)) by lia.
Qed.

Lemma expired_mono now now' ss s :
  now <= now' -> IsExpired now ss s = true -> IsExpired now' ss s = true.
Proof. unfold IsExpired, time_Sub. intros H ?%Z.ltb_lt. apply Z.ltb_lt. lia. Qed.

Lemma IsExpired_spec h now ss s :
  store_ok h ss -> MaxLifetime (config ss) < maxDuration ->
  IsExpired now ss s = (MaxLifetime (config ss) <? now - CreatedAt s).
Proof.
  intros [(_ & Hm & _) _] H. apply time_Sub_gt. unfold minDuration. lia.
Qed.

(** ** Each operation on the abstract store *)

Lemma store_ok_new c :
  IdleTimeout c <= maxDuration -> MaxLifetime c <= maxDuration -> GCInterval c <= maxDuration ->
  store_ok ∅ (NewSessionStore c).
Proof.
  intros Hi Hm Hg. split; [by apply fillDefaults_ok|]. intros id l H. cbn in H.
  by rewrite lookup_empty in H.
Qed.

Lemma Store_Set_spec h l s ss :
  store_ok h ss -> h !! l = Some s ->
  exists ss', Store_Set h l ss = Ok ss' /\ store_ok h ss' /\ config ss' = config ss /\
    view h ss' = <[ID s := s]> (view h ss).
Proof.
  intros [Hc Hs] Hl. unfold Store_Set, load. rewrite Hl. cbn [deref mbind res_bind].
  eexists. split; [done|]. split; [split; [done|]|split; [done|]].
  - intros id l'. cbn [sessions]. rewrite lookup_insert_Some.
    intros [[<- <-]|[_ H]]; eauto.
  - apply map_eq. intros id. rewrite lookup_view. cbn [sessions].
    destruct (decide (ID s = id)) as [<-|Hne].
    + by rewrite !lookup_insert_eq.
    + by rewrite !lookup_insert_ne, lookup_view.
Qed.

Lemma Store_Delete_spec h id ss :
  store_ok h ss ->
  store_ok h (Store_Delete id ss) /\ view h (Store_Delete id ss) = delete id (view h ss).
Proof.
  intros [Hc Hs]. split; [split; [done|]|].
  - intros id' l. cbn [Store_Delete sessions]. rewrite lookup_delete_Some. intros [_ H]. eauto.
  - apply map_eq. intros id'. rewrite lookup_view. cbn [Store_Delete sessions].
    destruct (decide (id = id')) as [<-|Hne].
    + by rewrite !lookup_delete_eq.
    + by rewrite !lookup_delete_ne, lookup_view.
Qed.

Lemma Touch_store_ok now l h ss : store_ok h ss -> store_ok (Touch now l h) ss.
Proof.
  intros [Hc Hs]. split; [done|]. intros id l' Hl. destruct (Hs _ _ Hl) as (s & Hh & Hid).
  unfold Touch. destruct (decide (l = l')) as [<-|Hne].
  - exists (Session_Touch now s). by rewrite lookup_alter_eq, Hh.
  - exists s. by rewrite lookup_alter_ne.
Qed.

(** Through the pointer, [Touch] updates the stored session and only it. *)
Lemma Touch_view now l s h ss :
  store_ok h ss -> h !! l = Some s -> sessions ss !! ID s = Some l ->
  view (Touch now l h) ss = <[ID s := Session_Touch now s]> (view h ss).
Proof.
  intros [Hc Hs] Hl Hin. apply map_eq. intros id. rewrite lookup_view. unfold Touch.
  destruct (decide (ID s = id)) as [<-|Hne].
  - rewrite lookup_insert_eq, Hin. cbn [mbind option_bind]. by rewrite lookup_alter_eq, Hl.
  - rewrite lookup_insert_ne, lookup_view by done.
    destruct (sessions ss !! id) as [l'|] eqn:Hid; cbn [mbind option_bind]; [|done].
    destruct (Hs _ _ Hid) as (s' & Hs' & <-). rewrite lookup_alter_ne; [done|].
    intros <-. by simplify_eq.
Qed.

(** ** Garbage collection *)

(** What one round of [GC] leaves of a session seen at time [now]. *)
Definition survives (ss : SessionStore) (now : Time) (s : Session) : option Session :=
  if IsExpired now ss s then None else Some s.

Lemma IsExpired_config now ss ss' s :
  config ss = config ss' -> IsExpired now ss s = IsExpired now ss' s.
Proof. unfold IsExpired. by intros ->. Qed.

Lemma GC_loop_spec h visits : forall ss,
  (forall v, v ∈ visits -> is_Some (h !! v.1.2)) ->
  NoDup (map fst (map fst visits)) ->
  exists ss', GC_loop h visits ss = Ok ss' /\ config ss' = config ss /\
    (forall id, id ∉ map fst (map fst visits) -> sessions ss' !! id = sessions ss !! id) /\
    (forall id l now s, (id, l, now) ∈ visits -> h !! l = Some s ->
       sessions ss' !! id = if IsExpired now ss s then None else sessions ss !! id).
Proof.
  induction visits as [|[[id l] now] visits IH]; intros ss Hh Hnd.
  { exists ss. repeat split; try done. intros. set_solver. }
  cbn [GC_loop map fst] in *. apply list.NoDup_cons in Hnd as [Hid Hnd].
  destruct (Hh (id, l, now)) as [s Hs]; [set_solver|]. cbn [fst snd] in Hs.
  unfold load. rewrite Hs. cbn [deref mbind res_bind]. fold (IsExpired now ss s).
  set (ss1 := if IsExpired now ss s then _ else ss).
  assert (config ss1 = config ss) as Hc1 by (subst ss1; by case_match).
  assert (forall id', id <> id' -> sessions ss1 !! id' = sessions ss !! id') as Hne.
  { intros id' ?. subst ss1. case_match; [|done]. by apply lookup_delete_ne. }
  destruct (IH ss1) as (ss' & -> & Hc & Hout & Hin); [set_solver|done|].
  exists ss'. split; [done|]. split; [congruence|]. split.
  - intros id' Hid'. rewrite Hout, Hne by set_solver. done.
  - intros id' l' now' s' [Heq|Hin']%elem_of_cons Hl'.
    + simplify_eq. rewrite Hout by done. subst ss1.
      destruct (IsExpired now ss s); [|done]. by apply lookup_delete_eq.
    + rewrite (Hin _ _ _ _ Hin' Hl'), (IsExpired_config _ ss1 ss) by done.
      rewrite Hne; [done|]. intros ->. apply Hid.
      by apply (list_elem_of_fmap_2 fst _ (id', l')), (list_elem_of_fmap_2 fst _ (id', l', now')).
Qed.

Lemma GC_loop_subset h visits : forall ss ss',
  GC_loop h visits ss = Ok ss' -> sessions ss' ⊆ sessions ss.
Proof.
  induction visits as [|[[id l] now] visits IH]; intros ss ss'; cbn [GC_loop].
  - by intros [= <-].
  - intros H. inv_res. match goal with H : GC_loop _ _ _ = _ |- _ => apply IH in H end.
    etrans; [eassumption|]. case_match; [|done]. apply delete_subseteq.
Qed.

Lemma view_mono h ss ss' : sessions ss' ⊆ sessions ss -> view h ss' ⊆ view h ss.
Proof.
  rewrite !map_subseteq_spec. intros H id s. rewrite !lookup_view, !bind_Some.
  intros (l & Hl & Hs). eauto.
Qed.

Lemma ranges_NoDup ss visits : ranges ss visits -> NoDup (map fst (map fst visits)).
Proof.
  intros Hr. unfold ranges in Hr.
  assert (map fst (map fst visits) ≡ₚ (map_to_list (sessions ss)).*1) as ->
    by (by apply (Permutation_map fst)).
  apply NoDup_fst_map_to_list.
Qed.

Lemma ranges_elem ss visits id l :
  ranges ss visits -> (exists now, (id, l, now) ∈ visits) <-> sessions ss !! id = Some l.
Proof.
  intros Hr. rewrite <-elem_of_map_to_list, <-Hr. split.
  - intros [now H]. by apply (list_elem_of_fmap_2 fst _ (id, l, now)).
  - intros ([[i k] now] & -> & H)%list_elem_of_fmap. by exists now.
Qed.

Lemma ranges_loaded h ss visits :
  store_ok h ss -> ranges ss visits -> forall v, v ∈ visits -> is_Some (h !! v.1.2).
Proof.
  intros [_ Hs] Hr [[id l] now] Hv.
  destruct (Hs id l) as (s & ? & _); [|by exists s].
  eapply ranges_elem; eauto.
Qed.

Lemma GC_spec h ss visits :
  store_ok h ss -> ranges ss visits ->
  exists ss', Store_GC h visits ss = Ok ss' /\ store_ok h ss' /\ config ss' = config ss /\
    forall id l now s, (id, l, now) ∈ visits -> h !! l = Some s ->
      sessions ss' !! id = if IsExpired now ss s then None else Some l.
Proof.
  intros Hok Hr. pose proof Hok as [Hc Hs].
  destruct (GC_loop_spec h visits ss (ranges_loaded _ _ _ Hok Hr) (ranges_NoDup _ _ Hr))
    as (ss' & Hgc & Hcfg & Hout & Hin).
  assert (forall id l now s, (id, l, now) ∈ visits -> h !! l = Some s ->
      sessions ss' !! id = if IsExpired now ss s then None else Some l) as Hin'.
  { intros id l now s Hv Hl. rewrite (Hin _ _ _ _ Hv Hl).
    assert (sessions ss !! id = Some l) as -> by (eapply ranges_elem; eauto). done. }
  exists ss'. split; [done|]. split; [split; [by rewrite Hcfg|]|by split].
  intros id l Hl. apply Hs. destruct (sessions ss !! id) as [l'|] eqn:E.
  - destruct (Hs _ _ E) as (s & Hl' & _).
    destruct (proj2 (ranges_elem _ _ id l' Hr) E) as [now Hv].
    rewrite (Hin' _ _ _ _ Hv Hl') in Hl. case_match; congruence.
  - rewrite Hout in Hl; [congruence|]. intros Hid.
    apply list_elem_of_fmap in Hid as ([i l'] & -> & Hid).
    apply list_elem_of_fmap in Hid as ([[i' l''] now] & [= -> ->] & Hid). cbn in E.
    assert (sessions ss !! i' = Some l'') by (eapply ranges_elem; eauto). congruence.
Qed.
