(* ===== verification/SessionFacts.v ===== *)
(** * What the session store guarantees

    Refinement of the abstract store (a finite map of live sessions), exactness
    of garbage collection, and two facts about whole runs: expiry is permanent,
    and a session that a collection has met is not retained longer than its
    lifetime plus one collection interval. *)

From S2P Require Import Prelude GoRt Session.

Lemma size_omap_stored {A B} (f : A -> option B) (m : gmap Z A) :
  (forall k a, m !! k = Some a -> is_Some (f a)) -> size (omap f m) = size m.
Proof.
  intros H. rewrite <-!size_dom. f_equal. apply set_eq. intros k.
  rewrite !elem_of_dom, lookup_omap. destruct (m !! k) as [a|] eqn:E; cbn; [|done].
  split; [by eexists|]. by intros _; eapply H.
Qed.

(** [Touch] through a pointer the store no longer holds leaves it as it is. *)
Lemma Touch_view_other now l s h ss :
  store_ok h ss -> h !! l = Some s -> sessions ss !! ID s <> Some l ->
  view (Touch now l h) ss = view h ss.
Proof.
  intros [_ Hs] Hl Hne. apply map_eq. intros id. rewrite !lookup_view.
  destruct (sessions ss !! id) as [l'|] eqn:Hid; cbn [mbind option_bind]; [|done].
  destruct (Hs _ _ Hid) as (s' & Hs' & <-). unfold Touch.
  rewrite lookup_alter_ne; [done|]. intros <-. by simplify_eq.
Qed.

(** C13. The pointer-based store refines a plain finite map from IDs to
    sessions, [view]: looking up, counting, inserting, deleting and touching
    are those of the map; [Touch] on a session shows up in the store exactly
    when the store still holds that very pointer. *)
Theorem store_refines h ss :
  store_ok h ss ->
  (forall id, (l ← Store_Get ss id; h !! l) = view h ss !! id) /\
  Store_Len ss = Z.of_nat (size (view h ss)) /\
  (forall l s, h !! l = Some s -> exists ss', Store_Set h l ss = Ok ss' /\ store_ok h ss' /\
     view h ss' = <[ID s := s]> (view h ss)) /\
  (forall id, store_ok h (Store_Delete id ss) /\
     view h (Store_Delete id ss) = delete id (view h ss)) /\
  (forall now l s, h !! l = Some s -> store_ok (Touch now l h) ss /\
     view (Touch now l h) ss =
       if bool_decide (Store_Get ss (ID s) = Some l)
       then <[ID s := Session_Touch now s]> (view h ss) else view h ss).
Proof.
  intros Hok. pose proof Hok as [_ Hs]. split_and!.
  - intros id. by rewrite lookup_view.
  - unfold Store_Len, view. f_equal. symmetry. apply size_omap_stored. intros id l Hl.
    destruct (Hs _ _ Hl) as (s & -> & _). by exists s.
  - intros l s Hl. destruct (Store_Set_spec h l s ss Hok Hl) as (ss' & ? & ? & _ & ?). eauto.
  - intros id. by apply Store_Delete_spec.
  - intros now l s Hl. split; [by apply Touch_store_ok|]. case_bool_decide as Hin; [by apply Touch_view|]. by eapply Touch_view_other.
Qed.

(** Garbage collection is exact: ranging over the sessions in whatever
    order, with clock readings between [t0] and [t1], [GC] removes every session
    that had outlived [MaxLifetime] at [t0], keeps every session that has not
    at [t1], and changes nothing else. *)
Theorem GC_exact h ss visits t0 t1 :
  store_ok h ss -> ranges ss visits -> MaxLifetime (config ss) < maxDuration ->
  (forall v, v ∈ visits -> t0 <= v.2 <= t1) ->
  exists ss', Store_GC h visits ss = Ok ss' /\ store_ok h ss' /\ view h ss' ⊆ view h ss /\
    forall id s, view h ss !! id = Some s ->
      (MaxLifetime (config ss) < t0 - CreatedAt s -> view h ss' !! id = None) /\
      (t1 - CreatedAt s <= MaxLifetime (config ss) -> view h ss' !! id = Some s).
Proof.
  intros Hok Hr Hml Ht. destruct (GC_spec h ss visits Hok Hr) as (ss' & Hgc & Hok' & Hc & Hin).
  assert (forall id s, view h ss !! id = Some s -> exists now, t0 <= now <= t1 /\
    view h ss' !! id = survives ss now s) as Hv.
  { intros id s Hid. rewrite lookup_view in Hid. apply bind_Some in Hid as (l & Hl & Hs).
    destruct (proj2 (ranges_elem _ _ id l Hr) Hl) as [now Hnow]. exists now.
    split; [exact (Ht _ Hnow)|].
    rewrite lookup_view, (Hin _ _ _ _ Hnow Hs). unfold survives.
    by destruct (IsExpired now ss s). }
  exists ss'. split; [done|]. split; [done|]. split.
  - by eapply view_mono, GC_loop_subset.
  - intros id s Hid. destruct (Hv _ _ Hid) as (now & Hnow & ->). unfold survives.
    rewrite (IsExpired_spec h) by done.
    split; intros Hage; [by rewrite (proj2 (Z.ltb_lt _ _)) by lia|].
    by rewrite (proj2 (Z.ltb_ge _ _)) by lia.
Qed.

(** ** Runs

    What the server does with its sessions, over time: it makes one (a new
    pointer), and files it with [Set], which other goroutines may delay; it
    touches one through its pointer, deletes one when its connection ends, and
    collects garbage, holding the mutex; the clock advances in between, and
    while a collection ranges over the map.  A clock reading may be older than
    the write that uses it. *)

Record World := mkWorld {
  heap : Heap;
  store : SessionStore;
  filed : gmap positive Time; (* when a pointer was last filed *)
  now : Time;
  last_gc : Time (* when the last collection started; the start, if none has *)
}.

Inductive step : World -> World -> Prop :=
| step_time w t : now w <= t -> step w (mkWorld (heap w) (store w) (filed w) t (last_gc w))
| step_new w l t id keyID key :
    heap w !! l = None -> t <= now w ->
    step w (mkWorld (<[l := NewSession t id keyID key]> (heap w)) (store w) (filed w) (now w) (last_gc w))
| step_file w l ss :
    Store_Set (heap w) l (store w) = Ok ss ->
    step w (mkWorld (heap w) ss (<[l := now w]> (filed w)) (now w) (last_gc w))
| step_touch w l s t :
    heap w !! l = Some s -> CreatedAt s <= t <= now w ->
    step w (mkWorld (Touch t l (heap w)) (store w) (filed w) (now w) (last_gc w))
| step_delete w id : step w (mkWorld (heap w) (Store_Delete id (store w)) (filed w) (now w) (last_gc w))
| step_gc w visits t ss :
    ranges (store w) visits -> (forall v, v ∈ visits -> now w <= v.2 <= t) -> now w <= t ->
    Store_GC (heap w) visits (store w) = Ok ss ->
    step w (mkWorld (heap w) ss (filed w) t (now w)).

Definition steps : World -> World -> Prop := rtc step.

Definition start (c : SessionConfig) (t : Time) : World := mkWorld ∅ (NewSessionStore c) ∅ t t.

(** The session [s], stored at [l], has been there since before the last
    collection only if it had not outlived [c] when that started. *)
Definition retained (c : SessionConfig) (w : World) (l : positive) (s : Session) : Prop :=
  exists f, filed w !! l = Some f /\ CreatedAt s <= f <= now w /\
    (f < last_gc w -> last_gc w - CreatedAt s <= MaxLifetime c).

(** The invariant: the store's, times that make sense, and retention. *)
Definition world_ok (c : SessionConfig) (w : World) : Prop :=
  store_ok (heap w) (store w) /\ config (store w) = c /\ last_gc w <= now w /\
  (forall l s, heap w !! l = Some s -> CreatedAt s <= LastUsed s <= now w) /\
  (forall id l s, sessions (store w) !! id = Some l -> heap w !! l = Some s -> retained c w l s).

Lemma store_ok_insert_fresh h l s ss :
  store_ok h ss -> h !! l = None -> store_ok (<[l := s]> h) ss.
Proof.
  intros [Hc Hs] Hl. split; [done|]. intros id l' Hid.
  destruct (Hs _ _ Hid) as (s' & Hs' & ?). exists s'. split; [|done].
  rewrite lookup_insert_ne; [done|congruence].
Qed.

Lemma heap_Touch_inv now l h l' s :
  Touch now l h !! l' = Some s ->
  h !! l' = Some s \/ exists s0, h !! l' = Some s0 /\ s = Session_Touch now s0.
Proof.
  unfold Touch. destruct (decide (l = l')) as [<-|Hne].
  - rewrite lookup_alter_eq. destruct (h !! l) as [s0|]; [|done].
    intros [= <-]. right. by exists s0.
  - rewrite lookup_alter_ne by done. by left.
Qed.

Lemma Store_Set_sessions h l ss ss' : Store_Set h l ss = Ok ss' ->
  exists s, h !! l = Some s /\ sessions ss' = <[ID s := l]> (sessions ss) /\ config ss' = config ss.
Proof. unfold Store_Set, load. destruct (h !! l) as [s|]; [|done]. intros [= <-]. by exists s. Qed.

Section runs.
Context (c : SessionConfig) (Hc : config_ok c) (Hlife : MaxLifetime c < maxDuration).

Lemma step_new_ok w l t id keyID key :
  world_ok c w -> heap w !! l = None -> t <= now w ->
  world_ok c (mkWorld (<[l := NewSession t id keyID key]> (heap w)) (store w) (filed w) (now w) (last_gc w)).
Proof.
  intros (Hok & Hcfg & Hgc & Ht & Hr) Hl Hle. split_and!; cbn [heap store now last_gc]; try done.
  - by apply store_ok_insert_fresh.
  - intros l' s. rewrite lookup_insert_Some. intros [[_ <-]|[_ Hs]]; [cbn; lia|by eapply Ht].
  - intros id' l' s Hid. destruct (proj2 Hok _ _ Hid) as (s' & Hs' & _).
    rewrite lookup_insert_ne by congruence. intros Hs. destruct (Hr _ _ _ Hid Hs) as (f & Hf). by exists f.
Qed.

Lemma step_file_ok w l ss :
  world_ok c w -> Store_Set (heap w) l (store w) = Ok ss ->
  world_ok c (mkWorld (heap w) ss (<[l := now w]> (filed w)) (now w) (last_gc w)).
Proof.
  intros (Hok & Hcfg & Hgc & Ht & Hr) Hset. destruct (Store_Set_sessions _ _ _ _ Hset) as (s & Hl & Hss & Hc').
  destruct (Store_Set_spec _ l s _ Hok Hl) as (ss1 & Hset1 & Hok2 & _). rewrite Hset in Hset1. injection Hset1 as <-.
  split_and!; cbn [heap store now last_gc]; [done|congruence|done..|].
  intros id l' s' Hid Hs'. unfold retained. cbn [filed now last_gc]. destruct (decide (l' = l)) as [->|Hne].
  - exists (now w). rewrite lookup_insert_eq. split; [done|]. pose proof (Ht _ _ Hs'). lia.
  - rewrite lookup_insert_ne by done. rewrite Hss, lookup_insert_Some in Hid. destruct Hid as [[_ ->]|[_ Hid]]; [done|].
    by apply (Hr id).
Qed.

Lemma step_touch_ok w l s t :
  world_ok c w -> heap w !! l = Some s -> CreatedAt s <= t <= now w ->
  world_ok c (mkWorld (Touch t l (heap w)) (store w) (filed w) (now w) (last_gc w)).
Proof.
  intros (Hok & Hcfg & Hgc & Ht & Hr) Hl Hle. split_and!; cbn [heap store now last_gc]; try done.
  - by apply Touch_store_ok.
  - intros l' s'. unfold Touch. destruct (decide (l = l')) as [<-|Hne].
    + rewrite lookup_alter_eq, Hl. intros [= <-]. cbn [Session_Touch CreatedAt LastUsed]. lia.
    + rewrite lookup_alter_ne by done. apply Ht.
  - intros id l' s' Hid [Hs|(s0 & Hs & ->)]%heap_Touch_inv;
      destruct (Hr _ _ _ Hid Hs) as (f & Hf); by exists f.
Qed.

Lemma step_gc_ok w visits t ss :
  world_ok c w -> ranges (store w) visits -> (forall v, v ∈ visits -> now w <= v.2 <= t) ->
  now w <= t -> Store_GC (heap w) visits (store w) = Ok ss ->
  world_ok c (mkWorld (heap w) ss (filed w) t (now w)).
Proof.
  intros (Hok & Hcfg & Hgc & Ht & Hr) Hrange Hvis Hle Hss.
  destruct (GC_spec _ _ _ Hok Hrange) as (ss1 & H1 & Hok1 & Hc1 & Hin).
  rewrite Hss in H1. injection H1 as <-. split_and!; cbn [heap store now last_gc]; [done|congruence|done| |].
  - intros l s Hl. specialize (Ht _ _ Hl). lia.
  - intros id l s Hl Hs. assert (sessions (store w) !! id = Some l) as Hl0.
    { eapply lookup_weaken; [exact Hl|]. by eapply GC_loop_subset. }
    destruct (proj2 (ranges_elem _ _ id l Hrange) Hl0) as [t' Hv].
    rewrite (Hin _ _ _ _ Hv Hs) in Hl. destruct (IsExpired t' (store w) s) eqn:He; [done|].
    rewrite (IsExpired_spec (heap w)), Hcfg in He by (done || by rewrite Hcfg).
    apply Z.ltb_ge in He. specialize (Hvis _ Hv). cbn [snd] in Hvis.
    destruct (Hr _ _ _ Hl0 Hs) as (f & Hf & ? & _). exists f. cbn [filed now last_gc]. split; [done|]. lia.
Qed.

Lemma step_ok w w' : world_ok c w -> step w w' -> world_ok c w'.
Proof.
  intros Hw Hstep. destruct Hstep; eauto using step_new_ok, step_file_ok, step_touch_ok, step_gc_ok.
  - destruct Hw as (Hok & Hcfg & Hgc & Ht & Hr). split_and!; cbn [heap store now last_gc]; try done; [lia| |].
    + intros l s Hl. specialize (Ht _ _ Hl). lia.
    + intros id l s Hid Hs. destruct (Hr _ _ _ Hid Hs) as (f & Hf & ? & ?). exists f. cbn [filed now last_gc]. split; [done|]. lia.
  - destruct Hw as (Hok & Hcfg & Hgc & Ht & Hr). split_and!; cbn [heap store now last_gc]; try done.
    + by apply Store_Delete_spec.
    + intros id' l s. cbn [Store_Delete sessions]. rewrite lookup_delete_Some. intros [_ Hid] Hs.
      destruct (Hr _ _ _ Hid Hs) as (f & Hf). by exists f.
Qed.

Lemma steps_ok w w' : world_ok c w -> steps w w' -> world_ok c w'.
Proof. intros Hw Hs. induction Hs; [done|]. by eauto using step_ok. Qed.

Lemma start_ok t : world_ok c (start c t).
Proof.
  unfold start, NewSessionStore. rewrite fillDefaults_id by done.
  split_and!; cbn [heap store now last_gc config]; try done.
Qed.
End runs.

(** C32. Sessions are not retained for ever, however the server and its clients
    interleave: in every reachable state each stored session is filed under
    its own ID, and if it was filed before the last garbage collection began
    then it is no older than [MaxLifetime] plus the time since that
    collection, whether it is in use or not.  (A session that was filed since
    may be older: nothing bounds the time between its creation in the handshake
    and its filing.) *)
Theorem session_retention c t w id l s :
  config_ok c -> MaxLifetime c < maxDuration ->
  steps (start c t) w -> sessions (store w) !! id = Some l -> heap w !! l = Some s ->
  ID s = id /\ CreatedAt s <= LastUsed s <= now w /\
  exists f, filed w !! l = Some f /\ CreatedAt s <= f <= now w /\
    (f < last_gc w -> now w - CreatedAt s <= MaxLifetime c + (now w - last_gc w)).
Proof.
  intros Hc Hl Hw Hid Hs. destruct (steps_ok c Hl _ _ (start_ok c Hc t) Hw) as ([_ Hst] & _ & _ & Ht & Hr).
  destruct (Hst _ _ Hid) as (s' & Hs' & <-). rewrite Hs in Hs'. injection Hs' as <-.
  split; [done|]. split; [by eapply Ht|]. destruct (Hr _ _ _ Hid Hs) as (f & Hf & Hle & Hb).
  exists f. split; [done|]. split; [done|]. intros H%Hb. lia.
Qed.

(** What a step can do to an allocated session: nothing, or touch it. *)
Lemma step_heap w w' l s :
  step w w' -> heap w !! l = Some s ->
  now w <= now w' /\ config (store w') = config (store w) /\
  exists s', heap w' !! l = Some s' /\ CreatedAt s' = CreatedAt s /\ ID s' = ID s.
Proof.
  intros Hstep Hl. destruct Hstep as [w t Ht|w l' t id k key Hl' Ht|w l' ss Hset|w l' s' t Hl' Ht|w id|w vis t ss Hr Hv Ht Hg];
    cbn [heap store now].
  - split; [done|]. split; [done|]. by exists s.
  - split; [done|]. split; [done|]. exists s. by rewrite lookup_insert_ne by congruence.
  - split; [done|]. apply Store_Set_sessions in Hset as (_ & _ & _ & ->). split; [done|]. by exists s.
  - split; [done|]. split; [done|]. unfold Touch. destruct (decide (l' = l)) as [->|Hne].
    + exists (Session_Touch t s). by rewrite lookup_alter_eq, Hl.
    + exists s. by rewrite lookup_alter_ne.
  - split; [done|]. split; [done|]. by exists s.
  - split; [done|]. split; [|by exists s].
    assert (forall vis st, GC_loop (heap w) vis st = Ok ss -> config ss = config st) as Hcfg.
    { intros v. induction v as [|[[i p] n] v IH]; intros st H; cbn [GC_loop] in H; inv_res; [done|].
      match goal with H : GC_loop _ _ _ = _ |- _ => apply IH in H as -> end. by case_match. }
    by eapply Hcfg.
Qed.

(** Expiry is permanent: once [IsExpired] holds for a session, it holds
    for that session in every later state, whatever is done to it in between;
    in particular [Touch] keeps a session from being idle but never extends its
    lifetime. *)
Theorem expired_forever w w' l s :
  steps w w' -> heap w !! l = Some s -> IsExpired (now w) (store w) s = true ->
  exists s', heap w' !! l = Some s' /\ IsExpired (now w') (store w') s' = true.
Proof.
  intros Hs. revert s. induction Hs as [w|w w1 w' Hstep _ IH]; intros s Hl He; [by exists s|].
  destruct (step_heap _ _ _ _ Hstep Hl) as (Hn & Hc & s1 & Hs1 & Hcr & _).
  apply (IH s1 Hs1). apply (expired_mono (now w)); [done|].
  revert He. unfold IsExpired. by rewrite Hc, Hcr.
Qed.

(** ** Witnesses *)

Definition demo_config : SessionConfig := fillDefaults (mkSessionConfig 0 0 0).
Definition demo_session : Session := NewSession 0 7 "k" None.
Definition demo_heap : Heap := {[ 1%positive := demo_session ]}.
Definition demo_store : SessionStore := mkStore demo_config {[ 7 := 1%positive ]}.

Lemma demo_config_ok : config_ok demo_config.
Proof. repeat split; by vm_compute. Qed.

Lemma demo_store_ok : store_ok demo_heap demo_store.
Proof.
  split; [exact demo_config_ok|]. intros id l. cbn [demo_store sessions].
  rewrite lookup_singleton_Some. intros [<- <-]. exists demo_session. by split.
Qed.

Lemma store_refines_witness :
  view (Touch 5 1%positive demo_heap) demo_store
  = <[7 := Session_Touch 5 demo_session]> (view demo_heap demo_store).
Proof.
  destruct (store_refines demo_heap demo_store demo_store_ok) as (_ & _ & _ & _ & H).
  exact (proj2 (H 5 1%positive demo_session eq_refl)).
Defined.

Lemma GC_exact_witness :
  exists ss', Store_GC demo_heap [(7, 1%positive, 25 * Hour)] demo_store = Ok ss' /\
    view demo_heap ss' !! 7 = None.
Proof.
  destruct (GC_exact demo_heap demo_store [(7, 1%positive, 25 * Hour)] (25 * Hour) (25 * Hour))
    as (ss' & H1 & _ & _ & H).
  - exact demo_store_ok.
  - vm_compute. reflexivity.
  - reflexivity.
  - intros v [->|[]%not_elem_of_nil]%elem_of_cons. vm_compute. split; discriminate.
  - exists ss'. split; [exact H1|].
    apply (H 7 demo_session); [vm_compute; reflexivity|vm_compute; reflexivity].
Defined.

(** A session that was filed, a collection two hours later, and then 25 hours. *)
Definition demo_world : World := mkWorld demo_heap demo_store {[ 1%positive := 0 ]} (27 * Hour) (2 * Hour).

Lemma demo_reachable : steps (start demo_config 0) demo_world.
Proof.
  eapply rtc_l; [apply (step_new _ 1%positive 0 7 "k" None); done|].
  eapply rtc_l; [apply (step_file _ 1%positive); vm_compute; reflexivity|].
  eapply rtc_l; [apply (step_time _ (2 * Hour)); vm_compute; discriminate|].
  eapply rtc_l.
  { apply (step_gc _ [(7, 1%positive, 2 * Hour)] (2 * Hour)); [by vm_compute| |by vm_compute|vm_compute; reflexivity].
    intros v [->|[]%not_elem_of_nil]%elem_of_cons. vm_compute. split; discriminate. }
  eapply rtc_l; [apply (step_time _ (27 * Hour)); vm_compute; discriminate|]. apply rtc_refl.
Qed.

Lemma session_retention_witness :
  ID demo_session = 7 /\ 27 * Hour - CreatedAt demo_session <= 24 * Hour + (27 * Hour - 2 * Hour).
Proof.
  destruct (session_retention demo_config 0 demo_world 7 1%positive demo_session demo_config_ok eq_refl
    demo_reachable eq_refl eq_refl) as (H1 & _ & f & Hf & _ & H). split; [exact H1|].
  vm_compute in Hf. injection Hf as <-. by apply H.
Defined.

Lemma expired_forever_witness :
  exists s', heap (mkWorld (Touch (27 * Hour) 1%positive demo_heap) demo_store {[ 1%positive := 0 ]} (27 * Hour) (2 * Hour))
    !! 1%positive = Some s' /\ IsExpired (27 * Hour) demo_store s' = true.
Proof.
  apply (expired_forever demo_world
    (mkWorld (Touch (27 * Hour) 1%positive demo_heap) demo_store {[ 1%positive := 0 ]} (27 * Hour) (2 * Hour))
    1%positive demo_session); [|reflexivity|vm_compute; reflexivity].
  eapply rtc_l; [apply (step_touch demo_world 1%positive demo_session (27 * Hour)); [reflexivity|vm_compute; split; discriminate]|apply rtc_refl].
Defined.
