(* ===== verification/Negotiate.v ===== *)
(** * The session handshake

    [src/session/negotiate.go].  The client sends a 2-byte key-ID length, the
    ID and its public key; the server answers with its public key and the
    session ID; both derive the session key from the shared secret and the API
    key's secret.  Key pairs are their private keys, as in [Crypto]; the clock
    reading of [NewSession] is an argument. *)

From S2P Require Import Prelude GoRt Crypto Session.

Record APIKey := mkAPIKey { KeyID : string; Secret : list byte }.

(** [APIKeyStore]: [None] is a nil slice, an unknown ID. *)
Class APIKeyStore (K : Type) := KeyStore_Get : K -> string -> option (list byte).

Abbreviation MapKeyStore := (gmap string (list byte)).
#[export] Instance MapKeyStore_Get : APIKeyStore MapKeyStore := fun m id => m !! id.

(** ** The stream: an [io.ReadWriter] *)

Record Stream := mkStream { incoming : Reader; outgoing : Writer }.

Definition stream_ReadFull (n : Z) : M Stream (list byte) := fun s =>
  let '(rd, r) := ReadFull n (incoming s) in (mkStream rd (outgoing s), r).

(** [if _, err := stream.Write(buf); err != nil { return err }] *)
Definition stream_Write (buf : list byte) : M Stream unit := fun s =>
  let '(w, (_, err)) := WriterWrite buf (outgoing s) in
  (mkStream (incoming s) w, match err with None => Ok tt | Some e => Err e end).

(** Run a stream computation in a larger state. *)
Definition on_stream {I A} (m : M Stream A) : M (Stream * I) A := fun s =>
  let '(st, r) := m s.1 in ((st, s.2), r).

Definition anonymous_secret : list byte := bytes_of "hush-anonymous".

Section negotiate.
Context `{C : CryptoOps}.

(** ** The client *)

Definition client_hello (key : option APIKey) (clientPub : list byte) : list byte :=
  match key with
  | Some k =>
      if bool_decide (KeyID k = "") then be_put 2 0 ++ clientPub
      else be_put 2 (wrapU 16 (len (bytes_of (KeyID k)))) ++ bytes_of (KeyID k) ++ clientPub
  | None => be_put 2 0 ++ clientPub
  end.

Definition client_secret (key : option APIKey) : list byte :=
  match key with
  | Some k => if bool_decide (KeyID k = "") then anonymous_secret else Secret k
  | None => anonymous_secret
  end.

Definition client_id (key : option APIKey) : string :=
  match key with Some k => KeyID k | None => "" end.

Definition NegotiateClient (now : Time) (key : option APIKey) (clientPriv : list byte)
  : M Stream Session :=
  let clientPub := x25519_Public clientPriv in
  _ ← wrap_errM "negotiate: send init: %w" [] (stream_Write (client_hello key clientPub));
  resp ← wrap_errM "negotiate: read response: %w" [] (stream_ReadFull (PubKeySize + 8));
  serverPubKey ← lift (slice resp 0 PubKeySize);
  idBytes ← lift (slice resp PubKeySize (len resp));
  let sessionID := be_get idBytes in
  serverPub ← lift (wrap_err "negotiate: invalid server pubkey: %w" [] (NewPublicKey serverPubKey));
  shared ← lift (wrap_err "negotiate: shared secret: %w" [] (SharedSecret clientPriv serverPub));
  sessionKey ← lift (wrap_err "negotiate: derive key: %w" []
                      (DeriveSessionKey shared (client_secret key)));
  mret (NewSession now sessionID (client_id key) (Some sessionKey)).

(** ** The server

    [nextSessionID] acts on a state of its own, [I]. *)
Section server.
Context {I K : Type} `{APIKeyStore K}.
Context (nextSessionID : I -> I * Z).

Definition next_session_id : M (Stream * I) Z := fun s =>
  let '(i, id) := nextSessionID s.2 in ((s.1, i), Ok id).

(** The rest of either branch, from parsing the client's public key on. *)
Definition server_finish (now : Time) (serverPriv clientPubKey secret : list byte) (apiKeyID : string)
  : M (Stream * I) Session :=
  clientPub ← lift (wrap_err "negotiate: invalid client pubkey: %w" [] (NewPublicKey clientPubKey));
  let serverPub := x25519_Public serverPriv in
  sessionID ← next_session_id;
  shared ← lift (wrap_err "negotiate: shared secret: %w" [] (SharedSecret serverPriv clientPub));
  sessionKey ← lift (wrap_err "negotiate: derive key: %w" [] (DeriveSessionKey shared secret));
  _ ← wrap_errM "negotiate: send response: %w" []
        (on_stream (stream_Write (serverPub ++ be_put 8 sessionID)));
  mret (NewSession now sessionID apiKeyID (Some sessionKey)).

Definition err_id_too_long (keyLen : Z) : error :=
  Errorf "negotiate: api key id too long (%d bytes, max 256)" [AInt keyLen].
Definition err_unknown_id (id : string) : error :=
  Errorf "negotiate: unknown api key id %q" [AStr id].

Definition NegotiateServer (now : Time) (serverPriv : list byte) (keyStore : K)
  : M (Stream * I) Session :=
  header ← wrap_errM "negotiate: read header: %w" [] (on_stream (stream_ReadFull 2));
  let keyLen := be_get header in
  if keyLen =? 0 then
    clientPubKey ← wrap_errM "negotiate: read client pubkey: %w" []
                     (on_stream (stream_ReadFull PubKeySize));
    server_finish now serverPriv clientPubKey anonymous_secret ""
  else if 256 <? keyLen then lift (Err (err_id_too_long keyLen))
  else
    keyBuf ← wrap_errM "negotiate: read key+pub: %w" []
               (on_stream (stream_ReadFull (wrapU 16 (keyLen + PubKeySize))));
    idBytes ← lift (slice keyBuf 0 keyLen);
    clientPubKey ← lift (slice keyBuf keyLen (len keyBuf));
    let apiKeyID := string_of idBytes in
    match KeyStore_Get keyStore apiKeyID with
    | None => lift (Err (err_unknown_id apiKeyID))
    | Some apiKeySecret => server_finish now serverPriv clientPubKey apiKeySecret apiKeyID
    end.
End server.

(** [GenerateAPIKey]: 32 random bytes, and 8 more in hexadecimal as the ID. *)
Definition GenerateAPIKey : M Reader APIKey :=
  secret ← RandomBytes 32;
  idBytes ← RandomBytes 8;
  mret (mkAPIKey (hex_bytes idBytes) secret).
End negotiate.
