(* ===== verification/NegotiateFacts.v ===== *)
(** * The handshake is correct

    Both sides agree on the session ID, the identity and the key; the server
    names a session after an API key only if it knows the key; neither side
    panics; and what happens to key IDs longer than 256 bytes. *)

From S2P Require Import Prelude GoRt Crypto Session Negotiate.

Section facts.
Context `{L : CryptoLaws}.

(** The API key a client and a server share: none, or one whose ID the server's
    store knows, with the same secret, and is at most 256 bytes. *)
Definition shared_key {K} `{APIKeyStore K} (ks : K) (key : option APIKey) : Prop :=
  match key with
  | None => True
  | Some k => KeyID k = "" \/
      (len (bytes_of (KeyID k)) <= 256 /\ KeyStore_Get ks (KeyID k) = Some (Secret k))
  end.

Lemma NewPublicKey_ok b : len b = PubKeySize -> NewPublicKey b = Ok b.
Proof. intros H. unfold NewPublicKey. by rewrite H. Qed.

Lemma stream_ReadFull_app n b k e w :
  n = len b -> stream_ReadFull n (mkStream (mkReader (b ++ k) e) w) = (mkStream (mkReader k e) w, Ok b).
Proof. intros H. unfold stream_ReadFull. cbn [incoming outgoing]. by rewrite ReadFull_app. Qed.

Lemma stream_Write_ok buf rd w :
  failing w = None ->
  stream_Write buf (mkStream rd w) = (mkStream rd (mkWriter (written w ++ buf) None), Ok tt).
Proof. intros H. unfold stream_Write. cbn [incoming outgoing]. by rewrite WriterWrite_ok. Qed.

Section with_server.
Context {I K : Type} `{APIKeyStore K} (nextSessionID : I -> I * Z).

(** The server's last part, on a client key of the right length. *)
Lemma server_finish_ok now a pub secret id rd w i i' sid shared k :
  failing w = None -> len pub = PubKeySize -> nextSessionID i = (i', sid) ->
  SharedSecret a pub = Ok shared -> DeriveSessionKey shared secret = Ok k ->
  server_finish nextSessionID now a pub secret id (mkStream rd w, i)
  = ((mkStream rd (mkWriter (written w ++ x25519_Public a ++ be_put 8 sid) None), i'),
     Ok (NewSession now sid id (Some k))).
Proof.
  intros Hw Hp Hi Hs Hk. unfold server_finish, next_session_id, on_stream, mbind, M_bind, lift, wrap_errM.
  rewrite NewPublicKey_ok by done. cbn [wrap_err fst snd]. rewrite Hi, Hs. cbn [wrap_err].
  rewrite Hk. cbn [wrap_err fst snd]. by rewrite stream_Write_ok.
Qed.

(** The server on the client's hello. *)
Lemma server_accepts now a ks key pub rest e w i i' sid shared k :
  shared_key ks key -> failing w = None -> len pub = PubKeySize -> nextSessionID i = (i', sid) ->
  SharedSecret a pub = Ok shared -> DeriveSessionKey shared (client_secret key) = Ok k ->
  NegotiateServer nextSessionID now a ks (mkStream (mkReader (client_hello key pub ++ rest) e) w, i)
  = ((mkStream (mkReader rest e) (mkWriter (written w ++ x25519_Public a ++ be_put 8 sid) None), i'),
     Ok (NewSession now sid (client_id key) (Some k))).
Proof.
  intros Hkey Hw Hp Hi Hs Hk.
  assert (forall id, client_hello key pub = be_put 2 0 ++ pub -> client_secret key = anonymous_secret ->
    client_id key = id -> id = "" -> NegotiateServer nextSessionID now a ks
      (mkStream (mkReader (client_hello key pub ++ rest) e) w, i)
    = ((mkStream (mkReader rest e) (mkWriter (written w ++ x25519_Public a ++ be_put 8 sid) None), i'),
       Ok (NewSession now sid id (Some k)))) as Hanon.
  { intros id Hh Hsec _ ->. rewrite Hh, <-app_assoc. unfold NegotiateServer, on_stream, wrap_errM.
    unfold mbind at 1, M_bind at 1. cbn [fst snd].
    rewrite stream_ReadFull_app by done. cbn [wrap_err].
    change (be_get (be_put 2 0) =? 0) with true. cbn match.
    unfold mbind at 1, M_bind at 1. cbn [fst snd].
    rewrite stream_ReadFull_app by done. cbn [wrap_err].
    rewrite Hsec in Hk. by apply (server_finish_ok now a pub _ _ _ w i i' sid shared). }
  destruct key as [k0|]; [|by apply Hanon].
  cbn [client_hello client_secret client_id shared_key] in *.
  destruct (decide (KeyID k0 = "")) as [Hid|Hid].
  { rewrite bool_decide_true in * by done. by apply Hanon. }
  clear Hanon. rewrite bool_decide_false in * by done. destruct Hkey as [?|[Hlen Hget]]; [done|].
  set (idb := bytes_of (KeyID k0)) in *.
  assert (0 < len idb) as Hpos.
  { subst idb. destruct (KeyID k0) as [|ch str] eqn:E; [done|]. unfold len.
    rewrite length_bytes_of. cbn. lia. }
  rewrite <-!app_assoc, (wrapU_small 16) by lia.
  unfold NegotiateServer, on_stream, wrap_errM. unfold mbind at 1, M_bind at 1. cbn [fst snd].
  rewrite stream_ReadFull_app by done. cbn [wrap_err].
  rewrite be_get_put_small by (change (256 ^ Z.of_nat 2) with 65536; lia).
  rewrite (proj2 (Z.eqb_neq _ _)), (proj2 (Z.ltb_ge _ _)) by lia.
  unfold mbind at 1, M_bind at 1. cbn [fst snd].
  rewrite (app_assoc idb), stream_ReadFull_app by
    (rewrite len_app, Hp, wrapU_small by (unfold PubKeySize; lia); done).
  cbn [wrap_err]. unfold mbind at 1, M_bind at 1, lift.
  rewrite (slice_ok _ 0) by (rewrite ?len_app; pose proof (len_nonneg pub); lia).
  unfold mbind at 1, M_bind at 1.
  rewrite slice_tail by (rewrite ?len_app; pose proof (len_nonneg pub); lia).
  rewrite Z.sub_0_r, drop_0, take_len_app, drop_len_app.
  subst idb. rewrite string_of_bytes_of, Hget.
  by apply (server_finish_ok now a pub _ _ _ w i i' sid shared).
Qed.

(** The client on a server's answer. *)
Lemma client_accepts now key b spub sid rest e w shared k :
  failing w = None -> len spub = PubKeySize -> in_uint 64 sid = true ->
  SharedSecret b spub = Ok shared -> DeriveSessionKey shared (client_secret key) = Ok k ->
  NegotiateClient now key b (mkStream (mkReader ((spub ++ be_put 8 sid) ++ rest) e) w)
  = (mkStream (mkReader rest e) (mkWriter (written w ++ client_hello key (x25519_Public b)) None),
     Ok (NewSession now sid (client_id key) (Some k))).
Proof.
  intros Hw Hp Hsid Hs Hk. apply in_uint_spec in Hsid. unfold NegotiateClient, wrap_errM.
  unfold mbind at 1, M_bind at 1. rewrite stream_Write_ok by done. cbn [wrap_err].
  unfold mbind at 1, M_bind at 1.
  rewrite stream_ReadFull_app by (rewrite len_app, len_be_put; lia). cbn [wrap_err].
  unfold mbind, M_bind, lift, mret, M_ret.
  rewrite (slice_ok _ 0) by (rewrite ?len_app, ?len_be_put; unfold PubKeySize in *; lia).
  rewrite slice_tail by (rewrite ?len_app, ?len_be_put; unfold PubKeySize in *; lia).
  rewrite Z.sub_0_r, drop_0, <-Hp, take_len_app, drop_len_app.
  rewrite NewPublicKey_ok by done. cbn [wrap_err]. rewrite Hs. cbn [wrap_err].
  rewrite Hk. cbn [wrap_err].
  by rewrite be_get_put_small by (change (256 ^ Z.of_nat 8) with (2 ^ 64); lia).
Qed.

(** ** Inversion: what a server that answers has read *)

Lemma stream_ReadFull_inv n st st' b :
  stream_ReadFull n st = (st', Ok b) -> 0 <= n ->
  unread (incoming st) = b ++ unread (incoming st') /\ len b = n /\
  ends (incoming st') = ends (incoming st) /\ outgoing st' = outgoing st.
Proof.
  unfold stream_ReadFull. destruct (ReadFull n (incoming st)) as [rd [x|x|x|]] eqn:E; try done.
  intros [= <- <-] Hn. cbn [incoming outgoing]. by apply ReadFull_inv in E as (? & ? & ?).
Qed.

Lemma server_finish_inv now a pub secret id st i st' i' s :
  failing (outgoing st) = None ->
  server_finish nextSessionID now a pub secret id (st, i) = ((st', i'), Ok s) ->
  exists sid shared k, len pub = PubKeySize /\ nextSessionID i = (i', sid) /\
    SharedSecret a pub = Ok shared /\ DeriveSessionKey shared secret = Ok k /\
    st' = mkStream (incoming st)
            (mkWriter (written (outgoing st) ++ x25519_Public a ++ be_put 8 sid) None) /\
    s = NewSession now sid id (Some k).
Proof.
  intros Hw. unfold server_finish, next_session_id, on_stream, mbind, M_bind, lift, wrap_errM.
  unfold NewPublicKey. destruct (Z.eqb_spec (len pub) 32) as [Hp|]; [|done]. cbn [wrap_err fst snd].
  destruct (nextSessionID i) as [i1 sid]. cbn [fst snd].
  destruct (SharedSecret a pub) as [shared|x|x|] eqn:Hs; cbn [wrap_err]; try done.
  destruct (DeriveSessionKey shared secret) as [k|x|x|] eqn:Hk; cbn [wrap_err fst snd]; try done.
  destruct st as [rd w]. cbn [outgoing incoming] in *. rewrite stream_Write_ok by done.
  intros [= <- <- <-]. by exists sid, shared, k.
Qed.

Lemma NegotiateServer_inv now a ks st i st' i' s :
  failing (outgoing st) = None ->
  NegotiateServer nextSessionID now a ks (st, i) = ((st', i'), Ok s) ->
  exists key pub sid shared k, shared_key ks key /\ len pub = PubKeySize /\
    unread (incoming st) = client_hello key pub ++ unread (incoming st') /\
    nextSessionID i = (i', sid) /\
    SharedSecret a pub = Ok shared /\ DeriveSessionKey shared (client_secret key) = Ok k /\
    outgoing st' = mkWriter (written (outgoing st) ++ x25519_Public a ++ be_put 8 sid) None /\
    s = NewSession now sid (client_id key) (Some k).
Proof.
  intros Hw. unfold NegotiateServer. unfold mbind at 1, M_bind at 1. unfold wrap_errM at 1, on_stream at 1.
  cbn [fst snd]. destruct (stream_ReadFull 2 st) as [st1 [hd|x|x|]] eqn:E1; cbn [wrap_err]; try done.
  apply stream_ReadFull_inv in E1 as (Hu1 & Hl1 & He1 & Ho1); [|done].
  assert (be_put 2 (be_get hd) = hd) as Hhd.
  { replace 2%nat with (length hd) by (unfold len in Hl1; lia). apply be_put_get. }
  destruct (Z.eqb_spec (be_get hd) 0) as [H0|H0].
  - unfold mbind, M_bind, wrap_errM, on_stream. cbn [fst snd].
    destruct (stream_ReadFull PubKeySize st1) as [st2 [pub|x|x|]] eqn:E2; cbn [wrap_err]; try done.
    apply stream_ReadFull_inv in E2 as (Hu2 & Hl2 & He2 & Ho2); [|done].
    intros Hf. apply server_finish_inv in Hf as (sid & shared & k & Hp & Hi & Hs & Hk & -> & ->);
      [|by rewrite Ho2, Ho1].
    exists None, pub, sid, shared, k. cbn [incoming outgoing client_hello shared_key].
    rewrite Ho2, Ho1. rewrite H0 in Hhd. rewrite Hhd, <-app_assoc, <-Hu2, <-Hu1. done.
  - destruct (Z.ltb_spec 256 (be_get hd)) as [|H256]; [done|].
    assert (0 < be_get hd) as Hpos by (pose proof (be_get_range hd) as [? _]; lia).
    rewrite wrapU_small by (unfold PubKeySize; lia).
    unfold mbind, M_bind, wrap_errM, on_stream, lift. cbn [fst snd].
    destruct (stream_ReadFull _ st1) as [st2 [kb|x|x|]] eqn:E2; cbn [wrap_err]; try done.
    apply stream_ReadFull_inv in E2 as (Hu2 & Hl2 & He2 & Ho2); [|unfold PubKeySize; lia].
    unfold PubKeySize in Hl2. rewrite (slice_ok _ 0), slice_tail by lia. rewrite Z.sub_0_r, drop_0.
    set (idb := take _ kb). set (pub := drop _ kb).
    destruct (KeyStore_Get ks (string_of idb)) as [sec|] eqn:Hget; [|done].
    intros Hf. apply server_finish_inv in Hf as (sid & shared & k & Hp & Hi & Hs & Hk & -> & ->);
      [|by rewrite Ho2, Ho1].
    assert (len idb = be_get hd) as Hidb by (subst idb; rewrite len_take; lia).
    assert (string_of idb <> "") as Hne.
    { intros Hemp. rewrite <-(bytes_of_string_of idb), Hemp in Hidb. change (len (bytes_of "")) with 0 in Hidb. lia. }
    exists (Some (mkAPIKey (string_of idb) sec)), pub, sid, shared, k.
    cbn [incoming outgoing client_hello shared_key client_secret client_id KeyID Secret].
    rewrite (bool_decide_false _ Hne), bytes_of_string_of, Hidb, (wrapU_small 16) by lia.
    split; [right; by split|]. rewrite Hhd, Ho2, Ho1.
    split; [done|]. split; [|done].
    rewrite Hu1, Hu2. subst idb pub. by rewrite <-!app_assoc, (app_assoc (take _ _)), take_drop.
Qed.

(** ** No panic *)

Lemma returns_on {S A B} (m : M S A) (f : A -> M S B) s :
  returns (m s).2 -> (forall a s', m s = (s', Ok a) -> returns (f a s').2) ->
  returns ((m ≫= f) s).2.
Proof.
  unfold mbind, M_bind. destruct (m s) as [s' [a|x|x|]] eqn:E; cbn; try done.
  intros _ Hf. by apply Hf.
Qed.

Lemma stream_ReadFull_returns n st : returns (stream_ReadFull n st).2.
Proof. unfold stream_ReadFull, ReadFull. by destruct (n <=? _). Qed.

Lemma stream_Write_returns buf st : returns (stream_Write buf st).2.
Proof.
  unfold stream_Write. destruct (WriterWrite _ _) as [w [n [x|]]]; done.
Qed.

Lemma wrap_errM_returns {S A} fmt args (m : M S A) s : returns (m s).2 -> returns (wrap_errM fmt args m s).2.
Proof. unfold wrap_errM. by destruct (m s) as [s' [a|x|x|]]. Qed.

Lemma wrap_errM_Ok {S A} fmt args (m : M S A) s s' a : wrap_errM fmt args m s = (s', Ok a) -> m s = (s', Ok a).
Proof. unfold wrap_errM. destruct (m s) as [s1 [x|x|x|]]; cbn; congruence. Qed.

Lemma on_stream_returns {J A} (m : M Stream A) (st : Stream) (j : J) :
  returns (m st).2 -> returns (on_stream m (st, j)).2.
Proof. unfold on_stream. cbn [fst snd]. by destruct (m st). Qed.

Lemma NewPublicKey_returns b : returns (NewPublicKey b).
Proof. unfold NewPublicKey. by case_match. Qed.

Lemma server_finish_returns now a pub secret id st :
  returns (server_finish nextSessionID now a pub secret id st).2.
Proof.
  unfold server_finish. apply returns_on; [by apply returns_wrap, NewPublicKey_returns|].
  intros cp s1 _. apply returns_on.
  { unfold next_session_id. by destruct (nextSessionID s1.2). }
  intros sid s2 _. apply returns_on; [apply returns_wrap, x25519_ECDH_returns|].
  intros sh s3 _. apply returns_on; [apply returns_wrap, DeriveSessionKey_returns|].
  intros k [st4 i4] _. apply returns_on; [|done].
  apply wrap_errM_returns, on_stream_returns, stream_Write_returns.
Qed.

Lemma on_stream_ReadFull_len {J} fmt args n (st : Stream * J) s b :
  0 <= n -> wrap_errM fmt args (on_stream (stream_ReadFull n)) st = (s, Ok b) -> len b = n.
Proof.
  intros Hn Hr. apply wrap_errM_Ok in Hr. unfold on_stream in Hr.
  destruct (stream_ReadFull n st.1) as [st1 r] eqn:E. injection Hr as <- ->.
  by apply stream_ReadFull_inv in E as (_ & ? & _).
Qed.

Lemma NegotiateServer_returns now a ks st :
  returns (NegotiateServer nextSessionID now a ks st).2.
Proof.
  unfold NegotiateServer. destruct st as [st i]. apply returns_on.
  { apply wrap_errM_returns, on_stream_returns, stream_ReadFull_returns. }
  intros hd [st1 i1] Hhd. apply on_stream_ReadFull_len in Hhd; [|done].
  pose proof (be_get_range hd) as Hrange. rewrite Hhd in Hrange. change (256 ^ 2) with 65536 in Hrange.
  destruct (be_get hd =? 0); [|destruct (Z.ltb_spec 256 (be_get hd)); [done|]].
  - apply returns_on; [apply wrap_errM_returns, on_stream_returns, stream_ReadFull_returns|].
    intros pub s2 _. apply server_finish_returns.
  - rewrite wrapU_small by (unfold PubKeySize; lia).
    apply returns_on; [apply wrap_errM_returns, on_stream_returns, stream_ReadFull_returns|].
    intros kb [st2 i2] Hkb. apply on_stream_ReadFull_len in Hkb; [|unfold PubKeySize; lia].
    unfold PubKeySize in Hkb. unfold mbind, M_bind, lift. rewrite (slice_ok _ 0), slice_tail by lia.
    case_match; [apply server_finish_returns|done].
Qed.
End with_server.

Lemma NegotiateClient_returns now key b st : returns (NegotiateClient now key b st).2.
Proof.
  unfold NegotiateClient. apply returns_on; [apply wrap_errM_returns, stream_Write_returns|].
  intros u st1 _. apply returns_on; [apply wrap_errM_returns, stream_ReadFull_returns|].
  intros resp st2 Hresp. apply wrap_errM_Ok, stream_ReadFull_inv in Hresp as (_ & Hl & _); [|done].
  unfold PubKeySize in Hl. unfold mbind at 1 2, M_bind at 1 2, lift.
  rewrite (slice_ok _ 0), slice_tail by (unfold PubKeySize; lia).
  apply returns_on; [apply returns_wrap, NewPublicKey_returns|]. intros sp st3 _.
  apply returns_on; [apply returns_wrap, x25519_ECDH_returns|]. intros sh st4 _.
  apply returns_on; [apply returns_wrap, DeriveSessionKey_returns|]. done.
Qed.

(** ** The theorems *)

Section theorems.
Context {I K : Type} `{APIKeyStore K} (nextSessionID : I -> I * Z).

(** C9. The handshake agrees: when the server's store has the client's API key
    (or the client has none), running the server on the client's hello and the
    client on the server's answer gives both a session with the same ID, the
    same API key ID and the same 32-byte key, and each side consumes exactly
    the other's message. *)
Theorem handshake_agrees ks key a b ts tc i i' sid shared k rest e rest' e' w w' :
  shared_key ks key -> failing w = None -> failing w' = None ->
  nextSessionID i = (i', sid) -> in_uint 64 sid = true ->
  SharedSecret a (x25519_Public b) = Ok shared ->
  DeriveSessionKey shared (client_secret key) = Ok k ->
  exists hello answer,
    NegotiateServer nextSessionID ts a ks (mkStream (mkReader (hello ++ rest) e) w, i)
    = ((mkStream (mkReader rest e) (mkWriter (written w ++ answer) None), i'),
       Ok (NewSession ts sid (client_id key) (Some k))) /\
    NegotiateClient tc key b (mkStream (mkReader (answer ++ rest') e') w')
    = (mkStream (mkReader rest' e') (mkWriter (written w' ++ hello) None),
       Ok (NewSession tc sid (client_id key) (Some k))) /\
    len k = KeySize.
Proof.
  intros Hkey Hw Hw' Hi Hsid Hs Hk.
  exists (client_hello key (x25519_Public b)), (x25519_Public a ++ be_put 8 sid).
  split; [|split; [|by eapply DeriveSessionKey_len]].
  - by eapply server_accepts; eauto using x25519_Public_len.
  - eapply client_accepts; eauto using x25519_Public_len.
    unfold SharedSecret in *. by rewrite <-x25519_commutes.
Qed.

(** C20. Whom the server lets in: it returns a session exactly for the hellos of
    clients without an API key or with one its store knows under an ID of 1 to
    256 bytes; the session carries that ID, a fresh session ID, and a key
    derived from that API key's secret, so an identity is never granted without
    its secret entering the key. *)
Theorem NegotiateServer_accepts_iff now a ks i i' buf rest e w w1 s :
  failing w = None ->
  NegotiateServer nextSessionID now a ks (mkStream (mkReader (buf ++ rest) e) w, i)
  = ((mkStream (mkReader rest e) w1, i'), Ok s) <->
  exists key pub sid shared k, shared_key ks key /\ len pub = PubKeySize /\
    buf = client_hello key pub /\ nextSessionID i = (i', sid) /\
    SharedSecret a pub = Ok shared /\ DeriveSessionKey shared (client_secret key) = Ok k /\
    w1 = mkWriter (written w ++ x25519_Public a ++ be_put 8 sid) None /\
    s = NewSession now sid (client_id key) (Some k).
Proof.
  intros Hw. split.
  - intros Hn. apply NegotiateServer_inv in Hn as (key & pub & sid & shared & k & ? & ? & Hu & ? & ? & ? & ? & ?);
      [|done].
    cbn [incoming outgoing unread] in *. apply app_inv_tail in Hu.
    by exists key, pub, sid, shared, k.
  - intros (key & pub & sid & shared & k & ? & ? & -> & ? & ? & ? & -> & ->).
    by eapply server_accepts.
Qed.

(** Neither side of the handshake panics, whatever the peer sends, however
    the stream fails, and whatever keys it is run with. *)
Theorem negotiate_total now a b ks key st i :
  returns (NegotiateServer nextSessionID now a ks (st, i)).2 /\
  returns (NegotiateClient now key b st).2.
Proof. split; [apply NegotiateServer_returns|apply NegotiateClient_returns]. Qed.

(** The 256-byte limit on key IDs is the server's alone, and the client's
    length field is 16 bits wide: an ID of 65536 bytes or more is sent with its
    length modulo 65536, so the server runs the handshake of the cut-off ID (of
    no API key at all if nothing remains), with the next 32 bytes of the ID as
    the client's public key. *)
Theorem client_hello_truncates now a ks i k pub rest e w :
  let idb := bytes_of (KeyID k) in
  let n := Z.to_nat (len idb `mod` 65536) in
  65536 <= len idb -> len pub = PubKeySize ->
  let k' := mkAPIKey (string_of (take n idb)) (Secret k) in
  let pub' := take 32 (drop n idb) in
  NegotiateServer nextSessionID now a ks (mkStream (mkReader (client_hello (Some k) pub ++ rest) e) w, i)
  = NegotiateServer nextSessionID now a ks
      (mkStream (mkReader (client_hello (Some k') pub' ++ (drop 32 (drop n idb) ++ pub ++ rest)) e) w, i).
Proof.
  intros idb n Hlen Hp k' pub'. do 4 f_equal. unfold client_hello. subst k' pub'. cbn [KeyID Secret].
  assert (KeyID k <> "") as Hne.
  { intros E. subst idb. rewrite E in Hlen. change (len (bytes_of "")) with 0 in Hlen. lia. }
  rewrite (bool_decide_false _ Hne). fold idb.
  assert (Z.of_nat n = len idb `mod` 65536) as Hn by (subst n; zlia).
  assert (len (take n idb) = Z.of_nat n) as Htk by (rewrite len_take; zlia).
  assert (forall x : list byte, be_put 2 (wrapU 16 (len idb)) ++ idb ++ pub ++ x
    = be_put 2 (wrapU 16 (len (take n idb))) ++ (take n idb ++ take 32 (drop n idb))
      ++ drop 32 (drop n idb) ++ pub ++ x) as Heq.
  { intros x. f_equal.
    - f_equal. rewrite Htk, Hn. unfold wrapU. change (2 ^ 16) with 65536. by rewrite Zmod_mod.
    - by rewrite <-app_assoc, (app_assoc (take 32 _)), take_drop, (app_assoc (take n _)), take_drop. }
  rewrite bytes_of_string_of, <-!app_assoc, Heq. case_bool_decide as Hemp.
  - assert (take n idb = []) as Hnil by (by rewrite <-(bytes_of_string_of (take n idb)), Hemp).
    rewrite Hnil. done.
  - by rewrite <-!app_assoc.
Qed.
End theorems.
End facts.

(** ** Witnesses: a store with one key, and session IDs counted up from 1 *)

Definition demo_api_key : APIKey := mkAPIKey "k1" (be_put 32 42).
Definition demo_keys : MapKeyStore := {[ "k1"%string := be_put 32 42 ]}.
Definition count_up (n : Z) : Z * Z := (n + 1, n + 1).
Definition demo_priv_a : list byte := be_put 32 111.
Definition demo_priv_b : list byte := be_put 32 222.

Definition value_or {A} (d : A) (r : res A) : A := match r with Ok a => a | _ => d end.
Definition demo_shared : list byte := value_or [] (SharedSecret demo_priv_a (x25519_Public demo_priv_b)).
Definition demo_derived (secret : list byte) : list byte := value_or [] (DeriveSessionKey demo_shared secret).

Lemma demo_ECDH : SharedSecret demo_priv_a (x25519_Public demo_priv_b) = Ok demo_shared.
Proof. vm_compute. reflexivity. Qed.
Lemma demo_HKDF secret : DeriveSessionKey demo_shared secret = Ok (demo_derived secret).
Proof. reflexivity. Qed.

Lemma demo_shared_key : shared_key demo_keys (Some demo_api_key).
Proof. right. split; [vm_compute; discriminate|vm_compute; reflexivity]. Qed.

Lemma handshake_agrees_witness :
  exists hello answer k,
    NegotiateServer count_up 5 demo_priv_a demo_keys
      (mkStream (mkReader (hello ++ []) io_EOF) empty_writer, 0)
    = ((mkStream (mkReader [] io_EOF) (mkWriter (written empty_writer ++ answer) None), 1),
       Ok (NewSession 5 1 "k1" (Some k))) /\ len k = 32.
Proof.
  destruct (handshake_agrees count_up demo_keys (Some demo_api_key) demo_priv_a demo_priv_b 5 6
    0 1 1 _ _ [] io_EOF [] io_EOF empty_writer empty_writer demo_shared_key eq_refl eq_refl eq_refl eq_refl
    demo_ECDH (demo_HKDF _)) as (hello & answer & H1 & _ & H3).
  exists hello, answer. eexists. split; [exact H1|exact H3].
Defined.

Lemma NegotiateServer_accepts_iff_witness :
  exists w1 i' s, NegotiateServer count_up 5 demo_priv_a demo_keys
      (mkStream (mkReader (client_hello None (x25519_Public demo_priv_b) ++ []) io_EOF) empty_writer, 0)
    = ((mkStream (mkReader [] io_EOF) w1, i'), Ok s) /\ APIKeyID s = "".
Proof.
  do 3 eexists. split.
  - apply (NegotiateServer_accepts_iff count_up). reflexivity.
    exists None, (x25519_Public demo_priv_b), 1, demo_shared, (demo_derived anonymous_secret).
    split; [exact I|]. split; [reflexivity|]. split; [reflexivity|]. split; [reflexivity|].
    split; [exact demo_ECDH|]. split; [apply demo_HKDF|]. split; reflexivity.
  - reflexivity.
Defined.

Lemma negotiate_total_witness :
  returns (NegotiateServer count_up 5 [] demo_keys (mkStream (reader_of [x01; x00]) empty_writer, 0)).2.
Proof.
  exact (proj1 (negotiate_total count_up 5 [] [] demo_keys None
    (mkStream (reader_of [x01; x00]) empty_writer) 0)).
Defined.

Definition long_id : string := string_of (replicate 65536 x61).

Lemma client_hello_truncates_witness :
  let k := mkAPIKey long_id [] in
  NegotiateServer count_up 5 demo_priv_a demo_keys
    (mkStream (mkReader (client_hello (Some k) (x25519_Public demo_priv_b) ++ []) io_EOF) empty_writer, 0)
  = NegotiateServer count_up 5 demo_priv_a demo_keys
    (mkStream (mkReader (client_hello (Some (mkAPIKey "" [])) (replicate 32 x61) ++
      (replicate 65504 x61 ++ x25519_Public demo_priv_b ++ [])) io_EOF) empty_writer, 0).
Proof.
  intros k.
  exact (client_hello_truncates count_up 5 demo_priv_a demo_keys 0 k
    (x25519_Public demo_priv_b) [] io_EOF empty_writer ltac:(vm_compute; discriminate) eq_refl).
Defined.
