(* ===== verification/RateLimit.v ===== *)
(** * The sliding-window rate limiter

    [src/server/ratelimit.go].  Every method holds the limiter's mutex, so a
    method is one step; [now] is its reading of the clock. *)

From S2P Require Import Prelude GoRt.

(** [stopCh] is the channel of the running cleanup goroutine, if any; channels
    are numbered, and [closed] lists those that were closed. *)
Record Limiter := mkLimiter {
  limit : Z;
  window : Duration;
  entries : gmap string (list Time);
  stopCh : option Z;
  chans : Z;
  closed : list Z
}.

Definition set_entries (l : Limiter) (e : gmap string (list Time)) : Limiter :=
  mkLimiter (limit l) (window l) e (stopCh l) (chans l) (closed l).

Definition NewSlidingWindowLimiter (lim : Z) (win : Duration) : Limiter :=
  mkLimiter lim win ∅ None 0 [].

(** [now.Add(-l.window)]. *)
Definition cutoff_of (now : Time) (l : Limiter) : Time := now + dur_neg (window l).

(** The pruning loop: [i] is the index of the round; the result is the index of
    the first timestamp after the cutoff, or the number of timestamps. *)
Fixpoint firstValid_loop (cutoff : Time) (i firstValid : nat) (timestamps : list Time) : nat :=
  match timestamps with
  | [] => firstValid
  | t :: timestamps =>
      if cutoff <? t then i
      else firstValid_loop cutoff (S i) (S i) timestamps
  end.
Definition firstValid (cutoff : Time) (timestamps : list Time) : nat :=
  firstValid_loop cutoff 0 0 timestamps.

(** [l.entries[key]]: nil for a missing key. *)
Definition stamps (l : Limiter) (key : string) : list Time := default [] (entries l !! key).

Definition Allow (now : Time) (key : string) (l : Limiter) : Limiter * bool :=
  let cutoff := cutoff_of now l in
  let timestamps := stamps l key in
  let fv := firstValid cutoff timestamps in
  let timestamps := if (0 <? fv)%nat then drop fv timestamps else timestamps in
  if limit l <=? len timestamps
  then (set_entries l (<[key := timestamps]> (entries l)), false)
  else (set_entries l (<[key := timestamps ++ [now]]> (entries l)), true).

(** [gc]: the cutoff is read once; the range treats every key alone, so its
    order does not matter. *)
Definition gc_key (cutoff : Time) (timestamps : list Time) : option (list Time) :=
  let fv := firstValid cutoff timestamps in
  if (length timestamps <=? fv)%nat then None else Some (drop fv timestamps).
Definition gc (now : Time) (l : Limiter) : Limiter :=
  let cutoff := cutoff_of now l in
  set_entries l (omap (gc_key cutoff) (entries l)).

(** ** The cleanup goroutine *)

(** [time.NewTicker] panics on a non-positive interval. *)
Definition NewTicker (interval : Duration) : res unit :=
  if interval <=? 0 then Panic (POther "non-positive interval for NewTicker") else Ok tt.

(** [CleanupEvery]: the channel of the goroutine it starts, if it starts one.
    The goroutine runs [NewTicker interval] first, then [gc] on every tick
    until its channel is closed. *)
Definition CleanupEvery (l : Limiter) : Limiter * option Z :=
  match stopCh l with
  | Some _ => (l, None)
  | None =>
      (mkLimiter (limit l) (window l) (entries l) (Some (chans l)) (chans l + 1) (closed l),
       Some (chans l))
  end.

(** [close(ch)] panics on a closed channel. *)
Definition Stop (l : Limiter) : Limiter * res unit :=
  let l' ch_closed := mkLimiter (limit l) (window l) (entries l) None (chans l) ch_closed in
  match stopCh l with
  | None => (l' (closed l), Ok tt)
  | Some ch =>
      if bool_decide (ch ∈ closed l) then (l' (closed l), Panic PCloseClosed)
      else (l' (ch :: closed l), Ok tt)
  end.

(** ** Pre-built limiters *)

Record LimiterConfig := mkLimiterConfig {
  RequestsPerSecondPerKey : Z;
  RequestsPerMinutePerKey : Z;
  BurstSize : Z;
  CleanupInterval : Duration
}.

Definition DefaultLimiterConfig : LimiterConfig := mkLimiterConfig 10 600 20 (5 * Minute).

(** The two limiters, and what their cleanup goroutines do first. *)
Definition NewDefaultLimiter (cfg : LimiterConfig) : (Limiter * Limiter) * (res unit * res unit) :=
  let second := NewSlidingWindowLimiter (wrapS 64 (RequestsPerSecondPerKey cfg + BurstSize cfg)) Second in
  let minute := NewSlidingWindowLimiter (wrapS 64 (RequestsPerMinutePerKey cfg + BurstSize cfg)) Minute in
  let '(second, _) := CleanupEvery second in
  let '(minute, _) := CleanupEvery minute in
  ((second, minute), (NewTicker (CleanupInterval cfg), NewTicker (CleanupInterval cfg))).

(** ** Runs *)

Inductive op := OpAllow (key : string) | OpGC.

(** One operation at a time [now]: the new limiter and, for [Allow], its answer. *)
Definition run_op (now : Time) (o : op) (l : Limiter) : Limiter * option bool :=
  match o with
  | OpAllow key => let '(l, b) := Allow now key l in (l, Some b)
  | OpGC => (gc now l, None)
  end.

Fixpoint run (trace : list (Time * op)) (l : Limiter) : Limiter * list (option bool) :=
  match trace with
  | [] => (l, [])
  | (now, o) :: trace =>
      let '(l, b) := run_op now o l in
      let '(l, bs) := run trace l in (l, b :: bs)
  end.

(** ** The specification

    The log of the requests that were allowed, latest first; a request is
    allowed when fewer than [limit] of them, for its key, are younger than the
    window. *)
Abbreviation log := (list (string * Time)).

Definition younger (win : Duration) (now : Time) (key : string) (h : log) : Z :=
  len (filter (fun '(k, t) => k = key /\ now - win < t) h).

Definition spec_op (lim : Z) (win : Duration) (now : Time) (o : op) (h : log) : log * option bool :=
  match o with
  | OpAllow key =>
      if younger win now key h <? lim then ((key, now) :: h, Some true) else (h, Some false)
  | OpGC => (h, None)
  end.

Fixpoint spec_run (lim : Z) (win : Duration) (trace : list (Time * op)) (h : log)
  : log * list (option bool) :=
  match trace with
  | [] => (h, [])
  | (now, o) :: trace =>
      let '(h, b) := spec_op lim win now o h in
      let '(h, bs) := spec_run lim win trace h in (h, b :: bs)
  end.

(** The clock of a trace does not go back. *)
Fixpoint in_order (t0 : Time) (trace : list (Time * op)) : Prop :=
  match trace with
  | [] => True
  | (now, _) :: trace => t0 <= now /\ in_order now trace
  end.
