(* ===== verification/RateLimitFacts.v ===== *)
(** * The rate limiter is a sliding window

    On every run, [Allow] answers as the log-based specification does, cleanup
    included; so no window ever holds more than [limit] allowed requests. *)

From S2P Require Import Prelude GoRt RateLimit.
From Stdlib Require Import Sorted.

(** ** Pruning a sorted list is filtering it *)

Lemma firstValid_loop_shift c ts : forall i,
  firstValid_loop c i i ts = (i + firstValid_loop c 0 0 ts)%nat.
Proof.
  induction ts as [|t ts IH]; intros i; cbn [firstValid_loop]; [lia|].
  destruct (c <? t); [lia|]. rewrite (IH (S i)), (IH 1%nat). lia.
Qed.

Lemma firstValid_cons c t ts :
  firstValid c (t :: ts) = if c <? t then 0%nat else S (firstValid c ts).
Proof.
  unfold firstValid. cbn [firstValid_loop]. destruct (c <? t); [done|].
  by rewrite (firstValid_loop_shift _ _ 1).
Qed.

Lemma firstValid_le c ts : (firstValid c ts <= length ts)%nat.
Proof.
  induction ts as [|t ts IH]; [done|]. rewrite firstValid_cons. cbn [length].
  destruct (c <? t); lia.
Qed.

Abbreviation after c := (filter (fun x : Z => c < x)).

Lemma filter_all_gt c ts : Forall (fun x => c < x) ts -> after c ts = ts.
Proof. induction 1 as [|t ts Ht _ IH]; [done|]. by rewrite filter_cons_True, IH. Qed.

Lemma filter_all_le c ts : Forall (fun x => x <= c) ts -> after c ts = [].
Proof. induction 1 as [|t ts Ht _ IH]; [done|]. by rewrite filter_cons_False by lia. Qed.

Lemma drop_firstValid c ts :
  StronglySorted Z.le ts -> drop (firstValid c ts) ts = after c ts.
Proof.
  induction 1 as [|t ts Hs IH Hall]; [done|]. rewrite firstValid_cons.
  destruct (Z.ltb_spec c t) as [Ht|Ht]; cbn [drop].
  - rewrite filter_cons_True, filter_all_gt; [done| |done].
    eapply Forall_impl; [|exact Hall]. intros x ?. lia.
  - by rewrite filter_cons_False, IH by lia.
Qed.

Lemma firstValid_all c ts : StronglySorted Z.le ts -> (length ts <= firstValid c ts)%nat -> after c ts = [].
Proof. intros Hs Hl. rewrite <-drop_firstValid by done. by apply drop_ge. Qed.

Lemma Forall_le_mono c d ts : Forall (fun x => x <= c) ts -> c <= d -> Forall (fun x => x <= d) ts.
Proof. intros H Hcd. eapply Forall_impl; [|exact H]. cbn. intros x ?. lia. Qed.

(** The pruned timestamps of [Allow], and what [gc] keeps of a key. *)
Lemma Allow_eq now key l :
  StronglySorted Z.le (stamps l key) ->
  let kept := after (cutoff_of now l) (stamps l key) in
  Allow now key l =
    if limit l <=? len kept then (set_entries l (<[key := kept]> (entries l)), false)
    else (set_entries l (<[key := kept ++ [now]]> (entries l)), true).
Proof.
  intros Hs kept. unfold Allow.
  assert ((if (0 <? firstValid (cutoff_of now l) (stamps l key))%nat
           then drop (firstValid (cutoff_of now l) (stamps l key)) (stamps l key)
           else stamps l key) = kept) as ->; [|done].
  subst kept. rewrite <-drop_firstValid by done.
  by destruct (firstValid _ _) as [|n].
Qed.

Lemma stamps_gc now l k :
  StronglySorted Z.le (stamps l k) -> stamps (gc now l) k = after (cutoff_of now l) (stamps l k).
Proof.
  unfold stamps, gc, set_entries. cbn [entries]. rewrite lookup_omap.
  destruct (entries l !! k) as [ts|]; cbn [mbind option_bind default]; [|done].
  intros Hs. unfold gc_key. destruct (Nat.leb_spec (length ts) (firstValid (cutoff_of now l) ts)).
  - cbn [default]. by rewrite firstValid_all.
  - cbn [default]. by apply drop_firstValid.
Qed.

Lemma stamps_insert l k ts k' :
  stamps (set_entries l (<[k := ts]> (entries l))) k' = if decide (k = k') then ts else stamps l k'.
Proof.
  unfold stamps, set_entries. cbn [entries]. destruct (decide (k = k')) as [<-|Hne].
  - by rewrite lookup_insert_eq.
  - by rewrite lookup_insert_ne.
Qed.

(** ** The invariant that ties a limiter to the log *)

Definition allowed (k : string) (h : log) : list Time :=
  reverse ((filter (fun e => e.1 = k) h).*2).

Lemma allowed_cons k key now h :
  allowed k ((key, now) :: h) = if decide (key = k) then allowed k h ++ [now] else allowed k h.
Proof.
  unfold allowed. destruct (decide (key = k)) as [->|Hne].
  - rewrite filter_cons_True by done. by rewrite fmap_cons, reverse_cons.
  - by rewrite filter_cons_False.
Qed.

Lemma younger_allowed win now k h : younger win now k h = len (after (now - win) (allowed k h)).
Proof.
  unfold younger, allowed, len. f_equal. induction h as [|[k' t] h IH]; [done|].
  destruct (decide (k' = k)) as [->|Hne].
  - rewrite (filter_cons_True (fun e : string * Z => e.1 = k)) by done.
    rewrite fmap_cons, reverse_cons, list.filter_app, length_app, <-IH. cbn [snd].
    destruct (decide (now - win < t)).
    + rewrite !filter_cons_True by done. cbn. lia.
    + rewrite !filter_cons_False by naive_solver. cbn. lia.
  - rewrite (filter_cons_False (fun e : string * Z => e.1 = k)), filter_cons_False by naive_solver.
    done.
Qed.

(** At time [t]: the stored timestamps are the log's, less a prefix that is too
    old; and the log is sorted and in the past. *)
Definition tracks (t : Time) (l : Limiter) (h : log) : Prop := forall k,
  exists old, allowed k h = old ++ stamps l k /\ Forall (fun x => x <= t - window l) old /\
    StronglySorted Z.le (allowed k h) /\ Forall (fun x => x <= t) (allowed k h).

Lemma StronglySorted_app_r (xs ys : list Z) :
  StronglySorted Z.le (xs ++ ys) -> StronglySorted Z.le ys.
Proof. induction xs as [|x xs IH]; [done|]. intros [H _]%StronglySorted_inv. auto. Qed.

Lemma StronglySorted_snoc (xs : list Z) t :
  StronglySorted Z.le xs -> Forall (fun x => x <= t) xs -> StronglySorted Z.le (xs ++ [t]).
Proof.
  induction 1 as [|x xs Hs IH Hall]; cbn; intros Ht; [by repeat constructor|].
  apply list.Forall_cons in Ht as [Hx Ht]. constructor; [auto|].
  apply Forall_app. split; [done|]. by constructor.
Qed.

Lemma filter_split_sorted c (ts : list Z) :
  StronglySorted Z.le ts -> exists old, ts = old ++ after c ts /\ Forall (fun x => x <= c) old.
Proof.
  intros Hs. exists (take (firstValid c ts) ts). rewrite <-drop_firstValid, take_drop by done.
  split; [done|]. clear Hs. induction ts as [|t ts IH]; [by rewrite take_nil|].
  rewrite firstValid_cons. destruct (Z.ltb_spec c t); cbn [take]; [done|]. by constructor.
Qed.

Section tracking.
Context (lim win : Z) (Hwin : - 2 ^ 63 < win < 2 ^ 63).

Definition limiter_for (l : Limiter) : Prop := limit l = lim /\ window l = win.

Lemma cutoff_eq now l : limiter_for l -> cutoff_of now l = now - win.
Proof. intros [_ Hw]. unfold cutoff_of. rewrite Hw, dur_neg_small by done. lia. Qed.

Lemma tracks_sorted t l h k : tracks t l h -> StronglySorted Z.le (stamps l k).
Proof. intros Ht. destruct (Ht k) as (old & Heq & _ & Hs & _). rewrite Heq in Hs. by eapply StronglySorted_app_r. Qed.

(** Pruning at [now] keeps the relation, and leaves what the log has younger
    than the window. *)
Lemma tracks_after t now l h k :
  limiter_for l -> tracks t l h -> t <= now ->
  after (now - win) (stamps l k) = after (now - win) (allowed k h) /\
  exists old, allowed k h = old ++ after (now - win) (stamps l k) /\
    Forall (fun x => x <= now - win) old.
Proof.
  intros [_ Hw] Ht Hle. pose proof (tracks_sorted _ _ _ k Ht) as Hss.
  destruct (Ht k) as (old & Heq & Hold & Hs & _). rewrite Hw in Hold.
  assert (Forall (fun x => x <= now - win) old) as Hold'
    by (apply (Forall_le_mono _ _ _ Hold); lia).
  split; [by rewrite Heq, list.filter_app, (filter_all_le _ old)|].
  destruct (filter_split_sorted (now - win) _ Hss) as (old2 & Heq2 & Hold2).
  exists (old ++ old2). split; [by rewrite Heq, Heq2 at 1; rewrite app_assoc|].
  by apply Forall_app.
Qed.

Lemma tracks_insert t now l h k :
  limiter_for l -> tracks t l h -> t <= now ->
  tracks now (set_entries l (<[k := after (now - win) (stamps l k)]> (entries l))) h.
Proof.
  intros Hl Ht Hle k'. rewrite stamps_insert. destruct (Ht k') as (old & Heq & Hold & Hs & Hp).
  assert (Forall (fun x => x <= now) (allowed k' h)) by (apply (Forall_le_mono _ _ _ Hp); lia).
  destruct (decide (k = k')) as [<-|_].
  - destruct (tracks_after _ _ _ _ k Hl Ht Hle) as [_ (old' & Heq' & Hold')].
    exists old'. cbn [set_entries window]. by rewrite (proj2 Hl).
  - exists old. cbn [set_entries window]. split; [done|]. split; [|done].
    apply (Forall_le_mono _ _ _ Hold); lia.
Qed.

Lemma tracks_allow t now l h k :
  limiter_for l -> tracks t l h -> t <= now ->
  tracks now (set_entries l (<[k := after (now - win) (stamps l k) ++ [now]]> (entries l)))
         ((k, now) :: h).
Proof.
  intros Hl Ht Hle k'. rewrite stamps_insert, allowed_cons.
  destruct (Ht k') as (old & Heq & Hold & Hs & Hp).
  assert (Forall (fun x => x <= now) (allowed k' h)) by (apply (Forall_le_mono _ _ _ Hp); lia).
  cbn [set_entries window]. destruct (decide (k = k')) as [<-|_].
  - destruct (tracks_after _ _ _ _ k Hl Ht Hle) as [_ (old' & Heq' & Hold')].
    exists old'. rewrite (proj2 Hl), app_assoc, <-Heq'. split; [done|]. split; [done|].
    split; [by apply StronglySorted_snoc|]. apply Forall_app. by repeat constructor.
  - exists old. split; [done|]. split; [|done].
    apply (Forall_le_mono _ _ _ Hold); lia.
Qed.

Lemma tracks_gc t now l h : limiter_for l -> tracks t l h -> t <= now -> tracks now (gc now l) h.
Proof.
  intros Hl Ht Hle k. rewrite stamps_gc, cutoff_eq by eauto using tracks_sorted.
  destruct (tracks_after _ _ _ _ k Hl Ht Hle) as [_ (old' & Heq' & Hold')].
  destruct (Ht k) as (_ & _ & _ & Hs & Hp). exists old'.
  unfold gc, set_entries. cbn [window]. rewrite (proj2 Hl). split; [done|]. split; [done|].
  split; [done|]. apply (Forall_le_mono _ _ _ Hp); lia.
Qed.

(** One operation: same answer, and the relation is kept. *)
Lemma run_op_tracks t now o l h :
  limiter_for l -> tracks t l h -> t <= now ->
  (run_op now o l).2 = (spec_op lim win now o h).2 /\
  limiter_for (run_op now o l).1 /\
  tracks now (run_op now o l).1 (spec_op lim win now o h).1.
Proof.
  intros Hl Ht Hle. destruct o as [k|]; cbn [run_op spec_op].
  - rewrite Allow_eq, cutoff_eq, (proj1 Hl), younger_allowed by eauto using tracks_sorted.
    pose proof (tracks_after _ _ _ _ k Hl Ht Hle) as [-> _].
    pose proof (tracks_insert _ _ _ _ k Hl Ht Hle) as H1.
    pose proof (tracks_allow _ _ _ _ k Hl Ht Hle) as H2.
    pose proof (tracks_after _ _ _ _ k Hl Ht Hle) as [Heq _]. rewrite Heq in H1, H2.
    destruct (Z.leb_spec lim (len (after (now - win) (allowed k h)))) as [H|H]; cbn [fst snd].
    + rewrite (proj2 (Z.ltb_ge _ _)) by done. by cbn.
    + rewrite (proj2 (Z.ltb_lt _ _)) by done. by cbn.
  - cbn [fst snd]. split; [done|]. split; [done|]. by apply tracks_gc with t.
Qed.

Lemma run_tracks trace : forall t l h,
  limiter_for l -> tracks t l h -> in_order t trace ->
  (run trace l).2 = (spec_run lim win trace h).2 /\
  exists t', tracks t' (run trace l).1 (spec_run lim win trace h).1.
Proof.
  induction trace as [|[now o] trace IH]; intros t l h Hl Ht Ho; [by eauto|].
  destruct Ho as [Hle Ho]. destruct (run_op_tracks t now o l h Hl Ht Hle) as (Hb & Hl' & Ht').
  cbn [run spec_run]. destruct (run_op now o l) as [l1 b1], (spec_op lim win now o h) as [h1 b1'].
  cbn [fst snd] in *. subst b1'. destruct (IH _ _ _ Hl' Ht' Ho) as [Hbs Hx].
  destruct (run trace l1) as [l2 bs], (spec_run lim win trace h1) as [h2 bs']. cbn [fst snd] in *.
  subst bs'. eauto.
Qed.

Lemma tracks_new t : tracks t (NewSlidingWindowLimiter lim win) [].
Proof. intros k. exists []. unfold stamps. cbn [entries NewSlidingWindowLimiter]. rewrite lookup_empty. by repeat constructor. Qed.
End tracking.

(** ** The bound *)

(** The requests a run allowed, latest first. *)
Fixpoint granted (trace : list (Time * op)) (answers : list (option bool)) : log :=
  match trace, answers with
  | (now, OpAllow key) :: trace, Some true :: answers => granted trace answers ++ [(key, now)]
  | _ :: trace, _ :: answers => granted trace answers
  | _, _ => []
  end.

(** How many of them, for a key, fall in the window that ends at [t]. *)
Definition in_window (win : Duration) (t : Time) (key : string) (h : log) : Z :=
  len (filter (fun '(k, s) => k = key /\ t - win < s <= t) h).

Lemma spec_run_granted lim win trace : forall h,
  (spec_run lim win trace h).1 = granted trace (spec_run lim win trace h).2 ++ h.
Proof.
  induction trace as [|[now o] trace IH]; intros h; [done|]. cbn [spec_run].
  destruct (spec_op lim win now o h) as [h1 b] eqn:Hop. specialize (IH h1).
  destruct (spec_run lim win trace h1) as [h2 bs]. cbn [fst snd] in *. subst h2.
  destruct o as [key|]; cbn [spec_op] in Hop; [|by simplify_eq].
  destruct (_ <? _); simplify_eq; cbn [granted]; [|done]. by rewrite <-app_assoc.
Qed.

(** Logs the specification produces: in the past, and within the limit in every
    window. *)
Definition log_ok (lim win t : Z) (h : log) : Prop :=
  Forall (fun e => e.2 <= t) h /\
  forall key u, in_window win u key h <= Z.max 0 lim.

Lemma in_window_cons win u key k t h :
  in_window win u key ((k, t) :: h)
  = (if decide (k = key /\ u - win < t <= u) then 1 else 0) + in_window win u key h.
Proof.
  unfold in_window. destruct (decide (k = key /\ u - win < t <= u)) as [H|H].
  - rewrite filter_cons_True by done. rewrite len_cons. lia.
  - by rewrite filter_cons_False.
Qed.

Lemma younger_cons win now key k t h :
  younger win now key ((k, t) :: h)
  = (if decide (k = key /\ now - win < t) then 1 else 0) + younger win now key h.
Proof.
  unfold younger. destruct (decide (k = key /\ now - win < t)) as [H|H].
  - rewrite filter_cons_True by done. rewrite len_cons. lia.
  - by rewrite filter_cons_False.
Qed.

Lemma in_window_younger win now u key h :
  now <= u -> in_window win u key h <= younger win now key h.
Proof.
  intros Hu. induction h as [|[k t] h IH]; [done|]. rewrite in_window_cons, younger_cons.
  case_decide as H1; case_decide as H2; try lia. destruct H2. split; [apply H1|lia].
Qed.

Lemma in_window_now win t key h :
  Forall (fun e => e.2 <= t) h -> in_window win t key h = younger win t key h.
Proof.
  induction 1 as [|[k s] h Hs _ IH]; [done|]. rewrite in_window_cons, younger_cons, IH.
  cbn [snd] in Hs. case_decide as H1; case_decide as H2; try lia.
  - destruct H2. split; [apply H1|lia].
  - destruct H1. split; [apply H2|lia].
Qed.

Lemma spec_op_ok lim win t now o h :
  log_ok lim win t h -> t <= now -> log_ok lim win now (spec_op lim win now o h).1.
Proof.
  intros [Hp Hb] Hle.
  assert (Forall (fun e : string * Z => e.2 <= now) h) as Hp'
    by (eapply Forall_impl; [|exact Hp]; cbn; intros; lia).
  destruct o as [k|]; cbn [spec_op]; [|by split].
  destruct (Z.ltb_spec (younger win now k h) lim) as [Hy|Hy]; [|by split].
  cbn [fst]. split; [by constructor|]. intros key u. rewrite in_window_cons. case_decide as Hd.
  - destruct Hd as [<- Hd]. pose proof (in_window_younger win now u k h). lia.
  - by rewrite Z.add_0_l.
Qed.

Lemma spec_run_ok lim win trace : forall t h,
  log_ok lim win t h -> in_order t trace -> exists t', log_ok lim win t' (spec_run lim win trace h).1.
Proof.
  induction trace as [|[now o] trace IH]; intros t h Hh Ho; [by eauto|].
  destruct Ho as [Hle Ho]. cbn [spec_run].
  pose proof (spec_op_ok lim win t now o h Hh Hle) as H1.
  destruct (spec_op lim win now o h) as [h1 b]. cbn [fst] in H1.
  destruct (IH _ _ H1 Ho) as [t' Ht']. destruct (spec_run lim win trace h1). by exists t'.
Qed.

Lemma log_ok_nil lim win t : log_ok lim win t [].
Proof. split; [done|]. intros key u. change (in_window win u key []) with 0. lia. Qed.

Lemma allowed_window lim win t h k : log_ok lim win t h ->
  len (after (t - win) (allowed k h)) <= Z.max 0 lim.
Proof.
  intros [Hp Hb]. by rewrite <-younger_allowed, <-in_window_now.
Qed.

Lemma log_ok_mono lim win t t' h : log_ok lim win t h -> t <= t' -> log_ok lim win t' h.
Proof.
  intros [Hp Hb] Hle. split; [|done]. eapply Forall_impl; [|exact Hp]. cbn. intros e ?. lia.
Qed.

(** The state of a run just before an operation at [now]. *)
Lemma run_state lim win trace now o : forall t l h,
  - 2 ^ 63 < win < 2 ^ 63 -> limiter_for lim win l -> tracks t l h -> log_ok lim win t h ->
  in_order t (trace ++ [(now, o)]) ->
  exists t' l' h', t' <= now /\ limiter_for lim win l' /\ tracks t' l' h' /\ log_ok lim win now h' /\
    (run (trace ++ [(now, o)]) l).1 = (run_op now o l').1.
Proof.
  induction trace as [|[n1 o1] trace IH]; intros t l h Hw Hl Ht Hlog Ho.
  - destruct Ho as [Hle _]. exists t, l, h. split_and!; try done; [by eapply log_ok_mono|].
    cbn [app run]. by destruct (run_op now o l).
  - destruct Ho as [Hle Ho]. destruct (run_op_tracks lim win Hw t n1 o1 l h Hl Ht Hle) as (_ & Hl' & Ht').
    pose proof (spec_op_ok lim win t n1 o1 h Hlog Hle) as Hlog'. cbn [app run].
    destruct (run_op n1 o1 l) as [l1 b1]. cbn [fst] in *.
    destruct (IH _ _ _ Hw Hl' Ht' Hlog' Ho) as (t' & l' & h' & H1 & H2 & H3 & H4 & H5).
    exists t', l', h'. destruct (run _ l1) as [l2 bs]. by cbn [fst] in *.
Qed.

(** ** The cleanup goroutine *)

Inductive life_op := LStart | LStop.
Definition life_run_op (o : life_op) (l : Limiter) : Limiter * res unit :=
  match o with LStart => ((CleanupEvery l).1, Ok tt) | LStop => Stop l end.
Fixpoint life_run (ops : list life_op) (l : Limiter) : Limiter * res unit :=
  match ops with
  | [] => (l, Ok tt)
  | o :: ops => match life_run_op o l with (l, Ok _) => life_run ops l | r => r end
  end.

(** The goroutines that were started and not stopped. *)
Definition running (l : Limiter) : list Z :=
  filter (fun c => c ∉ closed l) (seqZ 0 (chans l)).

Definition life_ok (l : Limiter) : Prop :=
  0 <= chans l /\ (forall c, c ∈ closed l -> 0 <= c < chans l) /\
  (forall c, 0 <= c < chans l -> c ∉ closed l <-> stopCh l = Some c) /\
  (forall c, stopCh l = Some c -> 0 <= c < chans l).

Lemma life_op_ok o l : life_ok l -> (life_run_op o l).2 = Ok tt /\ life_ok (life_run_op o l).1.
Proof.
  intros (H0 & Hc & Hs & Hr). destruct o; cbn [life_run_op fst snd].
  - split; [done|]. unfold CleanupEvery. destruct (stopCh l) as [c|] eqn:E.
    { cbn [fst]. rewrite <-E in *. exact (conj H0 (conj Hc (conj Hs Hr))). }
    unfold life_ok. cbn [fst chans closed stopCh]. split; [lia|]. split; [intros c Hin; specialize (Hc c Hin); lia|].
    split; [|intros c [= <-]; lia]. intros c Hlt. destruct (decide (c = chans l)) as [->|Hne].
    + split; [done|]. intros _ Hin. specialize (Hc _ Hin). lia.
    + rewrite Hs by lia. split; [done|]. intros [= ?]. by subst.
  - unfold Stop. destruct (stopCh l) as [ch|] eqn:E.
    + assert (0 <= ch < chans l) by auto. assert (ch ∉ closed l) as Hn by (by apply Hs).
      rewrite bool_decide_false by done. split; [done|]. unfold life_ok. cbn [fst chans closed stopCh].
      split; [done|]. split; [intros c [->|?]%elem_of_cons; auto|]. split; [|done].
      intros c Hlt. split; [|done]. intros Hout. exfalso. apply Hout.
      destruct (decide (c = ch)) as [->|Hne]; [by left|]. right.
      destruct (decide (c ∈ closed l)) as [|Hn']; [done|]. apply Hs in Hn'; [congruence|done].
    + split; [done|]. unfold life_ok. cbn [fst chans closed stopCh]. by split_and!.
Qed.

Lemma life_run_ok ops : forall l, life_ok l -> (life_run ops l).2 = Ok tt /\ life_ok (life_run ops l).1.
Proof.
  induction ops as [|o ops IH]; intros l Hl; [done|]. cbn [life_run].
  destruct (life_op_ok o l Hl) as [Hr Hl']. destruct (life_run_op o l) as [l1 r]. cbn [fst snd] in *.
  subst r. auto.
Qed.

Lemma running_le_1 l : life_ok l -> (length (running l) <= 1)%nat.
Proof.
  intros (_ & _ & Hs & _). unfold running.
  assert (forall c, c ∈ filter (fun c => c ∉ closed l) (seqZ 0 (chans l)) -> stopCh l = Some c) as Hin.
  { intros c [Hc Hz]%list_elem_of_filter. apply elem_of_seqZ in Hz. apply Hs; [lia|done]. }
  assert (NoDup (filter (fun c => c ∉ closed l) (seqZ 0 (chans l)))) as Hnd
    by apply list.NoDup_filter, NoDup_seqZ.
  destruct (filter _ _) as [|c1 [|c2 cs]]; cbn; try lia. exfalso.
  assert (Some c1 = Some c2) as [= ->].
  { rewrite <-(Hin c1), <-(Hin c2); [done|set_solver|set_solver]. }
  inversion_clear Hnd. set_solver.
Qed.

(** ** The theorems *)

(** C11. The limiter is exactly a sliding-window log: on every run with a clock
    that does not go back, whatever keys are asked for and however cleanups
    are interleaved, [Allow] answers true exactly when fewer than [limit]
    requests of that key were allowed within the window before it. *)
Theorem limiter_exact lim win trace t :
  - 2 ^ 63 < win < 2 ^ 63 -> in_order t trace ->
  (run trace (NewSlidingWindowLimiter lim win)).2 = (spec_run lim win trace []).2.
Proof.
  intros Hw Ho. apply (run_tracks lim win Hw trace t); [done|apply tracks_new|done].
Qed.

(** C28. The rate limit holds: in no window, wherever it ends, does a key get
    more than [limit] requests through. *)
Theorem limiter_bound lim win trace t key u :
  - 2 ^ 63 < win < 2 ^ 63 -> in_order t trace ->
  in_window win u key (granted trace (run trace (NewSlidingWindowLimiter lim win)).2)
  <= Z.max 0 lim.
Proof.
  intros Hw Ho.
  destruct (run_tracks lim win Hw trace t (NewSlidingWindowLimiter lim win) []) as [-> _];
    [done|apply tracks_new|done|].
  destruct (spec_run_ok lim win trace t [] (log_ok_nil _ _ _) Ho) as [t' [_ Hb]].
  rewrite spec_run_granted, app_nil_r in Hb. apply Hb.
Qed.

(** Memory stays bounded: after a cleanup at any point of a run, the
    limiter holds only keys with a request within the window, for each of them
    only timestamps within it, and at most [limit] of those. *)
Theorem limiter_memory lim win trace t now k ts :
  - 2 ^ 63 < win < 2 ^ 63 -> in_order t (trace ++ [(now, OpGC)]) ->
  entries (run (trace ++ [(now, OpGC)]) (NewSlidingWindowLimiter lim win)).1 !! k = Some ts ->
  ts <> [] /\ Forall (fun s => now - win < s <= now) ts /\ len ts <= Z.max 0 lim.
Proof.
  intros Hw Ho Hk.
  destruct (run_state lim win trace now OpGC t (NewSlidingWindowLimiter lim win) [])
    as (t' & l & h & Hle & Hl & Ht & Hlog & Hrun); [done|done|apply tracks_new|apply log_ok_nil|done|].
  rewrite Hrun in Hk. cbn [run_op fst] in Hk. clear Hrun Ho trace.
  destruct (tracks_after _ _ _ _ _ _ k Hl Ht Hle) as [Heq _].
  pose proof (tracks_sorted _ _ _ k Ht) as Hss. destruct (Ht k) as (_ & _ & _ & _ & Hp).
  assert (ts <> [] /\ ts = after (now - win) (allowed k h)) as [Hne ->].
  { unfold gc, set_entries in Hk. cbn [entries] in Hk. rewrite lookup_omap in Hk.
    apply bind_Some in Hk as (ts0 & Hts0 & Hk).
    assert (stamps l k = ts0) as Hst by (unfold stamps; by rewrite Hts0).
    rewrite (cutoff_eq lim win Hw) in Hk by done. rewrite Hst in *. unfold gc_key in Hk.
    destruct (Nat.leb_spec (length ts0) (firstValid (now - win) ts0)) as [|Hlt]; [done|].
    injection Hk as <-. split; [|by rewrite drop_firstValid].
    intros Hnil%(f_equal length). rewrite length_drop in Hnil. cbn in Hnil. lia. }
  split; [done|]. split; [|by apply (allowed_window lim)].
  apply list.Forall_forall. intros s [Hs1 Hs2]%list_elem_of_filter.
  rewrite list.Forall_forall in Hp. specialize (Hp s Hs2). cbn in Hp. lia.
Qed.

(** Starting and stopping the cleanup goroutine is idempotent and safe: in
    any sequence of [CleanupEvery] and [Stop] no closed channel is closed
    again (which would panic), and at most one goroutine is running. *)
Theorem cleanup_lifecycle lim win ops :
  let '(l, r) := life_run ops (NewSlidingWindowLimiter lim win) in
  r = Ok tt /\ (length (running l) <= 1)%nat.
Proof.
  destruct (life_run_ok ops (NewSlidingWindowLimiter lim win)) as [Hr Hl].
  { unfold life_ok. cbn [chans closed stopCh NewSlidingWindowLimiter].
    split_and!; [done|by intros c []%not_elem_of_nil|intros c Hc; lia|done]. }
  destruct (life_run ops _) as [l r]. cbn [fst snd] in *. split; [done|by apply running_le_1].
Qed.

(** A limiter with no positive limit denies everything. *)
Lemma deny_run trace : forall l, limit l <= 0 -> Forall (fun a => a <> Some true) (run trace l).2.
Proof.
  induction trace as [|[now o] trace IH]; intros l Hl; [constructor|].
  assert (limit (run_op now o l).1 <= 0 /\ (run_op now o l).2 <> Some true) as [H1 H2].
  { destruct o as [k|]; cbn [run_op]; [|done]. unfold Allow.
    rewrite (proj2 (Z.leb_le _ _)); [done|]. set (ts := if (_ <? _)%nat then _ else _).
    pose proof (len_nonneg ts). lia. }
  cbn [run]. destruct (run_op now o l) as [l1 b]. cbn [fst snd] in *. specialize (IH l1 H1).
  destruct (run trace l1) as [l2 bs]. by constructor.
Qed.

(** A zero rate does not disable a level, it blocks it: when rate and burst
    of a level are not positive together, the limiter [NewDefaultLimiter]
    builds for it denies every request of every run; and a zero cleanup
    interval makes the cleanup goroutines panic. *)
Theorem zero_rate_denies cfg trace :
  let '((second, minute), (g1, g2)) := NewDefaultLimiter cfg in
  (wrapS 64 (RequestsPerSecondPerKey cfg + BurstSize cfg) <= 0 ->
     Forall (fun a => a <> Some true) (run trace second).2) /\
  (wrapS 64 (RequestsPerMinutePerKey cfg + BurstSize cfg) <= 0 ->
     Forall (fun a => a <> Some true) (run trace minute).2) /\
  (is_panic g1 = true <-> CleanupInterval cfg <= 0) /\ g2 = g1.
Proof.
  cbn [NewDefaultLimiter CleanupEvery stopCh NewSlidingWindowLimiter fst snd].
  split; [intros H; apply deny_run, H|split; [intros H; apply deny_run, H|]].
  unfold NewTicker. split; [|done]. destruct (Z.leb_spec (CleanupInterval cfg) 0); split; (done || lia).
Qed.

(** ** Witnesses *)

Definition demo_trace : list (Time * op) :=
  [(0, OpAllow "a"); (1, OpAllow "b"); (3, OpAllow "a"); (4, OpGC); (5, OpAllow "a"); (13, OpAllow "a")].

Lemma limiter_exact_witness :
  (run demo_trace (NewSlidingWindowLimiter 2 10)).2
  = [Some true; Some true; Some true; None; Some false; Some true].
Proof.
  rewrite (limiter_exact 2 10 demo_trace 0); [vm_compute; reflexivity|lia|].
  cbn. lia.
Defined.

Lemma limiter_bound_witness :
  in_window 10 5 "a" (granted demo_trace (run demo_trace (NewSlidingWindowLimiter 2 10)).2) <= 2.
Proof.
  apply (limiter_bound 2 10 demo_trace 0 "a" 5); [lia|]. cbn. lia.
Defined.

Lemma limiter_memory_witness : len [5; 6] <= 2.
Proof.
  apply (limiter_memory 2 10 [(0, OpAllow "b"); (5, OpAllow "a"); (6, OpAllow "a")] 0 11 "a" [5; 6]);
    [lia|cbn; lia|vm_compute; reflexivity].
Defined.
