(* ===== verification/Media.v ===== *)
(** * Media tokens

    [src/media/media.go].  The store's methods hold its mutex, so each is one
    step; clock readings are arguments.  [ValidateSession] is a callback into
    the state [W] of whoever owns the sessions. *)

From S2P Require Import Prelude GoRt.

Definition DefaultMaxTokenTTL : Duration := 2 * Hour.

(** A token ID is a [[16]byte]. *)
Abbreviation TokenID := (list byte) (only parsing).

Record Token := mkToken {
  TokID : TokenID;
  TrackID : string;
  HLSURL : string;
  TokCreatedAt : Time;
  IssuedAt : Time;
  SessionID : Z
}.

Section media.
Context {W : Type}.

Record TokenStore := mkTokenStore {
  ValidateSession : option (W -> Z -> bool);
  tokens : gmap TokenID Token;
  MaxTokenTTL : Duration
}.

Definition NewTokenStore (validateSession : option (W -> Z -> bool)) : TokenStore :=
  mkTokenStore validateSession ∅ DefaultMaxTokenTTL.

Definition set_tokens (ts : TokenStore) (m : gmap TokenID Token) : TokenStore :=
  mkTokenStore (ValidateSession ts) m (MaxTokenTTL ts).

(** [IssueWithHLS] reads the clock twice, and draws 16 random bytes. *)
Definition IssueWithHLS (t_issued t_created : Time) (sessionID : Z) (trackID hlsURL : string)
  (ts : TokenStore) : M Reader (TokenStore * Token) :=
  id ← wrap_errM "media: generate token: %w" [] (ReadFull 16);
  let tok := mkToken id trackID hlsURL t_created t_issued sessionID in
  mret (set_tokens ts (<[id := tok]> (tokens ts)), tok).

Definition Issue (t_issued t_created : Time) (sessionID : Z) (trackID : string) (ts : TokenStore)
  : M Reader (TokenStore * Token) := IssueWithHLS t_issued t_created sessionID trackID "" ts.

Definition LookupHLS (tokenID : TokenID) (ts : TokenStore) : string :=
  match tokens ts !! tokenID with Some tok => HLSURL tok | None => "" end.

Definition touch_token (now : Time) (tok : Token) : Token :=
  mkToken (TokID tok) (TrackID tok) (HLSURL tok) now (IssuedAt tok) (SessionID tok).

(** [Validate] reads the clock for the age and, on success, again. *)
Definition Validate (now now' : Time) (w : W) (tokenID : TokenID) (ts : TokenStore)
  : TokenStore * bool :=
  match tokens ts !! tokenID with
  | None => (ts, false)
  | Some tok =>
      if MaxTokenTTL ts <? time_Sub now (IssuedAt tok)
      then (set_tokens ts (delete tokenID (tokens ts)), false)
      else if match ValidateSession ts with Some alive => negb (alive w (SessionID tok)) | None => false end
      then (set_tokens ts (delete tokenID (tokens ts)), false)
      else (set_tokens ts (<[tokenID := touch_token now' tok]> (tokens ts)), true)
  end.

Definition Exists (tokenID : TokenID) (ts : TokenStore) : bool :=
  bool_decide (is_Some (tokens ts !! tokenID)).

(** The two range loops delete the tokens they select; a round only depends on
    its own token, so the order of the range does not matter.  [clock id] is
    the clock reading of the round of [id]. *)
Definition RevokeBySession (sessionID : Z) (ts : TokenStore) : TokenStore :=
  set_tokens ts (filter (fun '(_, tok) => SessionID tok <> sessionID) (tokens ts)).

Definition Token_GC (clock : TokenID -> Time) (ts : TokenStore) : TokenStore :=
  set_tokens ts (filter (fun '(id, tok) =>
    (MaxTokenTTL ts <? time_Sub (clock id) (IssuedAt tok)) = false) (tokens ts)).

(** ** URLs *)

Record MediaURLBuilder := mkMediaURLBuilder { BaseURL : string; UTokenStore : option TokenStore }.

Definition NewMediaURLBuilder (baseURL : string) (ts : option TokenStore) : MediaURLBuilder :=
  mkMediaURLBuilder baseURL ts.

(** [fmt.Sprintf("%s/media/%x/%s", ...)]. *)
Definition BuildURL (tokenID : TokenID) (trackID : string) (b : MediaURLBuilder) : string :=
  BaseURL b +:+ "/media/" +:+ hex_bytes tokenID +:+ "/" +:+ trackID.
End media.
Arguments TokenStore : clear implicits.
Arguments MediaURLBuilder : clear implicits.
