(* ===== verification/MediaFacts.v ===== *)
(** * Media tokens: what a successful validation means *)

From S2P Require Import Prelude GoRt Media.

Section facts.
Context {W : Type}.
Implicit Types (ts : TokenStore W) (w : W).

Definition ttl_ok ts : Prop := minDuration <= MaxTokenTTL ts < maxDuration.

Definition session_alive ts w (sid : Z) : bool :=
  match ValidateSession ts with Some alive => alive w sid | None => true end.

(** Whether a token may be used, and what a validation leaves in the store. *)
Definition valid_at (now : Time) w (tok : Token) ts : bool :=
  (now - IssuedAt tok <=? MaxTokenTTL ts) && session_alive ts w (SessionID tok).

Lemma Validate_eq now now' w id ts :
  ttl_ok ts ->
  Validate now now' w id ts =
  match tokens ts !! id with
  | Some tok =>
      if valid_at now w tok ts then (set_tokens ts (<[id := touch_token now' tok]> (tokens ts)), true)
      else (set_tokens ts (delete id (tokens ts)), false)
  | None => (ts, false)
  end.
Proof.
  intros Httl. unfold Validate, valid_at, session_alive.
  destruct (tokens ts !! id) as [tok|]; [|done]. rewrite time_Sub_gt by apply Httl.
  destruct (Z.leb_spec (now - IssuedAt tok) (MaxTokenTTL ts)).
  - rewrite (proj2 (Z.ltb_ge _ _)) by done. cbn [andb].
    destruct (ValidateSession ts) as [alive|]; [|done]. by destruct (alive _ _).
  - by rewrite (proj2 (Z.ltb_lt _ _)).
Qed.

(** ** Runs *)

Inductive mop :=
| MIssue (t_issued t_created : Time) (id : TokenID) (sid : Z) (track hls : string)
| MValidate (now now' : Time) (w : W) (id : TokenID)
| MRevoke (sid : Z)
| MGC (clock : TokenID -> Time).

(** An issue draws its ID from the random source, here [id]. *)
Definition run_mop (o : mop) ts : TokenStore W :=
  match o with
  | MIssue t t' id sid track hls =>
      match (IssueWithHLS t t' sid track hls ts (reader_of id)).2 with
      | Ok (ts', _) => ts'
      | _ => ts
      end
  | MValidate now now' w id => (Validate now now' w id ts).1
  | MRevoke sid => RevokeBySession sid ts
  | MGC clock => Token_GC clock ts
  end.
Definition run_mops (ops : list mop) ts : TokenStore W := fold_left (fun s o => run_mop o s) ops ts.

Definition issues (id : TokenID) (o : mop) : Prop :=
  match o with MIssue _ _ id' _ _ _ => 16 <= len id' /\ take 16 id' = id | _ => False end.

Lemma run_issue t t' id sid track hls ts :
  run_mop (MIssue t t' id sid track hls) ts =
  if 16 <=? len id
  then set_tokens ts (<[take 16 id := mkToken (take 16 id) track hls t' t sid]> (tokens ts)) else ts.
Proof.
  cbn [run_mop]. unfold IssueWithHLS, wrap_errM, ReadFull, reader_of. unfold mbind, M_bind.
  cbn [unread ends]. by destruct (16 <=? len id).
Qed.

Lemma run_mop_config o ts :
  ValidateSession (run_mop o ts) = ValidateSession ts /\ MaxTokenTTL (run_mop o ts) = MaxTokenTTL ts.
Proof.
  destruct o as [t t' id sid tr h|n n' w id|sid|c]; [|cbn [run_mop]..]; try done.
  - rewrite run_issue. by destruct (16 <=? len id).
  - unfold Validate. by repeat case_match.
Qed.

Lemma run_mops_config ops : forall ts,
  ValidateSession (run_mops ops ts) = ValidateSession ts /\
  MaxTokenTTL (run_mops ops ts) = MaxTokenTTL ts.
Proof.
  induction ops as [|o ops IH]; intros ts; [done|]. cbn [run_mops fold_left].
  destruct (run_mop_config o ts) as [<- <-]. apply IH.
Qed.

(** What one operation can do to the token stored under an ID, if it does not
    issue that ID: drop it, or change its [CreatedAt]. *)
Lemma run_mop_token o ts id tok :
  ~ issues id o -> tokens (run_mop o ts) !! id = Some tok ->
  exists tok0, tokens ts !! id = Some tok0 /\
    IssuedAt tok = IssuedAt tok0 /\ SessionID tok = SessionID tok0 /\
    (forall sid, o = MRevoke sid -> SessionID tok0 <> sid).
Proof.
  intros Hn. destruct o as [t t' id' sid tr h|n n' w id'|sid|c]; [|cbn [run_mop issues] in *..].
  - rewrite run_issue. cbn [issues] in Hn. destruct (Z.leb_spec 16 (len id')); [|by eauto].
    cbn [set_tokens tokens]. rewrite lookup_insert_ne by tauto. by eauto.
  - unfold Validate. destruct (tokens ts !! id') as [tok'|] eqn:Hid'; [|by eauto].
    assert (tokens (set_tokens ts (delete id' (tokens ts))) !! id = Some tok ->
      exists tok0, tokens ts !! id = Some tok0 /\ IssuedAt tok = IssuedAt tok0 /\
        SessionID tok = SessionID tok0 /\
        (forall sid, MValidate n n' w id' = MRevoke sid -> SessionID tok0 <> sid)) as Hdel.
    { cbn [set_tokens tokens]. rewrite lookup_delete_Some. intros [_ H]. eauto. }
    repeat (case_match; [by apply Hdel|]); try (by apply Hdel).
    cbn [fst set_tokens tokens]. rewrite lookup_insert_Some.
    intros [[<- <-]|[_ H']]; [|by eauto]. exists tok'. done.
  - cbn [RevokeBySession set_tokens tokens]. rewrite map_lookup_filter_Some. cbn.
    intros [H Hne]. exists tok. split_and!; try done. by intros ? [= <-].
  - cbn [Token_GC set_tokens tokens]. rewrite map_lookup_filter_Some. intros [H _]. by eauto.
Qed.

Lemma run_mops_token ops : forall ts id tok,
  (forall o, o ∈ ops -> ~ issues id o) -> tokens (run_mops ops ts) !! id = Some tok ->
  exists tok0, tokens ts !! id = Some tok0 /\
    IssuedAt tok = IssuedAt tok0 /\ SessionID tok = SessionID tok0.
Proof.
  induction ops as [|o ops IH]; intros ts id tok Hn Htok; [by eauto|].
  cbn [run_mops fold_left] in Htok. fold (run_mops ops (run_mop o ts)) in Htok.
  destruct (IH _ _ _ (fun o' Ho => Hn o' (list_elem_of_further _ _ _ Ho)) Htok) as (t1 & H1 & Hi1 & Hs1).
  destruct (run_mop_token o ts id t1 (Hn o (list_elem_of_here _ _)) H1) as (t0 & Ht0 & Hi0 & Hs0 & _).
  exists t0. split; [done|]. split; congruence.
Qed.

(** [Validate], completely: it answers true exactly for a stored token no
    older than [MaxTokenTTL] whose session (if a session check is installed)
    is alive; then it only sets the token's [CreatedAt]; otherwise the token
    is gone afterwards; and every other token is left alone. *)
Theorem Validate_spec now now' w id ts :
  ttl_ok ts ->
  let '(ts', ok) := Validate now now' w id ts in
  (ok = true <-> exists tok, tokens ts !! id = Some tok /\
     now - IssuedAt tok <= MaxTokenTTL ts /\ session_alive ts w (SessionID tok) = true) /\
  Exists id ts' = ok /\ LookupHLS id ts' = (if ok then LookupHLS id ts else "") /\
  (forall id', id' <> id -> tokens ts' !! id' = tokens ts !! id').
Proof.
  intros Httl. rewrite Validate_eq by done.
  destruct (tokens ts !! id) as [tok|] eqn:Hid.
  - destruct (valid_at now w tok ts) eqn:Hv.
    + apply andb_true_iff in Hv as [Ha Hs]. apply Z.leb_le in Ha. split_and!.
      * split; [|done]. intros _. by exists tok.
      * unfold Exists. cbn [set_tokens tokens]. by rewrite lookup_insert_eq.
      * unfold LookupHLS. cbn [set_tokens tokens]. by rewrite lookup_insert_eq, Hid.
      * intros id' Hne. cbn [set_tokens tokens]. by rewrite lookup_insert_ne.
    + split_and!.
      * split; [done|]. intros (tok' & [= <-] & Ha & Hs). unfold valid_at in Hv.
        by rewrite (proj2 (Z.leb_le _ _) Ha), Hs in Hv.
      * unfold Exists. cbn [set_tokens tokens]. by rewrite lookup_delete_eq.
      * unfold LookupHLS. cbn [set_tokens tokens]. by rewrite lookup_delete_eq.
      * intros id' Hne. cbn [set_tokens tokens]. by rewrite lookup_delete_ne.
  - split_and!; try done.
    + split; [done|]. by intros (tok & ? & _).
    + unfold Exists. by rewrite Hid.
    + unfold LookupHLS. by rewrite Hid.
Qed.

Lemma Validate_false ts now now' w id :
  ttl_ok ts -> (Validate now now' w id ts).2 = false -> tokens (Validate now now' w id ts).1 !! id = None.
Proof.
  intros Httl. rewrite Validate_eq by done. destruct (tokens ts !! id) as [tok|] eqn:Hid; [|done].
  destruct (valid_at now w tok ts); [done|]. intros _. cbn [fst set_tokens tokens].
  by rewrite lookup_delete_eq.
Qed.

(** C16. A token's life is bounded and cannot be revived: whatever validations,
    revocations and collections happen in between, (1) once [MaxTokenTTL] has
    passed since it was issued it no longer validates, however often it was
    extended; (2) once a validation has failed, every later one fails. *)
Theorem token_lifecycle ts id ops now now' w n n' w0 :
  ttl_ok ts -> (forall o, o ∈ ops -> ~ issues id o) ->
  (forall tok, tokens ts !! id = Some tok -> MaxTokenTTL ts < now - IssuedAt tok ->
     (Validate now now' w id (run_mops ops ts)).2 = false) /\
  ((Validate n n' w0 id ts).2 = false ->
     (Validate now now' w id (run_mops ops (Validate n n' w0 id ts).1)).2 = false).
Proof.
  intros Httl Hn. destruct (run_mops_config ops ts) as [_ Hc]. split.
  - intros tok Htok Hage. rewrite Validate_eq by (unfold ttl_ok; by rewrite Hc).
    destruct (tokens (run_mops ops ts) !! id) as [tok'|] eqn:Hid; [|done].
    destruct (run_mops_token _ _ _ _ Hn Hid) as (tok0 & H0 & Hi & _).
    rewrite Htok in H0. injection H0 as <-. unfold valid_at.
    rewrite (proj2 (Z.leb_gt _ _)); [done|]. rewrite Hc, Hi. lia.
  - intros Hf. pose proof (Validate_false _ _ _ _ _ Httl Hf) as Hnone.
    set (ts1 := (Validate n n' w0 id ts).1) in *. unfold Validate.
    destruct (tokens (run_mops ops ts1) !! id) as [tok'|] eqn:Hid; [|done].
    destruct (run_mops_token _ _ _ _ Hn Hid) as (tok0 & H0 & _). congruence.
Qed.

(** ** Where a valid token comes from *)

(** The run issued the token under [id] to [sid] at [t], and since then neither
    issued the ID again nor revoked the session's tokens. *)
Definition issued_to (ops : list mop) (id : TokenID) (sid : Z) (t : Time) : Prop :=
  exists ops1 t' rnd track hls ops2,
    ops = ops1 ++ MIssue t t' rnd sid track hls :: ops2 /\ 16 <= len rnd /\ take 16 rnd = id /\
    forall o, o ∈ ops2 -> ~ issues id o /\ o <> MRevoke sid.

Lemma issued_to_snoc ops o id sid t :
  issued_to ops id sid t -> ~ issues id o -> o <> MRevoke sid -> issued_to (ops ++ [o]) id sid t.
Proof.
  intros (ops1 & t' & rnd & track & hls & ops2 & -> & Hl & Hr & H) Hn Hne.
  exists ops1, t', rnd, track, hls, (ops2 ++ [o]). split; [by rewrite <-app_assoc|].
  split; [done|]. split; [done|]. intros o' [Ho| ->%list_elem_of_singleton]%elem_of_app; auto.
Qed.

Lemma issued_or_not id o : issues id o \/ ~ issues id o.
Proof.
  destruct o as [t t' rnd sid tr h| | |]; cbn; [|right; tauto..].
  destruct (decide (16 <= len rnd)), (decide (take 16 rnd = id)); tauto.
Qed.

Lemma stored_issued v ops id tok :
  tokens (run_mops ops (NewTokenStore v)) !! id = Some tok ->
  issued_to ops id (SessionID tok) (IssuedAt tok).
Proof.
  revert id tok. induction ops as [|o ops IH] using rev_ind; intros id tok.
  { cbn. by rewrite lookup_empty. }
  unfold run_mops. rewrite fold_left_app. cbn [fold_left]. fold (run_mops ops (NewTokenStore v)).
  intros Htok. destruct (issued_or_not id o) as [Hi|Hi].
  - destruct o as [t t' rnd sid tr h| | |]; cbn [issues] in Hi; try done.
    destruct Hi as [Hl Hi]. rewrite run_issue, (proj2 (Z.leb_le _ _)) in Htok by done.
    cbn [set_tokens tokens] in Htok. rewrite Hi, lookup_insert_eq in Htok. injection Htok as <-.
    cbn [SessionID IssuedAt]. exists ops, t', rnd, tr, h, []. split_and!; try done.
    by intros o []%not_elem_of_nil.
  - destruct (run_mop_token _ _ _ _ Hi Htok) as (tok0 & H0 & -> & -> & Hrev).
    apply issued_to_snoc; [by apply IH|done|]. intros ->. by eapply Hrev.
Qed.

(** C15. No token is valid that was not granted: if, after any run of a token
    store, [Validate] accepts an ID, then the run issued that very ID to some
    session, not longer than [MaxTokenTTL] ago, the tokens of that session have
    not been revoked since, and the session is alive. *)
Theorem valid_token_was_issued v ops now now' w id :
  (Validate now now' w id (run_mops ops (NewTokenStore v))).2 = true ->
  exists sid t, issued_to ops id sid t /\ now - t <= DefaultMaxTokenTTL /\
    match v with Some alive => alive w sid = true | None => True end.
Proof.
  destruct (run_mops_config ops (NewTokenStore v)) as [Hv Ht].
  rewrite Validate_eq by (unfold ttl_ok; rewrite Ht; split; by vm_compute).
  destruct (tokens (run_mops ops (NewTokenStore v)) !! id) as [tok|] eqn:Hid; [|done].
  destruct (valid_at now w tok _) eqn:Hva; [|done]. intros _.
  exists (SessionID tok), (IssuedAt tok). split; [by eapply stored_issued|].
  apply andb_true_iff in Hva as [Ha Hs]. apply Z.leb_le in Ha. rewrite Ht in Ha. split; [done|].
  unfold session_alive in Hs. rewrite Hv in Hs. by destruct v.
Qed.
End facts.

(** ** URLs *)

Lemma hex_digit_inj x y : 0 <= x < 16 -> 0 <= y < 16 -> hex_digit x = hex_digit y -> x = y.
Proof.
  intros Hx Hy. assert (forall a b, (a < 16)%nat -> (b < 16)%nat ->
    hex_digit (Z.of_nat a) = hex_digit (Z.of_nat b) -> a = b) as H.
  { intros a b Ha Hb. do 16 (destruct a as [|a]; [do 16 (destruct b as [|b]; [done|]); lia|]). lia. }
  intros E. specialize (H (Z.to_nat x) (Z.to_nat y)). rewrite !Z2Nat.id in H by lia.
  specialize (H ltac:(lia) ltac:(lia) E). lia.
Qed.

Lemma hex_byte_inj b c : hex_byte b = hex_byte c -> b = c.
Proof.
  unfold hex_byte. intros [= H1 H2]. pose proof (byteZ_range b). pose proof (byteZ_range c).
  apply hex_digit_inj in H1, H2; [|zlia..]. apply (inj byteZ).
  rewrite (Z.div_mod (byteZ b) 16), (Z.div_mod (byteZ c) 16) by lia. congruence.
Qed.

Lemma hex_bytes_app_inj xs : forall ys s t,
  length xs = length ys -> hex_bytes xs +:+ s = hex_bytes ys +:+ t -> xs = ys /\ s = t.
Proof.
  induction xs as [|x xs IH]; intros [|y ys] s t Hl; cbn in Hl; try lia; [done|].
  cbn [hex_bytes fold_right]. fold (hex_bytes xs) (hex_bytes ys).
  unfold hex_byte at 1 2. cbn. intros [= H1 H2 H3].
  assert (x = y) as -> by (apply hex_byte_inj; unfold hex_byte; congruence).
  apply IH in H3 as [-> ->]; [done|lia].
Qed.

Lemma string_app_inj (p s t : string) : p +:+ s = p +:+ t -> s = t.
Proof. by intros ?%(inj (String.append p)). Qed.

(** A media URL identifies its token and its track: two URLs of one builder
    are equal only for the same 16-byte token ID and the same track. *)
Theorem BuildURL_injective {W} (b : MediaURLBuilder W) id id' tr tr' :
  len id = 16 -> len id' = 16 -> BuildURL id tr b = BuildURL id' tr' b -> id = id' /\ tr = tr'.
Proof.
  intros Hl Hl' H. unfold BuildURL in H. do 2 apply string_app_inj in H.
  apply hex_bytes_app_inj in H as [-> H]; [|unfold len in *; lia].
  by apply string_app_inj in H.
Qed.

(** ** Witnesses *)

Definition demo_id : TokenID := be_put 16 1234567890.
Definition demo_ops : list (mop (W := unit)) :=
  [MIssue 10 11 demo_id 7 "sc:1" "http://x"; MValidate 20 21 tt demo_id; MRevoke 8].
Definition demo_tokens : TokenStore unit := run_mops demo_ops (NewTokenStore None).

Lemma demo_ttl : ttl_ok demo_tokens.
Proof. split; by vm_compute. Qed.

Lemma Validate_spec_witness :
  Exists demo_id (Validate 30 31 tt demo_id demo_tokens).1 = true.
Proof.
  pose proof (Validate_spec 30 31 tt demo_id demo_tokens demo_ttl) as H.
  destruct (Validate 30 31 tt demo_id demo_tokens) as [ts' ok] eqn:E.
  destruct H as [H1 [H2 _]]. cbn [fst]. rewrite H2. apply H1.
  eexists. split; [vm_compute; reflexivity|]. split; [vm_compute; discriminate|reflexivity].
Defined.

Lemma token_lifecycle_witness :
  (Validate (3 * Hour) (3 * Hour) tt demo_id
     (run_mops [MValidate Hour Hour tt demo_id; MRevoke 9] demo_tokens)).2 = false.
Proof.
  eapply (proj1 (token_lifecycle demo_tokens demo_id [MValidate Hour Hour tt demo_id; MRevoke 9]
    (3 * Hour) (3 * Hour) tt 0 0 tt demo_ttl _)); [vm_compute; reflexivity|vm_compute; reflexivity].
  Unshelve. intros o [->|[->|[]%not_elem_of_nil]%elem_of_cons]%elem_of_cons; cbn; tauto.
Defined.

Lemma valid_token_was_issued_witness :
  exists sid t, issued_to demo_ops demo_id sid t /\ 30 - t <= DefaultMaxTokenTTL.
Proof.
  destruct (valid_token_was_issued None demo_ops 30 31 tt demo_id ltac:(vm_compute; reflexivity))
    as (sid & t & H1 & H2 & _).
  exists sid, t. split; [exact H1|exact H2].
Defined.

Lemma BuildURL_injective_witness :
  BuildURL demo_id "a" (NewMediaURLBuilder (W := unit) "https://m" None)
  = BuildURL demo_id "a" (NewMediaURLBuilder (W := unit) "https://m" None) /\ demo_id = demo_id.
Proof.
  split; [reflexivity|].
  exact (proj1 (BuildURL_injective (NewMediaURLBuilder (W := unit) "https://m" None) demo_id demo_id "a" "a"
    eq_refl eq_refl eq_refl)).
Defined.
