(* ===== verification/Handler.v ===== *)
(** * Handlers and middleware

    [src/server/handler.go] and [src/server/middleware.go].  A handler is code
    over the server's environment: the clock, the random source, the rate
    limiters (behind pointers), the log, and a state [A] of the application's
    own.  It returns a response that may be nil ([None]). *)

From stdpp Require Import pretty.
From S2P Require Import Prelude GoRt Varint Tlv Crypto Frame Session RateLimit.

(** ** The environment *)

(** What is logged: the format and its arguments. *)
Inductive LogLine := LogLn (fmt : string) (args : list arg).

Record Env (A : Type) := mkEnv {
  oracle : nat -> Time;           (* the clock: its n-th reading *)
  ticks : nat;                    (* how often it was read *)
  random : Reader;                (* crypto/rand.Reader *)
  limiters : gmap positive Limiter;
  sheap : Heap;                   (* the sessions *)
  sstore : SessionStore;          (* the server's store of them *)
  nextID : Z;                     (* the last session ID given out *)
  logged : list LogLine;          (* latest first *)
  app : A
}.
Arguments mkEnv {A}.
Arguments oracle {A}.
Arguments ticks {A}.
Arguments random {A}.
Arguments limiters {A}.
Arguments sheap {A}.
Arguments sstore {A}.
Arguments nextID {A}.
Arguments logged {A}.
Arguments app {A}.

(** [time.Now()]. *)
Definition Now {A} : M (Env A) Time := fun e =>
  (mkEnv (oracle e) (S (ticks e)) (random e) (limiters e) (sheap e) (sstore e) (nextID e) (logged e) (app e),
   Ok (oracle e (ticks e))).

Definition put_log {A} (l : LogLine) : M (Env A) unit := fun e =>
  (mkEnv (oracle e) (ticks e) (random e) (limiters e) (sheap e) (sstore e) (nextID e) (l :: logged e) (app e), Ok tt).

(** Code of the application on its own state. *)
Definition in_app {A B} (m : M A B) : M (Env A) B := fun e =>
  let '(a, r) := m (app e) in
  (mkEnv (oracle e) (ticks e) (random e) (limiters e) (sheap e) (sstore e) (nextID e) (logged e) a, r).

(** [limiter.Allow(key)] through a pointer; [now] is its reading of the clock. *)
Definition Allow_at {A} (l : positive) (key : string) (now : Time) : M (Env A) bool := fun e =>
  match limiters e !! l with
  | None => (e, Panic PNilDeref)
  | Some lim =>
      let '(lim, b) := Allow now key lim in
      (mkEnv (oracle e) (ticks e) (random e) (<[l := lim]> (limiters e)) (sheap e) (sstore e) (nextID e)
         (logged e) (app e), Ok b)
  end.
Definition limiter_Allow {A} (l : positive) (key : string) : M (Env A) bool :=
  now ← Now; Allow_at l key now.

(** ** Contexts ([handler.go])

    A context is the list of its values, innermost first.  The package's keys
    have a type of their own, so they never collide with an application's. *)
Inductive CtxKey := ctxSessionID | ctxAPIKeyID | ctxRemoteAddr | CtxApp (k : string).
#[export] Instance CtxKey_eq_dec : EqDecision CtxKey.
Proof. solve_decision. Defined.

Inductive CtxVal := CVUint64 (n : Z) | CVString (s : string) | CVAny.

Abbreviation Ctx := (list (CtxKey * CtxVal)).

Definition WithValue (ctx : Ctx) (k : CtxKey) (v : CtxVal) : Ctx := (k, v) :: ctx.
Fixpoint ctx_Value (ctx : Ctx) (k : CtxKey) : option CtxVal :=
  match ctx with
  | [] => None
  | (k', v) :: ctx => if bool_decide (k' = k) then Some v else ctx_Value ctx k
  end.

Definition SessionIDFromContext (ctx : Ctx) : Z * bool :=
  match ctx_Value ctx ctxSessionID with Some (CVUint64 id) => (id, true) | _ => (0, false) end.
Definition APIKeyIDFromContext (ctx : Ctx) : string * bool :=
  match ctx_Value ctx ctxAPIKeyID with Some (CVString s) => (s, true) | _ => ("", false) end.
Definition RemoteAddrFromContext (ctx : Ctx) : string * bool :=
  match ctx_Value ctx ctxRemoteAddr with Some (CVString s) => (s, true) | _ => ("", false) end.

(** ** Requests and handlers *)

Record SrvRequest := mkSrvRequest {
  FrameRequest : Request;
  ReqSessionID : Z;
  ReqAPIKeyID : string
}.

(** The stream a streaming handler takes over: the connection's two directions. *)
Record Conn (A : Type) := mkConn {
  env : Env A;
  conn_in : Reader;
  conn_out : Writer;
  conn_closed : bool
}.
Arguments mkConn {A}.
Arguments env {A}.
Arguments conn_in {A}.
Arguments conn_out {A}.
Arguments conn_closed {A}.

Definition HandlerFunc (A : Type) : Type := Ctx -> SrvRequest -> M (Env A) (option Response).
Definition StreamHandlerFunc (A : Type) : Type :=
  Ctx -> SrvRequest -> option (list byte) -> M (Conn A) unit.

(** A [Handler]: one that also implements [StreamHandler], or not; the server
    tells them apart by a type assertion. *)
Inductive Handler (A : Type) :=
| Plain (f : HandlerFunc A)
| Streaming (f : StreamHandlerFunc A) (plain : HandlerFunc A).
Arguments Plain {A}.
Arguments Streaming {A}.

Definition HandleHush {A} (h : Handler A) : HandlerFunc A :=
  match h with Plain f => f | Streaming _ f => f end.

(** [StreamHandlerFunc.HandleHush]. *)
Definition stream_as_plain {A} : HandlerFunc A := fun _ _ =>
  lift (Err (Errorf "stream handler registered as regular handler" [])).
Definition StreamHandler_of {A} (f : StreamHandlerFunc A) : Handler A := Streaming f stream_as_plain.

Definition NewResponse (payload : option Map) : Response := mkResponse StatusSuccess payload 0.
Definition ErrorResponse (code : Z) (message : string) : Response :=
  mkResponse code (Some (Map_Set NewMap "error" (tlv_String message))) 0.

(** ** Middleware ([middleware.go]) *)

Definition Middleware (A : Type) : Type := Handler A -> Handler A.
Definition StreamMiddleware (A : Type) : Type := Handler A -> Handler A.

Section middleware.
Context {A : Type}.
Implicit Types (next : Handler A) (ctx : Ctx) (req : SrvRequest).

Definition opcode_of (req : SrvRequest) : arg := AInt (Opcode (FrameRequest req)).

(** The result of a call, panics included, as a value. *)
Definition attempt {S B} (m : M S B) : M S (res B) := fun s => let '(s, r) := m s in (s, Ok r).

Definition LoggingMiddleware : Middleware A := fun next =>
  Plain (fun ctx req =>
    start ← Now;
    r ← attempt (HandleHush next ctx req);
    match r with
    | Panic p => lift (Panic p)
    | OutOfFuel => lift OutOfFuel
    | Err err =>
        now ← Now; let elapsed := time_Sub now start in
        _ ← put_log (LogLn "[MW] opcode=0x%04x ERROR elapsed=%s err=%v" [opcode_of req; AInt elapsed]);
        lift (Err err)
    | Ok resp =>
        now ← Now; let elapsed := time_Sub now start in
        _ ← match resp with
            | Some resp => put_log (LogLn "[MW] opcode=0x%04x status=%d elapsed=%s"
                             [opcode_of req; AInt (Status resp); AInt elapsed])
            | None => put_log (LogLn "[MW] opcode=0x%04x elapsed=%s" [opcode_of req; AInt elapsed])
            end;
        mret resp
    end).

(** After a recovered panic the results are the zero values: a nil response and
    a nil error.  The panic value goes to [onPanic]. *)
Definition RecoveryMiddleware (onPanic : SrvRequest -> panic -> M (Env A) unit) : Middleware A :=
  fun next => Plain (fun ctx req =>
    r ← attempt (HandleHush next ctx req);
    match r with
    | Panic p => _ ← onPanic req p; mret None
    | r => lift r
    end).

(** The [onPanic] used when none is given. *)
Definition default_onPanic (req : SrvRequest) (p : panic) : M (Env A) unit :=
  put_log (LogLn "[MW] PANIC opcode=0x%04x session=%d: %v" [opcode_of req; AInt (ReqSessionID req)]).

Definition ContextMiddleware (key : CtxKey) (val : CtxVal) : Middleware A := fun next =>
  Plain (fun ctx req => HandleHush next (WithValue ctx key val) req).

Definition rate_limited : Response := ErrorResponse StatusRateLimited "rate limit exceeded".

Definition RateLimitMiddleware (limiter : positive) (keyFn : SrvRequest -> string) : Middleware A :=
  fun next => Plain (fun ctx req =>
    allowed ← limiter_Allow limiter (keyFn req);
    if negb allowed then mret (Some rate_limited) else HandleHush next ctx req).

Definition session_key (req : SrvRequest) : string := "session:" +:+ pretty (ReqSessionID req).

Definition RateLimitBySession (limiter : positive) : Middleware A :=
  RateLimitMiddleware limiter session_key.

Definition RateLimitByAPIKey (limiter : positive) : Middleware A :=
  RateLimitMiddleware limiter (fun req =>
    if bool_decide (ReqAPIKeyID req = "") then "key:anonymous" else "key:" +:+ ReqAPIKeyID req).

Definition RateLimitByRemoteAddr (limiter : positive) : Middleware A := fun next =>
  Plain (fun ctx req =>
    let '(addr, _) := RemoteAddrFromContext ctx in
    let addr := if bool_decide (addr = "") then "unknown" else addr in
    allowed ← limiter_Allow limiter ("ip:" +:+ addr);
    if negb allowed then mret (Some rate_limited) else HandleHush next ctx req).

(** The loop of [MultiRateLimitMiddleware]: whether all limiters allow. *)
Fixpoint allow_all (limiters : list positive) (key : string) : M (Env A) bool :=
  match limiters with
  | [] => mret true
  | l :: limiters =>
      allowed ← limiter_Allow l key;
      if negb allowed then mret false else allow_all limiters key
  end.

Definition MultiRateLimitMiddleware (limiters : list positive) : Middleware A := fun next =>
  Plain (fun ctx req =>
    allowed ← allow_all limiters (session_key req);
    if negb allowed then mret (Some rate_limited) else HandleHush next ctx req).

Definition RequireAPIKeyID (allowed : list string) : Middleware A :=
  let allowedSet : gset string := list_to_set allowed in
  fun next => Plain (fun ctx req =>
    if bool_decide (ReqAPIKeyID req ∈ allowedSet) then HandleHush next ctx req
    else mret (Some (ErrorResponse StatusUnauthenticated "api key not authorized"))).
End middleware.
