(* ===== verification/Server.v ===== *)
(** * The server

    [src/server/server.go]: options, registration of handlers and middleware,
    one QUIC stream ([handleStream]), one TCP connection
    ([handleTCPConnection]), session collection and media tokens.  What a
    stream or a connection does is run on a [Conn], its two byte streams;
    accepting them is in [Quic], [Serve] and [Goroutines]. *)

From S2P Require Import Prelude GoRt Varint Tlv TlvDecode Crypto Frame Transport Session Negotiate RateLimit Media Handler.

Definition LevelInfo : string := "INF".
Definition LevelWarn : string := "WRN".
Definition LevelError : string := "ERR".

(** An [APIKeyStore] value is its [Get]. *)
Definition KeyStore : Type := string -> option (list byte).
#[export] Instance KeyStore_Get_fun : APIKeyStore KeyStore := fun ks => ks.

(** The fields that are set up before serving; what changes while serving (the
    sessions, [nextID]) is in the environment. *)
Record Server (A : Type) := mkServer {
  handlers : gmap Z (Handler A);
  middlewares : list (Middleware A);
  streamMiddlewares : list (StreamMiddleware A);
  keyStore : KeyStore;
  serverPriv : list byte;
  tlsConf : option TLSConfig;
  mediaStore : option (TokenStore SessionStore);
  mediaBaseURL : option string;               (* of [mediaURL] *)
  sessionCfg : SessionConfig;
  Logger : bool                               (* set or not *)
}.
Arguments mkServer {A}.
Arguments handlers {A}.
Arguments middlewares {A}.
Arguments streamMiddlewares {A}.
Arguments keyStore {A}.
Arguments serverPriv {A}.
Arguments tlsConf {A}.
Arguments mediaStore {A}.
Arguments mediaBaseURL {A}.
Arguments sessionCfg {A}.
Arguments Logger {A}.

Section server.
Context {A : Type}.
Implicit Types (s : Server A).

(** ** Options and construction *)

Definition Option : Type := Server A -> Server A.

Definition WithTLSConfig (cfg : option TLSConfig) : Option := fun s =>
  mkServer (handlers s) (middlewares s) (streamMiddlewares s) (keyStore s) (serverPriv s) cfg
    (mediaStore s) (mediaBaseURL s) (sessionCfg s) (Logger s).

(** The closure asks the server's session store when it is called. *)
Definition stored_session (st : SessionStore) (id : Z) : bool := bool_decide (is_Some (Store_Get st id)).

Definition WithMediaSupport (baseURL : string) : Option := fun s =>
  mkServer (handlers s) (middlewares s) (streamMiddlewares s) (keyStore s) (serverPriv s) (tlsConf s)
    (Some (NewTokenStore (Some stored_session))) (Some baseURL) (sessionCfg s) (Logger s).

Definition WithLogger (set : bool) : Option := fun s =>
  mkServer (handlers s) (middlewares s) (streamMiddlewares s) (keyStore s) (serverPriv s) (tlsConf s)
    (mediaStore s) (mediaBaseURL s) (sessionCfg s) set.

Definition WithSessionConfig (cfg : SessionConfig) : Option := fun s =>
  mkServer (handlers s) (middlewares s) (streamMiddlewares s) (keyStore s) (serverPriv s) (tlsConf s)
    (mediaStore s) (mediaBaseURL s) cfg (Logger s).

(** [NewServer]: the server and its session store. *)
Definition NewServer (ks : option KeyStore) (opts : list Option) : M Reader (Server A * SessionStore) :=
  priv ← wrap_errM "server: generate key pair: %w" [] GenerateKeyPair;
  let ks := default (fun _ => None) ks in
  let s := mkServer ∅ [] [] ks priv None None None (mkSessionConfig 0 0 0) false in
  let s := fold_left (fun s opt => opt s) opts s in
  let st := NewSessionStore (sessionCfg s) in
  mret (WithSessionConfig (Store_Config st) s, st).

(** ** Registration *)

Definition Use (mw : Middleware A) s : Server A :=
  mkServer (handlers s) (middlewares s ++ [mw]) (streamMiddlewares s) (keyStore s) (serverPriv s)
    (tlsConf s) (mediaStore s) (mediaBaseURL s) (sessionCfg s) (Logger s).

Definition UseStream (mw : StreamMiddleware A) s : Server A :=
  mkServer (handlers s) (middlewares s) (streamMiddlewares s ++ [mw]) (keyStore s) (serverPriv s)
    (tlsConf s) (mediaStore s) (mediaBaseURL s) (sessionCfg s) (Logger s).

(** [for i := len(mws) - 1; i >= 0; i-- { h = mws[i](h) }] *)
Definition wrap_handler (mws : list (Handler A -> Handler A)) (h : Handler A) : Handler A :=
  fold_left (fun h mw => mw h) (rev mws) h.

Definition set_handler (opcode : Z) (h : Handler A) s : Server A :=
  mkServer (<[opcode := h]> (handlers s)) (middlewares s) (streamMiddlewares s) (keyStore s)
    (serverPriv s) (tlsConf s) (mediaStore s) (mediaBaseURL s) (sessionCfg s) (Logger s).

Definition Handle (opcode : Z) (h : Handler A) s : Server A :=
  set_handler opcode (wrap_handler (middlewares s) h) s.
Definition HandleFunc (opcode : Z) (fn : HandlerFunc A) s : Server A := Handle opcode (Plain fn) s.
Definition HandleStream (opcode : Z) (h : Handler A) s : Server A :=
  set_handler opcode (wrap_handler (streamMiddlewares s) h) s.
Definition HandleStreamFunc (opcode : Z) (fn : StreamHandlerFunc A) s : Server A :=
  HandleStream opcode (StreamHandler_of fn) s.

(** ** Running on a connection *)

Definition on_env {B} (m : M (Env A) B) : M (Conn A) B := fun c =>
  let '(e, r) := m (env c) in (mkConn e (conn_in c) (conn_out c) (conn_closed c), r).

Definition conn_Close : M (Conn A) unit := fun c =>
  (mkConn (env c) (conn_in c) (conn_out c) true, Ok tt).

(** A call whose error is dropped, as [frame.WriteResponse(...)] without a
    check; a panic is not dropped. *)
Definition best_effort {S} (m : M S unit) : M S unit := fun st =>
  match m st with (st', Err _) => (st', Ok tt) | r => r end.

Definition logf s (level fmt : string) (args : list arg) : M (Env A) unit :=
  if Logger s then put_log (LogLn ("[%s] " +:+ fmt) (AStr level :: args)) else mret tt.

Definition set_random (r : Reader) (e : Env A) : Env A :=
  mkEnv (oracle e) (ticks e) r (limiters e) (sheap e) (sstore e) (nextID e) (logged e) (app e).
Definition set_sessions (h : Heap) (st : SessionStore) (e : Env A) : Env A :=
  mkEnv (oracle e) (ticks e) (random e) (limiters e) h st (nextID e) (logged e) (app e).
Definition set_nextID (n : Z) (e : Env A) : Env A :=
  mkEnv (oracle e) (ticks e) (random e) (limiters e) (sheap e) (sstore e) n (logged e) (app e).

(** The pointer [sess], read and touched. *)
Definition read_session (l : positive) : M (Env A) Session := fun e => (e, load (sheap e) l).
Definition touch_at (l : positive) (now : Time) : M (Env A) unit := fun e =>
  (set_sessions (Touch now l (sheap e)) (sstore e) e, Ok tt).
Definition touch_session (l : positive) : M (Env A) unit := now ← Now; touch_at l now.

(** [s.sessions.IsExpired(sess) || s.sessions.IsIdleDead(sess)]: the second
    reads the clock only if the first is false. *)
Definition expired_at (l : positive) (now : Time) : M (Env A) bool := fun e =>
  match load (sheap e) l with Ok sess => (e, Ok (IsExpired now (sstore e) sess)) | Err x => (e, Err x)
  | Panic p => (e, Panic p) | OutOfFuel => (e, OutOfFuel) end.
Definition idle_at (l : positive) (now : Time) : M (Env A) bool := fun e =>
  match load (sheap e) l with Ok sess => (e, Ok (IsIdleDead now (sstore e) sess)) | Err x => (e, Err x)
  | Panic p => (e, Panic p) | OutOfFuel => (e, OutOfFuel) end.
Definition session_dead (l : positive) : M (Env A) bool :=
  now ← Now;
  expired ← expired_at l now;
  if expired : bool then mret true else now ← Now; idle_at l now.

Section crypto.
Context `{C : CryptoOps}.

(** [frame.WriteResponse] and [frame.ReadRequest] on the connection. *)
Definition conn_WriteResponse (key : option (list byte)) (seq : Z) (r : Response) : M (Conn A) unit :=
  fun c =>
    let '(sk, x) := WriteResponse key seq r (mkSink (random (env c)) (conn_out c)) in
    (mkConn (set_random (entropy sk) (env c)) (conn_in c) (sink sk) (conn_closed c), x).

Definition conn_ReadRequest (key : option (list byte)) : M (Conn A) (Request * Z) := fun c =>
  let '(rd, x) := ReadRequest key (conn_in c) in
  (mkConn (env c) rd (conn_out c) (conn_closed c), x).

Definition session_expired_resp : Response := mkResponse StatusSessionExpired None 0.
Definition not_found_resp (opcode : Z) : Response :=
  mkResponse StatusNotFound (Some (Map_Set NewMap "opcode" (tlv_Uint16 opcode))) 0.

(** The context of a request: session, API key, and remote address if known. *)
Definition request_ctx (ctx : Ctx) (sess : Session) (remoteAddr : string) : Ctx :=
  let ctx := WithValue ctx ctxSessionID (CVUint64 (ID sess)) in
  let ctx := WithValue ctx ctxAPIKeyID (CVString (APIKeyID sess)) in
  if bool_decide (remoteAddr = "") then ctx else WithValue ctx ctxRemoteAddr (CVString remoteAddr).

(** ** A QUIC stream *)

(** [handleStream] from the lookup of the handler on. *)
Definition stream_serve s (ctx : Ctx) (sess : Session) (remoteAddr : string) (req : Request) (seq : Z)
  : M (Conn A) unit :=
  let key := SKey sess in
  match handlers s !! Opcode req with
  | None => _ ← best_effort (conn_WriteResponse key seq (not_found_resp (Opcode req))); conn_Close
  | Some handler =>
      let hctx := request_ctx ctx sess remoteAddr in
      let srvReq := mkSrvRequest req (ID sess) (APIKeyID sess) in
      match handler with
      | Streaming f _ =>
          r ← attempt (f ctx srvReq key);
          match r with
          | Panic p => lift (Panic p)
          | OutOfFuel => lift OutOfFuel
          | Err err =>
              _ ← on_env (logf s LevelError "session[%d] opcode=0x%04x stream error: %v"
                            [AInt (ID sess); AInt (Opcode req)]);
              conn_Close
          | Ok _ => conn_Close
          end
      | Plain f =>
          start ← on_env Now;
          r ← attempt (on_env (f hctx srvReq));
          match r with
          | Panic p => lift (Panic p)
          | OutOfFuel => lift OutOfFuel
          | Err err =>
              now ← on_env Now;
              _ ← on_env (logf s LevelError "session[%d] opcode=0x%04x handler error (%s): %v"
                            [AInt (ID sess); AInt (Opcode req); AInt (time_Sub now start)]);
              _ ← best_effort (conn_WriteResponse key seq (ErrorResponse StatusInternalError "internal error"));
              conn_Close
          | Ok resp =>
              now ← on_env Now;
              resp ← lift (deref resp);
              _ ← on_env (logf s LevelInfo "session[%d] opcode=0x%04x status=%d elapsed=%s"
                            [AInt (ID sess); AInt (Opcode req); AInt (Status resp); AInt (time_Sub now start)]);
              r ← attempt (conn_WriteResponse key seq resp);
              match r with
              | Panic p => lift (Panic p)
              | OutOfFuel => lift OutOfFuel
              | Err err =>
                  _ ← on_env (logf s LevelError "session[%d] write response: %v" [AInt (ID sess)]);
                  conn_Close
              | Ok _ => conn_Close
              end
          end
      end
  end.

(** [handleStream] without its recovery. *)
Definition handleStream_body s (ctx : Ctx) (l : positive) (remoteAddr : string) : M (Conn A) unit :=
  sess ← on_env (read_session l);
  let key := SKey sess in
  dead ← on_env (session_dead l);
  if dead : bool then
    _ ← best_effort (conn_WriteResponse key 0 session_expired_resp); conn_Close
  else
  _ ← on_env (touch_session l);
  r ← attempt (conn_ReadRequest key);
  match r with
  | Panic p => lift (Panic p)
  | OutOfFuel => lift OutOfFuel
  | Err err =>
      _ ← on_env (logf s LevelWarn "session[%d] read request: %v" [AInt (ID sess)]);
      _ ← best_effort (conn_WriteResponse key 0 (ErrorResponse StatusBadRequest "bad request"));
      conn_Close
  | Ok (req, seq) =>
      stream_serve s ctx sess remoteAddr req seq
  end.

(** The deferred recovery: log, answer with sequence number 0, return.  The ID
    and the key of a session are never written, so they are read up front. *)
Definition handleStream s (ctx : Ctx) (l : positive) (remoteAddr : string) : M (Conn A) unit :=
  sess ← on_env (read_session l);
  r ← attempt (handleStream_body s ctx l remoteAddr);
  match r with
  | Panic p =>
      _ ← on_env (logf s LevelError "session[%d] panic: %v" [AInt (ID sess)]);
      best_effort (conn_WriteResponse (SKey sess) 0 (ErrorResponse StatusInternalError "internal server error"))
  | r => lift r
  end.

(** ** A TCP connection *)

(** The dynamic type of an accepted [net.Conn]: the code asks for [tls.Conn]. *)
Inductive NetConn := TLSConn | OtherConn.

(** [s.nextID.Add(1)]. *)
Definition next_session (i : Z) : Z * Z := let i := wrapU 64 (i + 1) in (i, i).

(** The handshake on the connection; a granted session reads the clock. *)
Definition conn_negotiate s : M (Conn A) Session := fun c =>
  let e := env c in
  let '((st, i), x) :=
    NegotiateServer next_session (oracle e (ticks e)) (serverPriv s) (keyStore s)
      (mkStream (conn_in c) (conn_out c), nextID e) in
  let e := set_nextID i e in
  (mkConn (if is_ok x then (Now e).1 else e) (incoming st) (outgoing st) (conn_closed c), x).

(** [sess] escapes to the store: it is allocated, then [s.sessions.Set(sess)]. *)
Definition file_session (sess : Session) : M (Env A) positive := fun e =>
  let l := fresh (dom (sheap e)) in
  let h := <[l := sess]> (sheap e) in
  match Store_Set h l (sstore e) with
  | Ok st => (set_sessions h st e, Ok l)
  | Err x => (e, Err x) | Panic p => (e, Panic p) | OutOfFuel => (e, OutOfFuel)
  end.
Definition unfile_session (id : Z) : M (Env A) unit := fun e =>
  (set_sessions (sheap e) (Store_Delete id (sstore e)) e, Ok tt).

(** A round of the loop from the building of the context on; the result is
    that of the round. *)
Definition tcp_serve s (streamCtx ctx : Ctx) (sess : Session) (remoteAddr : string) (req : Request) (seq : Z)
  : M (Conn A) (option Ctx) :=
  let key := SKey sess in
  let ctx := request_ctx ctx sess remoteAddr in
  match handlers s !! Opcode req with
  | None =>
      _ ← best_effort (conn_WriteResponse key seq (not_found_resp (Opcode req)));
      mret (Some ctx)
  | Some handler =>
      let srvReq := mkSrvRequest req (ID sess) (APIKeyID sess) in
      match handler with
      | Streaming f _ =>
          r ← attempt (f streamCtx srvReq key);
          match r with
          | Panic p => lift (Panic p)
          | OutOfFuel => lift OutOfFuel
          | Err err =>
              _ ← on_env (logf s LevelError "session[%d] opcode=0x%04x tcp stream error: %v"
                            [AInt (ID sess); AInt (Opcode req)]);
              mret (Some ctx)
          | Ok _ => mret (Some ctx)
          end
      | Plain f =>
          start ← on_env Now;
          r ← attempt (on_env (f ctx srvReq));
          match r with
          | Panic p => lift (Panic p)
          | OutOfFuel => lift OutOfFuel
          | Err err =>
              now ← on_env Now;
              _ ← on_env (logf s LevelError "session[%d] opcode=0x%04x handler error (%s): %v"
                            [AInt (ID sess); AInt (Opcode req); AInt (time_Sub now start)]);
              _ ← best_effort (conn_WriteResponse key seq (ErrorResponse StatusInternalError "internal error"));
              mret (Some ctx)
          | Ok resp =>
              now ← on_env Now;
              resp ← lift (deref resp);
              _ ← on_env (logf s LevelInfo "session[%d] opcode=0x%04x status=%d elapsed=%s"
                            [AInt (ID sess); AInt (Opcode req); AInt (Status resp); AInt (time_Sub now start)]);
              r ← attempt (conn_WriteResponse key seq resp);
              match r with
              | Panic p => lift (Panic p)
              | OutOfFuel => lift OutOfFuel
              | Err err =>
                  _ ← on_env (logf s LevelError "session[%d] write response: %v" [AInt (ID sess)]);
                  mret None
              | Ok _ => mret (Some ctx)
              end
          end
      end
  end.

(** One round of the loop: [Some ctx], the context it goes on with, or [None]
    for a [return].  The context grows with every request. *)
Definition tcp_round s (streamCtx ctx : Ctx) (l : positive) (remoteAddr : string) : M (Conn A) (option Ctx) :=
  sess ← on_env (read_session l);
  let key := SKey sess in
  dead ← on_env (session_dead l);
  if dead : bool then
    _ ← best_effort (conn_WriteResponse key 0 session_expired_resp);
    _ ← conn_Close; mret None
  else
  _ ← on_env (touch_session l);
  r ← attempt (conn_ReadRequest key);
  match r with
  | Panic p => lift (Panic p)
  | OutOfFuel => lift OutOfFuel
  | Err err => mret None
  | Ok (req, seq) =>
      tcp_serve s streamCtx ctx sess remoteAddr req seq
  end.

(** The loop; [cancelled n] says whether the context is done at its [n]-th
    check.  Every round but the last takes a frame off the connection, so the
    fuel is the number of unread bytes plus one, unless a streaming handler
    keeps the connection going. *)
Fixpoint tcp_loop (fuel : nat) s (cancelled : nat -> bool) (n : nat) (streamCtx ctx : Ctx)
  (l : positive) (remoteAddr : string) : M (Conn A) unit :=
  match fuel with
  | O => lift OutOfFuel
  | S fuel =>
      if cancelled n then mret tt else
      r ← tcp_round s streamCtx ctx l remoteAddr;
      match r with
      | None => mret tt
      | Some ctx => tcp_loop fuel s cancelled (S n) streamCtx ctx l remoteAddr
      end
  end.

Definition handleTCPConnection (fuel : nat) s (cancelled : nat -> bool) (ctx : Ctx) (conn : NetConn) (remoteAddr : string)
  : M (Conn A) unit :=
  match conn with OtherConn => conn_Close | TLSConn =>
  r ← attempt (conn_negotiate s);
  match r with
  | Panic p => lift (Panic p)
  | OutOfFuel => lift OutOfFuel
  | Err err =>
      _ ← on_env (logf s LevelWarn "session[?] tcp negotiate error: %v (remote=%s)" [AStr remoteAddr]);
      conn_Close
  | Ok sess =>
      l ← on_env (file_session sess);
      deferring
        (_ ← on_env (logf s LevelInfo "session[%d] tcp established key=%s remote=%s"
                       [AInt (ID sess); AStr (APIKeyID sess); AStr remoteAddr]);
         tcp_loop fuel s cancelled 0 ctx ctx l remoteAddr)
        (on_env (unfile_session (ID sess)))
  end end.
End crypto.

(** ** Collection and media *)

(** [gcLoop]: one collection per tick, until the context is done; [rounds] are
    the ticks' ranges over the store. *)
Fixpoint gc_ticks (rounds : list (list (Z * positive * Time))) : M (Env A) unit :=
  match rounds with
  | [] => mret tt
  | visits :: rounds =>
      _ ← (fun e =>
        match Store_GC (sheap e) visits (sstore e) with
        | Ok st => (set_sessions (sheap e) st e, Ok tt)
        | Err x => (e, Err x) | Panic p => (e, Panic p) | OutOfFuel => (e, OutOfFuel)
        end);
      gc_ticks rounds
  end.
Definition gcLoop s (rounds : list (list (Z * positive * Time))) : M (Env A) unit :=
  _ ← lift (NewTicker (GCInterval (sessionCfg s))); gc_ticks rounds.

Definition IssueMediaToken (t_issued t_created : Time) (sessionID : Z) (trackID : string) s
  : M Reader (Server A * Token) :=
  match mediaStore s with
  | None => lift (Err (Errorf "server: media support not enabled" []))
  | Some ts =>
      '(ts, tok) ← Issue t_issued t_created sessionID trackID ts;
      mret (mkServer (handlers s) (middlewares s) (streamMiddlewares s) (keyStore s) (serverPriv s)
        (tlsConf s) (Some ts) (mediaBaseURL s) (sessionCfg s) (Logger s), tok)
  end.
End server.
