(* ===== verification/ServerFacts.v ===== *)
(** * The server on a stream and on a connection *)

From S2P Require Import Prelude GoRt Varint Tlv TlvSpec TlvDecode TlvSafe Crypto Frame FrameFacts FrameClaims Session Negotiate NegotiateFacts RateLimit Media Handler Server.

Section facts.
Context {A : Type} `{L : CryptoLaws}.
Implicit Types (c : Conn A) (e : Env A) (s : Server A) (l : positive) (ctx : Ctx).

(** ** Writing a response does not panic *)

Lemma Encrypt_returns key p rd : returns (Encrypt key p rd).2.
Proof.
  unfold Encrypt. apply returns_on; [apply returns_wrap, aes_NewCipher_returns|].
  intros b s1 _. apply returns_on; [done|]. intros g s2 _. apply returns_on; [|done].
  apply wrap_errM_returns. unfold ReadFull. by destruct (_ <=? _).
Qed.

Lemma write_frame_returns seq data sk : returns (write_frame seq data sk).2.
Proof. unfold write_frame. by destruct (Write seq data (sink sk)) as [w [n [x|]]]. Qed.

Definition resp_map_wf (r : Response) : Prop := from_option (fun m => map_wf m = true) True (RPayload r).

Lemma WriteResponse_returns key seq r sk : resp_map_wf r -> returns (WriteResponse key seq r sk).2.
Proof.
  intros Hr. unfold WriteResponse. apply returns_on; [|intros; apply write_frame_returns].
  unfold with_entropy. assert (returns (EncodeResponse key seq r (entropy sk)).2) as H.
  { unfold EncodeResponse. apply returns_on.
    - unfold response_plaintext, resp_map_wf in *. destruct r as [st [m|] sq]; cbn [RPayload from_option] in *;
        [by rewrite MustEncodeMap_ok|done].
    - intros p s1 _. destruct key as [k|]; [|done]. apply wrap_errM_returns, Encrypt_returns. }
  by destruct (EncodeResponse _ _ _ _).
Qed.

Lemma conn_WriteResponse_returns key seq r c : resp_map_wf r -> returns (conn_WriteResponse key seq r c).2.
Proof.
  intros Hr. unfold conn_WriteResponse. pose proof (WriteResponse_returns key seq r
    (mkSink (random (env c)) (conn_out c)) Hr) as H. by destruct (WriteResponse _ _ _ _).
Qed.

Lemma best_effort_Ok {S} (m : M S unit) st : returns (m st).2 -> (best_effort m st).2 = Ok tt.
Proof. unfold best_effort. by destruct (m st) as [st' [[]|x|x|]]. Qed.

Lemma logf_Ok s lvl fmt args e : (logf s lvl fmt args e).2 = Ok tt.
Proof. unfold logf. by destruct (Logger s). Qed.

Lemma on_env_logf s lvl fmt args c : exists c', on_env (logf s lvl fmt args) c = (c', Ok tt).
Proof.
  unfold on_env. pose proof (logf_Ok s lvl fmt args (env c)) as H.
  destruct (logf s lvl fmt args (env c)) as [e' r]. cbn in H. subst r. by eexists.
Qed.

Lemma ErrorResponse_wf code msg : resp_map_wf (ErrorResponse code msg).
Proof. done. Qed.

(** What the recovery does with a panic of the body. *)
Lemma handleStream_eq s ctx l addr c sess :
  sheap (env c) !! l = Some sess ->
  match handleStream_body s ctx l addr c with
  | (c', Panic p) => (handleStream s ctx l addr c).2 = Ok tt
  | r => handleStream s ctx l addr c = r
  end.
Proof.
  intros Hl. destruct (handleStream_body s ctx l addr c) as [c' r] eqn:Hb.
  assert (handleStream s ctx l addr c = (match r with
    | Panic p =>
      _ ← on_env (logf s LevelError "session[%d] panic: %v" [AInt (ID sess)]);
      best_effort (conn_WriteResponse (SKey sess) 0 (ErrorResponse StatusInternalError "internal server error"))
    | r => lift r end : M (Conn A) unit) c') as ->.
  { unfold handleStream. unfold mbind at 1, M_bind at 1. unfold on_env at 1, read_session, load.
    rewrite Hl. cbn [deref]. unfold mbind at 1, M_bind at 1, attempt. destruct c as [e i o cl].
    cbn [env conn_in conn_out conn_closed] in *. by rewrite Hb. }
  destruct r as [[]|x|p|]; try done.
  destruct (on_env_logf s LevelError "session[%d] panic: %v" [AInt (ID sess)] c') as [c1 H].
  unfold mbind, M_bind. rewrite H. apply best_effort_Ok, conn_WriteResponse_returns, ErrorResponse_wf.
Qed.

(** C25. A panic in a handler, or in parsing the request, does not leave a QUIC
    stream's goroutine: [handleStream] never panics, whatever the handlers do
    and whatever arrives; if the body did panic, it answers once more, with
    the internal error and sequence number 0. *)
Theorem handleStream_never_panics s ctx l addr c sess :
  sheap (env c) !! l = Some sess ->
  is_panic (handleStream s ctx l addr c).2 = false /\
  forall p, (handleStream_body s ctx l addr c).2 = Panic p ->
    (handleStream s ctx l addr c).2 = Ok tt.
Proof.
  intros Hl. pose proof (handleStream_eq s ctx l addr c sess Hl) as H.
  destruct (handleStream_body s ctx l addr c) as [c' [[]|x|p|]]; rewrite H; naive_solver.
Qed.

(** ** A round on a live session *)

(** At its next two clock readings the session is neither expired nor idle. *)
Definition live e (sess : Session) : Prop :=
  IsExpired (oracle e (ticks e)) (sstore e) sess = false /\
  IsIdleDead (oracle e (S (ticks e))) (sstore e) sess = false.

(** The environment after the checks and the touch. *)
Definition checked e l : Env A :=
  mkEnv (oracle e) (S (S (S (ticks e)))) (random e) (limiters e)
    (Touch (oracle e (S (S (ticks e)))) l (sheap e)) (sstore e) (nextID e) (logged e) (app e).

Definition with_env e c : Conn A := mkConn e (conn_in c) (conn_out c) (conn_closed c).

Lemma session_dead_live e l sess :
  sheap e !! l = Some sess -> live e sess ->
  session_dead l e = (mkEnv (oracle e) (S (S (ticks e))) (random e) (limiters e) (sheap e) (sstore e)
                        (nextID e) (logged e) (app e), Ok false).
Proof.
  intros Hl [He Hi]. unfold session_dead, Now, expired_at, idle_at, load, mbind, M_bind.
  cbn [sheap sstore oracle ticks]. rewrite Hl. cbn [deref]. rewrite He. cbn [sheap sstore oracle ticks].
  rewrite Hl. cbn [deref]. by rewrite Hi.
Qed.

(** The checks and the touch, in front of whatever follows. *)
Lemma checks_live {B} (k : Session -> M (Conn A) B) (dead : Session -> M (Conn A) B) c l sess :
  sheap (env c) !! l = Some sess -> live (env c) sess ->
  (sess ← on_env (read_session l);
   d ← on_env (session_dead l);
   if d : bool then dead sess else _ ← on_env (touch_session l); k sess) c
  = k sess (with_env (checked (env c) l) c).
Proof.
  intros Hl Hlive. unfold mbind at 1, M_bind at 1, on_env at 1, read_session, load. rewrite Hl. cbn [deref].
  unfold mbind at 1, M_bind at 1, on_env at 1. cbn [env conn_in conn_out conn_closed].
  by rewrite (session_dead_live _ _ sess).
Qed.

Lemma tcp_round_live s sctx ctx l addr c sess :
  sheap (env c) !! l = Some sess -> live (env c) sess ->
  tcp_round s sctx ctx l addr c =
    let c1 := with_env (checked (env c) l) c in
    match conn_ReadRequest (SKey sess) c1 with
    | (c2, Ok (req, seq)) => tcp_serve s sctx ctx sess addr req seq c2
    | (c2, Err _) => (c2, Ok None)
    | (c2, Panic p) => (c2, Panic p)
    | (c2, OutOfFuel) => (c2, OutOfFuel)
    end.
Proof.
  intros Hl Hlive. unfold tcp_round. rewrite (checks_live (fun sess => _ ← attempt _; _) (fun sess => _) c l sess)
    by done.
  unfold mbind, M_bind, attempt. destruct (conn_ReadRequest _ _) as [c2 [[req seq]|x|p|]]; done.
Qed.

Lemma handleStream_body_live s ctx l addr c sess :
  sheap (env c) !! l = Some sess -> live (env c) sess ->
  handleStream_body s ctx l addr c =
    let c1 := with_env (checked (env c) l) c in
    match conn_ReadRequest (SKey sess) c1 with
    | (c2, Ok (req, seq)) => stream_serve s ctx sess addr req seq c2
    | (c2, Err x) =>
        (_ ← on_env (logf s LevelWarn "session[%d] read request: %v" [AInt (ID sess)]);
         _ ← best_effort (conn_WriteResponse (SKey sess) 0 (ErrorResponse StatusBadRequest "bad request"));
         conn_Close) c2
    | (c2, Panic p) => (c2, Panic p)
    | (c2, OutOfFuel) => (c2, OutOfFuel)
    end.
Proof.
  intros Hl Hlive. unfold handleStream_body.
  rewrite (checks_live (fun sess => _ ← attempt _; _) (fun sess => _) c l sess) by done.
  unfold mbind at 1, M_bind at 1, attempt. destruct (conn_ReadRequest _ _) as [c2 [[req seq]|x|p|]]; done.
Qed.

Lemma conn_ReadRequest_eq key c rest er buf x :
  conn_in c = mkReader (buf ++ rest) er ->
  ReadRequest key (mkReader (buf ++ rest) er) = (mkReader rest er, x) ->
  conn_ReadRequest key c = (mkConn (env c) (mkReader rest er) (conn_out c) (conn_closed c), x).
Proof. intros Hc Hr. unfold conn_ReadRequest. by rewrite Hc, Hr. Qed.

(** ** Sending a response *)

(** [buf] is a frame from which the peer reads [r], with [seq]. *)
Definition carries (key : option (list byte)) (seq : Z) (r : Response) (buf : list byte) : Prop :=
  forall rest er, ReadResponse key (mkReader (buf ++ rest) er) = (mkReader rest er, Ok (norm_response seq r)).

Definition response_fits (key : option (list byte)) (r : Response) : Prop :=
  response_wf r /\ 4 + (1 + payload_size (RPayload r)) + envelope_size key <= MaxFrameSize.

Lemma frame_carries key seq r nonce :
  response_fits key r -> key_ok key -> len nonce = NonceSize -> in_uint 32 seq = true ->
  carries key seq r (frame_bytes seq (envelope key nonce (response_bytes r))).
Proof.
  intros [Hr Hfit] Hk Hn Hs rest e.
  rewrite ReadResponse_frame; [|rewrite len_envelope, len_response_bytes by done; lia|done].
  erewrite DecryptResponse_opens by (by apply opens_envelope). cbn [SequenceNumber].
  rewrite parse_response_bytes; [done|done|].
  unfold MaxFrameSize in Hfit. assert (0 <= envelope_size key) by (by destruct key). lia.
Qed.

Lemma conn_WriteResponse_ok key seq r nonce rnd er c :
  response_fits key r -> key_ok key -> len nonce = NonceSize ->
  failing (conn_out c) = None -> random (env c) = mkReader (nonce_used key nonce ++ rnd) er ->
  conn_WriteResponse key seq r c =
    (mkConn (set_random (mkReader rnd er) (env c)) (conn_in c)
       (mkWriter (written (conn_out c) ++ frame_bytes seq (envelope key nonce (response_bytes r))) None)
       (conn_closed c), Ok tt).
Proof.
  intros [Hr Hfit] Hk Hn Hw Hrnd.
  unfold conn_WriteResponse. rewrite Hrnd, WriteResponse_eq by done.
  unfold frame_outcome. rewrite len_envelope, len_response_bytes by done.
  by rewrite (proj2 (Z.leb_le _ _)) by lia.
Qed.

(** ** Panics *)

(** The environment a plain handler is called in. *)
Definition at_handler e l : Env A := (Now (checked e l)).1.

(** A handler that panics, or returns neither a response nor an error. *)
Definition no_answer (x : Env A * res (option Response)) (p : panic) : Prop :=
  x.2 = Panic p \/ (x.2 = Ok None /\ p = PNilDeref).

Lemma tcp_serve_no_answer s sctx ctx sess addr req seq f p c :
  handlers s !! Opcode req = Some (Plain f) ->
  no_answer (f (request_ctx ctx sess addr) (mkSrvRequest req (ID sess) (APIKeyID sess)) (Now (env c)).1) p ->
  (tcp_serve s sctx ctx sess addr req seq c).2 = Panic p.
Proof.
  intros Hh Hn. unfold tcp_serve. rewrite Hh. unfold mbind at 1, M_bind at 1, on_env at 1.
  cbn [Now]. unfold mbind at 1, M_bind at 1, attempt at 1, on_env at 1. cbn [env].
  cbn [Now fst] in Hn. destruct (f _ _ _) as [e' r]. destruct Hn as [Hn|[Hn ->]]; cbn in Hn; subst r; done.
Qed.

Lemma stream_serve_no_answer s ctx sess addr req seq f p c :
  handlers s !! Opcode req = Some (Plain f) ->
  no_answer (f (request_ctx ctx sess addr) (mkSrvRequest req (ID sess) (APIKeyID sess)) (Now (env c)).1) p ->
  (stream_serve s ctx sess addr req seq c).2 = Panic p.
Proof.
  intros Hh Hn. unfold stream_serve. rewrite Hh. unfold mbind at 1, M_bind at 1, on_env at 1.
  cbn [Now]. unfold mbind at 1, M_bind at 1, attempt at 1, on_env at 1. cbn [env].
  cbn [Now fst] in Hn. destruct (f _ _ _) as [e' r]. destruct Hn as [Hn|[Hn ->]]; cbn in Hn; subst r; done.
Qed.

Lemma handleStream_after_panic s ctx l addr c sess p :
  sheap (env c) !! l = Some sess -> (handleStream_body s ctx l addr c).2 = Panic p ->
  (handleStream s ctx l addr c).2 = Ok tt.
Proof.
  intros Hl Hp. pose proof (handleStream_eq s ctx l addr c sess Hl) as H.
  destruct (handleStream_body s ctx l addr c) as [c' r]. cbn in Hp. by subst r.
Qed.

(** C26. [RecoveryMiddleware] does not protect the server: it turns the panic of
    a handler into a nil response with a nil error, and the server then
    dereferences the response.  On a QUIC stream that second panic is
    recovered; on a TCP connection it is not, and takes the process down. *)
Theorem recovery_middleware_crashes s onPanic h sctx ctx l addr c sess rd req seq p :
  sheap (env c) !! l = Some sess -> live (env c) sess ->
  ReadRequest (SKey sess) (conn_in c) = (rd, Ok (req, seq)) ->
  handlers s !! Opcode req = Some (RecoveryMiddleware onPanic h) ->
  let srvReq := mkSrvRequest req (ID sess) (APIKeyID sess) in
  (HandleHush h (request_ctx ctx sess addr) srvReq (at_handler (env c) l)).2 = Panic p ->
  (forall e, (onPanic srvReq p e).2 = Ok tt) ->
  (tcp_round s sctx ctx l addr c).2 = Panic PNilDeref /\
  (handleStream_body s ctx l addr c).2 = Panic PNilDeref /\
  (handleStream s ctx l addr c).2 = Ok tt.
Proof.
  intros Hl Hlive Hread Hh srvReq Hp Hon.
  assert (forall e, e = at_handler (env c) l -> no_answer (HandleHush (RecoveryMiddleware onPanic h)
    (request_ctx ctx sess addr) srvReq e) PNilDeref) as Hno.
  { intros e ->. cbn [HandleHush RecoveryMiddleware]. unfold mbind at 1, M_bind at 1, attempt.
    destruct (HandleHush h _ _ _) as [e1 r]. cbn in Hp. subst r.
    unfold mbind, M_bind. specialize (Hon e1). destruct (onPanic srvReq p e1) as [e2 r]. cbn in Hon. subst r.
    by right. }
  assert (conn_ReadRequest (SKey sess) (with_env (checked (env c) l) c)
    = (mkConn (checked (env c) l) rd (conn_out c) (conn_closed c), Ok (req, seq))) as Hcr.
  { unfold conn_ReadRequest. cbn [with_env conn_in env conn_out conn_closed]. by rewrite Hread. }
  assert ((handleStream_body s ctx l addr c).2 = Panic PNilDeref) as Hbody.
  { rewrite (handleStream_body_live _ _ _ _ _ sess) by done. cbv zeta. rewrite Hcr.
    eapply stream_serve_no_answer; [exact Hh|]. by apply Hno. }
  split; [|split; [done|by eapply handleStream_after_panic]].
  rewrite (tcp_round_live _ _ _ _ _ _ sess) by done. cbv zeta. rewrite Hcr.
  eapply tcp_serve_no_answer; [exact Hh|]. by apply Hno.
Qed.

(** The request of [DecodeBytes_panic_iff_example] in a frame. *)
Definition poison_frame (key : option (list byte)) (seq op : Z) (nonce : list byte) : list byte :=
  frame_bytes seq (envelope key nonce (be_put 2 op ++ poison x0d)).

Lemma ReadRequest_poison key seq op nonce rest er :
  key_ok key -> len nonce = NonceSize -> in_uint 32 seq = true ->
  ReadRequest key (mkReader (poison_frame key seq op nonce ++ rest) er)
  = (mkReader rest er, Panic PSliceBounds).
Proof.
  intros Hk Hn Hs. unfold poison_frame.
  assert (len (be_put 2 op ++ poison x0d) = 13) as Hlen by (by rewrite len_app, len_be_put).
  rewrite ReadRequest_frame; [|rewrite len_envelope, Hlen by done; by destruct key|done].
  erewrite DecryptRequest_opens by (by apply opens_envelope).
  rewrite parse_request_eq by lia. rewrite drop_app_exact by apply length_be_put.
  assert (DecodeMap (poison x0d) = Panic PSliceBounds) as -> by (vm_compute; reflexivity). done.
Qed.

(** C24. One request stops a TCP server: for every server, and every live
    session, whatever handlers are registered, there is a 13-byte plaintext
    (in a valid frame, sealed under the session's own key) on which the
    connection's goroutine panics, and nothing recovers it; the same frame on
    a QUIC stream is answered. *)
Theorem poison_request_crashes s sctx ctx l addr c sess seq op nonce rest er :
  sheap (env c) !! l = Some sess -> live (env c) sess -> key_ok (SKey sess) ->
  len nonce = NonceSize -> in_uint 32 seq = true ->
  conn_in c = mkReader (poison_frame (SKey sess) seq op nonce ++ rest) er ->
  (tcp_round s sctx ctx l addr c).2 = Panic PSliceBounds /\
  (handleStream s ctx l addr c).2 = Ok tt.
Proof.
  intros Hl Hlive Hk Hn Hs Hin.
  pose proof (ReadRequest_poison (SKey sess) seq op nonce rest er Hk Hn Hs) as Hr.
  assert (conn_ReadRequest (SKey sess) (with_env (checked (env c) l) c)
    = (mkConn (checked (env c) l) (mkReader rest er) (conn_out c) (conn_closed c), Panic PSliceBounds)) as Hcr.
  { unfold conn_ReadRequest. cbn [with_env conn_in env conn_out conn_closed]. by rewrite Hin, Hr. }
  split.
  - rewrite (tcp_round_live _ _ _ _ _ _ sess) by done. cbv zeta. by rewrite Hcr.
  - eapply handleStream_after_panic; [done|].
    rewrite (handleStream_body_live _ _ _ _ _ sess) by done. cbv zeta. by rewrite Hcr.
Qed.

(** ** Sessions of connections *)

(** Session IDs in the store have been given out. *)
Definition ids_ok e : Prop :=
  store_ok (sheap e) (sstore e) /\ 0 <= nextID e /\
  forall id l, sessions (sstore e) !! id = Some l -> 1 <= id <= nextID e.

Lemma conn_negotiate_inv s c c' sess :
  failing (conn_out c) = None -> conn_negotiate s c = (c', Ok sess) ->
  nextID (env c') = (next_session (nextID (env c))).1 /\ ID sess = nextID (env c') /\
  sheap (env c') = sheap (env c) /\ sstore (env c') = sstore (env c) /\ app (env c') = app (env c).
Proof.
  intros Hw. unfold conn_negotiate. destruct (NegotiateServer _ _ _ _ _) as [[st i] x] eqn:E.
  intros [= <- ->]. apply NegotiateServer_inv in E as (key & pub & sid & sh & k & _ & _ & _ & Hi & _ & _ & _ & ->);
    [|done]. cbn [is_ok Now fst env nextID set_nextID sheap sstore app NewSession ID]. rewrite Hi.
  unfold next_session in Hi. injection Hi as <- <-. done.
Qed.

Lemma file_session_spec sess e :
  ids_ok e -> sessions (sstore e) !! ID sess = None -> 1 <= ID sess <= nextID e ->
  exists e' l, file_session sess e = (e', Ok l) /\ ids_ok e' /\ sheap e !! l = None /\
    sheap e' = <[l := sess]> (sheap e) /\ sessions (sstore e') = <[ID sess := l]> (sessions (sstore e)).
Proof.
  intros ([Hc Hst] & Hn & Hids) Hfresh Hid. unfold file_session.
  set (l := fresh (dom (sheap e))).
  assert (sheap e !! l = None) as Hl by (apply not_elem_of_dom, is_fresh).
  unfold Store_Set, load. rewrite lookup_insert_eq. cbn [deref mbind res_bind].
  eexists _, l. split; [done|]. split; [|split_and!; done].
  unfold ids_ok. cbn [set_sessions sheap sstore nextID]. split; [split; [done|]|split; [done|]].
  - intros id l'. cbn [sessions]. rewrite lookup_insert_Some. intros [[<- <-]|[_ H]].
    + exists sess. by rewrite lookup_insert_eq.
    + destruct (Hst _ _ H) as (s0 & Hs0 & <-). exists s0. rewrite lookup_insert_ne; [done|congruence].
  - intros id l'. cbn [sessions]. rewrite lookup_insert_Some. intros [[<- <-]|[_ H]]; [done|by eapply Hids].
Qed.

(** The session of a handshake is new, and is filed. *)
Lemma connection_files s c c1 sess :
  ids_ok (env c) -> nextID (env c) < 2 ^ 64 - 1 -> failing (conn_out c) = None ->
  conn_negotiate s c = (c1, Ok sess) ->
  ID sess = nextID (env c) + 1 /\ sessions (sstore (env c)) !! ID sess = None /\
  exists e' l, file_session sess (env c1) = (e', Ok l) /\ ids_ok e' /\ sheap (env c) !! l = None /\
    view (sheap e') (sstore e') !! ID sess = Some sess /\
    forall id, id <> ID sess -> sessions (sstore e') !! id = sessions (sstore (env c)) !! id.
Proof.
  intros Hids Hmax Hw Hneg.
  destruct (conn_negotiate_inv s c c1 sess Hw Hneg) as (Hn & HID & Hh & Hst & _).
  assert (nextID (env c1) = nextID (env c) + 1) as Hn1.
  { rewrite Hn. cbn [next_session fst]. apply wrapU_small. destruct Hids as (_ & ? & _). lia. }
  assert (sessions (sstore (env c)) !! ID sess = None) as Hnone.
  { destruct (sessions (sstore (env c)) !! ID sess) as [l|] eqn:E; [|done].
    destruct Hids as (_ & _ & H). specialize (H _ _ E). lia. }
  assert (ids_ok (env c1)) as Hids1.
  { destruct Hids as (H1 & H2 & H3). unfold ids_ok. rewrite Hh, Hst, Hn1. split; [done|]. split; [lia|].
    intros id l H. specialize (H3 _ _ H). lia. }
  destruct (file_session_spec sess (env c1)) as (e' & l & Hf & Hok & Hl & Hhe & Hse);
    [done|by rewrite Hst|destruct Hids as (_ & ? & _); lia|].
  split; [lia|]. split; [done|]. exists e', l. rewrite <-Hh. split_and!; try done.
  - rewrite lookup_view, Hse, lookup_insert_eq. cbn [mbind option_bind]. by rewrite Hhe, lookup_insert_eq.
  - intros id Hne. by rewrite Hse, lookup_insert_ne, Hst.
Qed.

(** However the goroutine of a connection ends, it takes the session out. *)
Lemma connection_unfiles s c c1 sess fuel cancelled ctx addr e' l :
  conn_negotiate s c = (c1, Ok sess) -> file_session sess (env c1) = (e', Ok l) ->
  sessions (sstore (env (handleTCPConnection fuel s cancelled ctx TLSConn addr c).1)) !! ID sess = None.
Proof.
  intros Hneg Hf. unfold handleTCPConnection. unfold mbind at 1, M_bind at 1, attempt. rewrite Hneg.
  unfold mbind at 1, M_bind at 1, on_env at 1. rewrite Hf. unfold deferring.
  match goal with |- context [let '(st, r) := ?x in _] => destruct x as [c2 r] end.
  cbn [fst on_env unfile_session set_sessions env sstore Store_Delete sessions].
  by rewrite lookup_delete_eq.
Qed.

(** C21. Session IDs are unique and sessions end with their connections: a
    connection that completes the handshake gets the next ID, under which the
    store has no session (so none is ever replaced, up to 2^64 handshakes);
    the session is filed in a new location; and when the connection's
    goroutine ends, however it ends, panics and handlers that change the store
    included, no session is stored under that ID. *)
Theorem session_of_connection s c c1 sess fuel cancelled ctx addr :
  ids_ok (env c) -> nextID (env c) < 2 ^ 64 - 1 -> failing (conn_out c) = None ->
  conn_negotiate s c = (c1, Ok sess) ->
  ID sess = nextID (env c) + 1 /\ sessions (sstore (env c)) !! ID sess = None /\
  (exists e' l, file_session sess (env c1) = (e', Ok l) /\ ids_ok e' /\ sheap (env c) !! l = None /\
     view (sheap e') (sstore e') !! ID sess = Some sess /\
     forall id, id <> ID sess -> sessions (sstore e') !! id = sessions (sstore (env c)) !! id) /\
  sessions (sstore (env (handleTCPConnection fuel s cancelled ctx TLSConn addr c).1)) !! ID sess = None.
Proof.
  intros Hids Hmax Hw Hneg. destruct (connection_files s c c1 sess Hids Hmax Hw Hneg) as (HID & Hnone & e' & l & Hf & H).
  split; [done|]. split; [done|]. split; [by exists e', l|]. by eapply connection_unfiles.
Qed.
End facts.
