(* ===== verification/Pipeline.v ===== *)
(** * A connection is a sequential machine

    For a server whose handlers are functions of the application's state, what
    a TCP connection does is a fold: the requests that arrive, one after the
    other, each answered under its own sequence number. *)

From S2P Require Import Prelude GoRt Varint Tlv TlvSpec TlvDecode TlvSafe Crypto Frame FrameFacts FrameClaims Session SessionFacts Negotiate NegotiateFacts RateLimit Media Handler Server ServerFacts.

Section pipeline.
Context {A : Type} `{L : CryptoLaws}.
Implicit Types (c : Conn A) (e : Env A) (s : Server A) (l : positive) (ctx : Ctx).

(** A handler that answers from the application's state, and a server of such
    handlers. *)
Definition app_handler : Type := SrvRequest -> A -> A * Response.
Definition lift_app (g : app_handler) : HandlerFunc A := fun _ req =>
  in_app (fun a => let '(a, r) := g req a in (a, Ok (Some r))).
Definition serves s (table : gmap Z app_handler) : Prop :=
  forall op, handlers s !! op = (fun g => Plain (lift_app g)) <$> table !! op.

(** The specification: the answer to a request, and to a list of them. *)
Definition answer (table : gmap Z app_handler) (req : SrvRequest) (a : A) : A * Response :=
  match table !! Opcode (FrameRequest req) with
  | Some g => g req a
  | None => (a, not_found_resp (Opcode (FrameRequest req)))
  end.
Fixpoint answers (table : gmap Z app_handler) (sess : Session) (rs : list (Request * Z)) (a : A)
  : A * list (Response * Z) :=
  match rs with
  | [] => (a, [])
  | (req, seq) :: rs =>
      let '(a, r) := answer table (mkSrvRequest req (ID sess) (APIKeyID sess)) a in
      let '(a, out) := answers table sess rs a in (a, (r, seq) :: out)
  end.

(** What a round leaves alone. *)
Definition keeps e e' : Prop :=
  oracle e' = oracle e /\ sheap e' = sheap e /\ sstore e' = sstore e /\ nextID e' = nextID e /\
  limiters e' = limiters e.

Lemma keeps_logf s lvl fmt args c : exists e',
  on_env (logf s lvl fmt args) c = (with_env e' c, Ok tt) /\ keeps (env c) e' /\
  app e' = app (env c) /\ random e' = random (env c).
Proof.
  unfold logf, on_env, put_log. destruct (Logger s); eexists; split_and!; try done; by destruct c.
Qed.

(** Serving one request: the frame that is sent. *)
Lemma tcp_serve_exact s table sctx ctx sess addr req seq nonce rnd er c a r :
  serves s table -> key_ok (SKey sess) -> len nonce = NonceSize ->
  failing (conn_out c) = None -> random (env c) = mkReader (nonce_used (SKey sess) nonce ++ rnd) er ->
  answer table (mkSrvRequest req (ID sess) (APIKeyID sess)) (app (env c)) = (a, r) ->
  response_fits (SKey sess) r ->
  exists e',
    tcp_serve s sctx ctx sess addr req seq c
    = (mkConn e' (conn_in c)
         (mkWriter (written (conn_out c) ++ frame_bytes seq (envelope (SKey sess) nonce (response_bytes r))) None)
         (conn_closed c),
       Ok (Some (request_ctx ctx sess addr))) /\
    keeps (env c) e' /\ app e' = a /\ random e' = mkReader rnd er.
Proof.
  intros Hs Hk Hn Hw Hrnd. unfold answer, tcp_serve. cbn [FrameRequest].
  rewrite (Hs (Opcode req)). destruct (table !! Opcode req) as [g|]; cbn [fmap option_fmap option_map].
  - intros Hg Hfit. unfold mbind at 1, M_bind at 1, on_env at 1, Now. cbn match.
    unfold mbind at 1, M_bind at 1, attempt at 1, on_env at 1, lift_app, in_app.
    cbn [env app]. rewrite Hg. cbn match.
    unfold mbind at 1, M_bind at 1, on_env at 1, Now. cbn [env conn_in conn_out conn_closed].
    unfold mbind at 1, M_bind at 1, lift at 1, deref.
    set (c1 := mkConn _ (conn_in c) (conn_out c) (conn_closed c)).
    unfold mbind at 1, M_bind at 1.
    edestruct (keeps_logf s LevelInfo) as (e1 & Hlog & Hke & Ha & Hr). rewrite Hlog. clear Hlog.
    unfold mbind at 1, M_bind at 1, attempt.
    rewrite (conn_WriteResponse_ok (SKey sess) seq r nonce rnd er (with_env e1 c1));
      [|done|done|done|done|by cbn [env with_env]; rewrite Hr].
    exists (set_random (mkReader rnd er) e1). split; [done|].
    split; [exact Hke|]. split; [exact Ha|done].
  - intros [= <- <-] Hfit. unfold mbind at 1, M_bind at 1, best_effort.
    rewrite (conn_WriteResponse_ok (SKey sess) seq _ nonce rnd er c Hfit Hk Hn Hw Hrnd).
    by exists (set_random (mkReader rnd er) (env c)).
Qed.

Lemma tcp_serve_app s table sctx ctx sess addr req seq nonce rnd er c :
  serves s table -> key_ok (SKey sess) -> len nonce = NonceSize -> in_uint 32 seq = true ->
  failing (conn_out c) = None -> random (env c) = mkReader (nonce_used (SKey sess) nonce ++ rnd) er ->
  let '(a, r) := answer table (mkSrvRequest req (ID sess) (APIKeyID sess)) (app (env c)) in
  response_fits (SKey sess) r ->
  exists buf e', carries (SKey sess) seq r buf /\
    tcp_serve s sctx ctx sess addr req seq c
    = (mkConn e' (conn_in c) (mkWriter (written (conn_out c) ++ buf) None) (conn_closed c),
       Ok (Some (request_ctx ctx sess addr))) /\
    keeps (env c) e' /\ app e' = a /\ random e' = mkReader rnd er.
Proof.
  intros Hs Hk Hn Hseq Hw Hrnd. destruct (answer _ _ _) as [a r] eqn:Ha. intros Hfit.
  destruct (tcp_serve_exact s table sctx ctx sess addr req seq nonce rnd er c a r) as (e' & H); try done.
  exists (frame_bytes seq (envelope (SKey sess) nonce (response_bytes r))), e'.
  split; [by apply frame_carries|exact H].
Qed.

(** ** The loop *)

(** The session outlives the run: at no reading of the clock is it expired or,
    whenever it was last touched, idle. *)
Definition never_dead e (sess : Session) : Prop := forall i,
  IsExpired (oracle e i) (sstore e) sess = false /\
  IsIdleDead (oracle e i) (sstore e) sess = false /\
  forall j, IsIdleDead (oracle e i) (sstore e) (Session_Touch (oracle e j) sess) = false.

(** The handlers' answers to what can arrive can be sent. *)
Definition fits_all (table : gmap Z app_handler) (key : option (list byte)) : Prop := forall rq a,
  in_uint 16 (Opcode (FrameRequest rq)) = true -> response_fits key (answer table rq a).2.

(** [buf] is a frame from which the server reads [req], with [seq]. *)
Definition requests (key : option (list byte)) (rq : Request * Z) (buf : list byte) : Prop :=
  in_uint 32 rq.2 = true /\ in_uint 16 (Opcode rq.1) = true /\
  forall rest er, ReadRequest key (mkReader (buf ++ rest) er) = (mkReader rest er, Ok rq).

Lemma ReadRequest_EOF key : exists x rd, ReadRequest key (mkReader [] io_EOF) = (rd, Err x).
Proof. by do 2 eexists. Qed.

Lemma never_dead_live e sess : never_dead e sess -> live e sess.
Proof. intros H. split; apply H. Qed.

Lemma never_dead_touch e e' sess j :
  oracle e' = oracle e -> sstore e' = sstore e ->
  never_dead e sess -> never_dead e' (Session_Touch (oracle e j) sess).
Proof.
  intros Ho Hst H i. rewrite Ho, Hst. destruct (H i) as (H1 & H2 & H3).
  split; [exact H1|]. split; [apply H3|]. intros j'. apply H3.
Qed.

(** One round with a request at the head of the connection. *)
Lemma tcp_round_app s table sctx ctx l addr sess req seq fr rest er0 nonce rnd er c :
  serves s table -> key_ok (SKey sess) -> len nonce = NonceSize ->
  fits_all table (SKey sess) ->
  sheap (env c) !! l = Some sess -> never_dead (env c) sess ->
  requests (SKey sess) (req, seq) fr -> conn_in c = mkReader (fr ++ rest) er0 ->
  failing (conn_out c) = None -> random (env c) = mkReader (nonce_used (SKey sess) nonce ++ rnd) er ->
  let '(a, r) := answer table (mkSrvRequest req (ID sess) (APIKeyID sess)) (app (env c)) in
  exists buf e' j, carries (SKey sess) seq r buf /\
    tcp_round s sctx ctx l addr c
    = (mkConn e' (mkReader rest er0) (mkWriter (written (conn_out c) ++ buf) None) (conn_closed c),
       Ok (Some (request_ctx ctx sess addr))) /\
    sheap e' !! l = Some (Session_Touch (oracle (env c) j) sess) /\
    never_dead e' (Session_Touch (oracle (env c) j) sess) /\
    app e' = a /\ random e' = mkReader rnd er.
Proof.
  intros Hs Hk Hn Hfit Hl Hlive (Hseq & Hop & Hreq) Hin Hw Hrnd.
  destruct (answer table _ (app (env c))) as [a r] eqn:Ha.
  rewrite (tcp_round_live _ _ _ _ _ _ sess) by (done || by apply never_dead_live).
  cbv zeta.
  rewrite (conn_ReadRequest_eq _ _ rest er0 fr (Ok (req, seq))) by (done || apply Hreq).
  cbn [with_env env conn_out conn_closed].
  pose proof (tcp_serve_app s table sctx ctx sess addr req seq nonce rnd er
    (mkConn (checked (env c) l) (mkReader rest er0) (conn_out c) (conn_closed c)) Hs Hk Hn Hseq Hw Hrnd) as H.
  cbn [env checked app] in H. rewrite Ha in H. specialize (Hfit (mkSrvRequest req (ID sess) (APIKeyID sess)) (app (env c)) Hop).
  rewrite Ha in Hfit. destruct (H Hfit) as (buf & e' & Hb & -> & Hke & Happ & Hr).
  exists buf, e', (S (S (ticks (env c)))). split; [done|]. split; [done|].
  destruct Hke as (Ho & Hh & Hst & _). cbn [checked oracle sheap sstore] in *.
  split; [|split; [by eapply never_dead_touch|done]].
  rewrite Hh. unfold Touch. by rewrite lookup_alter_eq, Hl.
Qed.

Lemma tcp_loop_app s table sctx l addr rnd er rs : forall frames nonces fuel n ctx sess c,
  serves s table -> key_ok (SKey sess) ->
  fits_all table (SKey sess) ->
  sheap (env c) !! l = Some sess -> never_dead (env c) sess ->
  Forall2 (requests (SKey sess)) rs frames -> conn_in c = mkReader (concat frames) io_EOF ->
  length nonces = length rs -> Forall (fun nc => len nc = NonceSize) nonces ->
  random (env c) = mkReader (concat (map (nonce_used (SKey sess)) nonces) ++ rnd) er ->
  failing (conn_out c) = None -> (length rs < fuel)%nat ->
  let '(a, out) := answers table sess rs (app (env c)) in
  exists bufs c', tcp_loop fuel s (fun _ => false) n sctx ctx l addr c = (c', Ok tt) /\
    Forall2 (fun '(r, seq) buf => carries (SKey sess) seq r buf) out bufs /\
    conn_out c' = mkWriter (written (conn_out c) ++ concat bufs) None /\ app (env c') = a.
Proof.
  induction rs as [|[req seq] rs IH]; intros frames nonces fuel n ctx sess c Hs Hk Hfit Hl Hlive Hfr Hin
    Hlen Hnon Hrnd Hw Hfuel; (destruct fuel as [|fuel]; [cbn in Hfuel; lia|]); cbn [answers tcp_loop].
  - inversion Hfr; subst. exists [].
    destruct (ReadRequest_EOF (SKey sess)) as (x & rd & He).
    eexists. unfold mbind, M_bind.
    rewrite (tcp_round_live _ _ _ _ _ _ sess) by (done || by apply never_dead_live).
    unfold conn_ReadRequest. cbn [with_env conn_in]. rewrite Hin. cbn [concat]. rewrite He. cbn.
    split; [done|]. split; [constructor|]. split; [|done]. rewrite app_nil_r.
    destruct (conn_out c) as [w f]. cbn in Hw. by subst f.
  - inversion Hfr as [|? fr ? frs Hfr1 Hfrs]; subst. destruct nonces as [|nc nonces]; [done|].
    apply list.Forall_cons in Hnon as [Hnc Hnon]. cbn [map concat] in Hin, Hrnd. rewrite <-app_assoc in Hrnd.
    pose proof (tcp_round_app s table sctx ctx l addr sess req seq fr (concat frs) io_EOF nc _ er c
      Hs Hk Hnc Hfit Hl Hlive Hfr1 Hin Hw Hrnd) as H.
    destruct (answer table _ (app (env c))) as [a r].
    destruct H as (buf & e' & j & Hb & Hround & Hl' & Hlive' & Ha & Hr).
    unfold mbind, M_bind. rewrite Hround.
    specialize (IH frs nonces fuel (S n) (request_ctx ctx sess addr) (Session_Touch (oracle (env c) j) sess)
      (mkConn e' (mkReader (concat frs) io_EOF) (mkWriter (written (conn_out c) ++ buf) None) (conn_closed c))).
    cbn [env conn_in conn_out] in IH.
    specialize (IH Hs Hk Hfit Hl' Hlive' Hfrs eq_refl ltac:(cbn in Hlen; lia) Hnon Hr eq_refl ltac:(cbn in Hfuel; lia)).
    rewrite Ha in IH. change (answers table (Session_Touch (oracle (env c) j) sess) rs a)
      with (answers table (Session_Touch (oracle (env c) j) sess) rs a) in IH.
    assert (answers table (Session_Touch (oracle (env c) j) sess) rs a = answers table sess rs a) as Heq.
    { clear. revert a. induction rs as [|[q sq] rs IH]; intros a; [done|]. cbn [answers Session_Touch ID APIKeyID].
      destruct (answer _ _ a) as [a1 r1]. by rewrite IH. }
    rewrite Heq in IH. destruct (answers table sess rs a) as [a' out].
    destruct IH as (bufs & c' & Hloop & Hbufs & Hout & Happ).
    exists (buf :: bufs), c'. split; [done|]. split; [by constructor|].
    split; [|done]. rewrite Hout. cbn [written concat]. by rewrite app_assoc.
Qed.
End pipeline.

Section pipeline_theorem.
Context {A : Type} `{L : CryptoLaws}.

(** C12. A TCP connection is a sequential machine: for a server of application
    handlers and a session that stays alive, whatever requests have arrived,
    one after the other, the connection's loop answers all of them, in their
    order, each under its own sequence number and with the response the
    handler of its opcode gives in the state its predecessors left (or "not
    found" for an unknown opcode), then ends with the connection's input. *)
Theorem tcp_pipeline (s : Server A) table sctx ctx l addr sess rs frames nonces rnd er fuel (c : Conn A) :
  serves s table -> key_ok (SKey sess) ->
  fits_all table (SKey sess) ->
  sheap (env c) !! l = Some sess -> never_dead (env c) sess ->
  Forall2 (requests (SKey sess)) rs frames -> conn_in c = mkReader (concat frames) io_EOF ->
  length nonces = length rs -> Forall (fun nc => len nc = NonceSize) nonces ->
  random (env c) = mkReader (concat (map (nonce_used (SKey sess)) nonces) ++ rnd) er ->
  failing (conn_out c) = None -> (length rs < fuel)%nat ->
  let '(a, out) := answers table sess rs (app (env c)) in
  exists bufs c', tcp_loop fuel s (fun _ => false) 0 sctx ctx l addr c = (c', Ok tt) /\
    Forall2 (fun '(r, seq) buf => carries (SKey sess) seq r buf) out bufs /\
    conn_out c' = mkWriter (written (conn_out c) ++ concat bufs) None /\ app (env c') = a.
Proof.
  intros Hs Hk Hfit Hl Hlive Hfr Hin Hlen Hnon Hrnd Hw Hfuel.
  by apply (tcp_loop_app s table sctx l addr rnd er rs frames nonces).
Qed.
End pipeline_theorem.

(** ** A small server: opcode 1 counts, and reports the count *)

Definition count_handler : app_handler (A := Z) := fun req n =>
  (n + 1, NewResponse (Some [mkEntry "n" (tlv_Uint64 (wrapU 64 n))])).
Definition demo_table : gmap Z (app_handler (A := Z)) := {[ 1 := count_handler ]}.
Definition empty_server {A} : Server A :=
  mkServer ∅ [] [] (fun _ => None) [] None None None demo_config false.
Definition demo_server : Server Z := HandleFunc 1 (lift_app count_handler) empty_server.

Definition demo_sess : Session := NewSession 0 7 "" None.
Definition demo_env (rnd : list byte) : Env Z :=
  mkEnv (fun _ => 0) 0 (reader_of rnd) ∅ {[ 1%positive := demo_sess ]}
    (mkStore demo_config {[ 7 := 1%positive ]}) 7 [] 0.
Definition demo_conn (rnd input : list byte) : Conn Z :=
  mkConn (demo_env rnd) (reader_of input) empty_writer false.

Lemma demo_serves : serves demo_server demo_table.
Proof.
  intros op. cbn [demo_server HandleFunc Handle set_handler handlers empty_server middlewares].
  unfold demo_table. destruct (decide (1 = op)) as [<-|Hne].
  - by rewrite lookup_insert_eq, lookup_singleton_eq.
  - by rewrite lookup_insert_ne, lookup_singleton_ne.
Qed.

Lemma demo_never_dead rnd : never_dead (demo_env rnd) demo_sess.
Proof. intros i. split_and!; vm_compute; reflexivity. Qed.

Lemma demo_fits_any key : fits_all demo_table key.
Proof.
  intros rq n Hop. unfold answer, demo_table. destruct (decide (1 = Opcode (FrameRequest rq))) as [<-|Hne].
  - rewrite lookup_singleton_eq. cbn [count_handler snd]. split; [|destruct key; vm_compute; discriminate].
    split; [done|]. split_and!; try done. unfold map_wf. cbn [map Key Val forallb tlv_Uint64 value_wf].
    rewrite code_of_byte, wrapU_range by lia. done.
  - rewrite lookup_singleton_ne by done. cbn [snd]. split; [|destruct key; vm_compute; discriminate].
    split; [done|]. split_and!; try done. unfold map_wf.
    cbn [not_found_resp Map_Set NewMap map Key Val forallb tlv_Uint16 value_wf].
    rewrite code_of_byte, Hop. done.
Qed.
Lemma demo_fits : fits_all demo_table None.
Proof. apply demo_fits_any. Qed.

Definition demo_frame (op seq : Z) : list byte := frame_bytes seq (be_put 2 op).

Lemma demo_requests op seq :
  in_uint 16 op = true -> in_uint 32 seq = true ->
  requests (SKey demo_sess) (mkRequest op None, seq) (demo_frame op seq).
Proof.
  intros Hop Hseq. split; [done|]. split; [done|]. intros rest er. cbn [demo_sess NewSession SKey].
  unfold demo_frame. rewrite ReadRequest_frame; [|rewrite len_be_put; by vm_compute|done].
  rewrite (DecryptRequest_opens None _ (be_put 2 op)) by done.
  rewrite <-(app_nil_r (be_put 2 op)). change (be_put 2 op ++ []) with (request_bytes (mkRequest op None)).
  by rewrite parse_request_bytes.
Qed.

Lemma tcp_pipeline_witness :
  exists bufs c',
    tcp_loop 4 demo_server (fun _ => false) 0 [] [] 1%positive ""
      (demo_conn [] (demo_frame 1 10 ++ demo_frame 9 11 ++ demo_frame 1 12 ++ [])) = (c', Ok tt) /\
    Forall2 (fun '(r, seq) buf => carries None seq r buf)
      [(NewResponse (Some [mkEntry "n" (tlv_Uint64 0)]), 10); (not_found_resp 9, 11);
       (NewResponse (Some [mkEntry "n" (tlv_Uint64 1)]), 12)] bufs /\
    app (env c') = 2.
Proof.
  destruct (tcp_pipeline demo_server demo_table [] [] 1%positive "" demo_sess
    [(mkRequest 1 None, 10); (mkRequest 9 None, 11); (mkRequest 1 None, 12)]
    [demo_frame 1 10; demo_frame 9 11; demo_frame 1 12]
    [sample_nonce; sample_nonce; sample_nonce] [] io_EOF 4
    (demo_conn [] (demo_frame 1 10 ++ demo_frame 9 11 ++ demo_frame 1 12 ++ []))
    demo_serves I demo_fits eq_refl (demo_never_dead [])
    ltac:(repeat constructor; by apply demo_requests) eq_refl eq_refl
    ltac:(repeat constructor) eq_refl eq_refl ltac:(cbn; lia))
    as (bufs & c' & H1 & H2 & _ & H3).
  exists bufs, c'. split; [exact H1|]. split; [exact H2|exact H3].
Defined.

(** ** Witnesses for [ServerFacts] *)

(** A handler that panics, behind [RecoveryMiddleware]. *)
Definition panicking : HandlerFunc Z := fun _ _ => lift (Panic PTypeAssertion).
Definition recovering_server : Server Z :=
  HandleFunc 1 panicking (Use (RecoveryMiddleware default_onPanic) empty_server).

Lemma demo_live rnd : live (demo_env rnd) demo_sess.
Proof. split; vm_compute; reflexivity. Qed.

Lemma handleStream_never_panics_witness :
  (handleStream recovering_server [] 1%positive "" (demo_conn [] (demo_frame 1 10))).2 = Ok tt.
Proof.
  apply (proj2 (handleStream_never_panics recovering_server [] 1%positive ""
    (demo_conn [] (demo_frame 1 10)) demo_sess eq_refl) PNilDeref).
  vm_compute. reflexivity.
Defined.

Lemma recovery_middleware_crashes_witness :
  (tcp_round recovering_server [] [] 1%positive "" (demo_conn [] (demo_frame 1 10))).2 = Panic PNilDeref.
Proof.
  refine (proj1 (recovery_middleware_crashes recovering_server default_onPanic
    (Plain panicking) [] [] 1%positive "" (demo_conn [] (demo_frame 1 10)) demo_sess (reader_of [])
    (mkRequest 1 None) 10 PTypeAssertion eq_refl (demo_live []) _ eq_refl eq_refl _)).
  - vm_compute. reflexivity.
  - intros e. reflexivity.
Defined.

Lemma poison_request_crashes_witness :
  (tcp_round demo_server [] [] 1%positive "" (demo_conn [] (poison_frame None 3 1 sample_nonce ++ []))).2
  = Panic PSliceBounds.
Proof.
  exact (proj1 (poison_request_crashes demo_server [] [] 1%positive ""
    (demo_conn [] (poison_frame None 3 1 sample_nonce ++ [])) demo_sess 3 1 sample_nonce [] io_EOF
    eq_refl (demo_live []) I eq_refl eq_refl eq_refl)).
Defined.

(** A client's anonymous hello, on a server with one session already. *)
Definition hello_conn : Conn Z :=
  mkConn (demo_env []) (reader_of (client_hello None (x25519_Public demo_priv_b))) empty_writer false.

Lemma hello_ids_ok : ids_ok (demo_env []).
Proof.
  split; [split|split; [vm_compute; discriminate|]].
  - exact demo_config_ok.
  - intros id l. cbn [demo_env sstore sessions sheap]. rewrite lookup_singleton_Some.
    intros [<- <-]. exists demo_sess. by rewrite lookup_singleton_eq.
  - intros id l. cbn [demo_env sstore sessions nextID]. rewrite lookup_singleton_Some.
    intros [<- _]. lia.
Qed.

Lemma session_of_connection_witness :
  exists c1 sess, conn_negotiate demo_server hello_conn = (c1, Ok sess) /\ ID sess = 8 /\
    sessions (sstore (env (handleTCPConnection 3 demo_server (fun _ => false) [] TLSConn "" hello_conn).1)) !! 8 = None.
Proof.
  destruct (conn_negotiate demo_server hello_conn) as [c1 r] eqn:E.
  assert (exists sess, r = Ok sess) as [sess ->].
  { vm_compute in E. injection E as _ <-. eexists. reflexivity. }
  exists c1, sess. split; [reflexivity|].
  destruct (session_of_connection demo_server hello_conn c1 sess 3 (fun _ => false) [] ""
    hello_ids_ok ltac:(vm_compute; reflexivity) eq_refl E) as (H1 & _ & _ & H2).
  cbn in H1. split; [exact H1|]. rewrite H1 in H2. exact H2.
Defined.
