(* ===== verification/MediaServer.v ===== *)
(** * Media tokens of a server

    [WithMediaSupport] gives the token store of [src/media/media.go] a callback
    that looks the session up in the server's store ([src/server/server.go]).
    What the two components promise each other: a token works from the filing
    of its session until the session's connection has ended or a collection has
    found the session too old, and never again. *)

From S2P Require Import Prelude GoRt Varint Tlv TlvSpec TlvDecode TlvSafe Crypto Frame FrameFacts FrameClaims Session SessionFacts Negotiate NegotiateFacts RateLimit Media MediaFacts Handler Server ServerFacts Pipeline.

(** ** The counter in a handshake

    Whatever comes of a handshake, it draws at most one identifier, and one if
    it grants a session: that session's. *)
Section draws.
Context {I : Type} (next : I -> I * Z).
Implicit Types (st : Stream * I).

Definition keeps {B} (m : M (Stream * I) B) : Prop := forall st, (m st).1.2 = st.2.
Definition draws (m : M (Stream * I) Session) : Prop := forall st,
  ((m st).1.2 = st.2 /\ forall sess, (m st).2 <> Ok sess) \/
  ((m st).1.2 = (next st.2).1 /\ forall sess, (m st).2 = Ok sess -> ID sess = (next st.2).2).

Lemma keeps_lift {B} (r : res B) : keeps (lift r).
Proof. done. Qed.
Lemma keeps_stream {B} (m : M Stream B) : keeps (on_stream m).
Proof. intros st. unfold on_stream. by destruct (m st.1). Qed.
Lemma keeps_wrap {B} fmt args (m : M (Stream * I) B) : keeps m -> keeps (wrap_errM fmt args m).
Proof. intros H st. specialize (H st). unfold wrap_errM. by destruct (m st). Qed.
Lemma draws_lift (r : res Session) : (forall sess, r <> Ok sess) -> draws (lift r).
Proof. intros H st. by left. Qed.
Lemma draws_bind {B} (m : M (Stream * I) B) f : keeps m -> (forall b, draws (f b)) -> draws (m ≫= f).
Proof.
  intros Hm Hf st. specialize (Hm st). unfold mbind, M_bind. destruct (m st) as [st1 [b|x|x|]]; cbn [fst snd] in *; [|by left..].
  specialize (Hf b st1). by rewrite Hm in Hf.
Qed.

Context `{C : CryptoOps}.
Lemma draws_finish now priv pub secret id : draws (server_finish next now priv pub secret id).
Proof.
  apply draws_bind; [apply keeps_lift|intros clientPub]. intros [st i]. right.
  unfold next_session_id, mbind, M_bind, lift, wrap_errM, on_stream. cbn [fst snd]. destruct (next i) as [i' n]. cbn [fst snd].
  destruct (wrap_err _ _ (SharedSecret _ _)); cbn [fst snd]; [|done..].
  destruct (wrap_err _ _ (DeriveSessionKey _ _)); cbn [fst snd]; [|done..].
  destruct (stream_Write _ st) as [st1 []]; cbn [fst snd wrap_err]; [|done..].
  split; [done|]. by intros sess [= <-].
Qed.

Lemma draws_negotiate `{APIKeyStore K} now priv (ks : K) : draws (NegotiateServer next now priv ks).
Proof.
  unfold NegotiateServer. apply draws_bind; [apply keeps_wrap, keeps_stream|intros header]. destruct (_ =? 0).
  - apply draws_bind; [apply keeps_wrap, keeps_stream|intros pub]. apply draws_finish.
  - destruct (256 <? _); [by apply draws_lift|].
    apply draws_bind; [apply keeps_wrap, keeps_stream|intros buf].
    do 2 (apply draws_bind; [apply keeps_lift|intros ?]). destruct (KeyStore_Get _ _); [apply draws_finish|by apply draws_lift].
Qed.
End draws.

Section media_server.
Context {A : Type} `{L : CryptoLaws}.
Implicit Types (s : Server A) (e : Env A) (c : Conn A) (P : list Session).

Lemma conn_negotiate_draws s c c1 r : conn_negotiate s c = (c1, r) ->
  sheap (env c1) = sheap (env c) /\ sstore (env c1) = sstore (env c) /\
  ((nextID (env c1) = nextID (env c) /\ forall sess, r <> Ok sess) \/
   (nextID (env c1) = wrapU 64 (nextID (env c) + 1) /\ forall sess, r = Ok sess -> ID sess = nextID (env c1))).
Proof.
  unfold conn_negotiate. pose proof (draws_negotiate next_session (oracle (env c) (ticks (env c))) (serverPriv s) (keyStore s)
    (mkStream (conn_in c) (conn_out c), nextID (env c))) as H.
  destruct (NegotiateServer _ _ _ _ _) as [[st i] x]. cbn [fst snd next_session] in H. intros [= <- <-].
  split; [by destruct (is_ok x)|]. split; [by destruct (is_ok x)|].
  assert (forall b : bool, nextID (if b then (Now (set_nextID i (env c))).1 else set_nextID i (env c)) = i) as Hnow by (by intros []).
  cbn [env]. rewrite Hnow. destruct H as [H|[-> H]]; [by left|by right].
Qed.

(** ** What happens to the session table

    The steps of the server's goroutines at it, in any order: a handshake on
    some connection, granting a session or failing at any point, a failed write
    of the answer included; [s.sessions.Set] for a session that was granted;
    the deferred [s.sessions.Delete] of a connection; a tick of the collector,
    with a clock reading for each session; [Touch]; and whatever leaves the
    sessions and the counter alone.  The state is the environment, with the
    sessions that were granted and are not filed yet.  Fewer than 2^64
    handshakes. *)
Inductive table_event :=
| EvSet (sess : Session)
| EvDelete (id : Z)
| EvGC (visits : list (Z * positive * Time))
| EvOther.

Inductive table_step : table_event -> Env A * list Session -> Env A * list Session -> Prop :=
| T_negotiate s c c1 r P :
    conn_negotiate s c = (c1, r) -> nextID (env c) < 2 ^ 64 - 1 ->
    table_step EvOther (env c, P) (env c1, match r with Ok sess => sess :: P | _ => P end)
| T_set sess P P' e e' l :
    P ≡ₚ sess :: P' -> file_session sess e = (e', Ok l) -> table_step (EvSet sess) (e, P) (e', P')
| T_delete id e P : table_step (EvDelete id) (e, P) ((unfile_session id e).1, P)
| T_gc e visits st P :
    ranges (sstore e) visits -> Store_GC (sheap e) visits (sstore e) = Ok st ->
    table_step (EvGC visits) (e, P) (set_sessions (sheap e) st e, P)
| T_touch l now e P : table_step EvOther (e, P) ((Server.touch_at l now e).1, P)
| T_other e e' P :
    sheap e' = sheap e -> sstore e' = sstore e -> nextID e' = nextID e -> table_step EvOther (e, P) (e', P).

Inductive table_run : list table_event -> Env A * list Session -> Env A * list Session -> Prop :=
| run_nil x : table_run [] x x
| run_cons ev evs x y z : table_step ev x y -> table_run evs y z -> table_run (ev :: evs) x z.

(** The step takes the session out: the end of its connection, or a collection
    that finds it older than [max]. *)
Definition ends (sess : Session) (max : Duration) (ev : table_event) : bool :=
  match ev with
  | EvDelete id => id =? ID sess
  | EvGC visits => existsb (fun '(id, _, now) => (id =? ID sess) && (max <? now - CreatedAt sess)) visits
  | _ => false
  end.

(** *** The invariant *)

Definition table_ok (x : Env A * list Session) : Prop :=
  ids_ok x.1 /\ NoDup (ID <$> x.2) /\
  forall sess, sess ∈ x.2 -> 1 <= ID sess <= nextID x.1 /\ sessions (sstore x.1) !! ID sess = None.

(** The session was given out, and is not stored (any more). *)
Definition gone (id : Z) (x : Env A * list Session) : Prop :=
  id <= nextID x.1 /\ sessions (sstore x.1) !! id = None /\ id ∉ ID <$> x.2.
(** The session is stored. *)
Definition live (sess : Session) (max : Duration) (x : Env A * list Session) : Prop :=
  exists l sess', sessions (sstore x.1) !! ID sess = Some l /\ sheap x.1 !! l = Some sess' /\
    CreatedAt sess' = CreatedAt sess /\ MaxLifetime (config (sstore x.1)) = max.

Lemma table_ok_shrink e e' P :
  ids_ok e' -> table_ok (e, P) -> nextID e <= nextID e' ->
  (forall id, sessions (sstore e) !! id = None -> sessions (sstore e') !! id = None) -> table_ok (e', P).
Proof.
  intros Hids (_ & Hnd & HP) Hn Hs. split_and!; [done..|]. intros sess [Hle Hnone]%HP. cbn [fst] in *. split; [lia|by apply Hs].
Qed.

Lemma negotiated_ok s c c1 r P :
  conn_negotiate s c = (c1, r) -> nextID (env c) < 2 ^ 64 - 1 -> table_ok (env c, P) ->
  table_ok (env c1, match r with Ok sess => sess :: P | _ => P end) /\ nextID (env c) <= nextID (env c1) /\
  forall sess, r = Ok sess -> nextID (env c) < ID sess.
Proof.
  intros (Hh & Hst & Hr)%conn_negotiate_draws Hmax Hok. pose proof Hok as ((Hs & Hn & Hids) & Hnd & HP). cbn [fst snd] in *.
  assert (nextID (env c) <= nextID (env c1) <= nextID (env c) + 1) as Hle.
  { destruct Hr as [[-> _]|[-> _]]; [lia|]. rewrite wrapU_small; lia. }
  assert (table_ok (env c1, P)) as Hok1.
  { apply (table_ok_shrink (env c)); [|done|lia|by rewrite Hst]. unfold ids_ok. rewrite Hh, Hst. split; [done|]. split; [lia|].
    intros id l H%Hids. lia. }
  destruct Hr as [[_ Hr]|[Hi Hr]]; (split; [|split; [lia|]]).
  - destruct r as [sess|x|p|]; [by destruct (Hr sess)|done..].
  - intros sess H. by destruct (Hr sess).
  - destruct r as [sess|x|p|]; [|done..]. specialize (Hr sess eq_refl). rewrite wrapU_small in Hi by lia.
    destruct Hok1 as (H1 & _ & H3). split_and!; [done| |].
    + cbn [snd fmap list_fmap]. apply list.NoDup_cons. split; [|done]. intros (sess' & He & Hin)%list_elem_of_fmap.
      apply HP in Hin. lia.
    + intros sess' [->|Hin]%elem_of_cons; [|by apply H3]. cbn [fst]. split; [lia|]. rewrite Hst.
      destruct (sessions (sstore (env c)) !! ID sess) as [l|] eqn:E; [apply Hids in E; lia|done].
  - intros sess H. rewrite (Hr _ H), Hi, wrapU_small; lia.
Qed.

Lemma set_ok sess P P' e e' l : P ≡ₚ sess :: P' -> file_session sess e = (e', Ok l) -> table_ok (e, P) ->
  table_ok (e', P') /\ sheap e !! l = None /\ sheap e' = <[l := sess]> (sheap e) /\
  sessions (sstore e') = <[ID sess := l]> (sessions (sstore e)) /\ nextID e' = nextID e /\
  config (sstore e') = config (sstore e) /\ ID sess ∉ ID <$> P' /\ 1 <= ID sess <= nextID e.
Proof.
  intros HP Hf (Hids & Hnd & Hpend). cbn [fst snd] in *. rewrite HP in Hnd. cbn [fmap list_fmap] in Hnd. apply list.NoDup_cons in Hnd as [Hnew Hnd].
  destruct (Hpend sess) as [Hle Hnone]; [rewrite HP; apply list_elem_of_here|].
  destruct (file_session_spec sess e Hids Hnone Hle) as (e1 & l1 & Hf1 & Hok & Hl & Hh & Hs).
  rewrite Hf in Hf1. injection Hf1 as <- <-.
  assert (nextID e' = nextID e /\ config (sstore e') = config (sstore e)) as [Hn Hc].
  { unfold file_session, Store_Set, load in Hf. rewrite lookup_insert_eq in Hf. by injection Hf as <- _. }
  split; [|split_and!; done || lia]. split_and!; [done..|]. intros sess' Hin. cbn [fst snd] in *. rewrite Hn.
  destruct (Hpend sess') as [Hle' Hnone']; [rewrite HP; by apply list_elem_of_further|]. split; [done|].
  rewrite Hs, lookup_insert_ne; [done|]. intros Heq. apply Hnew. rewrite Heq. by apply (list_elem_of_fmap_2 ID).
Qed.

Lemma table_step_ok ev x y : table_step ev x y -> table_ok x -> table_ok y.
Proof.
  intros Hstep Hok. destruct Hstep as [s c c1 r P Hneg Hmax|sess P P' e e' l HP Hf|id e P|e visits st P Hr Hgc|l now e P|e e' P Hh Hs Hn].
  - by eapply negotiated_ok.
  - by eapply set_ok.
  - pose proof Hok as ((Hs & Hn & Hids) & _). apply (table_ok_shrink e); [|done|done|].
    + split; [by apply Store_Delete_spec|]. split; [done|]. intros id' l H. cbn in H. apply lookup_delete_Some in H as [_ H]. by eapply Hids.
    + intros id' H. apply lookup_delete_None. by right.
  - pose proof Hok as ((Hs & Hn & Hids) & _). cbn [fst] in *. destruct (GC_spec _ _ _ Hs Hr) as (st1 & Hgc1 & Hs1 & _).
    rewrite Hgc in Hgc1. injection Hgc1 as <-. pose proof (GC_loop_subset _ _ _ _ Hgc) as Hsub.
    apply (table_ok_shrink e); [|done|done|].
    + split; [done|]. split; [done|]. intros id l H. apply (Hids id l). by eapply lookup_weaken.
    + intros id H. cbn [set_sessions sstore]. by eapply lookup_weaken_None.
  - pose proof Hok as ((Hs & Hn & Hids) & _). apply (table_ok_shrink e); [|done|done|done].
    split; [by apply Touch_store_ok|]. by split.
  - pose proof Hok as (Hids & _). apply (table_ok_shrink e); [|done|by rewrite Hn|by rewrite Hs].
    unfold ids_ok in *. cbn [fst] in *. by rewrite Hh, Hs, Hn.
Qed.

Lemma gone_step id ev x y : table_step ev x y -> table_ok x -> gone id x -> gone id y.
Proof.
  intros Hstep Hok (Hle & Hnone & Hpend).
  destruct Hstep as [s c c1 r P Hneg Hmax|sess P P' e e' l HP Hf|id' e P|e visits st P Hr Hgc|l now e P|e e' P Hh Hs Hn];
    unfold gone in *; cbn [fst snd] in *.
  - destruct (negotiated_ok _ _ _ _ _ Hneg Hmax Hok) as (_ & Hn & Hnew). destruct (conn_negotiate_draws _ _ _ _ Hneg) as (_ & -> & _).
    split; [lia|]. split; [done|]. destruct r as [sess|x|p|]; [|done..]. specialize (Hnew sess eq_refl).
    cbn [fmap list_fmap]. apply not_elem_of_cons. split; [lia|done].
  - destruct (set_ok _ _ _ _ _ _ HP Hf Hok) as (_ & _ & _ & Hs & Hn & _). rewrite HP in Hpend. cbn [fmap list_fmap] in Hpend.
    apply not_elem_of_cons in Hpend as [Hne Hpend]. rewrite Hn, Hs, lookup_insert_ne by done. done.
  - split; [done|]. split; [|done]. apply lookup_delete_None. by right.
  - split; [done|]. split; [|done]. cbn [set_sessions sstore]. eapply lookup_weaken_None; [exact Hnone|by eapply GC_loop_subset].
  - done.
  - by rewrite Hn, Hs.
Qed.

Lemma live_known sess max x : table_ok x -> live sess max x -> ID sess <= nextID x.1 /\ ID sess ∉ ID <$> x.2.
Proof.
  intros ((_ & _ & Hids) & _ & HP) (l & s0 & Hl & _). split; [apply Hids in Hl; lia|].
  intros (sess' & He & Hin)%list_elem_of_fmap. apply HP in Hin as [_ H]. congruence.
Qed.

Lemma live_step sess max ev x y : max < maxDuration -> table_step ev x y -> table_ok x -> live sess max x ->
  if ends sess max ev then gone (ID sess) y else live sess max y.
Proof.
  intros Hmax Hstep Hok Hlive. destruct (live_known sess max x Hok Hlive) as [Hle Hpend].
  destruct Hlive as (l & s0 & Hl & Hs0 & Hcr & Hm).
  destruct Hstep as [s c c1 r P Hneg Hn|sess' P P' e e' l' HP Hf|id' e P|e visits st P Hr Hgc|l' now e P|e e' P Hh Hs Hn];
    cbn [fst snd ends] in *.
  - destruct (conn_negotiate_draws _ _ _ _ Hneg) as (Hh & Hs & _). exists l, s0. cbn [fst]. by rewrite Hs, Hh.
  - destruct (set_ok _ _ _ _ _ _ HP Hf Hok) as (_ & Hl' & Hh & Hs & _ & Hc & _). exists l, s0. cbn [fst].
    rewrite Hs, Hh, Hc. rewrite HP in Hpend. cbn [fmap list_fmap] in Hpend. apply not_elem_of_cons in Hpend as [Hne _].
    by rewrite !lookup_insert_ne by congruence.
  - destruct (Z.eqb_spec id' (ID sess)) as [->|Hne].
    + split; [done|]. split; [|done]. apply lookup_delete_eq.
    + exists l, s0. cbn. by rewrite lookup_delete_ne.
  - pose proof Hok as ((Hs & _) & _). cbn [fst] in *. destruct (GC_spec _ _ _ Hs Hr) as (st1 & Hgc1 & _ & Hc & Hin).
    rewrite Hgc in Hgc1. injection Hgc1 as <-. destruct (proj2 (ranges_elem _ _ (ID sess) l Hr) Hl) as [now Hnow].
    assert (forall p t, (ID sess, p, t) ∈ visits ->
      sessions st !! ID sess = if max <? t - CreatedAt sess then None else Some l) as Hgone.
    { intros p t Hv. assert (p = l) as ->.
      { assert (sessions (sstore e) !! ID sess = Some p) by (eapply ranges_elem; [done|by exists t]). congruence. }
      by rewrite (Hin _ _ _ _ Hv Hs0), (IsExpired_spec (sheap e)), Hcr, Hm by (done || by rewrite Hm). }
    destruct (existsb _ visits) eqn:Hex.
    + apply existsb_exists in Hex as ([[id p] t] & Hv & [->%Z.eqb_eq Hold]%andb_prop). apply list_elem_of_In in Hv.
      split; [done|]. split; [|done]. cbn [fst snd set_sessions sstore]. by rewrite (Hgone p t Hv), Hold.
    + exists l, s0. cbn [fst snd set_sessions sheap sstore]. split_and!; [|done..|congruence]. rewrite (Hgone _ _ Hnow).
      destruct (max <? now - CreatedAt sess) eqn:E; [|done]. rewrite <-not_true_iff_false, existsb_exists in Hex. destruct Hex.
      exists (ID sess, l, now). split; [by apply list_elem_of_In|]. by rewrite Z.eqb_refl, E.
  - exists l, (if decide (l' = l) then Session_Touch now s0 else s0). cbn. unfold Touch. destruct (decide (l' = l)) as [->|Hne].
    + by rewrite lookup_alter_eq, Hs0.
    + by rewrite lookup_alter_ne.
  - exists l, s0. cbn [fst]. by rewrite Hs, Hh.
Qed.
Lemma table_run_ok evs x y : table_run evs x y -> table_ok x -> table_ok y.
Proof. induction 1; eauto using table_step_ok. Qed.
Lemma gone_run id evs x y : table_run evs x y -> table_ok x -> gone id x -> gone id y.
Proof. induction 1; eauto using table_step_ok, gone_step. Qed.
Lemma live_run sess max evs x y : max < maxDuration -> table_run evs x y -> table_ok x -> live sess max x ->
  if existsb (ends sess max) evs then gone (ID sess) y else live sess max y.
Proof.
  intros Hmax. induction 1 as [x|ev evs x y z Hstep Hrun IH]; intros Hok Hlive; [done|]. cbn [existsb].
  pose proof (table_step_ok _ _ _ Hstep Hok) as Hok'. pose proof (live_step sess max ev x y Hmax Hstep Hok Hlive) as H.
  destruct (ends sess max ev); [by eapply gone_run|by apply IH].
Qed.

(** ** Tokens of a session that is gone *)

Lemma dead_session_refused id sid (ts : TokenStore SessionStore) tok st now now' :
  ttl_ok ts -> ValidateSession ts = Some stored_session -> sessions st !! sid = None ->
  tokens ts !! id = Some tok -> SessionID tok = sid ->
  Validate now now' st id ts = (set_tokens ts (delete id (tokens ts)), false).
Proof.
  intros Httl Hv Hgone Htok Hsid. rewrite Validate_eq, Htok by done. unfold valid_at, session_alive. rewrite Hv, Hsid.
  unfold stored_session, Store_Get. rewrite Hgone, bool_decide_false by (by intros []). by rewrite andb_false_r.
Qed.

Lemma live_session_accepted id (ts : TokenStore SessionStore) tok st l now now' :
  ttl_ok ts -> ValidateSession ts = Some stored_session -> sessions st !! SessionID tok = Some l ->
  tokens ts !! id = Some tok -> now - IssuedAt tok <= MaxTokenTTL ts ->
  (Validate now now' st id ts).2 = true.
Proof.
  intros Httl Hv Hst Htok Hage. rewrite Validate_eq, Htok by done. unfold valid_at, session_alive. rewrite Hv.
  unfold stored_session, Store_Get. rewrite Hst, bool_decide_true by (by eexists).
  by rewrite (proj2 (Z.leb_le _ _)).
Qed.

Lemma dead_tokens_refused id sid ops (ts : TokenStore SessionStore) tok st now now' :
  ttl_ok ts -> ValidateSession ts = Some stored_session -> sessions st !! sid = None ->
  tokens ts !! id = Some tok -> SessionID tok = sid -> (forall o, o ∈ ops -> ~ issues id o) ->
  (Validate now now' st id (run_mops ops ts)).2 = false /\
  Exists id (Validate now now' st id (run_mops ops ts)).1 = false.
Proof.
  intros Httl Hv Hgone Htok Hsid Hops. destruct (run_mops_config ops ts) as [Hcv Hct].
  destruct (tokens (run_mops ops ts) !! id) as [tok'|] eqn:Htok'.
  - destruct (run_mops_token _ _ _ _ Hops Htok') as (tok0 & Htok0 & _ & Hsid').
    rewrite (dead_session_refused id sid _ tok'); [|unfold ttl_ok; by rewrite Hct|congruence|done|done|congruence].
    split; [done|]. unfold Exists. cbn [fst set_tokens tokens]. by rewrite lookup_delete_eq.
  - unfold Validate, Exists. rewrite Htok'. cbn [fst snd]. by rewrite Htok'.
Qed.

(** C17. A media token lives as long as its session is in the server's table,
    and that is from the end of the handshake to the end of the connection,
    unless a collection finds the session too old first.  Let the server do
    anything that its goroutines do to the table, in any order, handshakes that
    fail included; let a session that a handshake granted be filed; let the
    server do anything again.  A token for that session (1) is accepted until
    its time is up, as long as the session's connection has not ended and no
    collection has found the session older than [MaxLifetime]; (2) is refused
    once one of these has happened, in the second case even if the connection
    lives on, and stays refused, whatever connections come and go and whatever
    is done to the token store, short of issuing the same 16 random bytes
    again: the identifier of a session is never given out twice. *)
Theorem media_token_ends_with_connection e0 evs0 e1 P1 sess P2 e2 l evs e3 P3 (ts : TokenStore SessionStore) id tok :
  ids_ok e0 -> table_run evs0 (e0, []) (e1, P1) -> MaxLifetime (config (sstore e1)) < maxDuration ->
  P1 ≡ₚ sess :: P2 -> file_session sess e1 = (e2, Ok l) -> table_run evs (e2, P2) (e3, P3) ->
  ttl_ok ts -> ValidateSession ts = Some stored_session -> tokens ts !! id = Some tok -> SessionID tok = ID sess ->
  if existsb (ends sess (MaxLifetime (config (sstore e1)))) evs
  then forall ops now now', (forall o, o ∈ ops -> ~ issues id o) ->
         (Validate now now' (sstore e3) id (run_mops ops ts)).2 = false /\
         Exists id (Validate now now' (sstore e3) id (run_mops ops ts)).1 = false
  else forall now now', now - IssuedAt tok <= MaxTokenTTL ts -> (Validate now now' (sstore e3) id ts).2 = true.
Proof.
  intros Hids Hrun0 Hmax HP Hf Hrun Httl Hv Htok Hsid.
  assert (table_ok (e1, P1)) as Hok1 by (apply (table_run_ok _ _ _ Hrun0); split_and!; [done|constructor|by intros ? ?%elem_of_nil]).
  destruct (set_ok _ _ _ _ _ _ HP Hf Hok1) as (Hok2 & _ & Hh & Hs & _ & Hc & _).
  assert (live sess (MaxLifetime (config (sstore e1))) (e2, P2)) as Hlive.
  { exists l, sess. cbn [fst]. by rewrite Hs, Hh, Hc, !lookup_insert_eq. }
  pose proof (live_run sess _ evs _ _ Hmax Hrun Hok2 Hlive) as Hend. destruct (existsb _ evs).
  - intros ops now now' Hops. destruct Hend as (_ & Hgone & _). by apply (dead_tokens_refused id (ID sess) ops ts tok).
  - intros now now' Hage. destruct Hend as (l' & s' & Hl & _). cbn [fst] in Hl.
    by apply (live_session_accepted id ts tok (sstore e3) l'); rewrite ?Hsid.
Qed.
End media_server.

(** ** A token for the session of a connection to the demo server *)

Definition media_demo_id : TokenID := be_put 16 77.
Definition media_demo : TokenStore SessionStore :=
  run_mops [MIssue 10 11 media_demo_id 8 "track" ""] (NewTokenStore (Some stored_session)).

(** Filed, and some other connection's end: accepted.  The end of its own: refused. *)
Lemma media_token_ends_with_connection_witness :
  exists c1 sess e2 l, conn_negotiate demo_server hello_conn = (c1, Ok sess) /\ file_session sess (env c1) = (e2, Ok l) /\
    (Validate 20 21 (sstore (unfile_session 3 e2).1) media_demo_id media_demo).2 = true /\
    (Validate 20 21 (sstore (unfile_session 8 e2).1) media_demo_id (run_mops [MRevoke 5] media_demo)).2 = false.
Proof.
  destruct (conn_negotiate demo_server hello_conn) as [c1 r] eqn:E.
  assert (exists sess, r = Ok sess) as [sess ->].
  { vm_compute in E. injection E as _ <-. eexists. reflexivity. }
  destruct (file_session sess (env c1)) as [e2 r] eqn:Ef.
  assert (ID sess = 8 /\ exists l, r = Ok l) as [HID [l ->]].
  { vm_compute in E. injection E as <- <-. split; [reflexivity|]. vm_compute in Ef. injection Ef as _ <-. eexists. reflexivity. }
  assert (MaxLifetime (config (sstore (env c1))) < maxDuration) as Hmax.
  { vm_compute in E. injection E as <- _. vm_compute. reflexivity. }
  exists c1, sess, e2, l. split; [reflexivity|]. split; [exact Ef|].
  pose proof (run_cons _ _ _ _ _ (T_negotiate demo_server hello_conn c1 (Ok sess) [] E ltac:(vm_compute; reflexivity)) (run_nil _)) as Hrun0.
  assert (forall id, if existsb (ends sess (MaxLifetime (config (sstore (env c1))))) [EvDelete id]
    then (Validate 20 21 (sstore (unfile_session id e2).1) media_demo_id (run_mops [MRevoke 5] media_demo)).2 = false
    else (Validate 20 21 (sstore (unfile_session id e2).1) media_demo_id media_demo).2 = true) as H.
  { intros id. pose proof (media_token_ends_with_connection _ _ _ _ sess [] e2 l [EvDelete id] _ [] media_demo media_demo_id
      (mkToken media_demo_id "track" "" 11 10 8) hello_ids_ok Hrun0 Hmax (Permutation_refl _) Ef
      (run_cons _ _ _ _ _ (T_delete id e2 []) (run_nil _)) ltac:(split; by vm_compute) eq_refl eq_refl (eq_sym HID)) as Ht.
    destruct (existsb _ _); [|apply Ht; vm_compute; discriminate]. refine (proj1 (Ht [MRevoke 5] 20 21 _)).
    intros o ->%list_elem_of_singleton. cbn. tauto. }
  split; [|pose proof (H 8) as H8; cbn [existsb ends] in H8; by rewrite HID in H8].
  pose proof (H 3) as H3. cbn [existsb ends] in H3. by rewrite HID in H3.
Defined.
