(* ===== verification/HandlerFacts.v ===== *)
(** * Middleware: order of wrapping, and rate limiting in front of a handler *)

From S2P Require Import Prelude GoRt Varint Tlv TlvSpec Crypto Frame Session RateLimit RateLimitFacts Media Handler Server Pipeline.

Section facts.
Context {A : Type}.
Implicit Types (e : Env A) (s : Server A) (h : Handler A) (ctx : Ctx).

(** The first middleware is the outermost, and registration freezes the
    chain: [Handle] files the handler wrapped by the middleware of the calls of
    [Use] before it, the first of them on the outside, and replaces only the
    handler of that opcode; a later [Use] or [UseStream] changes no registered
    handler. *)
Theorem middleware_order s op h mws mw :
  let s' := Handle op h (fold_left (fun s m => Use m s) mws s) in
  handlers s' !! op = Some (fold_right (fun m h => m h) h (middlewares s ++ mws)) /\
  (forall op', op' <> op -> handlers s' !! op' = handlers s !! op') /\
  handlers (Use mw s') = handlers s' /\ handlers (UseStream mw s') = handlers s'.
Proof.
  assert (forall mws s, middlewares (fold_left (fun s m => Use m s) mws s) = middlewares s ++ mws /\
    handlers (fold_left (fun s m => Use m s) mws s) = handlers s) as H.
  { clear. intros mws. induction mws as [|m mws IH]; intros s; cbn [fold_left]; [by rewrite app_nil_r|].
    destruct (IH (Use m s)) as [-> ->]. cbn [Use middlewares handlers]. by rewrite <-app_assoc. }
  destruct (H mws s) as [H1 H2]. cbn zeta. unfold Handle, set_handler. cbn [handlers]. split_and!.
  - rewrite lookup_insert_eq. unfold wrap_handler. by rewrite <-fold_left_rev_right, rev_involutive, H1.
  - intros op' Hne. by rewrite lookup_insert_ne, H2.
  - done.
  - done.
Qed.

(** ** A rate limiter in front of an application handler *)

(** A sequence of calls of a handler. *)
Fixpoint calls (h : Handler A) ctx (reqs : list SrvRequest) e : Env A * list (res (option Response)) :=
  match reqs with
  | [] => (e, [])
  | req :: reqs =>
      let '(e, r) := HandleHush h ctx req e in
      let '(e, rs) := calls h ctx reqs e in (e, r :: rs)
  end.

(** What the limiter is asked, at which readings of the clock. *)
Fixpoint asked (oracle : nat -> Time) (n : nat) (keyFn : SrvRequest -> string) (reqs : list SrvRequest)
  : list (Time * op) :=
  match reqs with
  | [] => []
  | req :: reqs => (oracle n, OpAllow (keyFn req)) :: asked oracle (S n) keyFn reqs
  end.

(** The requests that are let through reach the handler, the others are
    answered "rate limited" and change nothing. *)
Fixpoint admitted (g : app_handler (A := A)) (reqs : list SrvRequest) (decisions : list (option bool)) (a : A)
  : A * list (res (option Response)) :=
  match reqs, decisions with
  | req :: reqs, Some true :: ds =>
      let '(a, r) := g req a in
      let '(a, rs) := admitted g reqs ds a in (a, Ok (Some r) :: rs)
  | _ :: reqs, _ :: ds =>
      let '(a, rs) := admitted g reqs ds a in (a, Ok (Some rate_limited) :: rs)
  | _, _ => (a, [])
  end.

Lemma Allow_limiter now key lm : limit (Allow now key lm).1 = limit lm /\ window (Allow now key lm).1 = window lm.
Proof. unfold Allow. by case_match. Qed.

Lemma RateLimit_step l keyFn g ctx req e lm :
  limiters e !! l = Some lm ->
  exists e', HandleHush (RateLimitMiddleware l keyFn (Plain (lift_app g))) ctx req e
    = (e', if (Allow (oracle e (ticks e)) (keyFn req) lm).2 then Ok (Some (g req (app e)).2)
           else Ok (Some rate_limited)) /\
    oracle e' = oracle e /\ ticks e' = S (ticks e) /\
    limiters e' !! l = Some (Allow (oracle e (ticks e)) (keyFn req) lm).1 /\
    app e' = if (Allow (oracle e (ticks e)) (keyFn req) lm).2 then (g req (app e)).1 else app e.
Proof.
  intros Hl. cbn [HandleHush RateLimitMiddleware]. unfold limiter_Allow, Now, Allow_at, mbind, M_bind.
  cbn [limiters]. rewrite Hl. destruct (Allow (oracle e (ticks e)) (keyFn req) lm) as [lm' [|]].
  - cbn [negb]. unfold lift_app, in_app. cbn [app]. destruct (g req (app e)) as [a r].
    eexists. split; [done|]. cbn [oracle ticks limiters app fst snd]. by rewrite lookup_insert_eq.
  - cbn [negb]. eexists. split; [done|]. cbn [oracle ticks limiters app fst snd]. by rewrite lookup_insert_eq.
Qed.

Lemma RateLimit_calls l keyFn g ctx reqs : forall e lm,
  limiters e !! l = Some lm ->
  let '(e', rs) := calls (RateLimitMiddleware l keyFn (Plain (lift_app g))) ctx reqs e in
  (app e', rs) = admitted g reqs (run (asked (oracle e) (ticks e) keyFn reqs) lm).2 (app e).
Proof.
  induction reqs as [|req reqs IH]; intros e lm Hl; [done|]. cbn [calls asked run run_op].
  destruct (RateLimit_step l keyFn g ctx req e lm Hl) as (e1 & -> & Ho & Ht & Hl1 & Ha).
  specialize (IH e1 _ Hl1). rewrite Ho, Ht in IH.
  destruct (calls _ ctx reqs e1) as [e' rs]. revert IH.
  destruct (Allow (oracle e (ticks e)) (keyFn req) lm) as [lm1 b]. cbn [fst snd] in *.
  destruct (run (asked _ _ _ _) lm1) as [lm2 ds]. cbn [snd admitted]. intros IH.
  destruct b.
  - destruct (g req (app e)) as [a r]. cbn [fst snd] in *. rewrite Ha in IH. by rewrite <-IH.
  - rewrite Ha in IH. by rewrite <-IH.
Qed.

Lemma asked_in_order (o : nat -> Time) keyFn reqs : forall n t,
  (forall i j, (i <= j)%nat -> o i <= o j) -> t <= o n -> in_order t (asked o n keyFn reqs).
Proof.
  induction reqs as [|req reqs IH]; intros n t Ho Ht; [done|]. cbn [asked in_order].
  split; [done|]. apply IH; [done|]. apply Ho. lia.
Qed.

(** C38. A rate-limited handler sees exactly the admitted requests: behind
    [RateLimitMiddleware] with a new limiter and a clock that does not go
    back, a sequence of requests runs the handler exactly on those that a
    sliding-window log of the key function's keys admits, in order; every
    other one is answered with status "rate limited" and leaves the
    application's state alone. *)
Theorem rate_limited_calls l keyFn g ctx reqs e lim win :
  limiters e !! l = Some (NewSlidingWindowLimiter lim win) ->
  - 2 ^ 63 < win < 2 ^ 63 -> (forall i j, (i <= j)%nat -> oracle e i <= oracle e j) ->
  let '(e', rs) := calls (RateLimitMiddleware l keyFn (Plain (lift_app g))) ctx reqs e in
  (app e', rs)
  = admitted g reqs (spec_run lim win (asked (oracle e) (ticks e) keyFn reqs) []).2 (app e).
Proof.
  intros Hl Hw Ho. pose proof (RateLimit_calls l keyFn g ctx reqs e _ Hl) as H.
  destruct (run_tracks lim win Hw (asked (oracle e) (ticks e) keyFn reqs) (oracle e (ticks e))
    (NewSlidingWindowLimiter lim win) []) as [Heq _]; [done|apply tracks_new|by apply asked_in_order|].
  by rewrite Heq in H.
Qed.
End facts.

(** ** Witness *)

Definition limited_env : Env Z :=
  mkEnv (fun n => Z.of_nat n) 0 (reader_of []) {[ 1%positive := NewSlidingWindowLimiter 2 10 ]} ∅
    (mkStore (mkSessionConfig 1 1 1) ∅) 0 [] 0.
Definition req_of (sid : Z) : SrvRequest := mkSrvRequest (mkRequest 1 None) sid "".

Lemma rate_limited_calls_witness :
  let '(e', rs) := calls (RateLimitBySession 1%positive (Plain (lift_app count_handler))) []
    [req_of 1; req_of 1; req_of 2; req_of 1] limited_env in
  app e' = 3 /\ rs !! 3%nat = Some (Ok (Some rate_limited)).
Proof.
  pose proof (rate_limited_calls 1%positive session_key count_handler []
    [req_of 1; req_of 1; req_of 2; req_of 1] limited_env 2 10 eq_refl ltac:(lia)
    ltac:(intros i j; cbn; lia)) as H.
  unfold RateLimitBySession. destruct (calls _ _ _ _) as [e' rs].
  assert (app e' = 3 /\ rs = [Ok (Some (NewResponse (Some [mkEntry "n" (tlv_Uint64 0)])));
    Ok (Some (NewResponse (Some [mkEntry "n" (tlv_Uint64 1)])));
    Ok (Some (NewResponse (Some [mkEntry "n" (tlv_Uint64 2)]))); Ok (Some rate_limited)]) as [H1 H2].
  { split; [apply (f_equal fst) in H|apply (f_equal snd) in H]; cbn [fst snd] in H; rewrite H; vm_compute; reflexivity. }
  subst rs. split; [exact H1|reflexivity].
Defined.
