(* ===== verification/Client.v ===== *)
(** * The client

    [src/client/client.go].  The network is a parameter: what dialing gives is a
    connection to talk on, or an error.  A TCP connection is one byte stream; a
    QUIC connection is the outcomes of its coming [OpenStreamSync] calls, each
    with a stream of its own.  Connections are objects behind pointers, so that
    one that is dropped without being closed stays visible. *)

From S2P Require Import Prelude GoRt Varint Tlv Crypto Frame Transport Address Session Negotiate.

(** What the client runs over: sockets, TLS and QUIC ([quic.DialAddr],
    [net.Dialer], [tls.Conn.Handshake]), the transport's default protocol, and
    the reading of IPv6 literals.  A socket is a number. *)
Record Network := mkNetwork {
  DefaultALPN : string;
  quic_DialAddr : string -> TLSConfig -> res (list (res Stream));
  net_Dial : string -> res Z;
  tls_Handshake : Z -> TLSConfig -> res Stream;
  ip_literal : list Ascii.ascii -> option (list Ascii.ascii)
}.

Inductive TransportMode := TransportQUIC | TransportTCP.

(** A connection and whether it was closed; [streams] are the streams opened so
    far on a QUIC connection, latest first, each with whether it was closed. *)
Inductive Wire :=
| TCPWire (st : Stream) (closed : bool)
| QUICWire (coming : list (res Stream)) (streams : list (Stream * bool)) (closed : bool).

(** The client's fields, with the clock, the random source and the connections
    it runs over. *)
Record Client := mkClient {
  apiKey : option APIKey;
  addr : string;
  ctls : option TLSConfig;
  mode : TransportMode;
  qconn : option positive;
  tcpConn : option positive;
  csess : option Session;
  cseq : Z;
  dialed : bool;
  clock : nat -> Time;
  cticks : nat;
  crandom : Reader;
  wires : gmap positive Wire
}.

Definition set_conns (q t : option positive) (sess : option Session) (d : bool) (c : Client) : Client :=
  mkClient (apiKey c) (addr c) (ctls c) (mode c) q t sess (cseq c) d (clock c) (cticks c) (crandom c) (wires c).
Definition set_wires (w : gmap positive Wire) (c : Client) : Client :=
  mkClient (apiKey c) (addr c) (ctls c) (mode c) (qconn c) (tcpConn c) (csess c) (cseq c) (dialed c) (clock c) (cticks c)
    (crandom c) w.
Definition set_crandom (r : Reader) (c : Client) : Client :=
  mkClient (apiKey c) (addr c) (ctls c) (mode c) (qconn c) (tcpConn c) (csess c) (cseq c) (dialed c) (clock c) (cticks c) r
    (wires c).

Definition set_ctls (cfg : option TLSConfig) (c : Client) : Client :=
  mkClient (apiKey c) (addr c) cfg (mode c) (qconn c) (tcpConn c) (csess c) (cseq c) (dialed c) (clock c)
    (cticks c) (crandom c) (wires c).

Definition CNow : M Client Time := fun c =>
  (mkClient (apiKey c) (addr c) (ctls c) (mode c) (qconn c) (tcpConn c) (csess c) (cseq c) (dialed c) (clock c) (S (cticks c))
     (crandom c) (wires c), Ok (clock c (cticks c))).

(** [c.seq.Add(1)] on a [uint32]. *)
Definition next_seq : M Client Z := fun c =>
  let n := wrapU 32 (cseq c + 1) in
  (mkClient (apiKey c) (addr c) (ctls c) (mode c) (qconn c) (tcpConn c) (csess c) n (dialed c) (clock c) (cticks c)
     (crandom c) (wires c), Ok n).

(** [sess.Touch()]; the session may be nil. *)
Definition touch_at (now : Time) : M Client unit := fun c =>
  match csess c with
  | None => (c, Panic PNilDeref)
  | Some s => (set_conns (qconn c) (tcpConn c) (Some (Session_Touch now s)) (dialed c) c, Ok tt)
  end.
Definition touch_client : M Client unit := now ← CNow; touch_at now.

Definition get {B} (f : Client -> B) : M Client B := fun c => (c, Ok (f c)).
Definition modify (f : Client -> Client) : M Client unit := fun c => (f c, Ok tt).

(** The error of a call, if it failed, as a value; a panic stays a panic. *)
Definition catch {B} (m : M Client B) : M Client (B + error) := fun c =>
  match m c with
  | (c, Ok b) => (c, Ok (inl b))
  | (c, Err x) => (c, Ok (inr x))
  | (c, Panic p) => (c, Panic p)
  | (c, OutOfFuel) => (c, OutOfFuel)
  end.

Definition err_not_dialed : error := Errorf "client: not dialed" [].
Definition err_conn_closed : error := Errorf "client: connection closed" [].
Definition err_use_closed : error := ExtErr "use of closed network connection".

(** ** Connections *)

(** A new connection object. *)
Definition new_wire (w : Wire) : M Client positive := fun c =>
  let l := fresh (dom (wires c)) in (set_wires (<[l := w]> (wires c)) c, Ok l).

Definition close_wire (w : Wire) : Wire :=
  match w with TCPWire st _ => TCPWire st true | QUICWire q s _ => QUICWire q s true end.
Definition wire_Close (l : positive) : M Client unit :=
  modify (fun c => set_wires (alter close_wire l (wires c)) c).

(** I/O on the stream of a TCP connection; it fails if the connection is closed. *)
Definition on_tcp {B} (l : positive) (m : M Stream B) : M Client B := fun c =>
  match wires c !! l with
  | Some (TCPWire st false) =>
      let '(st, r) := m st in (set_wires (<[l := TCPWire st false]> (wires c)) c, r)
  | _ => (c, Err err_use_closed)
  end.

(** [OpenStreamSync]: the stream is appended to those in use. *)
Definition OpenStreamSync (l : positive) : M Client unit := fun c =>
  match wires c !! l with
  | Some (QUICWire (Ok st :: coming) streams false) =>
      (set_wires (<[l := QUICWire coming ((st, false) :: streams) false]> (wires c)) c, Ok tt)
  | Some (QUICWire (Err x :: coming) streams false) =>
      (set_wires (<[l := QUICWire coming streams false]> (wires c)) c, Err x)
  | _ => (c, Err err_use_closed)
  end.
(** I/O on the stream opened last. *)
Definition on_quic {B} (l : positive) (m : M Stream B) : M Client B := fun c =>
  match wires c !! l with
  | Some (QUICWire coming ((st, false) :: streams) false) =>
      let '(st, r) := m st in (set_wires (<[l := QUICWire coming ((st, false) :: streams) false]> (wires c)) c, r)
  | _ => (c, Err err_use_closed)
  end.
(** [stream.Close()] on the stream opened last. *)
Definition close_stream (w : Wire) : Wire :=
  match w with
  | QUICWire coming ((st, _) :: streams) closed => QUICWire coming ((st, true) :: streams) closed
  | w => w
  end.
Definition stream_Close (l : positive) : M Client unit :=
  modify (fun c => set_wires (alter close_stream l (wires c)) c).

Section client.
Context `{C : CryptoOps}.

(** [frame.WriteRequest] and [frame.ReadResponse] over a stream; the nonce comes
    from the client's random source, whose new state is returned. *)
Definition stream_WriteRequest (key : option (list byte)) (seq : Z) (r : Request) (rnd : Reader)
  : M Stream (Reader * res unit) := fun st =>
  let '(sk, x) := WriteRequest key seq r (mkSink rnd (outgoing st)) in
  (mkStream (incoming st) (sink sk), Ok (entropy sk, x)).
Definition stream_ReadResponse (key : option (list byte)) : M Stream Response := fun st =>
  let '(rd, x) := ReadResponse key (incoming st) in (mkStream rd (outgoing st), x).

Definition client_WriteRequest (io : M Stream (Reader * res unit) -> M Client (Reader * res unit))
  (key : option (list byte)) (seq : Z) (r : Request) : M Client unit :=
  rnd ← get crandom;
  w ← io (stream_WriteRequest key seq r rnd);
  _ ← modify (set_crandom w.1);
  lift w.2.

(** ** Dialing *)

(** [session.GenerateKeyPair] on the client's random source. *)
Definition client_keypair : M Client (list byte) := fun c =>
  let '(rnd, r) := GenerateKeyPair (crandom c) in (set_crandom rnd c, r).

(** A raw connection that [DialTCP] closes again is not kept. *)
Definition dialTCP (net : Network) : M Client unit :=
  a ← get addr;
  cfg ← get ctls;
  st ← lift (wrap_err "client: dial tcp: %w" []
               (transport_DialTCP (DefaultALPN net) (net_Dial net) (tls_Handshake net) a cfg []).2);
  conn ← new_wire (TCPWire st false);
  priv ← catch client_keypair;
  match priv with
  | inr err => _ ← wire_Close conn; lift (Err (Wrapf "client: generate key: %w" [] err))
  | inl priv =>
      now ← CNow;
      key ← get apiKey;
      sess ← catch (on_tcp conn (NegotiateClient now key priv));
      match sess with
      | inr err => _ ← wire_Close conn; lift (Err (Wrapf "client: negotiate tcp: %w" [] err))
      | inl sess => modify (fun c => set_conns (qconn c) (Some conn) (Some sess) true c)
      end
  end.

Definition dialQUIC (net : Network) : M Client unit :=
  a ← get addr;
  cfg ← get ctls;
  q ← lift (wrap_err "client: dial: %w" [] (transport_Dial (DefaultALPN net) (quic_DialAddr net) a cfg));
  conn ← new_wire (QUICWire q [] false);
  o ← catch (OpenStreamSync conn);
  match o with
  | inr err => _ ← wire_Close conn; lift (Err (Wrapf "client: open stream: %w" [] err))
  | inl _ =>
      priv ← catch client_keypair;
      match priv with
      | inr err =>
          _ ← stream_Close conn; _ ← wire_Close conn;
          lift (Err (Wrapf "client: generate key: %w" [] err))
      | inl priv =>
          now ← CNow;
          key ← get apiKey;
          sess ← catch (on_quic conn (NegotiateClient now key priv));
          _ ← stream_Close conn;
          match sess with
          | inr err => _ ← wire_Close conn; lift (Err (Wrapf "client: negotiate: %w" [] err))
          | inl sess => modify (fun c => set_conns (Some conn) (tcpConn c) (Some sess) true c)
          end
      end
  end.

Definition dial (net : Network) : M Client unit :=
  _ ← modify (fun c => match ctls c with None => set_ctls (Some empty_tls) c | Some _ => c end);
  m ← get mode;
  match m with TransportTCP => dialTCP net | TransportQUIC => dialQUIC net end.

Definition Option : Type := Client -> Client.
Definition WithTLSConfig (cfg : option TLSConfig) : Option := set_ctls cfg.
Definition WithTransport (m : TransportMode) : Option := fun c =>
  mkClient (apiKey c) (addr c) (ctls c) m (qconn c) (tcpConn c) (csess c) (cseq c) (dialed c) (clock c) (cticks c)
    (crandom c) (wires c).

(** [Dial], for a given clock and random source. *)
Definition new_client (net : Network) (clk : nat -> Time) (rnd : Reader) (a : string) (key : option APIKey) : Client :=
  mkClient key (resolveHushAddr (ip_literal net) a) None TransportQUIC None None None 0 false clk 0 rnd ∅.
Definition Dial (net : Network) (clk : nat -> Time) (rnd : Reader) (a : string) (key : option APIKey)
  (opts : list Option) : Client * res unit :=
  dial net (fold_left (fun c opt => opt c) opts (new_client net clk rnd a key)).
Definition DialTCP (net : Network) (clk : nat -> Time) (rnd : Reader) (a : string) (key : option APIKey)
  (opts : list Option) : Client * res unit :=
  Dial net clk rnd a key (opts ++ [WithTransport TransportTCP]).

(** ** Requests *)

Definition doTCP (opcode : Z) (payload : option Map) : M Client Response :=
  tcp ← get tcpConn;
  d ← get dialed;
  if negb d then lift (Err err_not_dialed) else
  match tcp with
  | None => lift (Err err_conn_closed)
  | Some conn =>
      _ ← touch_client;
      seq ← next_seq;
      sess ← get csess;
      key ← lift (sess ← deref sess; Ok (SKey sess));
      w ← catch (client_WriteRequest (on_tcp conn) key seq (mkRequest opcode payload));
      match w with
      | inr err =>
          _ ← modify (fun c => set_conns (qconn c) None (csess c) (dialed c) c);
          lift (Err (Wrapf "client: write request: %w" [] err))
      | inl _ =>
          resp ← catch (on_tcp conn (stream_ReadResponse key));
          match resp with
          | inr err =>
              _ ← modify (fun c => set_conns (qconn c) None (csess c) (dialed c) c);
              lift (Err (Wrapf "client: read response: %w" [] err))
          | inl resp => mret resp
          end
      end
  end.

Definition doQUIC (opcode : Z) (payload : option Map) : M Client Response :=
  q ← get qconn;
  d ← get dialed;
  if negb d then lift (Err err_not_dialed) else
  match q with
  | None => lift (Err err_conn_closed)
  | Some conn =>
      _ ← touch_client;
      _ ← wrap_errM "client: open stream: %w" [] (OpenStreamSync conn);
      deferring
        (seq ← next_seq;
         sess ← get csess;
         key ← lift (sess ← deref sess; Ok (SKey sess));
         _ ← wrap_errM "client: write request: %w" []
               (client_WriteRequest (on_quic conn) key seq (mkRequest opcode payload));
         wrap_errM "client: read response: %w" [] (on_quic conn (stream_ReadResponse key)))
        (stream_Close conn)
  end.

Definition Do (opcode : Z) (payload : option Map) : M Client Response :=
  m ← get mode;
  match m with TransportTCP => doTCP opcode payload | TransportQUIC => doQUIC opcode payload end.

Definition Close : M Client unit :=
  q ← get qconn;
  t ← get tcpConn;
  _ ← modify (fun c => set_conns None None (csess c) false c);
  _ ← match q with Some l => wire_Close l | None => mret tt end;
  match t with Some l => wire_Close l | None => mret tt end.

Definition SessionID (c : Client) : Z := match csess c with None => 0 | Some s => ID s end.
End client.
