(* ===== verification/EndToEnd.v ===== *)
(** * Client and server together

    What [Client.Do] returns over TCP is the server's answer to the request as
    the server sees it; and the sequence numbers of a client's requests. *)

From S2P Require Import Prelude GoRt Varint Tlv TlvSpec TlvDecode TlvSafe Crypto Frame FrameFacts FrameClaims Session SessionFacts Negotiate NegotiateFacts RateLimit Media Handler Server ServerFacts Pipeline Client.

Section client_facts.
Context `{L : CryptoLaws}.

(** A client with an open TCP connection [l] on [st] and session [sess]. *)
Definition ready (c : Client) (l : positive) (st : Stream) (sess : Session) : Prop :=
  mode c = TransportTCP /\ dialed c = true /\ tcpConn c = Some l /\ csess c = Some sess /\
  wires c !! l = Some (TCPWire st false).

(** The same, whatever is on the connection; [on_wire] says what. *)
Definition connected (c : Client) (l : positive) (sess : Session) : Prop :=
  mode c = TransportTCP /\ dialed c = true /\ tcpConn c = Some l /\ csess c = Some sess.
Definition on_wire (l : positive) (st : Stream) (c : Client) : Client :=
  set_wires (<[l := TCPWire st false]> (wires c)) c.

Lemma connected_ready c l sess st : connected c l sess -> ready (on_wire l st c) l st sess.
Proof.
  intros (H1 & H2 & H3 & H4). unfold ready, on_wire. cbn [mode dialed tcpConn csess wires set_wires].
  by rewrite lookup_insert_eq.
Qed.

Definition request_fits (key : option (list byte)) (r : Request) : Prop :=
  request_wf r /\ 4 + (2 + payload_size (Payload r)) + envelope_size key <= MaxFrameSize.

Lemma frame_requests key seq r nonce :
  request_fits key r -> key_ok key -> len nonce = NonceSize -> in_uint 32 seq = true ->
  requests key (norm_request r, seq) (frame_bytes seq (envelope key nonce (request_bytes r))).
Proof.
  intros [Hr Hfit] Hk Hn Hs. split; [done|]. split; [apply Hr|]. intros rest er.
  rewrite ReadRequest_frame; [|rewrite len_envelope, len_request_bytes by done; lia|done].
  erewrite DecryptRequest_opens by (by apply opens_envelope).
  rewrite parse_request_bytes; [done|done|].
  unfold MaxFrameSize in Hfit. assert (0 <= envelope_size key) by (by destruct key). lia.
Qed.

(** One call of [Do] on a ready client whose peer's answer is [respbuf]. *)
Lemma doTCP_ready c l w rest er sess opcode payload nonce rnd re resp respbuf :
  let key := SKey sess in
  let r := mkRequest opcode payload in
  let seq := wrapU 32 (cseq c + 1) in
  let reqbuf := frame_bytes seq (envelope key nonce (request_bytes r)) in
  ready c l (mkStream (mkReader (respbuf ++ rest) er) w) sess ->
  request_fits key r -> key_ok key -> len nonce = NonceSize ->
  failing w = None -> crandom c = mkReader (nonce_used key nonce ++ rnd) re ->
  carries key seq resp respbuf ->
  exists c', Do opcode payload c = (c', Ok (norm_response seq resp)) /\
    cseq c' = seq /\ crandom c' = mkReader rnd re /\
    ready c' l (mkStream (mkReader rest er) (mkWriter (written w ++ reqbuf) None))
      (Session_Touch (clock c (cticks c)) sess).
Proof.
  intros key r seq reqbuf (Hm & Hd & Ht & Hs & Hwire) [Hr Hfit] Hk Hn Hw Hrnd Hresp.
  unfold Do, doTCP, touch_client, CNow, touch_at, next_seq, catch, client_WriteRequest, on_tcp,
    stream_WriteRequest, stream_ReadResponse, get, modify, lift, mbind, M_bind.
  rewrite Hm, Hd, Ht. cbn [negb csess]. rewrite Hs.
  cbn [cseq csess set_conns deref res_bind crandom wires Session_Touch SKey].
  rewrite Hwire, Hrnd. cbn [outgoing incoming].
  fold key r seq. rewrite WriteRequest_eq by done. unfold frame_outcome.
  rewrite len_envelope, len_request_bytes by done. rewrite (proj2 (Z.leb_le _ _)) by lia.
  cbn [sink entropy fst snd]. unfold catch. cbn [set_wires set_crandom wires]. rewrite lookup_insert_eq.
  cbn [incoming outgoing]. rewrite (Hresp rest er). eexists. split; [reflexivity|].
  cbn [cseq crandom set_wires set_crandom set_conns]. split; [done|]. split; [done|].
  unfold ready. cbn [mode dialed tcpConn csess wires set_wires set_crandom set_conns].
  split_and!; try done. by rewrite lookup_insert_eq.
Qed.
End client_facts.

Section end_to_end.
Context {A : Type} `{L : CryptoLaws}.

(** End to end over TCP: if client and server hold sessions with the same
    key (as the handshake gives them), a call of [Do] and one round of the
    server's loop fit together: [Do] sends one frame; fed to the server, that
    frame runs the handler of its opcode once, on the payload that was passed
    to [Do], and makes the server send one frame; and [Do], reading that frame,
    returns exactly the handler's response under the number of this request,
    which is one more than the last; both sides are then ready for the next
    call. *)
Theorem Do_served (s : Server A) table sctx ctx l addr sess (e : Env A) sin er0 out closed nonce_s rnd_s re_s
  (cl : Client) lc w rest er csess opcode payload nonce rnd re :
  let key := SKey sess in
  let r := mkRequest opcode payload in
  let seq := wrapU 32 (cseq cl + 1) in
  let '(a, resp) := answer table (mkSrvRequest (norm_request r) (ID sess) (APIKeyID sess)) (app e) in
  SKey csess = key -> key_ok key -> request_fits key r -> response_fits key resp ->
  len nonce = NonceSize -> len nonce_s = NonceSize ->
  serves s table -> sheap e !! l = Some sess -> live e sess ->
  random e = mkReader (nonce_used key nonce_s ++ rnd_s) re_s -> failing out = None ->
  connected cl lc csess -> crandom cl = mkReader (nonce_used key nonce ++ rnd) re -> failing w = None ->
  exists reqbuf respbuf e' cl',
    tcp_round s sctx ctx l addr (mkConn e (mkReader (reqbuf ++ sin) er0) out closed)
      = (mkConn e' (mkReader sin er0) (mkWriter (written out ++ respbuf) None) closed,
         Ok (Some (request_ctx ctx sess addr))) /\ app e' = a /\
    Do opcode payload (on_wire lc (mkStream (mkReader (respbuf ++ rest) er) w) cl)
      = (cl', Ok (norm_response seq resp)) /\
    cseq cl' = seq /\ connected cl' lc (Session_Touch (clock cl (cticks cl)) csess) /\
    wires cl' !! lc = Some (TCPWire (mkStream (mkReader rest er) (mkWriter (written w ++ reqbuf) None)) false).
Proof.
  intros key r seq. destruct (answer table _ (app e)) as [a resp] eqn:Ha.
  intros Hkey Hk Hreq Hresp Hn Hns Hs Hl Hlive Hrnds Hws Hcl Hrnd Hw.
  assert (in_uint 32 seq = true) as Hseq by (apply wrapU_range; lia).
  pose proof (frame_carries key seq resp nonce_s Hresp Hk Hns Hseq) as Hcar.
  destruct (frame_requests key seq r nonce Hreq Hk Hn Hseq) as (_ & _ & Hread).
  exists (frame_bytes seq (envelope key nonce (request_bytes r))),
         (frame_bytes seq (envelope key nonce_s (response_bytes resp))).
  set (buf := frame_bytes seq (envelope key nonce (request_bytes r))) in *.
  destruct (tcp_serve_exact s table sctx ctx sess addr (norm_request r) seq nonce_s rnd_s re_s
    (mkConn (checked e l) (mkReader sin er0) out closed) a resp)
    as (e' & Hserve & _ & Happ & _); try done.
  destruct (doTCP_ready (on_wire lc (mkStream (mkReader
    (frame_bytes seq (envelope key nonce_s (response_bytes resp)) ++ rest) er) w) cl)
    lc w rest er csess opcode payload nonce rnd re resp
    (frame_bytes seq (envelope key nonce_s (response_bytes resp)))) as (cl' & H1 & H2 & _ & H4);
    rewrite ?Hkey; try done; [by apply connected_ready|].
  rewrite Hkey in H4. destruct H4 as (Hm & Hd & Ht & Hss & Hwire).
  exists e', cl'. unfold connected. split_and!; try done.
  rewrite (tcp_round_live _ _ _ _ _ _ sess) by done. cbv zeta.
  rewrite (conn_ReadRequest_eq (SKey sess) _ sin er0 buf (Ok (norm_request r, seq)))
    by first [reflexivity | apply Hread].
  exact Hserve.
Qed.
End end_to_end.

(** A client of the demo server. *)
Definition demo_client : Client :=
  mkClient None "" None TransportTCP None (Some 1%positive) (Some demo_sess) 41 true (fun _ => 5) 0
    (reader_of []) ∅.

Lemma Do_served_witness :
  exists reqbuf respbuf e' cl',
    tcp_round demo_server [] [] 1%positive "" (demo_conn [] reqbuf)
      = (mkConn e' (reader_of []) (mkWriter respbuf None) false, Ok (Some (request_ctx [] demo_sess ""))) /\
    app e' = 1 /\
    Do 1 None (on_wire 1%positive (mkStream (reader_of respbuf) empty_writer) demo_client)
      = (cl', Ok (norm_response 42 (NewResponse (Some [mkEntry "n" (tlv_Uint64 0)])))) /\
    cseq cl' = 42.
Proof.
  destruct (Do_served demo_server demo_table [] [] 1%positive "" demo_sess (demo_env []) [] io_EOF
    empty_writer false sample_nonce [] io_EOF demo_client 1%positive empty_writer [] io_EOF demo_sess
    1 None sample_nonce [] io_EOF eq_refl I
    ltac:(split; [done|vm_compute; discriminate])
    (demo_fits (mkSrvRequest (mkRequest 1 None) 7 "") 0 eq_refl) eq_refl eq_refl
    demo_serves eq_refl (demo_live []) eq_refl eq_refl ltac:(by split_and!) eq_refl eq_refl)
    as (reqbuf & respbuf & e' & cl' & H1 & H2 & H3 & H4 & _).
  exists reqbuf, respbuf, e', cl'. rewrite !app_nil_r in H1, H3. done.
Defined.

(** ** A failed call *)

Section failed_call.
Context `{C : CryptoOps}.

Lemma on_tcp_open {B} l (m : M Stream B) c st :
  wires c !! l = Some (TCPWire st false) ->
  exists st', on_tcp l m c = (set_wires (<[l := TCPWire st' false]> (wires c)) c, (m st).2).
Proof. intros H. unfold on_tcp. rewrite H. destruct (m st) as [st' r]. by exists st'. Qed.

(** [c'] is [c] but for what went over the open connection [l], and for the
    random source. *)
Definition same_client (l : positive) (c c' : Client) : Prop :=
  mode c' = mode c /\ qconn c' = qconn c /\ tcpConn c' = tcpConn c /\ dialed c' = dialed c /\
  exists st, wires c' !! l = Some (TCPWire st false).

Lemma client_WriteRequest_same l key seq r c st :
  wires c !! l = Some (TCPWire st false) ->
  same_client l c (client_WriteRequest (on_tcp l) key seq r c).1.
Proof.
  intros H. unfold client_WriteRequest, get, modify, lift, mbind, M_bind.
  destruct (on_tcp_open l (stream_WriteRequest key seq r (crandom c)) c st H) as [st' ->].
  unfold stream_WriteRequest. destruct (WriteRequest _ _ _ _) as [sk x]. cbn [snd].
  destruct x; (split_and!; try done; exists st'; apply lookup_insert_eq).
Qed.

Lemma stream_ReadResponse_same l key c st :
  wires c !! l = Some (TCPWire st false) -> same_client l c (on_tcp l (stream_ReadResponse key) c).1.
Proof.
  intros H. destruct (on_tcp_open l (stream_ReadResponse key) c st H) as [st' ->].
  split_and!; try done. exists st'. apply lookup_insert_eq.
Qed.

Lemma catch_spec {B} (m : M Client B) c : exists r,
  catch m c = ((m c).1, r) /\ forall x, r <> Err x.
Proof. unfold catch. destruct (m c) as [? []]; eexists; (split; [done|congruence]). Qed.

(** The part of [doTCP] after the number of the request is drawn. *)
Lemma doTCP_fails c c' l st sess opcode payload x :
  ready c l st sess -> doTCP opcode payload c = (c', Err x) ->
  mode c' = TransportTCP /\ dialed c' = true /\ tcpConn c' = None /\ qconn c' = qconn c /\
  exists st', wires c' !! l = Some (TCPWire st' false).
Proof.
  intros (Hm & Hd & Ht & Hs & Hw). unfold doTCP, touch_client, CNow, touch_at, next_seq, get, lift, modify.
  unfold mbind, M_bind. rewrite Hd, Ht. cbn [negb csess]. rewrite Hs.
  cbn [set_conns csess deref res_bind wires Session_Touch SKey cseq mode qconn tcpConn dialed].
  set (c1 := mkClient _ _ _ _ _ _ _ _ _ _ _ _ _). set (req := mkRequest _ _).
  pose proof (client_WriteRequest_same l (SKey sess) (cseq c1) req c1 st Hw) as Hsame.
  destruct (catch_spec (client_WriteRequest (on_tcp l) (SKey sess) (cseq c1) req) c1) as (r & Hr & Hne).
  change (wrapU 32 (cseq c + 1)) with (cseq c1). rewrite Hr. clear Hr.
  destruct (client_WriteRequest _ _ _ _ _) as [c2 w]. cbn [fst] in *.
  destruct Hsame as (Hm2 & Hq2 & Ht2 & Hd2 & st2 & Hw2).
  change (mode c1) with (mode c) in Hm2. change (dialed c1) with (dialed c) in Hd2.
  change (qconn c1) with (qconn c) in Hq2.
  destruct r as [[[]|err]|e|p|]; try discriminate; [| |by destruct (Hne e)].
  - pose proof (stream_ReadResponse_same l (SKey sess) c2 st2 Hw2) as Hsame.
    destruct (catch_spec (on_tcp l (stream_ReadResponse (SKey sess))) c2) as (r & Hr & Hne2).
    rewrite Hr. clear Hr. destruct (on_tcp l _ c2) as [c3 w3]. cbn [fst] in *.
    destruct Hsame as (Hm3 & Hq3 & Ht3 & Hd3 & st3 & Hw3).
    destruct r as [[rsp|err]|e|p|]; try discriminate; [|by destruct (Hne2 e)].
    intros [= <- _]. cbn [set_conns mode dialed tcpConn qconn wires].
    split_and!; [congruence|congruence|done|congruence|by exists st3].
  - intros [= <- _]. cbn [set_conns mode dialed tcpConn qconn wires].
    split_and!; [congruence|congruence|done|congruence|by exists st2].
Qed.

(** C39. A call that fails on an open TCP connection, for whatever reason, a
    request too large to send included, disables the client for good and leaks
    the connection: every later call fails with "connection closed" without
    touching anything, and [Close] leaves the connection open. *)
Theorem failed_call_abandons (c c' : Client) l st sess opcode payload x :
  ready c l st sess -> qconn c = None -> Do opcode payload c = (c', Err x) ->
  (forall opcode payload, Do opcode payload c' = (c', Err err_conn_closed)) /\
  exists st', wires (Close c').1 !! l = Some (TCPWire st' false).
Proof.
  intros Hready Hq. pose proof (proj1 Hready) as Hm.
  unfold Do at 1, get, mbind at 1, M_bind at 1. rewrite Hm. cbn match.
  intros HDo. destruct (doTCP_fails _ _ _ _ _ _ _ _ Hready HDo) as (Hm' & Hd' & Ht' & Hq' & st' & Hw').
  split.
  - intros op pl. unfold Do, doTCP, get, mbind, M_bind. by rewrite Hm', Hd', Ht'.
  - exists st'. unfold Close, get, modify, mbind, M_bind. by rewrite Hq', Hq, Ht'.
Qed.
End failed_call.

(** The peer has gone: the answer does not come. *)
Definition eof_client : Client := on_wire 1%positive (mkStream (reader_of []) empty_writer) demo_client.

Lemma failed_call_abandons_witness :
  exists c' x, Do 1 None eof_client = (c', Err x) /\
    forall opcode payload, Do opcode payload c' = (c', Err err_conn_closed).
Proof.
  destruct (Do 1 None eof_client) as [c' r] eqn:E.
  assert (exists x, r = Err x) as [x ->].
  { vm_compute in E. injection E as _ <-. eexists. reflexivity. }
  exists c', x. split; [reflexivity|].
  apply (failed_call_abandons eof_client c' 1%positive (mkStream (reader_of []) empty_writer) demo_sess 1 None x
    ltac:(by split_and!) eq_refl E).
Defined.
