(* ===== verification/Hub.v ===== *)
(** * The event hub

    [src/server/stream.go]: topics, subscribers with buffered channels, and the
    handlers built on them.  Subscribers are objects behind pointers: the hub's
    tables hold locations of the heap [objects].  Each method that holds the
    hub's mutex is one step; [Publish] holds it only while it copies the table,
    so the sends of a [Publish] are steps of their own ([Flight]). *)

From stdpp Require Import pretty.
From S2P Require Import Prelude GoRt Varint Tlv Crypto Frame Session RateLimit Media Handler Server.

Record Event := mkEvent {
  EvTopic : string;
  EvPayload : option Map;
  EvTime : Time
}.

(** A channel of capacity [event_buffer] is the list of what it holds; [done]
    says whether the [done] channel is closed. *)
Record Subscriber := mkSubscriber {
  SubID : string;
  SubTopic : string;
  Events : list Event;
  Created : Time;
  done : bool
}.

Definition event_buffer : nat := 64.

Definition NewSubscriber (now : Time) (id topic : string) : Subscriber := mkSubscriber id topic [] now false.

(** [close(s.done)] panics on a closed channel. *)
Definition Subscriber_Close (s : Subscriber) : res Subscriber :=
  if done s then Panic PCloseClosed
  else Ok (mkSubscriber (SubID s) (SubTopic s) (Events s) (Created s) true).

Definition set_Events (evs : list Event) (s : Subscriber) : Subscriber :=
  mkSubscriber (SubID s) (SubTopic s) evs (Created s) (done s).

(** [select { case sub.Events <- evt: default: }] *)
Definition send_event (evt : Event) (s : Subscriber) : Subscriber :=
  if (length (Events s) <? event_buffer)%nat then set_Events (Events s ++ [evt]) s else s.

(** What a [Publish] still has to send, and to whom: the order is that of a
    range over the copied map, so any. *)
Record Flight := mkFlight { flying : Event; targets : list positive }.

(** The hub, the subscribers it and its users point to, and the calls of
    [Publish] that are sending. *)
Record Hub := mkHub {
  subscribers : gmap string (gmap string positive);
  objects : gmap positive Subscriber;
  flights : list Flight
}.

Definition NewHub : Hub := mkHub ∅ ∅ [].

Definition set_subscribers (t : gmap string (gmap string positive)) (h : Hub) : Hub :=
  mkHub t (objects h) (flights h).
Definition set_objects (o : gmap positive Subscriber) (h : Hub) : Hub :=
  mkHub (subscribers h) o (flights h).
Definition set_flights (f : list Flight) (h : Hub) : Hub :=
  mkHub (subscribers h) (objects h) f.

(** [h.subscribers[topic]]; a missing entry reads as an empty map. *)
Definition topic_subs (h : Hub) (topic : string) : gmap string positive :=
  default ∅ (subscribers h !! topic).

Definition Subscribe (now : Time) (topic subID : string) : M Hub positive := fun h =>
  let l := fresh (dom (objects h)) in
  (mkHub (<[topic := <[subID := l]> (topic_subs h topic)]> (subscribers h))
     (<[l := NewSubscriber now subID topic]> (objects h)) (flights h), Ok l).

(** [if len(subs) == 0 { delete(h.subscribers, topic) }] *)
Definition drop_empty (topic : string) (h : Hub) : Hub :=
  match subscribers h !! topic with
  | Some subs => if decide (subs = ∅) then set_subscribers (delete topic (subscribers h)) h else h
  | None => h
  end.

Definition Unsubscribe (topic subID : string) : M Hub unit := fun h =>
  match subscribers h !! topic with
  | None => (h, Ok tt)
  | Some subs =>
      match subs !! subID with
      | None => (drop_empty topic h, Ok tt)
      | Some l =>
          match (sub ← deref (objects h !! l); Subscriber_Close sub) with
          | Ok sub =>
              (drop_empty topic (mkHub (<[topic := delete subID subs]> (subscribers h))
                 (<[l := sub]> (objects h)) (flights h)), Ok tt)
          | Err x => (h, Err x) | Panic p => (h, Panic p) | OutOfFuel => (h, OutOfFuel)
          end
      end
  end.

(** [Publish] up to the unlocking: the event and the copied table.  [order] is
    the order in which its later range visits the copy. *)
Definition publish_begin (now : Time) (topic : string) (payload : option Map) (order : list positive)
  : Hub -> Hub := fun h =>
  set_flights (flights h ++ [mkFlight (mkEvent topic payload now) order]) h.

(** One round of the loop of the [k]-th [Publish] under way. *)
Definition publish_send (k : nat) (h : Hub) : Hub :=
  match flights h !! k with
  | Some (mkFlight evt (l :: ls)) =>
      set_objects (alter (send_event evt) l (objects h)) (set_flights (<[k := mkFlight evt ls]> (flights h)) h)
  | _ => h
  end.

(** The possible orders of a range over the subscribers of a topic. *)
Definition publish_order (h : Hub) (topic : string) (order : list positive) : Prop :=
  order ≡ₚ (map_to_list (topic_subs h topic)).*2.
#[export] Instance publish_order_dec h topic order : Decision (publish_order h topic order).
Proof. unfold publish_order. apply _. Defined.

(** A whole call of [Publish], with nothing in between. *)
Definition Publish (now : Time) (topic : string) (payload : option Map) (order : list positive) (h : Hub) : Hub :=
  set_objects (fold_left (fun o l => alter (send_event (mkEvent topic payload now)) l o) order (objects h)) h.

(** [evt := <-sub.Events], when there is one. *)
Definition receive_event (l : positive) (h : Hub) : option (Event * Hub) :=
  sub ← objects h !! l;
  match Events sub with
  | [] => None
  | evt :: evs => Some (evt, set_objects (<[l := set_Events evs sub]> (objects h)) h)
  end.

(** [Topics], in the order [order] of its range. *)
Definition topics_order (h : Hub) (order : list string) : Prop := order ≡ₚ (map_to_list (subscribers h)).*1.
Definition SubscriberCount (h : Hub) (topic : string) : Z := Z.of_nat (size (topic_subs h topic)).

(** ** Interleavings

    What the goroutines of a program do with the hub.  A receive is done by the
    goroutine that holds the subscriber. *)
Inductive HubOp :=
| OpSubscribe (now : Time) (topic subID : string)
| OpUnsubscribe (topic subID : string)
| OpPublish (now : Time) (topic : string) (payload : option Map) (order : list positive)
| OpSend (k : nat)
| OpReceive (l : positive).

Definition hub_op (o : HubOp) (h : Hub) : Hub * res unit :=
  match o with
  | OpSubscribe now topic subID => let '(h, _) := Subscribe now topic subID h in (h, Ok tt)
  | OpUnsubscribe topic subID => Unsubscribe topic subID h
  | OpPublish now topic payload order => (publish_begin now topic payload order h, Ok tt)
  | OpSend k => (publish_send k h, Ok tt)
  | OpReceive l => (match receive_event l h with Some (_, h) => h | None => h end, Ok tt)
  end.

(** The operation is one the program can do in [h]: a publication visits the
    subscribers of its topic. *)
Definition op_possible (o : HubOp) (h : Hub) : Prop :=
  match o with OpPublish _ topic _ order => publish_order h topic order | _ => True end.
#[export] Instance op_possible_dec o h : Decision (op_possible o h).
Proof. destruct o; cbn; apply _. Defined.

Fixpoint hub_run (os : list HubOp) (h : Hub) : Hub * res unit :=
  match os with
  | [] => (h, Ok tt)
  | o :: os => match hub_op o h with (h, Ok _) => hub_run os h | r => r end
  end.

Fixpoint run_possible (os : list HubOp) (h : Hub) : Prop :=
  match os with
  | [] => True
  | o :: os => op_possible o h /\ run_possible os (hub_op o h).1
  end.

(** ** Handlers

    The application's state is the hub.  A handler that waits is run on what
    the rest of the program does meanwhile. *)
Section handlers.
Context `{C : CryptoOps}.

(** [req.Payload.GetString("topic")]; a request may have no payload. *)
Definition request_topic (req : SrvRequest) : res string :=
  p ← deref (Payload (FrameRequest req));
  '(topic, _) ← Map_GetString p "topic";
  mret topic.

Definition subscription_id (topic : string) (session : Z) : string := topic +:+ ":" +:+ pretty session.

Definition subscribed_resp (topic : string) : Response :=
  mkResponse StatusSuccess
    (Some (Map_Set (Map_Set NewMap "event" (tlv_String "subscribed")) "topic" (tlv_String topic))) 0.

(** The frame of an event; encoding a nil payload dereferences it. *)
Definition event_resp (evt : Event) : res Response :=
  p ← deref (EvPayload evt);
  mret (mkResponse StatusSuccess
    (Some (Map_Set (Map_Set (Map_Set (Map_Set NewMap "event" (tlv_String "message"))
      "topic" (tlv_String (EvTopic evt))) "payload" (MapValue p)) "time" (tlv_Timestamp (EvTime evt)))) 0).

(** What happens until a [select] is looked at (again): operations of other
    goroutines, perhaps the end of the context; [pick] is the choice among the
    cases that are ready. *)
Record Turn := mkTurn { others : list HubOp; ctx_done : bool; pick : nat }.

Inductive Wake := WokenByCtx | WokenByDone | WokenByEvent (evt : Event) | StillBlocked.

(** The ready cases of the [select], in the order of the source. *)
Definition ready_cases (t : Turn) (sub : Subscriber) : list Wake :=
  (if ctx_done t then [WokenByCtx] else []) ++
  (if done sub then [WokenByDone] else []) ++
  (match Events sub with [] => [] | evt :: _ => [WokenByEvent evt] end).

Definition select_wake (l : positive) (t : Turn) : M Hub Wake := fun h =>
  match objects h !! l with
  | None => (h, Panic PNilDeref)
  | Some sub =>
      match ready_cases t sub with
      | [] => (h, Ok StillBlocked)
      | c :: cs =>
          let w := nth (pick t `mod` S (length cs))%nat (c :: cs) c in
          match w with
          | WokenByEvent _ => (match receive_event l h with Some (_, h) => h | None => h end, Ok w)
          | _ => (h, Ok w)
          end
      end
  end.

(** The loop; the context ends after the last turn. *)
Fixpoint subscribe_loop (turns : list Turn) (key : option (list byte)) (l : positive) (seq : Z)
  : M (Conn Hub) unit :=
  match turns with
  | [] => mret tt
  | t :: turns =>
      _ ← on_env (in_app (hub_run (others t)));
      w ← on_env (in_app (select_wake l t));
      match w with
      | WokenByCtx | WokenByDone => mret tt
      | WokenByEvent evt =>
          let seq := wrapU 32 (seq + 1) in
          resp ← lift (event_resp evt);
          _ ← best_effort (conn_WriteResponse key seq resp);
          subscribe_loop turns key l seq
      | StillBlocked => subscribe_loop turns key l seq
      end
  end.

Definition SubscribeHandler (turns : list Turn) : StreamHandlerFunc Hub := fun ctx req key =>
  topic ← lift (request_topic req);
  if bool_decide (topic = "") then lift (Err (Errorf "subscribe: topic required" [])) else
  let subID := subscription_id topic (ReqSessionID req) in
  now ← on_env Now;
  l ← on_env (in_app (Subscribe now topic subID));
  deferring
    (_ ← best_effort (conn_WriteResponse key 0 (subscribed_resp topic));
     subscribe_loop turns key l 0)
    (on_env (in_app (Unsubscribe topic subID))).

(** [Publish] and the count after it, with nothing in between; [order] is the
    order of [Publish]'s range. *)
Definition PublishHandler (order : Hub -> string -> list positive) : HandlerFunc Hub := fun ctx req =>
  topic ← lift (request_topic req);
  if bool_decide (topic = "") then mret (Some (ErrorResponse StatusBadRequest "topic required")) else
  '(payloadRaw, ok) ← lift (p ← deref (Payload (FrameRequest req)); Map_GetMap p "payload");
  if negb ok then mret (Some (ErrorResponse StatusBadRequest "payload required")) else
  now ← Now;
  _ ← in_app (fun h => (Publish now topic payloadRaw (order h topic) h, Ok tt));
  n ← in_app (fun h => (h, Ok (SubscriberCount h topic)));
  mret (Some (NewResponse (Some (Map_Set (Map_Set NewMap
    "subscriber_count" (tlv_Uint64 (wrapU 64 n))) "topic" (tlv_String topic))))).

Definition ListTopicsHandler (order : Hub -> list string) : HandlerFunc Hub := fun ctx req =>
  topics ← in_app (fun h => (h, Ok (order h)));
  mret (Some (NewResponse (Some (Map_Set (Map_Set NewMap
    "topics" (tlv_Array (tlv_String <$> topics))) "count" (tlv_Uint64 (wrapU 64 (Z.of_nat (length topics)))))))).
End handlers.
