(* ===== verification/HubFacts.v ===== *)
(** * The event hub: theorems

    Over all interleavings of the hub's operations: no channel is closed twice,
    what a subscriber receives and what it may lose, and what happens when two
    subscriptions share an identifier. *)

From S2P Require Import Prelude GoRt Varint Tlv Crypto Frame Session SessionFacts RateLimit Media Handler Server Pipeline Hub.

(** ** The invariant *)

(** [l] is the subscriber of [topic] under [id]. *)
Definition registered (h : Hub) (topic id : string) (l : positive) : Prop := topic_subs h topic !! id = Some l.

Record hub_ok (h : Hub) : Prop := {
  ok_registered : forall topic id l, registered h topic id l ->
    exists sub, objects h !! l = Some sub /\ SubTopic sub = topic /\ SubID sub = id /\ done sub = false;
  ok_nonempty : forall topic subs, subscribers h !! topic = Some subs -> subs <> ∅;
  ok_flights : forall f l, f ∈ flights h -> l ∈ targets f ->
    exists sub, objects h !! l = Some sub /\ SubTopic sub = EvTopic (flying f);
  ok_buffers : forall l sub, objects h !! l = Some sub ->
    (length (Events sub) <= event_buffer)%nat /\ Forall (fun evt => EvTopic evt = SubTopic sub) (Events sub)
}.

Lemma hub_ok_new : hub_ok NewHub.
Proof.
  split.
  - intros topic id l. unfold registered, topic_subs. cbn. rewrite lookup_empty. cbn. by rewrite lookup_empty.
  - intros topic subs. cbn. by rewrite lookup_empty.
  - intros f l Hf. by apply not_elem_of_nil in Hf.
  - intros l sub. cbn. by rewrite lookup_empty.
Qed.

(** [h'] has the objects of [h], changed in their channels only, and maybe more. *)
Definition objects_grow (h h' : Hub) : Prop := forall l sub, objects h !! l = Some sub ->
  exists sub', objects h' !! l = Some sub' /\ SubTopic sub' = SubTopic sub /\ SubID sub' = SubID sub.

Lemma objects_grow_refl h : objects_grow h h.
Proof. intros l sub H. by exists sub. Qed.

Lemma registered_order h topic order l :
  publish_order h topic order -> l ∈ order <-> exists id, registered h topic id l.
Proof.
  intros Ho. unfold publish_order in Ho. rewrite Ho, list_elem_of_fmap. split.
  - intros ([id l'] & -> & Hin%elem_of_map_to_list). by exists id.
  - intros [id Hid]. exists (id, l). by rewrite elem_of_map_to_list.
Qed.

Lemma registered_insert h topic subs topic' id l o f :
  registered (mkHub (<[topic := subs]> (subscribers h)) o f) topic' id l <->
  (topic' = topic /\ subs !! id = Some l) \/ (topic' <> topic /\ registered h topic' id l).
Proof.
  unfold registered, topic_subs. cbn [subscribers]. destruct (decide (topic = topic')) as [->|Hne].
  - rewrite lookup_insert_eq. cbn. naive_solver.
  - rewrite lookup_insert_ne by done. naive_solver.
Qed.

Lemma topic_subs_drop_empty topic h topic' : topic_subs (drop_empty topic h) topic' = topic_subs h topic'.
Proof.
  unfold drop_empty. destruct (subscribers h !! topic) as [subs|] eqn:E; [|done].
  destruct (decide (subs = ∅)) as [->|]; [|done]. unfold topic_subs, set_subscribers. cbn [subscribers].
  destruct (decide (topic = topic')) as [<-|Hne].
  - by rewrite lookup_delete_eq, E.
  - by rewrite lookup_delete_ne.
Qed.

Lemma drop_empty_objects topic h : objects (drop_empty topic h) = objects h.
Proof. unfold drop_empty. destruct (subscribers h !! topic); [|done]. by case_decide. Qed.
Lemma drop_empty_flights topic h : flights (drop_empty topic h) = flights h.
Proof. unfold drop_empty. destruct (subscribers h !! topic); [|done]. by case_decide. Qed.
Lemma drop_empty_tables topic h topic' subs :
  subscribers (drop_empty topic h) !! topic' = Some subs ->
  subscribers h !! topic' = Some subs /\ (topic' = topic -> subs <> ∅).
Proof.
  unfold drop_empty. destruct (subscribers h !! topic) as [subs0|] eqn:E.
  - case_decide as Hd; cbn [set_subscribers subscribers].
    + destruct (decide (topic = topic')) as [<-|Hne]; [by rewrite lookup_delete_eq|].
      rewrite lookup_delete_ne by done. intros H. split; [done|]. by intros ->.
    + intros H. split; [done|]. intros ->. congruence.
  - intros H. split; [done|]. intros ->. congruence.
Qed.

(** ** The operations preserve it *)

(** What the state may become, as far as the invariant is concerned. *)
Lemma hub_ok_objects h o f :
  hub_ok h ->
  (forall l sub, objects h !! l = Some sub -> exists sub', o !! l = Some sub' /\
     SubTopic sub' = SubTopic sub /\ SubID sub' = SubID sub /\ done sub' = done sub) ->
  (forall fl l, fl ∈ f -> l ∈ targets fl ->
    exists sub, o !! l = Some sub /\ SubTopic sub = EvTopic (flying fl)) ->
  (forall l sub, o !! l = Some sub ->
    (length (Events sub) <= event_buffer)%nat /\ Forall (fun evt => EvTopic evt = SubTopic sub) (Events sub)) ->
  hub_ok (mkHub (subscribers h) o f).
Proof.
  intros [Hr Hn Hf Hb] Ho Hf' Hb'. split; [|exact Hn|exact Hf'|exact Hb'].
  intros topic id l Hreg. destruct (Hr topic id l Hreg) as (sub & Hl & Ht & Hi & Hd).
  destruct (Ho l sub Hl) as (sub' & Hl' & Ht' & Hi' & Hd'). exists sub'. split_and!; [done|congruence..].
Qed.

Lemma fresh_objects h : objects h !! fresh (dom (objects h)) = None.
Proof. apply not_elem_of_dom, is_fresh. Qed.

Lemma Subscribe_ok now topic id h : hub_ok h -> hub_ok (Subscribe now topic id h).1.
Proof.
  intros [Hr Hn Hf Hb]. cbn [Subscribe fst]. pose proof (fresh_objects h) as Hfr.
  set (l0 := fresh _) in *.
  assert (forall l sub, objects h !! l = Some sub ->
    <[l0 := NewSubscriber now id topic]> (objects h) !! l = Some sub) as Hold.
  { intros l sub Hl. rewrite lookup_insert_ne; [done|congruence]. }
  split.
  - intros topic' id' l [[-> Hl]|[Hne Hl]]%registered_insert.
    + destruct (decide (id = id')) as [->|Hid].
      * rewrite lookup_insert_eq in Hl. injection Hl as <-. cbn [objects]. rewrite lookup_insert_eq. by eexists.
      * rewrite lookup_insert_ne in Hl by done. destruct (Hr _ _ _ Hl) as (sub & Hs & Hrest).
        exists sub. split; [by apply Hold|done].
    + destruct (Hr _ _ _ Hl) as (sub & Hs & Hrest). exists sub. split; [by apply Hold|done].
  - cbn [subscribers]. intros topic' subs. destruct (decide (topic = topic')) as [->|Hne].
    + rewrite lookup_insert_eq. intros [= <-]. apply insert_non_empty.
    + rewrite lookup_insert_ne by done. apply Hn.
  - cbn [flights objects]. intros f l Hin Hl. destruct (Hf f l Hin Hl) as (sub & Hs & Ht).
    exists sub. split; [by apply Hold|done].
  - cbn [objects]. intros l sub. destruct (decide (l0 = l)) as [->|Hne].
    + rewrite lookup_insert_eq. intros [= <-]. split; [cbn; unfold event_buffer; lia|constructor].
    + rewrite lookup_insert_ne by done. apply Hb.
Qed.

(** [Unsubscribe] in a good state: it closes what is registered, and only that. *)
Lemma Unsubscribe_spec topic id h : hub_ok h ->
  (topic_subs h topic !! id = None /\ Unsubscribe topic id h = (h, Ok tt)) \/
  exists l sub, registered h topic id l /\ objects h !! l = Some sub /\
    Unsubscribe topic id h
    = (drop_empty topic (mkHub (<[topic := delete id (topic_subs h topic)]> (subscribers h))
        (<[l := mkSubscriber (SubID sub) (SubTopic sub) (Events sub) (Created sub) true]> (objects h)) (flights h)),
       Ok tt).
Proof.
  intros [Hr Hn _ _]. unfold Unsubscribe, registered, topic_subs in *.
  destruct (subscribers h !! topic) as [subs|] eqn:E; cbn; [|left; by rewrite lookup_empty].
  destruct (subs !! id) as [l|] eqn:El.
  - right. destruct (Hr topic id l) as (sub & Hs & _ & _ & Hd).
    { rewrite E. exact El. }
    exists l, sub. split; [done|]. split; [done|]. rewrite Hs. cbn. unfold Subscriber_Close. by rewrite Hd.
  - left. split; [done|]. unfold drop_empty. rewrite E.
    by rewrite (decide_False (P := subs = ∅)) by (by apply (Hn topic)).
Qed.

Lemma Unsubscribe_ok topic id h : hub_ok h -> hub_ok (Unsubscribe topic id h).1 /\ (Unsubscribe topic id h).2 = Ok tt.
Proof.
  intros Hh. destruct (Unsubscribe_spec topic id h Hh) as [[_ ->]|(l0 & sub0 & Hreg & Hl0 & ->)]; [done|].
  split; [|done]. cbn [fst]. destruct Hh as [Hr Hn Hf Hb].
  destruct (Hr _ _ _ Hreg) as (sub0' & Hl0' & Ht0 & Hi0 & Hd0). rewrite Hl0 in Hl0'. injection Hl0' as <-.
  split.
  - intros topic' id' l. unfold registered. rewrite topic_subs_drop_empty, drop_empty_objects. cbn [objects].
    intros [[-> Hl]|[Hne Hl]]%registered_insert.
    + apply lookup_delete_Some in Hl as [Hid Hl]. destruct (Hr _ _ _ Hl) as (sub & Hs & Ht & Hi & Hd).
      exists sub. split; [|done]. rewrite lookup_insert_ne; [done|]. intros ->. congruence.
    + destruct (Hr _ _ _ Hl) as (sub & Hs & Ht & Hi & Hd).
      exists sub. split; [|done]. rewrite lookup_insert_ne; [done|]. intros ->. congruence.
  - intros topic' subs [H Hne]%drop_empty_tables. destruct (decide (topic' = topic)) as [->|Ht]; [by apply Hne|].
    cbn [subscribers] in H. rewrite lookup_insert_ne in H by done. by apply (Hn topic').
  - rewrite drop_empty_flights, drop_empty_objects. cbn [flights objects]. intros f l Hin Hl.
    destruct (Hf f l Hin Hl) as (sub & Hs & Ht). destruct (decide (l0 = l)) as [->|Hne].
    + rewrite lookup_insert_eq. eexists. split; [done|]. cbn. congruence.
    + rewrite lookup_insert_ne by done. by exists sub.
  - rewrite drop_empty_objects. cbn [objects]. intros l sub. destruct (decide (l0 = l)) as [->|Hne].
    + rewrite lookup_insert_eq. intros [= <-]. exact (Hb l sub0 Hl0).
    + rewrite lookup_insert_ne by done. apply Hb.
Qed.

Lemma send_event_fields evt sub :
  SubTopic (send_event evt sub) = SubTopic sub /\ SubID (send_event evt sub) = SubID sub /\
  done (send_event evt sub) = done sub.
Proof. unfold send_event. by destruct (_ <? _)%nat. Qed.

Lemma publish_send_ok k h : hub_ok h -> hub_ok (publish_send k h).
Proof.
  intros Hh. unfold publish_send. destruct (flights h !! k) as [[evt [|l0 ls]]|] eqn:E; try done.
  pose proof (ok_flights h Hh) as Hf. pose proof (ok_buffers h Hh) as Hb.
  apply (hub_ok_objects h); [exact Hh|..].
  - intros l sub Hl. destruct (decide (l0 = l)) as [->|Hne].
    + rewrite lookup_alter_eq, Hl. exists (send_event evt sub). split; [reflexivity|]. apply send_event_fields.
    + rewrite lookup_alter_ne by done. by exists sub.
  - assert (forall fl, fl ∈ <[k:=mkFlight evt ls]> (flights h) -> exists fl', fl' ∈ flights h /\
      flying fl' = flying fl /\ targets fl ⊆ targets fl') as Hsub.
    { intros fl [->|Hin]%elem_of_insert_inv; [|by exists fl].
      exists (mkFlight evt (l0 :: ls)). split; [by eapply list_elem_of_lookup_2|]. cbn. set_solver. }
    intros fl l (fl' & Hin & Hfl & Hts)%Hsub Hl. destruct (Hf fl' l Hin) as (sub & Hs & Ht); [set_solver|].
    rewrite <-Hfl. destruct (decide (l0 = l)) as [->|Hne].
    + rewrite lookup_alter_eq, Hs. cbn. eexists. split; [done|]. by rewrite (proj1 (send_event_fields _ _)).
    + rewrite lookup_alter_ne by done. by exists sub.
  - intros l sub. destruct (decide (l0 = l)) as [->|Hne]; [|rewrite lookup_alter_ne by done; apply Hb].
    rewrite lookup_alter_eq. destruct (objects h !! l) as [sub0|] eqn:Hl; [|done]. intros [= <-].
    destruct (Hb l sub0 Hl) as [Hlen Htop]. unfold send_event. destruct (Nat.ltb_spec (length (Events sub0)) event_buffer);
      [|done]. cbn [set_Events Events SubTopic]. split; [rewrite length_app; cbn; lia|].
    apply list.Forall_app. split; [done|]. constructor; [|constructor].
    destruct (Hf (mkFlight evt (l :: ls)) l) as (sub1 & Hs1 & Ht1); [by eapply list_elem_of_lookup_2|cbn; set_solver|].
    cbn in Ht1. congruence.
Qed.

Lemma receive_event_ok l h evt h' : hub_ok h -> receive_event l h = Some (evt, h') -> hub_ok h'.
Proof.
  intros Hh. unfold receive_event. destruct (objects h !! l) as [sub0|] eqn:Hl0; [|done]. cbn.
  destruct (Events sub0) as [|e0 evs] eqn:He; [done|]. intros [= <- <-].
  assert (forall l1 sub, objects h !! l1 = Some sub -> exists sub', <[l:=set_Events evs sub0]> (objects h) !! l1 = Some sub' /\
    SubTopic sub' = SubTopic sub /\ SubID sub' = SubID sub /\ done sub' = done sub) as Hobj.
  { intros l1 sub Hl1. destruct (decide (l = l1)) as [->|Hne].
    - rewrite lookup_insert_eq. eexists. split; [done|]. assert (sub0 = sub) as -> by congruence. done.
    - rewrite lookup_insert_ne by done. by exists sub. }
  apply (hub_ok_objects h); [exact Hh|exact Hobj|..].
  - intros fl l1 Hin Hl1. destruct (ok_flights h Hh fl l1 Hin Hl1) as (sub & Hs & Ht).
    destruct (Hobj l1 sub Hs) as (sub' & Hs' & Ht' & _). exists sub'. split; [done|congruence].
  - intros l1 sub. destruct (decide (l = l1)) as [->|Hne]; [|rewrite lookup_insert_ne by done; by apply ok_buffers].
    rewrite lookup_insert_eq. intros [= <-]. destruct (ok_buffers h Hh l1 sub0 Hl0) as [Hlen Htop]. rewrite He in *.
    cbn in Hlen |- *. split; [lia|by inversion Htop].
Qed.

Lemma publish_begin_ok now topic payload order h :
  hub_ok h -> publish_order h topic order -> hub_ok (publish_begin now topic payload order h).
Proof.
  intros Hh Ho. apply (hub_ok_objects h); [exact Hh|by eauto|..|by apply ok_buffers].
  intros fl l [Hin|Hin%list_elem_of_singleton]%elem_of_app Hl; [by apply (ok_flights h Hh fl l)|subst fl].
  cbn in Hl |- *. apply (registered_order h topic order l Ho) in Hl as [id Hid].
  destruct (ok_registered h Hh topic id l Hid) as (sub & Hs & Ht & _). by exists sub.
Qed.

Lemma hub_op_ok o h : hub_ok h -> op_possible o h -> hub_ok (hub_op o h).1 /\ (hub_op o h).2 = Ok tt.
Proof.
  intros Hh Ho. destruct o as [now topic id|topic id|now topic payload order|k|l]; cbn [hub_op op_possible] in *.
  - pose proof (Subscribe_ok now topic id h Hh) as H. by destruct (Subscribe now topic id h).
  - by apply Unsubscribe_ok.
  - split; [by apply publish_begin_ok|done].
  - split; [by apply publish_send_ok|done].
  - split; [|done]. destruct (receive_event l h) as [[evt h']|] eqn:E; [by eapply receive_event_ok|done].
Qed.

Lemma hub_run_cons o os h : hub_ok h -> op_possible o h -> hub_run (o :: os) h = hub_run os (hub_op o h).1.
Proof. intros Hh Ho. cbn [hub_run]. destruct (hub_op_ok o h Hh Ho) as [_ Hr]. destruct (hub_op o h) as [h' r]. cbn in *. by subst r. Qed.

Lemma hub_run_ok os : forall h, hub_ok h -> run_possible os h -> hub_ok (hub_run os h).1 /\ (hub_run os h).2 = Ok tt.
Proof.
  induction os as [|o os IH]; intros h Hh Hp; [done|]. destruct Hp as [Ho Hp].
  rewrite hub_run_cons by done. apply IH; [by apply hub_op_ok|done].
Qed.

(** ** Traces of a subscriber *)

(** The events a run sends to [l], those taken from its channel, and those
    published while [l] is in the table of their topic. *)
Definition offered_by (o : HubOp) (h : Hub) (l : positive) : list Event :=
  match o with
  | OpSend k => match flights h !! k with Some (mkFlight evt (l' :: _)) => if decide (l' = l) then [evt] else [] | _ => [] end
  | _ => []
  end.
Definition received_by (o : HubOp) (h : Hub) (l : positive) : list Event :=
  match o with
  | OpReceive l' => if decide (l' = l) then match receive_event l h with Some (evt, _) => [evt] | None => [] end else []
  | _ => []
  end.
Definition published_by (o : HubOp) (h : Hub) (l : positive) : list Event :=
  match o with
  | OpPublish now topic payload _ =>
      if decide (l ∈ (map_to_list (topic_subs h topic)).*2) then [mkEvent topic payload now] else []
  | _ => []
  end.
Definition trace (f : HubOp -> Hub -> positive -> list Event) (l : positive) : list HubOp -> Hub -> list Event :=
  fix go os h := match os with [] => [] | o :: os => f o h l ++ go os (hub_op o h).1 end.

(** What waits in the channel of [l], and what is still under way to it. *)
Definition waiting (h : Hub) (l : positive) : list Event := default [] (Events <$> objects h !! l).
Definition in_flight (h : Hub) (l : positive) : list Event :=
  flights h ≫= fun f => (fun _ => flying f) <$> filter (.= l) (targets f).

Lemma trace_cons f l o os h : trace f l (o :: os) h = f o h l ++ trace f l os (hub_op o h).1.
Proof. done. Qed.

(** ** Delivery *)

Lemma waiting_objects h h' l : objects h' !! l = objects h !! l -> waiting h' l = waiting h l.
Proof. intros H. unfold waiting. by rewrite H. Qed.

Lemma Subscribe_waiting now topic id h l : waiting (Subscribe now topic id h).1 l = waiting h l.
Proof.
  cbn [Subscribe fst]. pose proof (fresh_objects h) as Hfr. unfold waiting. cbn [objects].
  destruct (decide (fresh (dom (objects h)) = l)) as [<-|Hne].
  - rewrite lookup_insert_eq, Hfr. done.
  - by rewrite lookup_insert_ne.
Qed.

Lemma Unsubscribe_waiting topic id h l : hub_ok h -> waiting (Unsubscribe topic id h).1 l = waiting h l.
Proof.
  intros Hh. destruct (Unsubscribe_spec topic id h Hh) as [[_ ->]|(l0 & sub & _ & Hl0 & ->)]; [done|].
  cbn [fst]. unfold waiting. rewrite drop_empty_objects. cbn [objects].
  destruct (decide (l0 = l)) as [->|Hne]; [by rewrite lookup_insert_eq, Hl0|by rewrite lookup_insert_ne].
Qed.

(** One operation moves events of [l] along, or loses one because the channel is full. *)
Lemma op_delivers o h l : hub_ok h ->
  received_by o h l ++ waiting (hub_op o h).1 l = waiting h l ++ offered_by o h l \/
  (length (waiting h l) = event_buffer /\ received_by o h l = [] /\ length (offered_by o h l) = 1%nat /\
   waiting (hub_op o h).1 l = waiting h l).
Proof.
  intros Hh. destruct o as [now topic id|topic id|now topic payload order|k|l0];
    cbn [received_by offered_by hub_op app].
  - left. rewrite app_nil_r. pose proof (Subscribe_waiting now topic id h l) as H.
    by destruct (Subscribe now topic id h).
  - left. rewrite app_nil_r. by apply Unsubscribe_waiting.
  - left. by rewrite app_nil_r.
  - cbn [fst]. unfold publish_send. destruct (flights h !! k) as [[evt [|l0 ls]]|] eqn:E; try (left; by rewrite app_nil_r).
    unfold waiting at 1 4. cbn [set_objects objects]. destruct (decide (l0 = l)) as [->|Hne].
    + destruct (ok_flights h Hh (mkFlight evt (l :: ls)) l) as (sub & Hl & _);
        [by eapply list_elem_of_lookup_2|cbn; set_solver|].
      rewrite lookup_alter_eq. unfold waiting. rewrite Hl. cbn. unfold send_event.
      destruct (Nat.ltb_spec (length (Events sub)) event_buffer); [by left|right].
      destruct (ok_buffers h Hh l sub Hl) as [Hlen _]. split_and!; [lia|done..].
    + left. rewrite lookup_alter_ne by done. by rewrite app_nil_r.
  - left. rewrite app_nil_r. destruct (decide (l0 = l)) as [->|Hne].
    + unfold receive_event. destruct (objects h !! l) as [sub|] eqn:Hl; cbn; [|done].
      destruct (Events sub) as [|evt evs] eqn:He; cbn; [done|].
      unfold waiting. cbn [set_objects objects]. rewrite lookup_insert_eq, Hl. cbn. by rewrite He.
    + cbn [app]. unfold receive_event. destruct (objects h !! l0) as [sub|]; cbn; [|done].
      destruct (Events sub); [done|]. apply waiting_objects. cbn. by rewrite lookup_insert_ne.
Qed.

Abbreviation offered := (trace offered_by).
Abbreviation received := (trace received_by).
Abbreviation published := (trace published_by).

(** [l] never has more than a full channel to catch up with. *)
Definition keeps_up (l : positive) (os : list HubOp) (h : Hub) : Prop := forall n,
  (length (waiting h l ++ offered l (take n os) h) <= length (received l (take n os) h) + event_buffer)%nat.

Lemma keeps_up_cons l o os h : keeps_up l (o :: os) h ->
  received_by o h l ++ waiting (hub_op o h).1 l = waiting h l ++ offered_by o h l ->
  keeps_up l os (hub_op o h).1.
Proof.
  intros Hk Heq n. specialize (Hk (S n)). cbn [take] in Hk. rewrite !trace_cons in Hk.
  apply (f_equal length) in Heq. rewrite !length_app in *. lia.
Qed.

Lemma run_delivers l os : forall h, hub_ok h -> run_possible os h ->
  (received l os h ++ waiting (hub_run os h).1 l) `sublist_of` (waiting h l ++ offered l os h) /\
  (keeps_up l os h -> received l os h ++ waiting (hub_run os h).1 l = waiting h l ++ offered l os h).
Proof.
  induction os as [|o os IH]; intros h Hh Hp; [cbn; by rewrite app_nil_r|]. destruct Hp as [Ho Hp].
  rewrite hub_run_cons, !trace_cons by done. destruct (IH _ (proj1 (hub_op_ok o h Hh Ho)) Hp) as [IH1 IH2].
  destruct (op_delivers o h l Hh) as [Heq|(Hfull & Hr & Hone & Hw)].
  - rewrite !(app_assoc (waiting h l)), <-!Heq, <-!app_assoc. split.
    + by apply sublist_app.
    + intros Hk. f_equal. apply IH2. by eapply keeps_up_cons.
  - rewrite Hr, Hw in *. cbn [app] in *. split.
    + etrans; [exact IH1|]. apply sublist_app; [done|]. apply sublist_inserts_l. done.
    + intros Hk. exfalso. specialize (Hk 1%nat). rewrite firstn_cons, take_0, !trace_cons, Hr in Hk.
      cbn [trace] in Hk. rewrite !app_nil_r, length_app in Hk. cbn in Hk. lia.
Qed.

(** ** Publications reach who is registered *)

Lemma registered_inj h topic id id' l :
  hub_ok h -> registered h topic id l -> registered h topic id' l -> id = id'.
Proof.
  intros Hh H1 H2. destruct (ok_registered h Hh _ _ _ H1) as (s1 & Hs1 & _ & <- & _).
  destruct (ok_registered h Hh _ _ _ H2) as (s2 & Hs2 & _ & <- & _). congruence.
Qed.

Lemma order_NoDup h topic order : hub_ok h -> publish_order h topic order -> NoDup order.
Proof.
  intros Hh Ho. unfold publish_order in Ho. rewrite Ho. apply NoDup_fmap_2_strong; [|apply NoDup_map_to_list].
  intros [i l] [j l'] Hi%elem_of_map_to_list Hj%elem_of_map_to_list [= <-].
  by rewrite (registered_inj h topic i j l Hh Hi Hj).
Qed.

Lemma filter_eq_NoDup (order : list positive) l :
  NoDup order -> filter (.= l) order = if decide (l ∈ order) then [l] else [].
Proof.
  induction 1 as [|x order Hx Hnd IH]; [done|]. rewrite filter_cons. destruct (decide (x = l)) as [->|Hne].
  - rewrite IH. rewrite (decide_False (P := l ∈ order)) by done. by rewrite decide_True by set_solver.
  - rewrite IH. by destruct (decide (l ∈ order)), (decide (l ∈ x :: order)); set_solver.
Qed.

Lemma op_publishes o h l : hub_ok h -> op_possible o h ->
  offered_by o h l ++ in_flight (hub_op o h).1 l ≡ₚ in_flight h l ++ published_by o h l.
Proof.
  intros Hh Ho. destruct o as [now topic id|topic id|now topic payload order|k|l0];
    cbn [published_by offered_by hub_op app op_possible] in *; rewrite ?app_nil_r.
  - done.
  - destruct (Unsubscribe_spec topic id h Hh) as [[_ ->]|(l0 & sub & _ & Hl0 & ->)]; [done|].
    unfold in_flight. cbn [fst]. by rewrite drop_empty_flights.
  - unfold in_flight. cbn [fst publish_begin set_flights flights]. rewrite bind_app. cbn. rewrite app_nil_r.
    apply Permutation_app_head. rewrite filter_eq_NoDup by (by eapply order_NoDup).
    unfold publish_order in Ho. pose proof (order_NoDup h topic order Hh Ho).
    rewrite (decide_ext (l ∈ order) (l ∈ (map_to_list (topic_subs h topic)).*2)) by (by rewrite Ho).
    by destruct (decide _).
  - cbn [fst]. unfold publish_send. destruct (flights h !! k) as [[evt [|l0 ls]]|] eqn:E; try done.
    unfold in_flight. cbn [set_objects set_flights flights].
    rewrite (insert_take_drop _ _ _ (lookup_lt_Some _ _ _ E)). rewrite <-(take_drop_middle (flights h) k _ E) at 3.
    rewrite !bind_app, !bind_cons. cbn [flying targets]. rewrite filter_cons.
    destruct (decide (l0 = l)) as [->|Hne]; cbn; [|done]. by rewrite Permutation_middle.
  - destruct (receive_event l0 h) as [[evt h']|] eqn:E; [|done]. unfold receive_event in E.
    destruct (objects h !! l0) as [sub|]; [|done]. cbn in E. destruct (Events sub); [done|].
    injection E as _ <-. done.
Qed.

Lemma run_publishes l os : forall h, hub_ok h -> run_possible os h ->
  offered l os h ++ in_flight (hub_run os h).1 l ≡ₚ in_flight h l ++ published l os h.
Proof.
  induction os as [|o os IH]; intros h Hh Hp; [cbn; by rewrite app_nil_r|]. destruct Hp as [Ho Hp].
  rewrite hub_run_cons, !trace_cons by done. rewrite <-app_assoc, (IH _ (proj1 (hub_op_ok o h Hh Ho)) Hp).
  rewrite !app_assoc. apply Permutation_app_tail. by apply op_publishes.
Qed.

(** ** Identifiers used twice *)

(** [l] has been replaced: it is in no table, and its goroutine is not told. *)
Definition orphan (h : Hub) (l : positive) : Prop :=
  (exists sub, objects h !! l = Some sub /\ done sub = false) /\ forall topic id, ~ registered h topic id l.

Lemma orphan_op o h l : hub_ok h -> orphan h l -> orphan (hub_op o h).1 l.
Proof.
  intros Hh [(sub & Hl & Hd) Hno]. destruct o as [now topic id|topic id|now topic payload order|k|l0]; cbn [hub_op].
  - cbn [Subscribe fst]. pose proof (fresh_objects h) as Hfr. set (l0 := fresh _) in *. split.
    + exists sub. cbn [objects]. rewrite lookup_insert_ne by congruence. done.
    + intros topic' id' [[-> Hl']|[_ Hl']]%registered_insert; [|by eapply Hno].
      destruct (decide (id = id')) as [->|Hne].
      * rewrite lookup_insert_eq in Hl'. congruence.
      * rewrite lookup_insert_ne in Hl' by done. by eapply (Hno topic id').
  - destruct (Unsubscribe_spec topic id h Hh) as [[_ ->]|(l0 & sub0 & Hreg & Hl0 & ->)]; [by split; [exists sub|]|].
    cbn [fst]. split.
    + exists sub. rewrite drop_empty_objects. cbn [objects]. rewrite lookup_insert_ne; [done|].
      intros ->. by eapply Hno.
    + intros topic' id'. unfold registered. rewrite topic_subs_drop_empty.
      intros [[-> [_ Hl']%lookup_delete_Some]|[_ Hl']]%registered_insert; by eapply Hno.
  - split; [by exists sub|done].
  - cbn [fst]. unfold publish_send. destruct (flights h !! k) as [[evt [|l0 ls]]|]; try (by split; [exists sub|]).
    split; [|done]. cbn [set_objects objects]. destruct (decide (l0 = l)) as [->|Hne].
    + rewrite lookup_alter_eq, Hl. exists (send_event evt sub). split; [done|].
      by rewrite (proj2 (proj2 (send_event_fields evt sub))).
    + rewrite lookup_alter_ne by done. by exists sub.
  - cbn [fst]. destruct (receive_event l0 h) as [[evt h']|] eqn:E; [|by split; [exists sub|]].
    unfold receive_event in E. destruct (objects h !! l0) as [sub0|] eqn:El0; [|done]. cbn in E.
    destruct (Events sub0) as [|e0 evs]; [done|]. injection E as _ <-. split; [|done].
    cbn [set_objects objects]. destruct (decide (l0 = l)) as [->|Hne].
    + rewrite lookup_insert_eq. eexists. split; [done|]. cbn. congruence.
    + rewrite lookup_insert_ne by done. by exists sub.
Qed.

Lemma orphan_run os l : forall h, hub_ok h -> orphan h l -> run_possible os h ->
  orphan (hub_run os h).1 l /\ published l os h = [].
Proof.
  induction os as [|o os IH]; intros h Hh Hl Hp; [done|]. destruct Hp as [Ho Hp].
  rewrite hub_run_cons, trace_cons by done.
  destruct (IH _ (proj1 (hub_op_ok o h Hh Ho)) (orphan_op o h l Hh Hl) Hp) as [IH1 ->]. split; [done|].
  rewrite app_nil_r. destruct o; try done. cbn [published_by]. rewrite decide_False; [done|].
  intros ([id l'] & -> & Hin%elem_of_map_to_list)%list_elem_of_fmap. by apply (proj2 Hl topic id).
Qed.

Lemma Subscribe_orphans now topic id h l :
  hub_ok h -> registered h topic id l -> orphan (Subscribe now topic id h).1 l.
Proof.
  intros Hh Hreg. destruct (ok_registered h Hh _ _ _ Hreg) as (sub & Hl & Ht & Hi & Hd).
  cbn [Subscribe fst]. pose proof (fresh_objects h) as Hfr. set (l0 := fresh _) in *. split.
  - exists sub. cbn [objects]. rewrite lookup_insert_ne by congruence. done.
  - intros topic' id' [[-> Hl']|[Hne Hl']]%registered_insert.
    + destruct (decide (id = id')) as [->|Hne]; [rewrite lookup_insert_eq in Hl'; congruence|].
      rewrite lookup_insert_ne in Hl' by done. by destruct (Hne (registered_inj h topic id id' l Hh Hreg Hl')).
    + destruct (ok_registered h Hh _ _ _ Hl') as (sub' & Hs' & Ht' & _). congruence.
Qed.

Lemma Subscribe_registers now topic id h :
  exists l, (Subscribe now topic id h).2 = Ok l /\ registered (Subscribe now topic id h).1 topic id l /\
    objects h !! l = None /\ objects (Subscribe now topic id h).1 !! l = Some (NewSubscriber now id topic).
Proof.
  exists (fresh (dom (objects h))). cbn [Subscribe fst snd]. split; [done|]. split; [|split; [apply fresh_objects|]].
  - apply registered_insert. left. by rewrite lookup_insert_eq.
  - cbn [objects]. by rewrite lookup_insert_eq.
Qed.

(** [Unsubscribe] closes and removes what is registered. *)
Lemma Unsubscribe_closes topic id h l : hub_ok h -> registered h topic id l ->
  (exists sub, objects (Unsubscribe topic id h).1 !! l = Some sub /\ done sub = true) /\
  topic_subs (Unsubscribe topic id h).1 topic !! id = None.
Proof.
  intros Hh Hreg. destruct (Unsubscribe_spec topic id h Hh) as [[Hno _]|(l0 & sub0 & Hreg0 & Hl0 & ->)];
    [unfold registered in Hreg; congruence|]. unfold registered in *. assert (l0 = l) as -> by congruence.
  cbn [fst]. rewrite drop_empty_objects, topic_subs_drop_empty. cbn [objects]. split.
  - rewrite lookup_insert_eq. by eexists.
  - unfold topic_subs at 1. cbn [subscribers]. rewrite lookup_insert_eq. cbn. apply lookup_delete_eq.
Qed.

(** ** Theorems *)

(** C27. Whatever its goroutines do, in any interleaving, the hub never closes a
    channel twice (which would panic); every subscriber in its tables is
    listed under its own topic and identifier and is open; and it lists
    exactly the topics that have subscribers. *)
Theorem hub_never_panics os :
  run_possible os NewHub ->
  let '(h, r) := hub_run os NewHub in
  r = Ok tt /\
  (forall topic id l, registered h topic id l -> exists sub, objects h !! l = Some sub /\
     SubTopic sub = topic /\ SubID sub = id /\ done sub = false) /\
  (forall topic order, topics_order h order -> topic ∈ order <-> 0 < SubscriberCount h topic).
Proof.
  intros Hp. destruct (hub_run_ok os NewHub hub_ok_new Hp) as [Hh Hr].
  destruct (hub_run os NewHub) as [h r]. cbn [fst snd] in *. split; [done|]. split; [by apply ok_registered|].
  intros topic order Ho. unfold topics_order in Ho. rewrite Ho, list_elem_of_fmap.
  unfold SubscriberCount, topic_subs. split.
  - intros ([t subs] & -> & Hin%elem_of_map_to_list). cbn [fst]. rewrite Hin. cbn.
    pose proof (ok_nonempty h Hh t subs Hin) as Hne%map_size_non_empty_iff. lia.
  - destruct (subscribers h !! topic) as [subs|] eqn:E; [|cbn; rewrite map_size_empty; lia].
    intros _. exists (topic, subs). by rewrite elem_of_map_to_list.
Qed.

(** C10. Delivery, over all interleavings of subscribing, publishing (whose
    sends are steps of their own), receiving and unsubscribing: a subscriber
    is sent every event published to its topic while it is registered, once;
    what it has received and what waits in its channel is, in the order of
    the sends and without repetition, a part of what it was sent; and nothing
    is lost as long as it is never more than 64 events behind. *)
Theorem hub_delivery os l :
  run_possible os NewHub ->
  let h := (hub_run os NewHub).1 in
  offered l os NewHub ++ in_flight h l ≡ₚ published l os NewHub /\
  (received l os NewHub ++ waiting h l) `sublist_of` offered l os NewHub /\
  (keeps_up l os NewHub -> received l os NewHub ++ waiting h l = offered l os NewHub).
Proof.
  intros Hp h. pose proof (run_delivers l os NewHub hub_ok_new Hp) as [H1 H2].
  pose proof (run_publishes l os NewHub hub_ok_new Hp) as H3.
  assert (waiting NewHub l = []) as Hw by (unfold waiting; cbn; by rewrite lookup_empty).
  rewrite Hw in *. split_and!; [exact H3|exact H1|exact H2].
Qed.

(** C40. A second subscription under an identifier in use (as
    [SubscribeHandler] makes when a session subscribes to a topic twice) cuts
    off the first: whatever happens later, no event is published to it and its
    goroutine is not told; and when the first one ends, its [Unsubscribe]
    closes the second. *)
Theorem second_subscription os1 now topic id l os2 :
  let h := (hub_run os1 NewHub).1 in
  let h1 := (Subscribe now topic id h).1 in
  run_possible os1 NewHub -> registered h topic id l -> run_possible os2 h1 ->
  published l os2 h1 = [] /\
  (exists sub, objects (hub_run os2 h1).1 !! l = Some sub /\ done sub = false) /\
  exists l' sub', (Subscribe now topic id h).2 = Ok l' /\ l' <> l /\
    objects (Unsubscribe topic id h1).1 !! l' = Some sub' /\ done sub' = true.
Proof.
  intros h h1 Hp1 Hreg Hp2. destruct (hub_run_ok os1 NewHub hub_ok_new Hp1) as [Hh _].
  fold h in Hh. pose proof (Subscribe_ok now topic id h Hh) as Hh1. fold h1 in Hh1.
  destruct (orphan_run os2 l h1 Hh1 (Subscribe_orphans now topic id h l Hh Hreg) Hp2) as [[Hs _] Hpub].
  split; [done|]. split; [done|].
  destruct (Subscribe_registers now topic id h) as (l' & Hl' & Hr' & Hfr & _).
  destruct (Unsubscribe_closes topic id h1 l' Hh1 Hr') as [(sub' & Hsub' & Hd') _].
  exists l', sub'. split_and!; try done. intros ->.
  destruct (ok_registered h Hh _ _ _ Hreg) as (sub & Hs1 & _). congruence.
Qed.

(** ** The handlers *)

Section handlers.
Context `{C : CryptoOps}.

(** A response whose error is ignored: all that can show is a panic of the encoder. *)
Definition write_result (r : Response) : res unit :=
  match response_plaintext r with Panic p => Panic p | OutOfFuel => OutOfFuel | _ => Ok tt end.

Lemma with_entropy_Encrypt key p s :
  (with_entropy (wrap_errM "frame: encrypt response: %w" [] (Encrypt key p)) s).2 <> OutOfFuel /\
  forall x, (with_entropy (wrap_errM "frame: encrypt response: %w" [] (Encrypt key p)) s).2 <> Panic x.
Proof.
  unfold with_entropy, Encrypt, aes_NewCipher, cipher_NewGCM, lift, mbind, M_bind, wrap_errM.
  case_bool_decide; [|by split]. cbn [wrap_err].
  destruct (ReadFull NonceSize (entropy s)) as [rd r] eqn:E. unfold ReadFull in E.
  destruct (NonceSize <=? len (unread (entropy s))); injection E as <- <-; split; done.
Qed.

Lemma WriteResponse_result key seq r s :
  match (WriteResponse key seq r s).2 with Err _ => Ok tt | x => x end = write_result r.
Proof.
  unfold WriteResponse, EncodeResponse, write_result, mbind at 1, M_bind at 1.
  assert (forall data s, match (write_frame seq data s).2 with Err _ => Ok tt | x => x end = Ok tt) as Hw.
  { intros data s'. unfold write_frame. destruct (Write _ _ _) as [w [n [err|]]]; done. }
  destruct (response_plaintext r) as [p|x|x|]; cbn; [|done..].
  destruct key as [key|]; [|apply (Hw p)].
  pose proof (with_entropy_Encrypt key p s) as [H1 H2]. unfold with_entropy, lift, mbind, M_bind in *.
  destruct (wrap_errM _ [] (Encrypt key p) (entropy s)) as [rnd [d|x|x|]]; cbn [snd] in *; [|done|by destruct (H2 x)|done].
  apply Hw.
Qed.

Lemma best_effort_write key seq r (c : Conn Hub) : exists c',
  best_effort (conn_WriteResponse key seq r) c = (c', write_result r) /\ app (env c') = app (env c) /\
  oracle (env c') = oracle (env c) /\ ticks (env c') = ticks (env c).
Proof.
  unfold best_effort, conn_WriteResponse. pose proof (WriteResponse_result key seq r (mkSink (random (env c)) (conn_out c))) as H.
  destruct (WriteResponse _ _ _ _) as [sk x]. cbn [snd] in H. destruct x; rewrite <-H; by eexists.
Qed.

(** The hub as a handler leaves it, and how the handler ended. *)
Definition hub_effect {B} (x : Conn Hub * res B) : Hub * res B := (app (env x.1), x.2).

Lemma hub_effect_in_app {B} (m : M Hub B) c : hub_effect (on_env (in_app m) c) = m (app (env c)).
Proof. unfold hub_effect, on_env, in_app. by destruct (m (app (env c))). Qed.

Lemma hub_effect_bind {B D} (m : M (Conn Hub) B) (f : B -> M (Conn Hub) D) (g : M Hub B) (k : B -> M Hub D) :
  (forall c, hub_effect (m c) = g (app (env c))) ->
  (forall b c, hub_effect (f b c) = k b (app (env c))) ->
  forall c, hub_effect ((m ≫= f) c) = (g ≫= k) (app (env c)).
Proof.
  intros Hm Hf c. unfold mbind, M_bind. rewrite <-Hm. unfold hub_effect at 2. destruct (m c) as [c' [b|x|x|]]; cbn; done.
Qed.

(** What the loop does to the hub, with no connection. *)
Fixpoint loop_effect (turns : list Turn) (l : positive) : M Hub unit :=
  match turns with
  | [] => mret tt
  | t :: turns =>
      _ ← hub_run (others t);
      w ← select_wake l t;
      match w with
      | WokenByCtx | WokenByDone => mret tt
      | WokenByEvent evt => resp ← lift (event_resp evt); _ ← lift (write_result resp); loop_effect turns l
      | StillBlocked => loop_effect turns l
      end
  end.

Lemma hub_effect_write key seq r c :
  hub_effect (best_effort (conn_WriteResponse key seq r) c) = lift (write_result r) (app (env c)).
Proof. destruct (best_effort_write key seq r c) as (c' & -> & Ha & _). unfold hub_effect. cbn. by rewrite Ha. Qed.

Lemma hub_effect_loop turns key l : forall seq c,
  hub_effect (subscribe_loop turns key l seq c) = loop_effect turns l (app (env c)).
Proof.
  induction turns as [|t turns IH]; intros seq c; [done|]. cbn [subscribe_loop loop_effect]. revert c.
  apply hub_effect_bind; [intros c; apply hub_effect_in_app|intros _].
  apply hub_effect_bind; [intros c; apply hub_effect_in_app|intros [| |evt|]]; [done|done| |apply IH].
  apply hub_effect_bind; [done|intros resp].
  apply hub_effect_bind; [intros c; apply hub_effect_write|intros _]. apply IH.
Qed.

(** The operations of the other goroutines in each turn are possible ones. *)
Fixpoint turns_possible (turns : list Turn) (l : positive) (h : Hub) : Prop :=
  match turns with
  | [] => True
  | t :: turns =>
      run_possible (others t) h /\
      turns_possible turns l (select_wake l t (hub_run (others t) h).1).1
  end.

Lemma select_wake_ok l t h : hub_ok h -> hub_ok (select_wake l t h).1.
Proof.
  intros Hh. unfold select_wake. destruct (objects h !! l) as [sub|]; [|done].
  destruct (ready_cases t sub) as [|w ws]; [done|]. destruct (nth _ _ _); try done.
  destruct (receive_event l h) as [[evt' h']|] eqn:E; [by eapply receive_event_ok|done].
Qed.

Lemma loop_effect_ok turns l : forall h, hub_ok h -> turns_possible turns l h -> hub_ok (loop_effect turns l h).1.
Proof.
  induction turns as [|t turns IH]; intros h Hh Hp; [done|]. destruct Hp as [Ho Hp]. cbn [loop_effect].
  unfold mbind, M_bind, lift. destruct (hub_run_ok (others t) h Hh Ho) as [Hh1 Hr].
  destruct (hub_run (others t) h) as [h1 r]. cbn [fst snd] in *. subst r.
  pose proof (select_wake_ok l t h1 Hh1) as Hh2.
  destruct (select_wake l t h1) as [h2 [w|x|x|]]; cbn [fst] in *; try done.
  destruct w as [| |evt|]; try done; [|by apply IH].
  destruct (event_resp evt) as [resp|x|x|]; try done. destruct (write_result resp); try done. by apply IH.
Qed.

(** [SubscribeHandler] past its checks, with no connection. *)
Definition subscribe_effect (turns : list Turn) (now : Time) (topic subID : string) : M Hub unit :=
  l ← Subscribe now topic subID;
  deferring (_ ← lift (write_result (subscribed_resp topic)); loop_effect turns l) (Unsubscribe topic subID).

Lemma hub_effect_deferring {B} (m : M (Conn Hub) B) d (g : M Hub B) (k : M Hub unit) :
  (forall c, hub_effect (m c) = g (app (env c))) -> (forall c, hub_effect (d c) = k (app (env c))) ->
  forall c, hub_effect (deferring m d c) = deferring g k (app (env c)).
Proof.
  intros Hm Hd c. unfold deferring. rewrite <-Hm. unfold hub_effect at 2. destruct (m c) as [c1 r]. cbn [fst snd].
  rewrite <-Hd. unfold hub_effect. by destruct (d c1) as [c2 []].
Qed.

Lemma SubscribeHandler_effect turns ctx req key c topic :
  request_topic req = Ok topic -> topic <> "" ->
  hub_effect (SubscribeHandler turns ctx req key c)
  = subscribe_effect turns (oracle (env c) (ticks (env c))) topic (subscription_id topic (ReqSessionID req))
      (app (env c)).
Proof.
  intros Ht Hne. unfold SubscribeHandler. rewrite Ht. unfold mbind at 1, M_bind at 1, lift at 1.
  rewrite bool_decide_false by done. unfold mbind at 1, M_bind at 1, on_env at 1, Now.
  set (c1 := mkConn _ (conn_in c) (conn_out c) (conn_closed c)). change (app (env c)) with (app (env c1)).
  revert c1. intros c1. generalize c1. clear c1.
  apply hub_effect_bind; [intros c1; apply hub_effect_in_app|intros l].
  apply hub_effect_deferring; [|intros c1; apply hub_effect_in_app].
  apply hub_effect_bind; [intros c1; apply hub_effect_write|intros _]. intros c1. apply hub_effect_loop.
Qed.

(** A subscription does not depend on its client: what [SubscribeHandler]
    does to the hub, when it ends, and how, is the same whatever the state of
    the connection, so also when the client is long gone (its end comes from
    the server's context or from the hub only); and however it ends, its
    subscriber is in the hub's tables no more. *)
Theorem subscription_lifetime turns ctx req key key' (c c' : Conn Hub) topic :
  request_topic req = Ok topic -> topic <> "" ->
  app (env c) = app (env c') -> oracle (env c) (ticks (env c)) = oracle (env c') (ticks (env c')) ->
  let '(d, r) := SubscribeHandler turns ctx req key c in
  let '(d', r') := SubscribeHandler turns ctx req key' c' in
  app (env d) = app (env d') /\ r = r' /\
  let subID := subscription_id topic (ReqSessionID req) in
  (hub_ok (app (env c)) ->
   (forall l, (Subscribe (oracle (env c) (ticks (env c))) topic subID (app (env c))).2 = Ok l ->
     turns_possible turns l (Subscribe (oracle (env c) (ticks (env c))) topic subID (app (env c))).1) ->
   topic_subs (app (env d)) topic !! subID = None /\ hub_ok (app (env d))).
Proof.
  intros Ht Hne Happ Hclk.
  pose proof (SubscribeHandler_effect turns ctx req key c topic Ht Hne) as H1.
  pose proof (SubscribeHandler_effect turns ctx req key' c' topic Ht Hne) as H2.
  rewrite <-Happ, <-Hclk, <-H1 in H2. destruct (SubscribeHandler turns ctx req key c) as [d r].
  destruct (SubscribeHandler turns ctx req key' c') as [d' r']. injection H2 as Ha Hr.
  split; [done|]. split; [done|]. intros subID Hh Hp. fold subID in H1. revert H1 Hp.
  set (now := oracle (env c) (ticks (env c))). unfold subscribe_effect, deferring, mbind, M_bind.
  pose proof (Subscribe_ok now topic subID _ Hh) as Hh1.
  destruct (Subscribe_registers now topic subID (app (env c))) as (l & Hl & _).
  destruct (Subscribe now topic subID (app (env c))) as [h1 rl]. cbn [fst snd] in *. subst rl.
  intros H1 Hp. specialize (Hp l eq_refl). pose proof (loop_effect_ok turns l h1 Hh1 Hp) as Hh2.
  assert (forall h, hub_ok h -> topic_subs (Unsubscribe topic subID h).1 topic !! subID = None /\
    hub_ok (Unsubscribe topic subID h).1 /\ (Unsubscribe topic subID h).2 = Ok tt) as Hun.
  { intros h Hok. destruct (Unsubscribe_ok topic subID h Hok) as [Hok' Hr'].
    split; [|done]. destruct (topic_subs h topic !! subID) as [l'|] eqn:E.
    - by apply (Unsubscribe_closes topic subID h l').
    - destruct (Unsubscribe_spec topic subID h Hok) as [[_ ->]|(l' & ? & Hreg & _)]; [done|].
      unfold registered in Hreg. congruence. }
  unfold lift in H1. unfold hub_effect in H1. cbn [fst snd] in H1.
  destruct (write_result (subscribed_resp topic)) as [[]|x|x|].
  - destruct (loop_effect turns l h1) as [h2 r2]. cbn [fst] in Hh2. specialize (Hun h2 Hh2).
    destruct (Unsubscribe topic subID h2) as [h3 r3]. cbn [fst snd] in Hun. destruct Hun as (Hn & Hok & ->).
    injection H1 as -> _. done.
  - specialize (Hun h1 Hh1). destruct (Unsubscribe topic subID h1) as [h3 r3]. cbn [fst snd] in Hun.
    destruct Hun as (Hn & Hok & ->). injection H1 as -> _. done.
  - specialize (Hun h1 Hh1). destruct (Unsubscribe topic subID h1) as [h3 r3]. cbn [fst snd] in Hun.
    destruct Hun as (Hn & Hok & ->). injection H1 as -> _. done.
  - specialize (Hun h1 Hh1). destruct (Unsubscribe topic subID h1) as [h3 r3]. cbn [fst snd] in Hun.
    destruct Hun as (Hn & Hok & ->). injection H1 as -> _. done.
Qed.

(** A request without a payload panics the hub's handlers. *)
Lemma PublishHandler_nil_payload order ctx req e :
  Payload (FrameRequest req) = None -> (PublishHandler order ctx req e).2 = Panic PNilDeref.
Proof. intros H. unfold PublishHandler, request_topic. by rewrite H. Qed.
Lemma SubscribeHandler_nil_payload turns ctx req key c :
  Payload (FrameRequest req) = None -> (SubscribeHandler turns ctx req key c).2 = Panic PNilDeref.
Proof. intros H. unfold SubscribeHandler, request_topic. by rewrite H. Qed.
End handlers.

(** [Publish] in one go is the beginning followed by all its sends. *)
Lemma Publish_sends evt order : forall h,
  let h' := set_flights (flights h ++ [mkFlight evt order]) h in
  (hub_run (replicate (length order) (OpSend (length (flights h)))) h').1
  = mkHub (subscribers h) (fold_left (fun o l => alter (send_event evt) l o) order (objects h))
      (flights h ++ [mkFlight evt []]).
Proof.
  induction order as [|l order IH]; intros h; [done|]. cbn [length replicate hub_run hub_op fst].
  unfold publish_send. cbn [set_flights flights objects subscribers].
  rewrite list_lookup_middle by done. cbn [set_objects set_flights flights objects subscribers fold_left].
  rewrite insert_at_length. exact (IH (mkHub (subscribers h) (alter (send_event evt) l (objects h)) (flights h))).
Qed.

(** ** Witnesses *)

Definition demo_ops : list HubOp :=
  [OpSubscribe 0 "t" "a"; OpPublish 1 "t" None [1%positive]; OpSend 0; OpReceive 1%positive;
   OpPublish 2 "t" None [1%positive]; OpSend 1].

Lemma demo_ops_possible : run_possible demo_ops NewHub.
Proof. vm_compute. repeat split; reflexivity. Qed.

Lemma hub_never_panics_witness : (hub_run demo_ops NewHub).2 = Ok tt.
Proof.
  pose proof (hub_never_panics demo_ops demo_ops_possible) as H.
  destruct (hub_run demo_ops NewHub) as [h r]. exact (proj1 H).
Defined.

Lemma hub_delivery_witness :
  received 1%positive demo_ops NewHub = [mkEvent "t" None 1] /\
  received 1%positive demo_ops NewHub ++ waiting (hub_run demo_ops NewHub).1 1%positive
  = [mkEvent "t" None 1; mkEvent "t" None 2].
Proof.
  split; [vm_compute; reflexivity|].
  apply (proj2 (proj2 (hub_delivery demo_ops 1%positive demo_ops_possible))).
  intros n. do 7 (destruct n as [|n]; [vm_compute; lia|]). vm_compute. lia.
Defined.

Lemma second_subscription_witness :
  published 1%positive [OpPublish 3 "t" None [2%positive]; OpSend 0]
    (Subscribe 2 "t" "a" (hub_run [OpSubscribe 0 "t" "a"] NewHub).1).1 = [].
Proof.
  apply (second_subscription [OpSubscribe 0 "t" "a"] 2 "t" "a" 1%positive
    [OpPublish 3 "t" None [2%positive]; OpSend 0]).
  - vm_compute. repeat split.
  - vm_compute. reflexivity.
  - vm_compute. repeat split; reflexivity.
Defined.

Definition hub_env : Env Hub := mkEnv (fun _ => 7) 0 (reader_of []) ∅ ∅ (mkStore demo_config ∅) 0 [] NewHub.
Definition live_conn : Conn Hub := mkConn hub_env (reader_of []) empty_writer false.
(** A connection on which every write fails. *)
Definition dead_conn : Conn Hub := mkConn hub_env (reader_of []) (mkWriter [] (Some (0%nat, io_EOF))) false.
Definition subscribe_req : SrvRequest :=
  mkSrvRequest (mkRequest 1 (Some [mkEntry "topic" (tlv_String "t")])) 9 "".
Definition demo_turns : list Turn :=
  [mkTurn [OpPublish 5 "t" (Some []) [1%positive]; OpSend 0] false 0; mkTurn [] true 0].

Lemma subscription_lifetime_witness :
  written (conn_out (SubscribeHandler demo_turns [] subscribe_req None live_conn).1) <> [] /\
  app (env (SubscribeHandler demo_turns [] subscribe_req None live_conn).1)
  = app (env (SubscribeHandler demo_turns [] subscribe_req None dead_conn).1) /\
  topic_subs (app (env (SubscribeHandler demo_turns [] subscribe_req None live_conn).1)) "t" !! "t:9" = None.
Proof.
  split; [vm_compute; discriminate|].
  pose proof (subscription_lifetime demo_turns [] subscribe_req None None live_conn dead_conn "t"
    eq_refl ltac:(discriminate) eq_refl eq_refl) as H.
  destruct (SubscribeHandler demo_turns [] subscribe_req None live_conn) as [d r].
  destruct (SubscribeHandler demo_turns [] subscribe_req None dead_conn) as [d' r'].
  destruct H as (H1 & _ & H2). split; [exact H1|].
  refine (proj1 (H2 hub_ok_new _)). intros l Hl. vm_compute in Hl. injection Hl as <-.
  vm_compute. repeat split; reflexivity.
Defined.
