(* ===== verification/Conversation.v ===== *)
(** * A whole conversation over TCP

    A client that dials and makes a list of calls, and the server's goroutine
    for its connection, run against each other: what each writes is what the
    other reads. *)

From S2P Require Import Prelude GoRt Varint Tlv TlvSpec TlvDecode TlvSafe Crypto Frame Transport Address FrameFacts FrameClaims Session SessionFacts Negotiate NegotiateFacts RateLimit Media Handler Server ServerFacts Pipeline Client EndToEnd.

Section conversation.
Context `{L : CryptoLaws}.

(** ** The client *)

(** A program that makes the calls [reqs], one after the other. *)
Fixpoint calls (reqs : list (Z * option Map)) : M Client (list Response) :=
  match reqs with
  | [] => mret []
  | (opcode, payload) :: reqs => r ← Do opcode payload; rs ← calls reqs; mret (r :: rs)
  end.

(** The requests as the server sees them, numbered from [n + 1]. *)
Fixpoint numbered (n : Z) (reqs : list (Z * option Map)) : list (Request * Z) :=
  match reqs with
  | [] => []
  | (opcode, payload) :: reqs =>
      let n := wrapU 32 (n + 1) in (norm_request (mkRequest opcode payload), n) :: numbered n reqs
  end.

(** The frames of the requests, under the client's [nonces]. *)
Fixpoint request_frames (key : option (list byte)) (n : Z) (reqs : list (Z * option Map))
  (nonces : list (list byte)) : list (list byte) :=
  match reqs, nonces with
  | (opcode, payload) :: reqs, nonce :: nonces =>
      let n := wrapU 32 (n + 1) in
      frame_bytes n (envelope key nonce (request_bytes (mkRequest opcode payload)))
        :: request_frames key n reqs nonces
  | _, _ => []
  end.

Definition calls_fit (key : option (list byte)) (reqs : list (Z * option Map)) : Prop :=
  Forall (fun '(opcode, payload) => request_fits key (mkRequest opcode payload)) reqs.

Lemma request_frames_requests key reqs : forall nonces n,
  calls_fit key reqs -> key_ok key -> length nonces = length reqs ->
  Forall (fun nc => len nc = NonceSize) nonces ->
  Forall2 (requests key) (numbered n reqs) (request_frames key n reqs nonces).
Proof.
  induction reqs as [|[op p] reqs IH]; intros [|nc nonces] n Hf Hk Hlen Hn; [constructor|done|done|].
  apply list.Forall_cons in Hf as [Hf1 Hf], Hn as [Hn1 Hn]. cbn [numbered request_frames].
  injection Hlen as Hlen. constructor; [|by apply IH].
  apply frame_requests; try done. apply wrapU_range; lia.
Qed.

Lemma length_numbered n reqs : length (numbered n reqs) = length reqs.
Proof. revert n. induction reqs as [|[op p] reqs IH]; intros n; cbn; [done|by rewrite IH]. Qed.

(** All calls on a connection whose peer answers with [bufs]. *)
Lemma calls_ready l rest er re rnd reqs : forall nonces outs bufs c w sess,
  ready c l (mkStream (mkReader (concat bufs ++ rest) er) w) sess ->
  calls_fit (SKey sess) reqs -> key_ok (SKey sess) -> failing w = None ->
  length nonces = length reqs -> Forall (fun nc => len nc = NonceSize) nonces ->
  crandom c = mkReader (concat (map (nonce_used (SKey sess)) nonces) ++ rnd) re ->
  Forall2 (fun '(r, seq) buf => carries (SKey sess) seq r buf) outs bufs ->
  map snd outs = map snd (numbered (cseq c) reqs) ->
  exists c' sess', calls reqs c = (c', Ok (map (fun '(r, seq) => norm_response seq r) outs)) /\
    ready c' l (mkStream (mkReader rest er)
      (mkWriter (written w ++ concat (request_frames (SKey sess) (cseq c) reqs nonces)) None)) sess' /\
    SKey sess' = SKey sess.
Proof.
  induction reqs as [|[op p] reqs IH]; intros [|nc nonces] outs bufs c w sess Hr Hf Hk Hw Hlen Hn Hrnd Hout Hseq;
    try done.
  - destruct outs; [|done]. inversion Hout; subst. exists c, sess. split; [done|]. split; [|done].
    cbn in Hr |- *. rewrite app_nil_r. destruct w as [w f]. cbn in Hw. by subst f.
  - cbn [numbered map] in Hseq. destruct outs as [|[r sq] outs]; [done|]. cbn [map snd] in Hseq.
    injection Hseq as Hsq Hseq. inversion Hout as [|? buf ? bufs' Hb Hbs]; subst.
    apply list.Forall_cons in Hf as [Hf1 Hf], Hn as [Hn1 Hn]. injection Hlen as Hlen.
    cbn [concat map] in Hr, Hrnd. rewrite <-app_assoc in Hr, Hrnd.
    destruct (doTCP_ready c l w (concat bufs' ++ rest) er sess op p nc _ re r buf Hr Hf1 Hk Hn1 Hw Hrnd Hb)
      as (c1 & HDo & Hc1 & Hrnd1 & Hr1).
    cbn [calls]. unfold mbind at 1, M_bind at 1. rewrite HDo.
    rewrite <-Hc1 in Hseq.
    destruct (IH nonces outs bufs' c1 _ _ Hr1 Hf Hk eq_refl Hlen Hn Hrnd1 Hbs Hseq)
      as (c' & sess' & Hcalls & Hr' & Hk').
    unfold mbind, M_bind. rewrite Hcalls. exists c', sess'. split; [done|]. split; [|done].
    cbn [SKey Session_Touch written] in Hr'. cbn [request_frames concat]. rewrite Hc1, <-app_assoc in Hr'. exact Hr'.
Qed.

(** The network takes the client to a server, who talks on [st]. *)
Definition tcp_reaches (net : Network) (host : string) (st : Stream) : Prop :=
  exists sock, net_Dial net (resolveHushAddr (ip_literal net) host) = Ok sock /\
    tls_Handshake net sock (default_protos (DefaultALPN net) empty_tls) = Ok st.

(** Dialing TCP, on a connection whose server answers the handshake. *)
Lemma dialTCP_ready net host c b rnd re k0 spub sid rest er w shared k :
  tcp_reaches net host (mkStream (mkReader ((spub ++ be_put 8 sid) ++ rest) er) w) ->
  Client.addr c = resolveHushAddr (ip_literal net) host -> ctls c = Some empty_tls ->
  mode c = TransportTCP -> len b = 32 -> crandom c = mkReader (b ++ rnd) re -> apiKey c = k0 ->
  failing w = None -> len spub = PubKeySize -> in_uint 64 sid = true ->
  SharedSecret b spub = Ok shared -> DeriveSessionKey shared (client_secret k0) = Ok k ->
  exists c' l, dialTCP net c = (c', Ok tt) /\
    ready c' l (mkStream (mkReader rest er)
      (mkWriter (written w ++ client_hello k0 (x25519_Public b)) None))
      (NewSession (clock c (cticks c)) sid (client_id k0) (Some k)) /\
    crandom c' = mkReader rnd re /\ cseq c' = cseq c.
Proof.
  intros (sock & Hnet & Htls) Haddr Hcfg Hm Hb Hrnd Hk0 Hw Hsp Hsid Hsh Hk.
  unfold dialTCP, new_wire, catch, client_keypair, GenerateKeyPair, CNow, get, lift, modify, mbind, M_bind, on_tcp.
  rewrite Haddr, Hcfg. unfold transport_DialTCP. rewrite Hnet. cbn [wrap_err from_option id]. rewrite Htls.
  cbn [wrap_err snd set_wires crandom]. rewrite Hrnd, ReadFull_app by done.
  cbn [set_crandom set_wires apiKey wires clock cticks mode qconn tcpConn csess cseq dialed crandom].
  rewrite lookup_insert_eq, Hk0.
  rewrite (client_accepts _ k0 b spub sid rest er w shared k) by done. cbn [set_conns].
  eexists _, _. split; [reflexivity|]. split; [|done].
  unfold ready. cbn [set_conns set_wires mode dialed tcpConn csess wires]. split_and!; try done.
  apply lookup_insert_eq.
Qed.

(** ** The server *)

Lemma derived_key_ok shared secret k : DeriveSessionKey shared secret = Ok k -> key_ok (Some k).
Proof. intros Hk%DeriveSessionKey_len. cbn. unfold valid_key. rewrite Hk. vm_compute. auto. Qed.

Context {A : Type}.
Implicit Types (s : Server A) (e : Env A).

Lemma answers_seq table sess rs : forall a : A, map snd (answers table sess rs a).2 = map snd rs.
Proof.
  induction rs as [|[q sq] rs IH]; intros a; [done|]. cbn [answers].
  destruct (answer table _ a) as [a1 r]. specialize (IH a1).
  destruct (answers table sess rs a1) as [a2 out]. cbn in *. by rewrite IH.
Qed.

Lemma conn_negotiate_ok s e k0 pub rest er w closed shared k :
  shared_key (keyStore s) k0 -> failing w = None -> len pub = PubKeySize ->
  SharedSecret (serverPriv s) pub = Ok shared -> DeriveSessionKey shared (client_secret k0) = Ok k ->
  let sid := wrapU 64 (nextID e + 1) in
  conn_negotiate s (mkConn e (mkReader (client_hello k0 pub ++ rest) er) w closed)
  = (mkConn (Now (set_nextID sid e)).1 (mkReader rest er)
       (mkWriter (written w ++ x25519_Public (serverPriv s) ++ be_put 8 sid) None) closed,
     Ok (NewSession (oracle e (ticks e)) sid (client_id k0) (Some k))).
Proof.
  intros Hks Hw Hp Hs Hk sid. unfold conn_negotiate. cbn [env conn_in conn_out conn_closed].
  by rewrite (server_accepts next_session _ (serverPriv s) (keyStore s) k0 pub rest er w (nextID e) sid sid shared k).
Qed.

Lemma file_session_eq sess e :
  let l := fresh (dom (sheap e)) in
  file_session sess e
  = (set_sessions (<[l := sess]> (sheap e)) (mkStore (config (sstore e)) (<[ID sess := l]> (sessions (sstore e)))) e,
     Ok l).
Proof. intros l. unfold file_session, Store_Set, load. fold l. by rewrite lookup_insert_eq. Qed.

(** [never_dead] depends on the clock and on the configuration only. *)
Lemma never_dead_env e e' sess :
  oracle e' = oracle e -> config (sstore e') = config (sstore e) -> never_dead e sess -> never_dead e' sess.
Proof.
  intros Ho Hc H i. unfold IsExpired, IsIdleDead in *. rewrite Ho, Hc. apply (H i).
Qed.

(** The whole goroutine, on a hello and the requests that follow it. *)
Lemma handleTCPConnection_serves s table e ctx addr k0 pub rs frames nonces rnd er w closed shared k fuel :
  shared_key (keyStore s) k0 -> failing w = None -> len pub = PubKeySize ->
  SharedSecret (serverPriv s) pub = Ok shared -> DeriveSessionKey shared (client_secret k0) = Ok k ->
  let sid := wrapU 64 (nextID e + 1) in
  let sess := NewSession (oracle e (ticks e)) sid (client_id k0) (Some k) in
  serves s table -> fits_all table (Some k) -> never_dead e sess ->
  Forall2 (requests (Some k)) rs frames -> length nonces = length rs ->
  Forall (fun nc => len nc = NonceSize) nonces -> random e = mkReader (concat nonces ++ rnd) er ->
  (length rs < fuel)%nat ->
  let '(a, out) := answers table sess rs (app e) in
  exists bufs c', handleTCPConnection fuel s (fun _ => false) ctx TLSConn addr
      (mkConn e (mkReader (client_hello k0 pub ++ concat frames) io_EOF) w closed) = (c', Ok tt) /\
    Forall2 (fun '(r, seq) buf => carries (Some k) seq r buf) out bufs /\
    conn_out c' = mkWriter (written w ++ (x25519_Public (serverPriv s) ++ be_put 8 sid) ++ concat bufs) None /\
    app (env c') = a /\ sessions (sstore (env c')) !! sid = None.
Proof.
  intros Hks Hw Hp Hs Hk sid sess Hserves Hfit Hlive Hfr Hlen Hnon Hrnd Hfuel.
  destruct (answers table sess rs (app e)) as [a out] eqn:Ha.
  unfold handleTCPConnection. unfold mbind at 1, M_bind at 1, attempt.
  rewrite (conn_negotiate_ok s e k0 pub (concat frames) io_EOF w closed shared k) by done. fold sid. fold sess.
  unfold mbind at 1, M_bind at 1, on_env at 1. cbn [env conn_in conn_out conn_closed].
  rewrite file_session_eq. set (e1 := (Now (set_nextID sid e)).1). set (l := fresh (dom (sheap e1))).
  set (e2 := set_sessions _ _ e1). unfold deferring. set (c2 := mkConn e2 _ _ closed).
  unfold mbind at 1, M_bind at 1. edestruct (keeps_logf s LevelInfo) as (e3 & Hlog & Hke & Happ & Hr).
  rewrite Hlog. clear Hlog. destruct Hke as (Ho & Hh & Hst & _).
  pose proof (tcp_loop_app s table ctx l addr rnd er rs frames nonces fuel 0 ctx sess (with_env e3 c2)) as Hloop.
  cbn [with_env env conn_in conn_out c2] in Hloop, Ho, Hh, Hst, Happ, Hr.
  rewrite Happ in Hloop. change (app e2) with (app e) in Hloop. rewrite Ha in Hloop.
  destruct Hloop as (bufs & c' & Hrun & Hb & Hout & Happ'); try done.
  - by eapply derived_key_ok.
  - rewrite Hh. apply lookup_insert_eq.
  - apply (never_dead_env e); [by rewrite Ho|by rewrite Hst|done].
  - rewrite Hr. cbn [random e2 e1 set_sessions Now fst set_nextID]. rewrite Hrnd. f_equal. f_equal. f_equal.
    symmetry. apply map_id.
  - rewrite Hrun. eexists bufs, _. split; [reflexivity|]. split; [done|].
    cbn [on_env unfile_session fst env conn_out set_sessions app sstore Store_Delete sessions].
    split; [|split; [done|apply lookup_delete_eq]].
    rewrite Hout. cbn [written]. by rewrite <-!app_assoc.
Qed.

(** C1. A whole conversation over TCP.  Let a client and a server share an API
    key (or the client have none), the server's handlers be functions of the
    application's state, and the requests and answers fit into frames.  Then
    there are two byte strings, what the client sends and what the server
    sends, such that the client, over any network that takes its address to a
    peer who sends the second, dials, makes all its calls and writes the first,
    and the server's goroutine, reading the first, ends normally having written
    the second; every call returns the answer of
    the handler of its opcode, in the state the calls before it left; and
    afterwards the application's state is that after the last call, and the
    store holds no session of the connection. *)
Theorem conversation s table e ctx addr clk host k0 b reqs nonces_c nonces_s rnd_c rnd_s er_c er_s shared k :
  let sid := wrapU 64 (nextID e + 1) in
  let sess := NewSession (oracle e (ticks e)) sid (client_id k0) (Some k) in
  shared_key (keyStore s) k0 -> len b = 32 ->
  SharedSecret (serverPriv s) (x25519_Public b) = Ok shared ->
  DeriveSessionKey shared (client_secret k0) = Ok k ->
  serves s table -> fits_all table (Some k) -> calls_fit (Some k) reqs -> never_dead e sess ->
  length nonces_c = length reqs -> Forall (fun nc => len nc = NonceSize) nonces_c ->
  length nonces_s = length reqs -> Forall (fun nc => len nc = NonceSize) nonces_s ->
  random e = mkReader (concat nonces_s ++ rnd_s) er_s ->
  let '(a, outs) := answers table sess (numbered 0 reqs) (app e) in
  exists up down c',
    handleTCPConnection (S (length reqs)) s (fun _ => false) ctx TLSConn addr
      (mkConn e (mkReader up io_EOF) empty_writer false) = (c', Ok tt) /\
    written (conn_out c') = down /\ app (env c') = a /\ sessions (sstore (env c')) !! sid = None /\
    forall net, tcp_reaches net host (mkStream (mkReader down io_EOF) empty_writer) -> exists c0 c l,
      DialTCP net clk (mkReader (b ++ concat nonces_c ++ rnd_c) er_c) host k0 [] = (c0, Ok tt) /\
      calls reqs c0 = (c, Ok (map (fun '(r, seq) => norm_response seq r) outs)) /\
      tcpConn c = Some l /\ wires c !! l = Some (TCPWire (mkStream (mkReader [] io_EOF) (mkWriter up None)) false).
Proof.
  intros sid sess Hks Hb Hsh Hk Hserves Hfit Hcalls Hlive Hlc Hnc Hls Hns Hrnd.
  pose proof (derived_key_ok _ _ _ Hk) as Hkok.
  pose proof (handleTCPConnection_serves s table e ctx addr k0 (x25519_Public b) (numbered 0 reqs)
    (request_frames (Some k) 0 reqs nonces_c) nonces_s rnd_s er_s empty_writer false shared k (S (length reqs)))
    as Hsrv. cbv zeta in Hsrv. fold sid sess in Hsrv.
  destruct (answers table sess (numbered 0 reqs) (app e)) as [a outs] eqn:Ha.
  destruct Hsrv as (bufs & c' & Hrun & Hbufs & Hout & Happ & Hgone); try done.
  { apply x25519_Public_len. }
  { by apply request_frames_requests. }
  { by rewrite length_numbered. }
  { rewrite length_numbered. lia. }
  eexists _, _, c'. split; [exact Hrun|]. split; [by rewrite Hout|]. split; [done|]. split; [done|].
  intros net Hnet.
  destruct (dialTCP_ready net host (set_ctls (Some empty_tls) (WithTransport TransportTCP
      (new_client net clk (mkReader (b ++ concat nonces_c ++ rnd_c) er_c) host k0))) b (concat nonces_c ++ rnd_c) er_c k0
      (x25519_Public (serverPriv s)) sid (concat bufs ++ []) io_EOF empty_writer shared k)
    as (c0 & l & Hdial & Hready & Hrnd0 & Hseq0); try done.
  { by rewrite app_nil_r. }
  { apply x25519_Public_len. }
  { apply wrapU_range. lia. }
  { unfold SharedSecret in *. by rewrite x25519_commutes. }
  destruct (calls_ready l [] io_EOF er_c rnd_c reqs nonces_c outs bufs c0 _ _ Hready)
    as (c & sess' & Hrun' & Hready' & _); try done.
  { rewrite Hrnd0. cbn [SKey NewSession nonce_used]. f_equal. f_equal. f_equal. symmetry. apply map_id. }
  { rewrite Hseq0. cbn [WithTransport set_ctls new_client cseq]. pose proof (answers_seq table sess (numbered 0 reqs) (app e)) as H.
    by rewrite Ha in H. }
  destruct Hready' as (_ & _ & Htcp & _ & Hwire). cbn [SKey NewSession] in Hwire.
  rewrite Hseq0 in Hwire. cbn [WithTransport set_ctls new_client cseq written empty_writer app] in Hwire.
  exists c0, c, l. split; [|split; [exact Hrun'|split; [exact Htcp|exact Hwire]]].
  unfold DialTCP, Dial, dial, get, modify, mbind, M_bind. cbn [fold_left WithTransport new_client ctls mode app]. exact Hdial.
Qed.
End conversation.

(** ** A conversation with the demo server: an anonymous client, three calls *)

Definition talk_env : Env Z := demo_env (sample_nonce ++ sample_nonce ++ sample_nonce).
Definition talk_reqs : list (Z * option Map) := [(1, None); (9, None); (1, None)].

Lemma talk_fits k : calls_fit (Some k) talk_reqs.
Proof. repeat constructor; vm_compute; discriminate. Qed.

Definition talk_network (down : list byte) : Network :=
  mkNetwork "hush/1" (fun _ _ => Err io_EOF) (fun _ => Ok 1) (fun _ _ => Ok (mkStream (mkReader down io_EOF) empty_writer))
    (fun _ => None).

Lemma conversation_witness :
  exists down c0 c responses,
    DialTCP (talk_network down) (fun _ => 5)
      (mkReader (demo_priv_b ++ sample_nonce ++ sample_nonce ++ sample_nonce) io_EOF) "hush://localhost" None [] = (c0, Ok tt) /\
    calls talk_reqs c0 = (c, Ok responses) /\
    map (fun r => (Status r, Seq r)) responses = [(StatusSuccess, 1); (StatusNotFound, 2); (StatusSuccess, 3)].
Proof.
  assert (exists shared, SharedSecret (serverPriv demo_server) (x25519_Public demo_priv_b) = Ok shared) as [shared Hsh]
    by (eexists; vm_compute; reflexivity).
  assert (exists k, DeriveSessionKey shared (client_secret None) = Ok k) as [k Hk]
    by (vm_compute in Hsh; injection Hsh as <-; eexists; vm_compute; reflexivity).
  pose proof (conversation demo_server demo_table talk_env [] "" (fun _ => 5) "hush://localhost" None demo_priv_b talk_reqs
    [sample_nonce; sample_nonce; sample_nonce] [sample_nonce; sample_nonce; sample_nonce] [] [] io_EOF io_EOF
    shared k I eq_refl Hsh Hk demo_serves (demo_fits_any _) (talk_fits k)
    ltac:(intros i; split_and!; vm_compute; reflexivity) eq_refl ltac:(repeat constructor) eq_refl
    ltac:(repeat constructor) eq_refl) as H.
  destruct (answers demo_table _ _ _) as [a outs] eqn:Ha. destruct H as (up & down & c' & _ & _ & _ & _ & H).
  destruct (H (talk_network down)) as (c0 & c & l & Hd & Hc & _); [by exists 1|].
  exists down, c0, c, (map (fun '(r, seq) => norm_response seq r) outs). split; [exact Hd|]. split; [exact Hc|].
  vm_compute in Ha. injection Ha as <- <-. vm_compute. reflexivity.
Defined.
