(* ===== verification/Crud.v ===== *)
(** * The notes example

    [src/examples/crud/main.go]: five handlers over a map of notes and the next
    identifier, each of which holds the mutex while it uses them. *)

From S2P Require Import Prelude GoRt Varint Tlv Crypto Frame Session RateLimit Media Handler Server.

(** The variables [notes] and [nextID]; and how often the program has ranged
    over [notes], since the runtime may choose another order each time. *)
Record Notes := mkNotes { notes : gmap Z string; noteID : Z; note_ranges : nat }.
Definition no_notes : Notes := mkNotes ∅ 1 0.
(** The order of each range over the map. *)
Definition Orders : Type := nat -> gmap Z string -> list (Z * string).

Definition bad_request (msg : string) : Response := ErrorResponse StatusBadRequest msg.
Definition note_not_found : Response := ErrorResponse StatusNotFound "note not found".
Definition ok_response (m : Map) : Response := NewResponse (Some m).

(** [r.Payload.GetString(key)] and [r.Payload.GetUint64(key)], dropping [ok]. *)
Definition payload_String (req : SrvRequest) (key : string) : res string :=
  p ← deref (Payload (FrameRequest req)); '(s, _) ← Map_GetString p key; mret s.
Definition payload_Uint64 (req : SrvRequest) (key : string) : res Z :=
  p ← deref (Payload (FrameRequest req)); '(n, _) ← Map_GetUint64 p key; mret n.

(** The critical sections. *)
Definition create_note (text : string) : M Notes Z := fun s =>
  let id := noteID s in
  (mkNotes (<[id := text]> (notes s)) (wrapU 64 (id + 1)) (note_ranges s), Ok id).
Definition get_note (id : Z) : M Notes (option string) := fun s => (s, Ok (notes s !! id)).
Definition update_note (id : Z) (text : string) : M Notes bool := fun s =>
  match notes s !! id with
  | Some _ => (mkNotes (<[id := text]> (notes s)) (noteID s) (note_ranges s), Ok true)
  | None => (s, Ok false)
  end.
Definition delete_note (id : Z) : M Notes bool := fun s =>
  (mkNotes (delete id (notes s)) (noteID s) (note_ranges s), Ok (bool_decide (is_Some (notes s !! id)))).

(** [for id, text := range notes] *)
Definition range_notes (order : Orders) : M Notes (list (Z * string)) := fun s =>
  (mkNotes (notes s) (noteID s) (S (note_ranges s)), Ok (order (note_ranges s) (notes s))).

(** 0x0001 *)
Definition CreateHandler : HandlerFunc Notes := fun ctx r =>
  text ← lift (payload_String r "text");
  if bool_decide (text = "") then mret (Some (bad_request "text required")) else
  id ← in_app (create_note text);
  mret (Some (ok_response (Map_Set NewMap "id" (tlv_Uint64 id)))).

(** 0x0002 *)
Definition note_value (note : Z * string) : Value :=
  MapValue (Map_Set (Map_Set NewMap "id" (tlv_Uint64 note.1)) "text" (tlv_String note.2)).
Definition ListHandler (order : Orders) : HandlerFunc Notes := fun ctx r =>
  l ← in_app (range_notes order);
  let arr := note_value <$> l in
  mret (Some (ok_response (Map_Set (Map_Set NewMap "notes" (tlv_Array arr))
    "count" (tlv_Uint64 (wrapU 64 (Z.of_nat (length arr))))))).

(** 0x0003 *)
Definition GetHandler : HandlerFunc Notes := fun ctx r =>
  id ← lift (payload_Uint64 r "id");
  if id =? 0 then mret (Some (bad_request "id required")) else
  text ← in_app (get_note id);
  match text with
  | None => mret (Some note_not_found)
  | Some text =>
      mret (Some (ok_response (Map_Set (Map_Set NewMap "id" (tlv_Uint64 id)) "text" (tlv_String text))))
  end.

(** 0x0004 *)
Definition UpdateHandler : HandlerFunc Notes := fun ctx r =>
  id ← lift (payload_Uint64 r "id");
  if id =? 0 then mret (Some (bad_request "id required")) else
  text ← lift (payload_String r "text");
  if bool_decide (text = "") then mret (Some (bad_request "text required")) else
  ok ← in_app (update_note id text);
  if negb ok then mret (Some note_not_found) else
  mret (Some (ok_response (Map_Set (Map_Set NewMap "id" (tlv_Uint64 id)) "updated" (tlv_Bool true)))).

(** 0x0005 *)
Definition DeleteHandler : HandlerFunc Notes := fun ctx r =>
  id ← lift (payload_Uint64 r "id");
  if id =? 0 then mret (Some (bad_request "id required")) else
  ok ← in_app (delete_note id);
  mret (Some (ok_response (Map_Set NewMap "deleted" (tlv_Bool ok)))).

(** [runServer]'s registrations. *)
Definition crud_handlers (order : Orders) (s : Server Notes) : Server Notes :=
  HandleFunc 5 DeleteHandler (HandleFunc 4 UpdateHandler (HandleFunc 3 GetHandler
    (HandleFunc 2 (ListHandler order) (HandleFunc 1 CreateHandler s)))).
