(* ===== verification/CrudFacts.v ===== *)
(** * The notes example: theorems

    The handlers answer as a log of the requests before them says. *)

From S2P Require Import Prelude GoRt Varint Tlv Crypto Frame Session SessionFacts RateLimit Media Handler Server Pipeline Crud.

(** ** The log *)

(** The requests of the example's client. *)
Inductive note_op := NCreate (text : string) | NList | NGet (id : Z) | NUpdate (id : Z) (text : string) | NDelete (id : Z).

Definition op_payload (o : note_op) : option Map :=
  match o with
  | NCreate text => Some (Map_Set NewMap "text" (tlv_String text))
  | NList => None
  | NGet id | NDelete id => Some (Map_Set NewMap "id" (tlv_Uint64 id))
  | NUpdate id text => Some (Map_Set (Map_Set NewMap "id" (tlv_Uint64 id)) "text" (tlv_String text))
  end.
Definition op_code (o : note_op) : Z :=
  match o with NCreate _ => 1 | NList => 2 | NGet _ => 3 | NUpdate _ _ => 4 | NDelete _ => 5 end.
Definition op_request (o : note_op) : SrvRequest := mkSrvRequest (mkRequest (op_code o) (op_payload o)) 7 "".

(** Texts are not empty, identifiers not zero. *)
Definition op_ok (o : note_op) : Prop :=
  match o with
  | NCreate text => text <> ""
  | NList => True
  | NGet id | NDelete id => id <> 0
  | NUpdate id text => id <> 0 /\ text <> ""
  end.

(** A log, latest first: how many notes were created, and the text of a note. *)
Fixpoint created (h : list note_op) : Z :=
  match h with [] => 0 | NCreate _ :: h => created h + 1 | _ :: h => created h end.
Fixpoint text_of (h : list note_op) (id : Z) : option string :=
  match h with
  | [] => None
  | NCreate text :: h => if id =? created h + 1 then Some text else text_of h id
  | NUpdate id' text :: h => if id =? id' then (fun _ => text) <$> text_of h id else text_of h id
  | NDelete id' :: h => if id =? id' then None else text_of h id
  | _ :: h => text_of h id
  end.

(** The answer to [o] after the log [h]. *)
Definition id_field (id : Z) : Map := Map_Set NewMap "id" (tlv_Uint64 id).
Definition answered (h : list note_op) (o : note_op) (r : Response) : Prop :=
  match o with
  | NCreate _ => r = ok_response (id_field (created h + 1))
  | NGet id =>
      r = match text_of h id with
          | Some text => ok_response (Map_Set (id_field id) "text" (tlv_String text))
          | None => note_not_found
          end
  | NUpdate id _ =>
      r = match text_of h id with
          | Some _ => ok_response (Map_Set (id_field id) "updated" (tlv_Bool true))
          | None => note_not_found
          end
  | NDelete id => r = ok_response (Map_Set NewMap "deleted" (tlv_Bool (bool_decide (is_Some (text_of h id)))))
  | NList => exists l, NoDup l.*1 /\ (forall id text, (id, text) ∈ l <-> text_of h id = Some text) /\
      r = ok_response (Map_Set (Map_Set NewMap "notes" (tlv_Array (note_value <$> l)))
            "count" (tlv_Uint64 (wrapU 64 (Z.of_nat (length l)))))
  end.

(** ** The server *)

(** A request to the registered handler of its opcode. *)
Definition call (s : Server Notes) (ctx : Ctx) (req : SrvRequest) : M (Env Notes) (option Response) :=
  match handlers s !! Opcode (FrameRequest req) with
  | Some h => HandleHush h ctx req
  | None => mret None
  end.
Fixpoint call_all (s : Server Notes) (ctx : Ctx) (os : list note_op) : M (Env Notes) (list (option Response)) :=
  match os with
  | [] => mret []
  | o :: os => r ← call s ctx (op_request o); rs ← call_all s ctx os; mret (r :: rs)
  end.

(** All answers, each after the log of what came before it. *)
Fixpoint all_answered (h : list note_op) (os : list note_op) (rs : list (option Response)) : Prop :=
  match os, rs with
  | [], [] => True
  | o :: os, Some r :: rs => answered h o r /\ all_answered (o :: h) os rs
  | _, _ => False
  end.

(** The state after a log. *)
Definition agrees (h : list note_op) (s : Notes) : Prop :=
  noteID s = created h + 1 /\ (forall id, notes s !! id = text_of h id) /\
  (forall id text, text_of h id = Some text -> 1 <= id <= created h).

Lemma agrees_new : agrees [] no_notes.
Proof. split; [done|]. split; [intros id; apply lookup_empty|done]. Qed.

Lemma created_nonneg h : 0 <= created h.
Proof. induction h as [|[] h IH]; cbn; lia. Qed.
Lemma created_length h : created h <= Z.of_nat (length h).
Proof. induction h as [|[] h IH]; cbn [created length]; lia. Qed.

Lemma agrees_create h s text : agrees h s -> created h + 2 < 2 ^ 64 ->
  agrees (NCreate text :: h) (create_note text s).1.
Proof.
  intros (Hid & Hn & Hr) Hmax. pose proof (created_nonneg h). split_and!.
  - cbn [create_note fst noteID created]. rewrite Hid. apply wrapU_small. lia.
  - intros id. cbn [create_note fst notes text_of]. rewrite Hid.
    destruct (Z.eqb_spec id (created h + 1)) as [->|Hne]; [by rewrite lookup_insert_eq|by rewrite lookup_insert_ne].
  - intros id t. cbn [text_of created]. destruct (Z.eqb_spec id (created h + 1)); [lia|]. intros H1%Hr. lia.
Qed.

Lemma agrees_update h s id text : agrees h s -> agrees (NUpdate id text :: h) (update_note id text s).1.
Proof.
  intros (Hid & Hn & Hr). unfold update_note. rewrite Hn.
  destruct (text_of h id) as [t|] eqn:E; cbn [fst]; (split_and!; [done|..]); intros id'; cbn [notes text_of created].
  - destruct (Z.eqb_spec id' id) as [->|Hne]; [by rewrite lookup_insert_eq, E|by rewrite lookup_insert_ne].
  - intros t'. destruct (Z.eqb_spec id' id) as [->|Hne]; [|apply Hr]. intros _. by eapply Hr.
  - rewrite Hn. destruct (Z.eqb_spec id' id) as [->|Hne]; [by rewrite E|done].
  - intros t'. destruct (Z.eqb_spec id' id) as [->|Hne]; [by rewrite E|apply Hr].
Qed.

Lemma agrees_delete h s id : agrees h s -> agrees (NDelete id :: h) (delete_note id s).1.
Proof.
  intros (Hid & Hn & Hr). split_and!; [done|..]; intros id'; cbn [delete_note fst notes text_of created].
  - destruct (Z.eqb_spec id' id) as [->|Hne]; [by rewrite lookup_delete_eq|by rewrite lookup_delete_ne].
  - intros t'. destruct (Z.eqb_spec id' id) as [->|Hne]; [done|apply Hr].
Qed.

Section facts.
Context (order : Orders) (Horder : forall n m, order n m ≡ₚ map_to_list m).
Let srv : Server Notes := crud_handlers order empty_server.

Lemma in_app_eq {B} (m : M Notes B) e : exists e',
  in_app m e = (e', (m (app e)).2) /\ app e' = (m (app e)).1.
Proof. unfold in_app. destruct (m (app e)) as [a r]. by eexists. Qed.

Lemma call_answers ctx h o e :
  agrees h (app e) -> op_ok o -> created h + 2 < 2 ^ 64 ->
  exists e' r, call srv ctx (op_request o) e = (e', Ok (Some r)) /\ answered h o r /\ agrees (o :: h) (app e').
Proof.
  intros Hag Hok Hmax. pose proof Hag as (Hid & Hn & Hr).
  destruct o as [text| |id|id text|id]; unfold call, op_request; cbn [FrameRequest Opcode op_code op_payload];
    unfold srv, crud_handlers, HandleFunc, Handle, set_handler; cbn [handlers];
    repeat (first [rewrite lookup_insert_eq|rewrite lookup_insert_ne by discriminate]);
    cbn [wrap_handler middlewares empty_server rev fold_left HandleHush].
  - unfold CreateHandler, lift, mbind, M_bind. change (payload_String _ _) with (@Ok string text). cbn match.
    rewrite bool_decide_false by done.
    destruct (in_app_eq (create_note text) e) as (e' & -> & Ha).
    eexists e', _. split; [reflexivity|]. split; [cbn; by rewrite Hid|]. rewrite Ha. by apply agrees_create.
  - unfold ListHandler, mbind, M_bind.
    destruct (in_app_eq (range_notes order) e) as (e' & -> & Ha). cbn [range_notes snd fst] in *.
    eexists e', _. split; [reflexivity|]. split; [|by rewrite Ha].
    exists (order (note_ranges (app e)) (notes (app e))). split_and!.
    + rewrite Horder. apply NoDup_fst_map_to_list.
    + intros id t. rewrite Horder, elem_of_map_to_list. by rewrite Hn.
    + by rewrite length_fmap.
  - unfold GetHandler, lift, mbind, M_bind. change (payload_Uint64 _ _) with (@Ok Z id). cbn match. cbn in Hok.
    rewrite (proj2 (Z.eqb_neq id 0)) by done.
    destruct (in_app_eq (get_note id) e) as (e' & -> & Ha). cbn [get_note snd fst] in *. rewrite Hn.
    destruct (text_of h id) as [t|] eqn:E; eexists e', _; (split; [reflexivity|]);
      (split; [cbn; by rewrite E|by rewrite Ha]).
  - unfold UpdateHandler, lift, mbind, M_bind. change (payload_Uint64 _ _) with (@Ok Z id). cbn match.
    destruct Hok as [Hi Ht]. rewrite (proj2 (Z.eqb_neq id 0)) by done.
    change (payload_String _ _) with (@Ok string text). cbn match. rewrite bool_decide_false by done.
    pose proof (agrees_update h (app e) id text Hag) as Hup.
    destruct (in_app_eq (update_note id text) e) as (e' & -> & Ha). rewrite <-Ha in Hup. unfold update_note.
    rewrite Hn. destruct (text_of h id) as [t|] eqn:E; cbn [snd negb]; eexists e', _; (split; [reflexivity|]);
      (split; [cbn; by rewrite E|done]).
  - unfold DeleteHandler, lift, mbind, M_bind. change (payload_Uint64 _ _) with (@Ok Z id). cbn match. cbn in Hok.
    rewrite (proj2 (Z.eqb_neq id 0)) by done. pose proof (agrees_delete h (app e) id Hag) as Hdel.
    destruct (in_app_eq (delete_note id) e) as (e' & -> & Ha). rewrite <-Ha in Hdel. cbn [delete_note snd]. rewrite Hn.
    by eexists e', _.
Qed.

Lemma call_all_answers ctx os : forall h e,
  agrees h (app e) -> Forall op_ok os -> Z.of_nat (length (rev os ++ h)) < 2 ^ 64 - 1 ->
  exists e' rs, call_all srv ctx os e = (e', Ok rs) /\ all_answered h os rs /\ agrees (rev os ++ h) (app e').
Proof.
  induction os as [|o os IH]; intros h e Ha Hok Hlen; [by exists e, []|].
  apply list.Forall_cons in Hok as [Ho Hok]. cbn [rev] in Hlen |- *. rewrite <-!app_assoc in *.
  change ([o] ++ h) with (o :: h) in *.
  destruct (call_answers ctx h o e Ha Ho) as (e1 & r & Hc & Hr & Ha1).
  { pose proof (created_length h). rewrite length_app in Hlen. cbn [length] in Hlen. lia. }
  destruct (IH (o :: h) e1 Ha1 Hok Hlen) as (e2 & rs & Hcs & Hrs & Ha2).
  exists e2, (Some r :: rs). cbn [call_all]. unfold mbind, M_bind. rewrite Hc, Hcs. done.
Qed.
End facts.

(** C14. The notes server refines a log: in every sequence of well-formed
    requests to a new server, fewer than 2^64 - 1, each answer is the one the
    requests before it call for: identifiers are given out in order and never
    again, a note has the text of the latest of its creation and updates until
    it is deleted, updates and deletions of other identifiers change nothing,
    and a listing has every live note once, in whatever order the runtime
    ranges over the map each time. *)
Theorem notes_refine_log order ctx os (e : Env Notes) :
  (forall n m, order n m ≡ₚ map_to_list m) -> Forall op_ok os -> Z.of_nat (length os) < 2 ^ 64 - 1 ->
  app e = no_notes ->
  exists e' rs, call_all (crud_handlers order empty_server) ctx os e = (e', Ok rs) /\ all_answered [] os rs.
Proof.
  intros Ho Hok Hlen He. destruct (call_all_answers order Ho ctx os [] e) as (e' & rs & Hc & Hr & _); try done.
  - rewrite He. apply agrees_new.
  - by rewrite app_nil_r, length_rev.
  - by exists e', rs.
Qed.

Lemma notes_refine_log_witness :
  exists e' rs, call_all (crud_handlers (fun _ => map_to_list) empty_server) []
      [NCreate "a"; NCreate "b"; NUpdate 1 "c"; NDelete 2; NGet 1; NGet 2]
      (mkEnv (fun _ => 0) 0 (reader_of []) ∅ ∅ (mkStore demo_config ∅) 0 [] no_notes) = (e', Ok rs) /\
    rs !! 4%nat = Some (Some (ok_response (Map_Set (id_field 1) "text" (tlv_String "c")))) /\
    rs !! 5%nat = Some (Some note_not_found).
Proof.
  destruct (notes_refine_log (fun _ => map_to_list) [] [NCreate "a"; NCreate "b"; NUpdate 1 "c"; NDelete 2; NGet 1; NGet 2]
    (mkEnv (fun _ => 0) 0 (reader_of []) ∅ ∅ (mkStore demo_config ∅) 0 [] no_notes))
    as (e' & rs & Hc & Hr).
  - done.
  - repeat constructor; discriminate.
  - cbn. lia.
  - done.
  - exists e', rs. split; [exact Hc|].
    do 6 (destruct rs as [|[?|] rs]; try (exfalso; cbn in Hr; tauto); cbn [all_answered] in Hr).
    destruct Hr as (_ & _ & _ & _ & H4 & H5 & _). cbn in H4, H5 |- *. subst. done.
Defined.
