(* ===== verification/Logger.v ===== *)
(** * The terminal logger

    [src/server/logger.go]: a [log.Logger] over a writer that colours the level
    of each line.  [stderr] is a writer; the clock and the offset of local time
    are arguments. *)

From Stdlib Require Import Ascii.
From S2P Require Import Prelude GoRt Fmt.

Definition esc (s : string) : string := String (ascii_of_nat 27) s.
Definition reset : string := esc "[0m".
Definition dim : string := esc "[90m".
Definition blue : string := esc "[34m".
Definition yellow : string := esc "[33m".
Definition red : string := esc "[31m".

Definition colorForLevel (level : string) : string :=
  if bool_decide (level = "INF") then blue
  else if bool_decide (level = "WRN") then yellow
  else if bool_decide (level = "ERR") || bool_decide (level = "FTL") then red
  else reset.

(** [for i := 1; i < len(p); i++ { if p[i] == ']' { end = i; break } }], from
    index [i] on; -1 if there is none. *)
Fixpoint find_end (p : list byte) (i : Z) : Z :=
  match p with
  | [] => -1
  | b :: p => if byteZ b =? 93 then i else find_end p (i + 1)
  end.

Definition parseLevel (p : list byte) : res (string * string) :=
  match p with
  | c :: p' =>
      if (len p <? 6) || negb (byteZ c =? 91) then Ok ("", string_of p) else
      let last := find_end p' 1 in
      if (last <? 0) || (len p <=? last + 2) then Ok ("", string_of p) else
      level ← slice p 1 last;
      msg ← slice p (last + 2) (len p);
      Ok (string_of level, string_of msg)
  | [] => Ok ("", "")
  end.

(** [colorWriter]: the tag and the writer behind it. *)
Record colorWriter := mkColorWriter { cw_tag : string; cw_out : Writer }.

Definition log_line (tag ts level msg : string) : string :=
  let tagPart := if bool_decide (tag = "") then "" else " [" +:+ dim +:+ tag +:+ reset +:+ "]" in
  dim +:+ ts +:+ reset +:+ tagPart +:+ " " +:+ colorForLevel level +:+ "[" +:+ level +:+ "]" +:+ reset
    +:+ " " +:+ msg.

(** [Write] reports all of [p] written, whatever the writer behind it says. *)
Definition colorWriter_Write (zone : Z) (now : Time) (p : list byte) : M colorWriter Z := fun cw =>
  let ts := time_of_day zone now in
  match parseLevel p with
  | Ok (level, msg) =>
      (mkColorWriter (cw_tag cw) (WriterWrite (bytes_of (log_line (cw_tag cw) ts level msg)) (cw_out cw)).1,
       Ok (len p))
  | Err x => (cw, Err x) | Panic x => (cw, Panic x) | OutOfFuel => (cw, OutOfFuel)
  end.

Definition NewLogger (tag : string) (stderr : Writer) : colorWriter := mkColorWriter tag stderr.

(** [log.Logger.Printf] without prefix and flags: one write of the formatted
    line, with a newline at its end; errors of the writer are dropped. *)
Fixpoint ensure_newline (s : string) : string :=
  match s with
  | EmptyString => nl
  | String c EmptyString => if bool_decide (c = ascii_of_nat 10) then s else String c nl
  | String c s => String c (ensure_newline s)
  end.
Definition Logger_Printf (zone : Z) (now : Time) (fmt : string) (args : list arg) : M colorWriter unit :=
  _ ← colorWriter_Write zone now (bytes_of (ensure_newline (Sprintf fmt args)));
  mret tt.

(** ** Theorems *)

Lemma find_end_range p : forall i, 0 <= i -> find_end p i = -1 \/ i <= find_end p i < i + len p.
Proof.
  induction p as [|b p IH]; intros i Hi; cbn [find_end]; [by left|]. rewrite len_cons.
  pose proof (len_nonneg p). destruct (byteZ b =? 93); [right; lia|].
  specialize (IH (i + 1) ltac:(lia)). destruct IH as [->|]; [by left|right; lia].
Qed.

Lemma find_end_app l c p i :
  Forall (fun b => byteZ b <> 93) l -> byteZ c = 93 -> find_end (l ++ c :: p) i = i + len l.
Proof.
  intros Hl Hc. revert i. induction Hl as [|b l Hb Hl IH]; intros i; cbn [app find_end].
  - rewrite Hc, Z.eqb_refl, len_nil. lia.
  - rewrite (proj2 (Z.eqb_neq _ _)) by done. rewrite IH, len_cons. lia.
Qed.

Lemma find_end_inv p : forall i, find_end p i <> -1 -> 0 <= i ->
  exists l c k, p = l ++ c :: k /\ byteZ c = 93 /\ find_end p i = i + len l /\ Forall (fun b => byteZ b <> 93) l.
Proof.
  induction p as [|b p IH]; intros i Hne Hi; [done|]. cbn [find_end] in *.
  destruct (Z.eqb_spec (byteZ b) 93) as [Hb|Hb].
  - exists [], b, p. rewrite len_nil. split_and!; [done|done|lia|constructor].
  - destruct (IH (i + 1) Hne) as (l & c & k & -> & Hc & Hf & Hl); [lia|].
    exists (b :: l), c, k. rewrite Hf, len_cons. split_and!; [done|done|lia|by constructor].
Qed.

(** The bytes of a line as the server writes it: "[level] message". *)
Definition level_line (level msg : list byte) : list byte := Zbyte 91 :: level ++ Zbyte 93 :: Zbyte 32 :: msg.

Lemma parse_between a level c d msg :
  byteZ a = 91 -> byteZ c = 93 -> Forall (fun b => byteZ b <> 93) level -> msg <> [] ->
  6 <= len (a :: level ++ c :: d :: msg) ->
  parseLevel (a :: level ++ c :: d :: msg) = Ok (string_of level, string_of msg).
Proof.
  intros Ha Hc Hl Hm Hlen. unfold parseLevel. rewrite Ha. rewrite (proj2 (Z.ltb_ge _ _)) by done. cbn [negb orb Z.eqb Pos.eqb].
  rewrite find_end_app by done. pose proof (len_nonneg level).
  assert (0 < len msg) by (destruct msg; [done|rewrite len_cons; pose proof (len_nonneg msg); lia]).
  assert (len (a :: level ++ c :: d :: msg) = 1 + len level + 2 + len msg) as Htot
    by (rewrite len_cons, len_app, !len_cons; lia).
  rewrite Htot, (proj2 (Z.ltb_ge _ _)), (proj2 (Z.leb_gt _ _)) by lia. cbn [orb].
  rewrite slice_ok by lia. cbn [mbind res_bind].
  rewrite slice_ok by lia. cbn [mbind res_bind].
  replace (Z.to_nat (1 + len level - 1)) with (length level) by (unfold len; lia).
  replace (Z.to_nat (1 + len level + 2)) with (S (length level + 2)) by (unfold len; lia).
  replace (Z.to_nat 1) with 1%nat by done. cbn [drop]. rewrite drop_0, take_app_length.
  rewrite drop_app_ge by lia. replace (length level + 2 - length level)%nat with 2%nat by lia. cbn [drop].
  rewrite drop_0, take_ge; [done|]. unfold len in *. lia.
Qed.

(** The logger understands what the server logs, and never alters a
    message: a line "[level] message" is split into its level and its message;
    whatever the line, parsing returns, and either nothing is taken off or the
    line is "[level]", one byte, and the message. *)
Theorem parseLevel_spec p :
  (forall level msg, Forall (fun b => byteZ b <> 93) level -> msg <> [] -> 3 <= len level ->
     p = level_line level msg -> parseLevel p = Ok (string_of level, string_of msg)) /\
  (parseLevel p = Ok ("", string_of p) \/
   exists level d msg, p = Zbyte 91 :: level ++ Zbyte 93 :: d :: msg /\ msg <> [] /\
     Forall (fun b => byteZ b <> 93) level /\ parseLevel p = Ok (string_of level, string_of msg)).
Proof.
  split.
  - intros level msg Hl Hm Hlen ->. apply parse_between; try done.
    rewrite len_cons, len_app, !len_cons. destruct msg; [done|]. rewrite len_cons. pose proof (len_nonneg msg). lia.
  - destruct p as [|a p]; [by left|].
    assert (parseLevel (a :: p) = Ok ("", string_of (a :: p)) \/
      6 <= len (a :: p) /\ byteZ a = 91 /\ find_end p 1 <> -1 /\ find_end p 1 + 2 < len (a :: p))
      as [|(H6 & Ha & Hf & Hk)]; [|by left|].
    { unfold parseLevel. destruct (Z.ltb_spec (len (a :: p)) 6); [by left|].
      destruct (Z.eqb_spec (byteZ a) 91); [|by left]. cbn [orb negb].
      destruct (find_end_range p 1 ltac:(lia)) as [Hf|Hf]; [rewrite Hf; by left|].
      destruct (Z.leb_spec (len (a :: p)) (find_end p 1 + 2)); [rewrite orb_true_r; by left|].
      right. split_and!; [done|done|lia|done]. }
    right. destruct (find_end_inv p 1) as (level & c & k & -> & Hc & Hfe & Hl); [done|lia|].
    rewrite Hfe, len_cons, len_app, len_cons in Hk. destruct k as [|d msg]; [rewrite len_nil in Hk; lia|].
    rewrite len_cons in Hk. destruct msg as [|m0 msg]; [rewrite len_nil in Hk; lia|].
    exists level, d, (m0 :: msg).
    assert (a = Zbyte 91) as -> by (by rewrite <-Ha, Zbyte_byteZ). assert (c = Zbyte 93) as -> by (by rewrite <-Hc, Zbyte_byteZ).
    split; [done|]. split; [done|]. split; [done|]. by apply parse_between.
Qed.

Lemma ensure_newline_ne s : bytes_of (ensure_newline s) <> [].
Proof. destruct s as [|c [|d s]]; [done| |done]. cbn [ensure_newline]. by case_bool_decide. Qed.

Lemma ensure_newline_app a c s : c <> ascii_of_nat 10 ->
  ensure_newline (a +:+ String c s) = a +:+ String c (ensure_newline s).
Proof.
  intros Hc. induction a as [|x a IH].
  - change (ensure_newline (String c s) = String c (ensure_newline s)). destruct s as [|d s]; [|done].
    cbn [ensure_newline]. by rewrite bool_decide_false.
  - change (ensure_newline (String x (a +:+ String c s)) = String x (a +:+ String c (ensure_newline s))).
    rewrite <-IH. destruct a; done.
Qed.

Lemma bytes_of_app a b : bytes_of (a +:+ b) = bytes_of a ++ bytes_of b.
Proof.
  unfold bytes_of. induction a as [|c a IH]; [done|].
  change (String.list_byte_of_string (String c (a +:+ b)) = byte_of_ascii c :: String.list_byte_of_string a ++ String.list_byte_of_string b).
  rewrite <-IH. reflexivity.
Qed.

(** A line at one of the server's levels is written with the time, the tag,
    and its level in the level's colour, its message unchanged, and ends in a
    newline. *)
Lemma Printf_level zone now tag w level fmt args :
  level = "INF" \/ level = "WRN" \/ level = "ERR" ->
  Logger_Printf zone now ("[%s] " +:+ fmt) (AStr level :: args) (NewLogger tag w)
  = (mkColorWriter tag (WriterWrite (bytes_of
       (log_line tag (time_of_day zone now) level (ensure_newline (Sprintf fmt args)))) w).1, Ok tt).
Proof.
  intros Hl. unfold Logger_Printf, mbind, M_bind, colorWriter_Write, NewLogger. rewrite Sprintf_level.
  set (msg := Sprintf fmt args).
  assert (bytes_of (ensure_newline ("[" +:+ level +:+ "] " +:+ msg))
    = level_line (bytes_of level) (bytes_of (ensure_newline msg))) as ->.
  { destruct Hl as [->|[->| ->]].
    - exact (f_equal bytes_of (ensure_newline_app "[INF]" " " msg ltac:(done))).
    - exact (f_equal bytes_of (ensure_newline_app "[WRN]" " " msg ltac:(done))).
    - exact (f_equal bytes_of (ensure_newline_app "[ERR]" " " msg ltac:(done))). }
  unfold level_line. rewrite parse_between; try done.
  - cbn match. by rewrite !string_of_bytes_of.
  - by destruct Hl as [->|[->| ->]]; repeat constructor.
  - apply ensure_newline_ne.
  - rewrite !len_cons, len_app, !len_cons. pose proof (ensure_newline_ne msg).
    destruct (bytes_of (ensure_newline msg)) as [|b l] eqn:E; [done|]. rewrite len_cons. pose proof (len_nonneg l).
    assert (len (bytes_of level) = 3) by (by destruct Hl as [->|[->| ->]]). lia.
Qed.

Lemma parseLevel_spec_witness :
  parseLevel (level_line (bytes_of "ERR") (bytes_of "boom")) = Ok (string_of (bytes_of "ERR"), string_of (bytes_of "boom")).
Proof.
  apply (proj1 (parseLevel_spec (level_line (bytes_of "ERR") (bytes_of "boom"))));
    [repeat constructor; discriminate|discriminate|vm_compute; discriminate|reflexivity].
Defined.
