(* ===== verification/Quic.v ===== *)
(** * A QUIC connection

    [handleConnection] of [src/server/server.go]: the first stream is for the
    handshake, then every stream that is accepted is one request, served by a
    goroutine of its own.  What the connection's peer and the scheduler do is a
    list of events; the goroutine of a stream runs at some point after its
    stream was accepted, perhaps after the connection is gone.  A run of
    [handleStream] is one event here; [Goroutines] cuts it into steps. *)

From S2P Require Import Prelude GoRt Varint Tlv Crypto Frame Session Negotiate RateLimit Media Handler Server.

(** A stream that was accepted; [q_run] says whether its goroutine has run. *)
Record QStream := mkQStream { q_in : Reader; q_out : Writer; q_closed : bool; q_run : bool }.

(** The connection: the streams in the order they were accepted, whether the
    loop still accepts, and whether the connection was closed. *)
Record Quic (A : Type) := mkQuic {
  quic_env : Env A;
  quic_streams : list QStream;
  accepting : bool;
  quic_closed : bool
}.
Arguments mkQuic {A}.
Arguments quic_env {A}.
Arguments quic_streams {A}.
Arguments accepting {A}.
Arguments quic_closed {A}.

Inductive QuicEvent :=
| QAccept (st : Stream)     (* AcceptStream returns a stream *)
| QFail                     (* AcceptStream fails: the peer has closed, or the context is done *)
| QRun (i : nat).           (* the goroutine of the i-th stream runs *)

Section quic.
Context {A : Type} `{C : CryptoOps}.
Implicit Types (s : Server A).

Definition on_quic_env {B} (m : M (Env A) B) : M (Quic A) B := fun q =>
  let '(e, r) := m (quic_env q) in (mkQuic e (quic_streams q) (accepting q) (quic_closed q), r).

(** I/O on a connection that was closed fails. *)
Definition err_conn_gone : error := ExtErr "Application error 0x0: bye".
Definition cut (st : QStream) : QStream :=
  if q_run st then st
  else mkQStream (mkReader [] err_conn_gone) (mkWriter (written (q_out st)) (Some (0%nat, err_conn_gone)))
         (q_closed st) false.
(** [conn.CloseWithError(0, "bye")]. *)
Definition quic_Close : M (Quic A) unit := fun q =>
  (mkQuic (quic_env q) (map cut (quic_streams q)) false true, Ok tt).

(** A goroutine: [handleStream] on its stream. *)
Definition run_stream s (ctx : Ctx) (l : positive) (remoteAddr : string) (i : nat) : M (Quic A) unit := fun q =>
  match quic_streams q !! i with
  | Some (mkQStream rd w closed false) =>
      let '(c, r) := handleStream s ctx l remoteAddr (mkConn (quic_env q) rd w closed) in
      (mkQuic (env c) (<[i := mkQStream (conn_in c) (conn_out c) (conn_closed c) true]> (quic_streams q))
         (accepting q) (quic_closed q), r)
  | _ => (q, Ok tt)
  end.

(** An event after the handshake; the loop's end runs the deferred calls. *)
Definition quic_event s (ctx : Ctx) (l : positive) (id : Z) (remoteAddr : string) (ev : QuicEvent) : M (Quic A) unit :=
  match ev with
  | QAccept st => fun q =>
      if accepting q
      then (mkQuic (quic_env q) (quic_streams q ++ [mkQStream (incoming st) (outgoing st) false false]) true
              (quic_closed q), Ok tt)
      else (q, Ok tt)
  | QFail => fun q =>
      if accepting q then (_ ← on_quic_env (unfile_session id); quic_Close) q else (q, Ok tt)
  | QRun i => run_stream s ctx l remoteAddr i
  end.

Fixpoint quic_events s (ctx : Ctx) (l : positive) (id : Z) (remoteAddr : string) (evs : list QuicEvent)
  : M (Quic A) unit :=
  match evs with
  | [] => mret tt
  | ev :: evs => _ ← quic_event s ctx l id remoteAddr ev; quic_events s ctx l id remoteAddr evs
  end.

(** The handshake on the first stream, which is closed after it. *)
Definition quic_negotiate s (st : Stream) : M (Quic A) (res Session) := fun q =>
  let '(c, r) := conn_negotiate s (mkConn (quic_env q) (incoming st) (outgoing st) false) in
  (mkQuic (env c) (mkQStream (conn_in c) (conn_out c) true true :: quic_streams q) (accepting q) (quic_closed q),
   Ok r).

(** [first] is the outcome of the first [AcceptStream]. *)
Definition handleConnection s (ctx : Ctx) (remoteAddr : string) (first : res Stream) (evs : list QuicEvent)
  : M (Quic A) unit :=
  match first with
  | Ok st =>
      r ← quic_negotiate s st;
      match r with
      | Panic p => lift (Panic p)
      | OutOfFuel => lift OutOfFuel
      | Err err =>
          _ ← on_quic_env (logf s LevelWarn "session[?] negotiate error: %v (remote=%s)" [AStr remoteAddr]);
          quic_Close
      | Ok sess =>
          l ← on_quic_env (file_session sess);
          _ ← on_quic_env (logf s LevelInfo "session[%d] established key=%s remote=%s"
                             [AInt (ID sess); AStr (APIKeyID sess); AStr remoteAddr]);
          quic_events s ctx l (ID sess) remoteAddr evs
      end
  | _ => quic_Close
  end.
End quic.
