(* ===== verification/QuicFacts.v ===== *)
(** * A QUIC connection: theorems

    A connection with application handlers refines a machine in which every
    stream is one request, answered when its goroutine runs, whatever the
    order. *)

From S2P Require Import Prelude GoRt Varint Tlv TlvSpec TlvDecode TlvSafe Crypto Frame FrameFacts FrameClaims Session SessionFacts Negotiate NegotiateFacts RateLimit Media Handler Server ServerFacts Pipeline Client EndToEnd Conversation Quic.

(** ** The specification *)

(** A request arrives on a stream of its own, in the frame [fr]; the goroutine
    of the [i]-th request runs. *)
Inductive Sched := SAccept (rq : Request * Z) (fr : list byte) | SRun (i : nat).

(** The requests so far, with their answers if they were given. *)
Abbreviation Slots := (list ((Request * Z) * option Response)).

Section spec.
Context {A : Type}.

Definition spec_event (table : gmap Z (app_handler (A := A))) (sess : Session) (ev : Sched) (st : A * Slots) : A * Slots :=
  let '(a, slots) := st in
  match ev with
  | SAccept rq _ => (a, slots ++ [(rq, None)])
  | SRun i =>
      match slots !! i with
      | Some (rq, None) =>
          let '(a, r) := answer table (mkSrvRequest rq.1 (ID sess) (APIKeyID sess)) a in
          (a, <[i := (rq, Some r)]> slots)
      | _ => (a, slots)
      end
  end.
Definition spec_events (table : gmap Z (app_handler (A := A))) (sess : Session) (evs : list Sched) (st : A * Slots) : A * Slots :=
  fold_left (fun st ev => spec_event table sess ev st) evs st.
End spec.

(** The events of a schedule; the first stream was that of the handshake. *)
Definition quic_ev (ev : Sched) : QuicEvent :=
  match ev with
  | SAccept _ fr => QAccept (mkStream (reader_of fr) empty_writer)
  | SRun i => QRun (S i)
  end.
Fixpoint runs (evs : list Sched) : nat :=
  match evs with [] => 0 | SRun _ :: evs => S (runs evs) | SAccept _ _ :: evs => runs evs end.

Section facts.
Context {A : Type} `{L : CryptoLaws}.
Implicit Types (s : Server A) (e : Env A) (table : gmap Z (app_handler (A := A))).

(** ** One stream *)

(** In the state [a], the request is answered with [r]. *)
Definition answers_at s sess (req : Request) (a a' : A) (r : Response) : Prop :=
  match handlers s !! Opcode req with
  | None => a' = a /\ r = not_found_resp (Opcode req)
  | Some (Plain h) => forall ctx e, app e = a ->
      exists e', h ctx (mkSrvRequest req (ID sess) (APIKeyID sess)) e = (e', Ok (Some r)) /\
        keeps e e' /\ app e' = a' /\ random e' = random e
  | Some _ => False
  end.

Lemma keeps_trans e1 e2 e3 : keeps e1 e2 -> keeps e2 e3 -> keeps e1 e3.
Proof. intros (?&?&?&?&?) (?&?&?&?&?). unfold keeps. split_and!; congruence. Qed.

Lemma serves_answers s table sess req a :
  serves s table ->
  let '(a', r) := answer table (mkSrvRequest req (ID sess) (APIKeyID sess)) a in answers_at s sess req a a' r.
Proof.
  intros Hs. unfold answer, answers_at. cbn [FrameRequest]. rewrite (Hs (Opcode req)).
  destruct (table !! Opcode req) as [g|]; cbn [fmap option_fmap option_map]; [|done].
  destruct (g _ a) as [a' r] eqn:Hg. intros ctx e <-. unfold lift_app, in_app. rewrite Hg.
  eexists. split; [reflexivity|]. by split_and!.
Qed.

Lemma stream_serve_at s ctx sess addr req seq nonce rnd er c a r :
  answers_at s sess req (app (env c)) a r -> key_ok (SKey sess) -> len nonce = NonceSize -> in_uint 32 seq = true ->
  failing (conn_out c) = None -> random (env c) = mkReader (nonce_used (SKey sess) nonce ++ rnd) er ->
  response_fits (SKey sess) r ->
  exists e', stream_serve s ctx sess addr req seq c
    = (mkConn e' (conn_in c) (mkWriter (written (conn_out c) ++
         frame_bytes seq (envelope (SKey sess) nonce (response_bytes r))) None) true, Ok tt) /\
    keeps (env c) e' /\ app e' = a /\ random e' = mkReader rnd er.
Proof.
  intros Hans Hk Hn Hseq Hw Hrnd Hfit. revert Hans. unfold answers_at, stream_serve.
  destruct (handlers s !! Opcode req) as [[h|h1 h2]|]; [|done|].
  - intros Hh. unfold mbind at 1, M_bind at 1, on_env at 1, Now. cbn match.
    unfold mbind at 1, M_bind at 1, attempt at 1, on_env at 1. cbn [env].
    match goal with |- context [h ?ctx' ?rq ?e0] => destruct (Hh ctx' e0 eq_refl) as (e1 & -> & Hk1 & Ha1 & Hr1) end.
    cbn match. unfold mbind at 1, M_bind at 1, on_env at 1, Now. cbn [env conn_in conn_out conn_closed].
    unfold mbind at 1, M_bind at 1, lift at 1, deref.
    set (c1 := mkConn _ (conn_in c) (conn_out c) (conn_closed c)). unfold mbind at 1, M_bind at 1.
    edestruct (keeps_logf s LevelInfo) as (e2 & Hlog & Hke & Ha & Hr). rewrite Hlog. clear Hlog.
    unfold mbind at 1, M_bind at 1, attempt.
    rewrite (conn_WriteResponse_ok (SKey sess) seq r nonce rnd er (with_env e2 c1));
      [|done|done|done|done|by cbn [env with_env]; rewrite Hr; cbn [c1 env random]; rewrite Hr1].
    exists (set_random (mkReader rnd er) e2). split; [done|]. split; [|split; [exact (eq_trans Ha Ha1)|done]].
    eapply (keeps_trans _ e1); [exact Hk1|exact Hke].
  - intros [-> ->]. unfold mbind at 1, M_bind at 1, best_effort.
    rewrite (conn_WriteResponse_ok (SKey sess) seq _ nonce rnd er c Hfit Hk Hn Hw Hrnd).
    by exists (set_random (mkReader rnd er) (env c)).
Qed.

Lemma handleStream_at s ctx l addr sess req seq fr er0 nonce rnd er c a r :
  answers_at s sess req (app (env c)) a r -> key_ok (SKey sess) -> len nonce = NonceSize -> response_fits (SKey sess) r ->
  sheap (env c) !! l = Some sess -> never_dead (env c) sess ->
  requests (SKey sess) (req, seq) fr -> conn_in c = mkReader fr er0 ->
  failing (conn_out c) = None -> random (env c) = mkReader (nonce_used (SKey sess) nonce ++ rnd) er ->
  exists e' j, handleStream s ctx l addr c
    = (mkConn e' (mkReader [] er0) (mkWriter (written (conn_out c) ++
         frame_bytes seq (envelope (SKey sess) nonce (response_bytes r))) None) true, Ok tt) /\
    sheap e' !! l = Some (Session_Touch (oracle (env c) j) sess) /\
    never_dead e' (Session_Touch (oracle (env c) j) sess) /\
    app e' = a /\ random e' = mkReader rnd er.
Proof.
  intros Hans Hk Hn Hfit Hl Hlive (Hseq & Hop & Hreq) Hin Hw Hrnd.
  pose proof (handleStream_eq s ctx l addr c sess Hl) as Heq.
  rewrite (handleStream_body_live _ _ _ _ _ sess) in Heq by (done || by apply never_dead_live). cbv zeta in Heq.
  rewrite (conn_ReadRequest_eq (SKey sess) (with_env (checked (env c) l) c) [] er0 fr (Ok (req, seq))) in Heq
    by first [cbn [with_env conn_in]; by rewrite app_nil_r | apply Hreq].
  cbn [with_env env conn_out conn_closed] in Heq.
  destruct (stream_serve_at s ctx sess addr req seq nonce rnd er
    (mkConn (checked (env c) l) (mkReader [] er0) (conn_out c) (conn_closed c)) a r Hans Hk Hn Hseq Hw Hrnd Hfit)
    as (e' & Hserve & Hke & Happ & Hr). rewrite Hserve in Heq.
  exists e', (S (S (ticks (env c)))). split; [done|].
  destruct Hke as (Ho & Hh & Hst & _). cbn [checked oracle sheap sstore env] in *.
  split; [|split; [by eapply never_dead_touch|done]].
  rewrite Hh. unfold Touch. by rewrite lookup_alter_eq, Hl.
Qed.

Lemma handleStream_app s table ctx l addr sess req seq fr er0 nonce rnd er c :
  serves s table -> key_ok (SKey sess) -> len nonce = NonceSize -> fits_all table (SKey sess) ->
  sheap (env c) !! l = Some sess -> never_dead (env c) sess ->
  requests (SKey sess) (req, seq) fr -> conn_in c = mkReader fr er0 ->
  failing (conn_out c) = None -> random (env c) = mkReader (nonce_used (SKey sess) nonce ++ rnd) er ->
  let '(a, r) := answer table (mkSrvRequest req (ID sess) (APIKeyID sess)) (app (env c)) in
  exists buf e' j, carries (SKey sess) seq r buf /\
    handleStream s ctx l addr c
    = (mkConn e' (mkReader [] er0) (mkWriter (written (conn_out c) ++ buf) None) true, Ok tt) /\
    sheap e' !! l = Some (Session_Touch (oracle (env c) j) sess) /\
    never_dead e' (Session_Touch (oracle (env c) j) sess) /\
    app e' = a /\ random e' = mkReader rnd er.
Proof.
  intros Hs Hk Hn Hfit Hl Hlive Hreq Hin Hw Hrnd. pose proof Hreq as (Hseq & Hop & _).
  pose proof (serves_answers s table sess req (app (env c)) Hs) as Hans.
  specialize (Hfit (mkSrvRequest req (ID sess) (APIKeyID sess)) (app (env c)) Hop).
  destruct (answer table _ (app (env c))) as [a r].
  destruct (handleStream_at s ctx l addr sess req seq fr er0 nonce rnd er c a r) as (e' & j & H); try done.
  exists (frame_bytes seq (envelope (SKey sess) nonce (response_bytes r))), e', j.
  split; [by apply frame_carries|exact H].
Qed.

(** ** The connection *)

(** A slot and the stream that stands for it. *)
Definition slot_stream (key : option (list byte)) (slot : (Request * Z) * option Response) (st : QStream) : Prop :=
  match slot.2 with
  | None => exists fr, requests key slot.1 fr /\ st = mkQStream (reader_of fr) empty_writer false false
  | Some r => exists buf, carries key slot.1.2 r buf /\ st = mkQStream (reader_of []) (mkWriter buf None) true true
  end.

(** The connection's state stands for that of the specification. *)
Definition stands_for (l : positive) (sess : Session) (hs : QStream) (st : A * Slots) (q : Quic A) : Prop :=
  app (quic_env q) = st.1 /\ accepting q = true /\ q_run hs = true /\
  (exists streams, quic_streams q = hs :: streams /\ Forall2 (slot_stream (SKey sess)) st.2 streams) /\
  exists now, sheap (quic_env q) !! l = Some (Session_Touch now sess) /\
    never_dead (quic_env q) (Session_Touch now sess).

Definition sched_ok (key : option (list byte)) (ev : Sched) : Prop :=
  match ev with SAccept rq fr => requests key rq fr | SRun _ => True end.

Lemma slot_insert key slots streams i rq r st :
  Forall2 (slot_stream key) slots streams -> slot_stream key (rq, Some r) st ->
  Forall2 (slot_stream key) (<[i := (rq, Some r)]> slots) (<[i := st]> streams).
Proof. intros H Hst. by apply Forall2_insert. Qed.

Lemma quic_event_stands s table ctx l id addr sess hs ev st q nonces rnd er :
  serves s table -> key_ok (SKey sess) -> fits_all table (SKey sess) -> sched_ok (SKey sess) ev ->
  stands_for l sess hs st q -> Forall (fun nc => len nc = NonceSize) nonces -> (runs [ev] <= length nonces)%nat ->
  random (quic_env q) = mkReader (concat (map (nonce_used (SKey sess)) nonces) ++ rnd) er ->
  exists q' nonces', quic_event s ctx l id addr (quic_ev ev) q = (q', Ok tt) /\
    stands_for l sess hs (spec_event table sess ev st) q' /\
    (length nonces <= length nonces' + runs [ev])%nat /\ Forall (fun nc => len nc = NonceSize) nonces' /\
    random (quic_env q') = mkReader (concat (map (nonce_used (SKey sess)) nonces') ++ rnd) er.
Proof.
  intros Hs Hk Hfit Hev (Happ & Hacc & Hhs & (streams & Hstr & Hslots) & now & Hl & Hlive) Hnon Hlen Hrnd.
  destruct st as [a slots]. cbn [fst snd] in *. destruct ev as [rq fr|i]; cbn [quic_ev quic_event spec_event].
  - rewrite Hacc. eexists _, nonces. split; [reflexivity|]. split; [|split; [lia|done]].
    unfold stands_for. cbn [quic_env accepting quic_streams fst snd]. split_and!; try done.
    + exists (streams ++ [mkQStream (reader_of fr) empty_writer false false]). rewrite Hstr. split; [done|].
      apply Forall2_app; [done|]. constructor; [|constructor]. by exists fr.
    + by exists now.
  - unfold run_stream. rewrite Hstr. change ((hs :: streams) !! S i) with (streams !! i).
    destruct (slots !! i) as [[rq o]|] eqn:Ei.
    2: { assert (streams !! i = None) as En.
         { apply lookup_ge_None. rewrite <-(Forall2_length Hslots). by apply lookup_ge_None. }
         rewrite En. exists q, nonces. split; [done|].
         split; [|split; [lia|done]]. unfold stands_for. split_and!; try done; [by exists streams|by exists now]. }
    destruct (Forall2_lookup_l _ _ _ _ _ Hslots Ei) as (stq & Est & Hst).
    rewrite Est. destruct o as [r|].
    { destruct Hst as (buf & _ & ->). exists q, nonces. split; [done|].
      split; [|split; [lia|done]]. unfold stands_for. split_and!; try done; [by exists streams|by exists now]. }
    destruct Hst as (fr & Hreq & ->). cbn [fst] in Hreq. destruct rq as [req seq].
    destruct nonces as [|nc nonces]; [cbn in Hlen; lia|]. apply list.Forall_cons in Hnon as [Hnc Hnon].
    cbn [map concat] in Hrnd. rewrite <-app_assoc in Hrnd.
    pose proof (handleStream_app s table ctx l addr (Session_Touch now sess) req seq fr io_EOF nc _ er
      (mkConn (quic_env q) (reader_of fr) empty_writer false) Hs Hk Hnc Hfit Hl Hlive Hreq eq_refl eq_refl Hrnd) as H.
    cbn [env conn_out Session_Touch ID APIKeyID] in H. rewrite Happ in H. cbn [fst].
    destruct (answer table _ a) as [a' r]. destruct H as (buf & e' & j & Hb & Hrun & Hl' & Hlive' & Happ' & Hr).
    rewrite Hrun. cbn [env conn_in conn_out conn_closed written empty_writer app].
    eexists _, nonces. split; [reflexivity|]. cbn [quic_env]. split; [|split; [cbn; lia|done]].
    unfold stands_for. cbn [quic_env accepting quic_streams fst snd]. split_and!; try done.
    + eexists. split; [cbn [insert list_insert]; reflexivity|]. apply slot_insert; [done|].
      exists buf. split; [exact Hb|done].
    + by eexists.
Qed.

Lemma runs_cons ev evs : runs (ev :: evs) = (runs [ev] + runs evs)%nat.
Proof. by destruct ev. Qed.

Lemma quic_events_stand s table ctx l id addr sess hs evs : forall st q nonces rnd er,
  serves s table -> key_ok (SKey sess) -> fits_all table (SKey sess) -> Forall (sched_ok (SKey sess)) evs ->
  stands_for l sess hs st q -> Forall (fun nc => len nc = NonceSize) nonces -> (runs evs <= length nonces)%nat ->
  random (quic_env q) = mkReader (concat (map (nonce_used (SKey sess)) nonces) ++ rnd) er ->
  exists q', quic_events s ctx l id addr (map quic_ev evs) q = (q', Ok tt) /\
    stands_for l sess hs (spec_events table sess evs st) q'.
Proof.
  induction evs as [|ev evs IH]; intros st q nonces rnd er Hs Hk Hfit Hevs Hst Hnon Hlen Hrnd; [by exists q|].
  apply list.Forall_cons in Hevs as [Hev Hevs]. rewrite runs_cons in Hlen.
  destruct (quic_event_stands s table ctx l id addr sess hs ev st q nonces rnd er)
    as (q1 & nonces' & Hq1 & Hst1 & Hlen' & Hnon' & Hr'); try done; [lia|].
  cbn [map quic_events spec_events fold_left]. unfold mbind, M_bind. rewrite Hq1.
  eapply IH; try done. lia.
Qed.

Lemma quic_events_app s ctx l id addr evs : forall more q1 q2,
  quic_events s ctx l id addr evs q1 = (q2, Ok tt) ->
  quic_events s ctx l id addr (evs ++ more) q1 = quic_events s ctx l id addr more q2.
Proof.
  induction evs as [|ev evs IH]; intros more q1 q2; [by intros [= ->]|].
  change ((ev :: evs) ++ more) with (ev :: (evs ++ more)). cbn [quic_events]. unfold mbind, M_bind.
  destruct (quic_event _ _ _ _ _ _ _) as [q3 [[]|x|x|]]; try done. apply IH.
Qed.

(** The handshake, on a hello of a client the server knows. *)
Lemma handleConnection_open s e ctx addr k0 pub shared k :
  shared_key (keyStore s) k0 -> len pub = PubKeySize ->
  SharedSecret (serverPriv s) pub = Ok shared -> DeriveSessionKey shared (client_secret k0) = Ok k ->
  let sid := wrapU 64 (nextID e + 1) in
  let sess := NewSession (oracle e (ticks e)) sid (client_id k0) (Some k) in
  let hs := mkQStream (reader_of []) (mkWriter (x25519_Public (serverPriv s) ++ be_put 8 sid) None) true true in
  never_dead e sess ->
  exists l e', sheap e' !! l = Some sess /\ never_dead e' sess /\ app e' = app e /\ random e' = random e /\
    forall evs, handleConnection s ctx addr (Ok (mkStream (reader_of (client_hello k0 pub)) empty_writer)) evs
      (mkQuic e [] true false) = quic_events s ctx l sid addr evs (mkQuic e' [hs] true false).
Proof.
  intros Hks Hp Hsh Hk sid sess hs Hlive.
  set (e1 := (Now (set_nextID sid e)).1). set (l := fresh (dom (sheap e1))).
  set (e2 := set_sessions (<[l := sess]> (sheap e1)) (mkStore (config (sstore e1)) (<[sid := l]> (sessions (sstore e1)))) e1).
  assert (exists e3, logf s LevelInfo "session[%d] established key=%s remote=%s"
    [AInt (ID sess); AStr (APIKeyID sess); AStr addr] e2 = (e3, Ok tt) /\ keeps e2 e3 /\
    app e3 = app e2 /\ random e3 = random e2) as (e3 & Hlog & (Ho & Hh & Hst & _) & Happ & Hr).
  { unfold logf, put_log. destruct (Logger s); eexists; by split_and!. }
  exists l, e3. split; [rewrite Hh; apply lookup_insert_eq|].
  split; [apply (never_dead_env e); [by rewrite Ho|by rewrite Hst|done]|]. split; [done|]. split; [done|].
  intros evs. unfold handleConnection, quic_negotiate. unfold mbind at 1, M_bind at 1.
  cbn [quic_env quic_streams accepting quic_closed incoming outgoing].
  pose proof (conn_negotiate_ok s e k0 pub [] io_EOF empty_writer false shared k Hks eq_refl Hp Hsh Hk) as Hneg.
  rewrite app_nil_r in Hneg. unfold reader_of. rewrite Hneg. fold sid sess.
  cbn [env conn_in conn_out written empty_writer app]. unfold mbind at 1, M_bind at 1, on_quic_env at 1.
  cbn [quic_env quic_streams accepting quic_closed]. rewrite file_session_eq. fold e1 l e2.
  unfold mbind at 1, M_bind at 1, on_quic_env at 1. cbn [quic_env quic_streams accepting quic_closed].
  change (<[ID sess := l]>) with (<[sid := l]> : gmap Z positive -> gmap Z positive). fold e2. by rewrite Hlog.
Qed.

(** From the handshake on. *)
Lemma handleConnection_stands s table e ctx addr k0 pub evs nonces rnd er shared k :
  shared_key (keyStore s) k0 -> len pub = PubKeySize ->
  SharedSecret (serverPriv s) pub = Ok shared -> DeriveSessionKey shared (client_secret k0) = Ok k ->
  let sid := wrapU 64 (nextID e + 1) in
  let sess := NewSession (oracle e (ticks e)) sid (client_id k0) (Some k) in
  let hs := mkQStream (reader_of []) (mkWriter (x25519_Public (serverPriv s) ++ be_put 8 sid) None) true true in
  serves s table -> fits_all table (Some k) -> never_dead e sess -> Forall (sched_ok (Some k)) evs ->
  (runs evs <= length nonces)%nat -> Forall (fun nc => len nc = NonceSize) nonces ->
  random e = mkReader (concat nonces ++ rnd) er ->
  exists l q, stands_for l sess hs (spec_events table sess evs (app e, [])) q /\
    forall more, handleConnection s ctx addr (Ok (mkStream (reader_of (client_hello k0 pub)) empty_writer))
      (map quic_ev evs ++ more) (mkQuic e [] true false) = quic_events s ctx l sid addr more q.
Proof.
  intros Hks Hp Hsh Hk sid sess hs Hs Hfit Hlive Hevs Hlen Hnon Hrnd.
  pose proof (derived_key_ok _ _ _ Hk) as Hkok.
  destruct (handleConnection_open s e ctx addr k0 pub shared k) as (l & e3 & Hl & Hlive3 & Happ & Hr & Hopen); try done.
  fold sid sess hs in Hl, Hlive3, Hopen.
  destruct (quic_events_stand s table ctx l sid addr sess hs evs (app e, [])
    (mkQuic e3 [hs] true false) nonces rnd er) as (q & Hq & Hstand); try done.
  { unfold stands_for. cbn [quic_env accepting quic_streams fst snd]. split_and!; try done.
    - by exists [].
    - exists (LastUsed sess). by destruct sess. }
  { cbn [quic_env]. rewrite Hr, Hrnd. f_equal. f_equal. f_equal. symmetry. apply map_id. }
  exists l, q. split; [done|]. intros more. rewrite Hopen. by apply quic_events_app.
Qed.

(** C7. A QUIC connection refines a machine of independent requests: whatever
    the order in which streams are accepted and their goroutines run, each
    stream's goroutine takes one request off it and answers it on that stream,
    once, under its own number and with the handler's response in the state
    the goroutines that ran before it left, and closes the stream; streams
    whose goroutine has not run are untouched; the handshake's stream carries
    the server's hello; and when the connection ends, its session is gone. *)
Theorem quic_refines s table e ctx addr k0 pub evs nonces rnd er shared k :
  shared_key (keyStore s) k0 -> len pub = PubKeySize ->
  SharedSecret (serverPriv s) pub = Ok shared -> DeriveSessionKey shared (client_secret k0) = Ok k ->
  let sid := wrapU 64 (nextID e + 1) in
  let sess := NewSession (oracle e (ticks e)) sid (client_id k0) (Some k) in
  serves s table -> fits_all table (Some k) -> never_dead e sess -> Forall (sched_ok (Some k)) evs ->
  (runs evs <= length nonces)%nat -> Forall (fun nc => len nc = NonceSize) nonces ->
  random e = mkReader (concat nonces ++ rnd) er ->
  let run more := handleConnection s ctx addr (Ok (mkStream (reader_of (client_hello k0 pub)) empty_writer))
    (map quic_ev evs ++ more) (mkQuic e [] true false) in
  let '(a, slots) := spec_events table sess evs (app e, []) in
  (exists q hs streams, run [] = (q, Ok tt) /\ app (quic_env q) = a /\ quic_streams q = hs :: streams /\
     q_out hs = mkWriter (x25519_Public (serverPriv s) ++ be_put 8 sid) None /\ q_closed hs = true /\
     Forall2 (slot_stream (Some k)) slots streams) /\
  exists q, run [QFail] = (q, Ok tt) /\ quic_closed q = true /\ sessions (sstore (quic_env q)) !! sid = None.
Proof.
  intros Hks Hp Hsh Hk sid sess Hs Hfit Hlive Hevs Hlen Hnon Hrnd run.
  destruct (handleConnection_stands s table e ctx addr k0 pub evs nonces rnd er shared k)
    as (l & q & Hst & Hrun); try done. fold sid sess in Hst, Hrun.
  destruct (spec_events table sess evs (app e, [])) as [a slots].
  destruct Hst as (Happ & Hacc & _ & (streams & Hstr & Hslots) & _). cbn [fst snd] in *. split.
  - eexists q, _, streams. split; [apply (Hrun [])|]. by split_and!.
  - eexists. split; [unfold run; rewrite Hrun; cbn [quic_events quic_event]; unfold mbind, M_bind; rewrite Hacc;
      unfold on_quic_env, unfile_session, quic_Close; reflexivity|].
    split; [done|]. cbn [quic_env set_sessions sstore Store_Delete sessions]. apply lookup_delete_eq.
Qed.

(** ** Liveness *)

Lemma spec_events_app table sess evs evs' (st : A * Slots) :
  spec_events table sess (evs ++ evs') st = spec_events table sess evs' (spec_events table sess evs st).
Proof. apply fold_left_app. Qed.

Lemma spec_run_slot table sess j (st : A * Slots) :
  length (spec_event table sess (SRun j) st).2 = length st.2 /\
  forall i rq o, st.2 !! i = Some (rq, o) -> exists o',
    (spec_event table sess (SRun j) st).2 !! i = Some (rq, o') /\ (o <> None \/ i = j -> o' <> None).
Proof.
  destruct st as [a slots]. cbn [spec_event snd].
  destruct (slots !! j) as [[rqj [rj|]]|] eqn:Ej; cbn [snd].
  - split; [done|]. intros i rq o Hi. exists o. split; [done|]. intros [H| ->]; [done|congruence].
  - destruct (answer _ _ a) as [a' r]. cbn [snd]. split; [by rewrite list.length_insert|]. intros i rq o Hi.
    destruct (decide (i = j)) as [->|Hne].
    + exists (Some r). assert (rqj = rq) as -> by congruence.
      rewrite list_lookup_insert_eq; [done|]. by eapply lookup_lt_Some.
    + exists o. rewrite list_lookup_insert_ne by done. split; [done|]. intros [H|H]; done.
  - split; [done|]. intros i rq o Hi. exists o. split; [done|]. intros [H| ->]; [done|congruence].
Qed.

Lemma spec_run_slots table sess idx : forall (st : A * Slots),
  length (spec_events table sess (map SRun idx) st).2 = length st.2 /\
  forall i rq o, st.2 !! i = Some (rq, o) -> (o <> None \/ i ∈ idx) ->
    exists r, (spec_events table sess (map SRun idx) st).2 !! i = Some (rq, Some r).
Proof.
  induction idx as [|j idx IH]; intros st.
  - split; [done|]. intros i rq o Hi [Ho|Hin]; [|by apply not_elem_of_nil in Hin].
    destruct o as [r|]; [by exists r|done].
  - destruct (spec_run_slot table sess j st) as [Hl Hs].
    destruct (IH (spec_event table sess (SRun j) st)) as [IHl IHs].
    change (spec_events table sess (map SRun (j :: idx)) st)
      with (spec_events table sess (map SRun idx) (spec_event table sess (SRun j) st)).
    split; [by rewrite IHl|]. intros i rq o Hi Hor. destruct (Hs i rq o Hi) as (o' & Hi' & Ho').
    apply (IHs i rq o' Hi'). destruct Hor as [Ho|Hin]; [left; by apply Ho'; left|].
    apply elem_of_cons in Hin as [->|Hin]; [left; apply Ho'; by right|by right].
Qed.

(** Every request on a QUIC connection is answered: after any schedule,
    once the goroutine of each accepted stream has run (in any order, with
    any others), every stream carries its response and is closed. *)
Theorem quic_liveness s table e ctx addr k0 pub evs idx nonces rnd er shared k :
  shared_key (keyStore s) k0 -> len pub = PubKeySize ->
  SharedSecret (serverPriv s) pub = Ok shared -> DeriveSessionKey shared (client_secret k0) = Ok k ->
  let sid := wrapU 64 (nextID e + 1) in
  let sess := NewSession (oracle e (ticks e)) sid (client_id k0) (Some k) in
  serves s table -> fits_all table (Some k) -> never_dead e sess -> Forall (sched_ok (Some k)) evs ->
  (runs (evs ++ map SRun idx) <= length nonces)%nat -> Forall (fun nc => len nc = NonceSize) nonces ->
  random e = mkReader (concat nonces ++ rnd) er ->
  (forall i, (i < length (spec_events table sess evs (app e, [])).2)%nat -> i ∈ idx) ->
  exists q hs streams, handleConnection s ctx addr (Ok (mkStream (reader_of (client_hello k0 pub)) empty_writer))
      (map quic_ev (evs ++ map SRun idx)) (mkQuic e [] true false) = (q, Ok tt) /\
    quic_streams q = hs :: streams /\ length streams = length (spec_events table sess evs (app e, [])).2 /\
    forall i rq o, (spec_events table sess evs (app e, [])).2 !! i = Some (rq, o) ->
      exists r buf, streams !! i = Some (mkQStream (reader_of []) (mkWriter buf None) true true) /\
        carries (Some k) rq.2 r buf.
Proof.
  intros Hks Hp Hsh Hk sid sess Hs Hfit Hlive Hevs Hlen Hnon Hrnd His.
  assert (Forall (sched_ok (Some k)) (evs ++ map SRun idx)) as Hevs'.
  { apply list.Forall_app. split; [done|]. apply list.Forall_forall. intros ev (i & -> & _)%list_elem_of_fmap. done. }
  destruct (handleConnection_stands s table e ctx addr k0 pub (evs ++ map SRun idx) nonces rnd er shared k)
    as (l & q & Hst & Hrun); try done. fold sid sess in Hst, Hrun. rewrite spec_events_app in Hst.
  destruct (spec_run_slots table sess idx (spec_events table sess evs (app e, []))) as [Hl Hall].
  destruct Hst as (_ & _ & _ & (streams & Hstr & Hslots) & _).
  specialize (Hrun []). rewrite app_nil_r in Hrun.
  eexists q, _, streams. split; [exact Hrun|]. split; [done|].
  split; [by rewrite <-Hl, (Forall2_length Hslots)|]. intros i rq o Hi.
  destruct (Hall i rq o Hi) as [r Hr]; [right; apply His; by eapply lookup_lt_Some|].
  destruct (Forall2_lookup_l _ _ _ _ _ Hslots Hr) as (st & Hsti & buf & Hbuf & ->). by exists r, buf.
Qed.
End facts.

(** ** Two requests on the demo server, served in the opposite order *)

Definition quic_frame (k : list byte) (op seq : Z) : list byte :=
  frame_bytes seq (envelope (Some k) sample_nonce (request_bytes (mkRequest op None))).
Definition demo_sched (k : list byte) : list Sched :=
  [SAccept (mkRequest 1 None, 10) (quic_frame k 1 10); SAccept (mkRequest 9 None, 11) (quic_frame k 9 11); SRun 1].

Lemma demo_sched_ok k : key_ok (Some k) -> Forall (sched_ok (Some k)) (demo_sched k).
Proof.
  intros Hk. assert (forall op seq, in_uint 16 op = true -> in_uint 32 seq = true ->
    requests (Some k) (mkRequest op None, seq) (quic_frame k op seq)) as H.
  { intros op seq Hop Hseq. by apply (frame_requests (Some k) seq (mkRequest op None)). }
  repeat constructor; by apply H.
Qed.

Lemma demo_session_key :
  exists shared k, SharedSecret (serverPriv demo_server) (x25519_Public demo_priv_b) = Ok shared /\
    DeriveSessionKey shared (client_secret None) = Ok k /\ key_ok (Some k).
Proof.
  assert (exists shared, SharedSecret (serverPriv demo_server) (x25519_Public demo_priv_b) = Ok shared) as [shared Hsh]
    by (eexists; vm_compute; reflexivity).
  assert (exists k, DeriveSessionKey shared (client_secret None) = Ok k) as [k Hk]
    by (vm_compute in Hsh; injection Hsh as <-; eexists; vm_compute; reflexivity).
  exists shared, k. split_and!; [done..|]. by eapply derived_key_ok.
Qed.

Lemma quic_refines_witness : exists k q,
  handleConnection demo_server [] "" (Ok (mkStream (reader_of (client_hello None (x25519_Public demo_priv_b))) empty_writer))
    (map quic_ev (demo_sched k) ++ [QFail]) (mkQuic talk_env [] true false) = (q, Ok tt) /\ quic_closed q = true.
Proof.
  destruct demo_session_key as (shared & k & Hsh & Hk & Hkok).
  pose proof (quic_refines demo_server demo_table talk_env [] "" None (x25519_Public demo_priv_b) (demo_sched k)
    [sample_nonce; sample_nonce; sample_nonce] [] io_EOF shared k I (x25519_Public_len _) Hsh Hk demo_serves (demo_fits_any _)
    ltac:(intros i; split_and!; vm_compute; reflexivity) (demo_sched_ok k Hkok) ltac:(cbn; lia)
    ltac:(repeat constructor) eq_refl) as H. cbv zeta in H.
  destruct (spec_events demo_table _ _ _) as [a slots]. destruct H as [_ (q & Hq & Hc & _)].
  exists k, q. split; [exact Hq|exact Hc].
Defined.

Lemma quic_liveness_witness : exists k q hs streams,
  handleConnection demo_server [] "" (Ok (mkStream (reader_of (client_hello None (x25519_Public demo_priv_b))) empty_writer))
    (map quic_ev (demo_sched k ++ map SRun [0%nat; 1%nat])) (mkQuic talk_env [] true false) = (q, Ok tt) /\
  quic_streams q = hs :: streams /\ length streams = 2%nat.
Proof.
  destruct demo_session_key as (shared & k & Hsh & Hk & Hkok).
  destruct (quic_liveness demo_server demo_table talk_env [] "" None (x25519_Public demo_priv_b) (demo_sched k)
    [0%nat; 1%nat]
    [sample_nonce; sample_nonce; sample_nonce] [] io_EOF shared k I (x25519_Public_len _) Hsh Hk demo_serves (demo_fits_any _)
    ltac:(intros i; split_and!; vm_compute; reflexivity) (demo_sched_ok k Hkok) ltac:(cbn; lia)
    ltac:(repeat constructor) eq_refl ltac:(intros [|[|i]] Hi; [set_solver|set_solver|vm_compute in Hi; lia]))
    as (q & hs & streams & Hq & Hs & Hl & _).
  exists k, q, hs, streams. split; [exact Hq|]. split; [exact Hs|]. rewrite Hl. reflexivity.
Defined.
