(* ===== verification/Program.v ===== *)
(** * Programs that use the client

    The clients of [src/examples]: command-line programs that dial, make calls
    and print.  A [Script] is the code between dialing and the end of the
    program, as a tree of the calls, prints and reads it makes; [run_script]
    runs one on a [Client]. *)

From S2P Require Import Prelude GoRt Fmt Varint Tlv Crypto Frame Transport Session Negotiate Client.

(** [log.Fatalf] writes its line and exits, without running deferred calls. *)
Inductive Script :=
| Finish
| Exit (fmt : string) (args : list arg)
| Crash (p : panic)
| Unfinished                                     (* the bound of a loop was not enough *)
| Output (line : string) (k : Script)
| Input (k : option string -> Script)
| Call (opcode : Z) (payload : option Map) (k : Response + error -> Script).

Definition printf (fmt : string) (args : list arg) (k : Script) : Script := Output (Sprintf fmt args) k.

(** Code that may panic, in the middle of a script. *)
Definition get_res {B} (r : res B) (k : B -> Script) : Script :=
  match r with
  | Ok b => k b
  | Panic p => Crash p
  | Err _ | OutOfFuel => Crash (POther "unreachable")
  end.

(** [resp.Payload]; the response is nil after an error. *)
Definition resp_payload (r : Response + error) : res Map :=
  match r with inl resp => deref (RPayload resp) | inr _ => Panic PNilDeref end.
(** [m.GetUint64(key)] and [m.GetString(key)], dropping [ok]. *)
Definition get_Uint64 (m : Map) (key : string) : res Z := '(n, _) ← Map_GetUint64 m key; Ok n.
Definition get_String (m : Map) (key : string) : res string := '(s, _) ← Map_GetString m key; Ok s.

(** A process: its client, the lines it has still to read, what it wrote. *)
Record Process := mkProcess { p_client : Client; stdin : list string; stdout : list string }.
Inductive Ending := Returned | Exited (line : string) | Panicked (p : panic) | OutOfModel.

Section run.
Context `{C : CryptoOps}.

Definition put_line (line : string) (p : Process) : Process := mkProcess (p_client p) (stdin p) (stdout p ++ [line]).

Fixpoint run_script (sc : Script) (p : Process) : Process * Ending :=
  match sc with
  | Finish => (p, Returned)
  | Exit fmt args => (p, Exited (Sprintf fmt args))
  | Crash x => (p, Panicked x)
  | Unfinished => (p, OutOfModel)
  | Output line k => run_script k (put_line line p)
  | Input k =>
      match stdin p with
      | [] => run_script (k None) p
      | line :: lines => run_script (k (Some line)) (mkProcess (p_client p) lines (stdout p))
      end
  | Call opcode payload k =>
      let '(c, r) := Do opcode payload (p_client p) in
      let p := mkProcess c (stdin p) (stdout p) in
      match r with
      | Ok resp => run_script (k (inl resp)) p
      | Err err => run_script (k (inr err)) p
      | Panic x => (p, Panicked x)
      | OutOfFuel => (p, OutOfModel)
      end
  end.

(** The configuration and the address the clients of the examples use. *)
Definition example_tls : TLSConfig := mkTLSConfig [] "hush.test" true [].
Definition example_addr (port : string) : string := "127.0.0.1:" +:+ port.

(** [runClient]: the secret is read, the client dials, and is closed when the
    function returns or panics. *)
Definition run_client (net : Network) (clk : nat -> Time) (rnd : Reader) (keyID keySecretHex port : string)
  (input : list string) (body : Z -> Script) : option Process * Ending :=
  match hex_DecodeString keySecretHex with
  | Ok secret =>
      let '(c, r) := Dial net clk rnd (example_addr port) (Some (mkAPIKey keyID secret))
                       [WithTLSConfig (Some example_tls)] in
      match r with
      | Ok _ =>
          let '(p, ending) := run_script (body (SessionID c)) (mkProcess c input []) in
          match ending with
          | Returned | Panicked _ => (Some (mkProcess (Close (p_client p)).1 (stdin p) (stdout p)), ending)
          | Exited _ | OutOfModel => (Some p, ending)
          end
      | Err err => (None, Exited (Sprintf "connect: %v" [AStr (error_text err)]))
      | Panic x => (None, Panicked x)
      | OutOfFuel => (None, OutOfModel)
      end
  | Err err => (None, Exited (Sprintf "bad secret hex: %v" [AStr (error_text err)]))
  | Panic x => (None, Panicked x)
  | OutOfFuel => (None, OutOfModel)
  end.
End run.
