(* ===== verification/ProgramFacts.v ===== *)
(** * A client program and its server over QUIC

    What a program does on a client whose connection is served, and what the
    server does meanwhile: each call opens a stream, on which one request goes
    to the server and one response comes back. *)

From S2P Require Import Prelude GoRt Fmt Varint Tlv TlvSpec TlvDecode TlvSafe Crypto Frame Transport Address FrameFacts FrameClaims Session SessionFacts Negotiate NegotiateFacts RateLimit Media Handler Server ServerFacts Pipeline Client EndToEnd Conversation Quic QuicFacts Program.

Section program.
Context {A : Type} `{L : CryptoLaws}.
Implicit Types (s : Server A) (e : Env A).

(** ** The specification: a program on its own

    The calls are answered by a function of the application's state. *)
Record Served := mkServed { s_op : Z; s_payload : option Map; s_before : A; s_after : A; s_resp : Response }.
Record Talk := mkTalk { t_state : A; t_calls : list Served; t_stdin : list string; t_output : list string; t_ending : Ending }.

Definition said (line : string) (t : Talk) : Talk :=
  mkTalk (t_state t) (t_calls t) (t_stdin t) (line :: t_output t) (t_ending t).
Definition called (c : Served) (t : Talk) : Talk :=
  mkTalk (t_state t) (c :: t_calls t) (t_stdin t) (t_output t) (t_ending t).

Fixpoint talk (respond : Z -> option Map -> A -> A * Response) (sc : Script) (a : A) (n : Z) (input : list string) : Talk :=
  match sc with
  | Finish => mkTalk a [] input [] Returned
  | Exit fmt args => mkTalk a [] input [] (Exited (Sprintf fmt args))
  | Crash x => mkTalk a [] input [] (Panicked x)
  | Unfinished => mkTalk a [] input [] OutOfModel
  | Output line k => said line (talk respond k a n input)
  | Input k =>
      match input with
      | [] => talk respond (k None) a n []
      | line :: input => talk respond (k (Some line)) a n input
      end
  | Call op payload k =>
      let '(a', r) := respond op payload a in
      let n := wrapU 32 (n + 1) in
      called (mkServed op payload a a' r) (talk respond (k (inl (norm_response n r))) a' n input)
  end.

(** A call that fits into frames, which the server answers so. *)
Definition served s (sess : Session) (c : Served) : Prop :=
  let r := mkRequest (s_op c) (s_payload c) in
  request_fits (SKey sess) r /\ response_fits (SKey sess) (s_resp c) /\
  answers_at s sess (norm_request r) (s_before c) (s_after c) (s_resp c).

(** What goes over the streams. *)
Fixpoint up_frames (key : option (list byte)) (n : Z) (cs : list Served) (nonces : list (list byte)) : list (list byte) :=
  match cs, nonces with
  | c :: cs, nonce :: nonces =>
      let n := wrapU 32 (n + 1) in
      frame_bytes n (envelope key nonce (request_bytes (mkRequest (s_op c) (s_payload c)))) :: up_frames key n cs nonces
  | _, _ => []
  end.
Fixpoint down_frames (key : option (list byte)) (n : Z) (cs : list Served) (nonces : list (list byte)) : list (list byte) :=
  match cs, nonces with
  | c :: cs, nonce :: nonces =>
      let n := wrapU 32 (n + 1) in
      frame_bytes n (envelope key nonce (response_bytes (s_resp c))) :: down_frames key n cs nonces
  | _, _ => []
  end.

(** ** The client *)

(** An open QUIC connection [l] with the coming streams and those used. *)
Definition quic_ready (c : Client) (l : positive) (coming : list (res Stream)) (used : list (Stream * bool))
  (sess : Session) : Prop :=
  mode c = TransportQUIC /\ dialed c = true /\ qconn c = Some l /\ csess c = Some sess /\
  wires c !! l = Some (QUICWire coming used false).

(** A stream on which the answer comes, and after it was read. *)
Definition answer_stream (down : list byte) : res Stream := Ok (mkStream (reader_of down) empty_writer).
Definition used_stream (up : list byte) : Stream * bool := (mkStream (reader_of []) (mkWriter up None), true).

Lemma doQUIC_ready c l coming used sess opcode payload nonce rnd re resp respbuf :
  let key := SKey sess in
  let r := mkRequest opcode payload in
  let seq := wrapU 32 (cseq c + 1) in
  quic_ready c l (answer_stream respbuf :: coming) used sess ->
  request_fits key r -> key_ok key -> len nonce = NonceSize ->
  crandom c = mkReader (nonce_used key nonce ++ rnd) re -> carries key seq resp respbuf ->
  exists c', Do opcode payload c = (c', Ok (norm_response seq resp)) /\
    cseq c' = seq /\ crandom c' = mkReader rnd re /\
    quic_ready c' l coming (used_stream (frame_bytes seq (envelope key nonce (request_bytes r))) :: used)
      (Session_Touch (clock c (cticks c)) sess).
Proof.
  intros key r seq (Hm & Hd & Hq & Hs & Hwire) [Hr Hfit] Hk Hn Hrnd Hresp.
  unfold Do, doQUIC, touch_client, CNow, touch_at, next_seq, client_WriteRequest, OpenStreamSync, on_quic, deferring,
    wrap_errM, stream_WriteRequest, stream_ReadResponse, stream_Close, get, modify, lift, mbind, M_bind.
  rewrite Hm, Hd, Hq. cbn [negb csess]. rewrite Hs. cbn [set_conns wires]. rewrite Hwire. unfold answer_stream.
  cbn [set_wires wires cseq csess set_conns deref res_bind crandom Session_Touch SKey wrap_err].
  rewrite !lookup_insert_eq. cbn [outgoing incoming]. rewrite Hrnd.
  fold key r seq. rewrite (WriteRequest_eq key seq r nonce) by done. unfold frame_outcome.
  rewrite len_envelope, len_request_bytes by done. rewrite (proj2 (Z.leb_le _ _)) by lia.
  cbn [sink entropy fst snd wrap_err set_wires set_crandom wires]. rewrite !lookup_insert_eq.
  cbn [incoming outgoing]. pose proof (Hresp [] io_EOF) as Hread. rewrite app_nil_r in Hread. unfold reader_of.
  rewrite Hread. cbn [wrap_err]. eexists. split; [reflexivity|].
  cbn [cseq crandom set_wires set_crandom set_conns]. split; [done|]. split; [done|].
  unfold quic_ready. cbn [mode dialed qconn csess wires set_wires set_crandom set_conns].
  split_and!; try done. by rewrite lookup_alter_eq, lookup_insert_eq.
Qed.

Lemma run_script_ready respond s sc : forall a n input out c l used sess nonces_c nonces_s rnd re,
  let key := SKey sess in
  let t := talk respond sc a n input in
  quic_ready c l (map answer_stream (down_frames key n (t_calls t) nonces_s)) used sess ->
  Forall (served s sess) (t_calls t) -> key_ok key -> cseq c = n ->
  length nonces_c = length (t_calls t) -> Forall (fun nc => len nc = NonceSize) nonces_c ->
  length nonces_s = length (t_calls t) -> Forall (fun nc => len nc = NonceSize) nonces_s ->
  crandom c = mkReader (concat (map (nonce_used key) nonces_c) ++ rnd) re ->
  exists c' sess', run_script sc (mkProcess c input out) = (mkProcess c' (t_stdin t) (out ++ t_output t), t_ending t) /\
    quic_ready c' l [] (rev (map used_stream (up_frames key n (t_calls t) nonces_c)) ++ used) sess'.
Proof.
  induction sc as [|fmt args|x| |line k IH|k IH|op payload k IH];
    intros a n input out c l used sess nonces_c nonces_s rnd re key t Hr Hs Hk Hn Hlc Hc Hls Hns Hrnd.
  - cbn [t talk t_calls t_stdin t_output t_ending] in *. rewrite app_nil_r. by exists c, sess.
  - cbn [t talk t_calls t_stdin t_output t_ending] in *. rewrite app_nil_r. by exists c, sess.
  - cbn [t talk t_calls t_stdin t_output t_ending] in *. rewrite app_nil_r. by exists c, sess.
  - cbn [t talk t_calls t_stdin t_output t_ending] in *. rewrite app_nil_r. by exists c, sess.
  - destruct (IH a n input (out ++ [line]) c l used sess nonces_c nonces_s rnd re) as (c' & sess' & Hrun & Hr'); try done.
    exists c', sess'. split; [|done]. cbn [run_script t talk said t_stdin t_output t_ending]. unfold put_line.
    cbn [p_client stdin stdout]. rewrite Hrun, <-app_assoc. done.
  - destruct input as [|line input].
    + destruct (IH None a n [] out c l used sess nonces_c nonces_s rnd re) as (c' & sess' & Hrun & Hr'); try done.
      by exists c', sess'.
    + destruct (IH (Some line) a n input out c l used sess nonces_c nonces_s rnd re) as (c' & sess' & Hrun & Hr'); try done.
      by exists c', sess'.
  - cbn [talk] in t. destruct (respond op payload a) as [a' r]. subst t. cbn [called t_calls] in *.
    set (t := talk _ _ _ _ _) in *. destruct nonces_c as [|nc nonces_c], nonces_s as [|ns nonces_s]; try done.
    apply list.Forall_cons in Hs as [(Hreq & Hresp & _) Hs], Hc as [Hnc Hc], Hns as [Hnns Hns].
    cbn [s_op s_payload s_resp] in *. injection Hlc as Hlc. injection Hls as Hls.
    cbn [down_frames up_frames map concat s_op s_payload s_resp] in *. rewrite <-app_assoc in Hrnd. rewrite <-Hn in Hr.
    assert (in_uint 32 (wrapU 32 (cseq c + 1)) = true) as Hseq by (apply wrapU_range; lia).
    destruct (doQUIC_ready c l _ used sess op payload nc _ re r _ Hr Hreq Hk Hnc Hrnd (frame_carries _ _ _ _ Hresp Hk Hnns Hseq))
      as (c1 & HDo & Hc1 & Hrnd1 & Hr1). rewrite Hn in *.
    destruct (IH (inl (norm_response (wrapU 32 (n + 1)) r)) a' (wrapU 32 (n + 1)) input out c1 l _ _ nonces_c nonces_s rnd re
      Hr1) as (c' & sess' & Hrun & Hr'); try done.
    exists c', sess'. cbn [run_script p_client stdin stdout]. rewrite HDo. split; [exact Hrun|].
    cbn [rev]. rewrite <-app_assoc. exact Hr'.
Qed.

(** ** The server *)

(** Each stream is accepted and served before the next one comes. *)
Fixpoint turns (i : nat) (ups : list (list byte)) : list QuicEvent :=
  match ups with
  | [] => []
  | up :: ups => QAccept (mkStream (reader_of up) empty_writer) :: QRun i :: turns (S i) ups
  end.
Definition served_stream (down : list byte) : QStream := mkQStream (reader_of []) (mkWriter down None) true true.

Lemma quic_turn s ctx l id addr sess n nonce nc rnd er (c : Served) e streams now :
  let key := SKey sess in
  served s sess c -> key_ok key -> app e = s_before c -> in_uint 32 n = true ->
  len nonce = NonceSize -> len nc = NonceSize ->
  sheap e !! l = Some (Session_Touch now sess) -> never_dead e (Session_Touch now sess) ->
  random e = mkReader (nonce_used key nonce ++ rnd) er ->
  exists e' now', quic_events s ctx l id addr
      [QAccept (mkStream (reader_of (frame_bytes n (envelope key nc (request_bytes (mkRequest (s_op c) (s_payload c)))))) empty_writer);
       QRun (length streams)] (mkQuic e streams true false)
    = (mkQuic e' (streams ++ [served_stream (frame_bytes n (envelope key nonce (response_bytes (s_resp c))))]) true false, Ok tt) /\
    app e' = s_after c /\ sheap e' !! l = Some (Session_Touch now' sess) /\ never_dead e' (Session_Touch now' sess) /\
    random e' = mkReader rnd er.
Proof.
  intros key (Hreq & Hresp & Hans) Hk Happ Hn Hnonce Hnc Hl Hlive Hrnd. rewrite <-Happ in Hans.
  set (up := frame_bytes n _). cbn [quic_events]. unfold mbind at 1, M_bind at 1.
  cbn [quic_event accepting quic_env quic_streams quic_closed incoming outgoing].
  unfold mbind at 1, M_bind at 1, run_stream. cbn [quic_streams].
  rewrite (list_lookup_middle streams [] _ (length streams)) by done. cbn [quic_env].
  pose proof (frame_requests key n _ nc Hreq Hk Hnc Hn) as Hr.
  destruct (handleStream_at s ctx l addr (Session_Touch now sess) (norm_request (mkRequest (s_op c) (s_payload c))) n up
    io_EOF nonce rnd er (mkConn e (reader_of up) empty_writer false) (s_after c) (s_resp c))
    as (e' & j & Hrun & Hl' & Hlive' & Ha' & Hr'); try done.
  rewrite Hrun. cbn [env conn_in conn_out conn_closed accepting quic_closed written empty_writer app].
  exists e', (oracle e j). split; [|by split_and!].
  rewrite insert_app_r_alt, Nat.sub_diag by done. done.
Qed.

Lemma quic_turns respond s ctx l id addr sess sc : forall a n input nonces_c nonces_s rnd er e streams now,
  let key := SKey sess in
  let t := talk respond sc a n input in
  Forall (served s sess) (t_calls t) -> key_ok key -> app e = a ->
  length nonces_c = length (t_calls t) -> Forall (fun nc => len nc = NonceSize) nonces_c ->
  length nonces_s = length (t_calls t) -> Forall (fun nc => len nc = NonceSize) nonces_s ->
  sheap e !! l = Some (Session_Touch now sess) -> never_dead e (Session_Touch now sess) ->
  random e = mkReader (concat (map (nonce_used key) nonces_s) ++ rnd) er ->
  exists e', quic_events s ctx l id addr (turns (length streams) (up_frames key n (t_calls t) nonces_c))
      (mkQuic e streams true false)
    = (mkQuic e' (streams ++ map served_stream (down_frames key n (t_calls t) nonces_s)) true false, Ok tt) /\
    app e' = t_state t.
Proof.
  induction sc as [|fmt args|x| |line k IH|k IH|op payload k IH];
    intros a n input nonces_c nonces_s rnd er e streams now key t Hs Hk Happ Hlc Hc Hls Hns Hl Hlive Hrnd.
  - exists e. cbn. by rewrite app_nil_r.
  - exists e. cbn. by rewrite app_nil_r.
  - exists e. cbn. by rewrite app_nil_r.
  - exists e. cbn. by rewrite app_nil_r.
  - by eapply (IH a n input).
  - destruct input as [|line input]; [by eapply (IH None a n [])|by eapply (IH (Some line) a n input)].
  - cbn [talk] in t. destruct (respond op payload a) as [a' r]. subst t. cbn [called t_calls t_state] in *.
    set (t := talk _ _ _ _ _) in *. destruct nonces_c as [|nc nonces_c], nonces_s as [|ns nonces_s]; try done.
    apply list.Forall_cons in Hs as [Hs1 Hs], Hc as [Hnc Hc], Hns as [Hnns Hns].
    injection Hlc as Hlc. injection Hls as Hls. cbn [map concat] in Hrnd. rewrite <-app_assoc in Hrnd.
    assert (in_uint 32 (wrapU 32 (n + 1)) = true) as Hseq by (apply wrapU_range; lia).
    destruct (quic_turn s ctx l id addr sess (wrapU 32 (n + 1)) ns nc _ er _ e streams now Hs1 Hk Happ Hseq Hnns Hnc Hl Hlive Hrnd)
      as (e1 & now1 & Hturn & Ha1 & Hl1 & Hlive1 & Hr1). cbn [s_op s_payload s_resp s_after] in *.
    destruct (IH (inl (norm_response (wrapU 32 (n + 1)) r)) a' (wrapU 32 (n + 1)) input nonces_c nonces_s rnd er e1
      (streams ++ [served_stream (frame_bytes (wrapU 32 (n + 1)) (envelope key ns (response_bytes r)))]) now1)
      as (e' & Hrun & Ha'); try done.
    exists e'. split; [|done]. cbn [up_frames down_frames map turns s_op s_payload s_resp].
    rewrite length_app, Nat.add_1_r, <-app_assoc in Hrun.
    match goal with |- quic_events _ _ _ _ _ (?x :: ?y :: ?z) _ = _ => change (x :: y :: z) with ([x; y] ++ z) end.
    by rewrite (quic_events_app _ _ _ _ _ _ _ _ _ Hturn).
Qed.

(** ** From dialing on *)

(** The network takes the client to a connection with these streams. *)
Definition quic_reaches (net : Network) (host : string) (cfg : TLSConfig) (streams : list (res Stream)) : Prop :=
  quic_DialAddr net (resolveHushAddr (ip_literal net) host) (default_protos (DefaultALPN net) cfg) = Ok streams.

Lemma dialQUIC_ready net host cfg c b rnd re k0 spub sid coming shared k :
  quic_reaches net host cfg (answer_stream (spub ++ be_put 8 sid) :: coming) ->
  Client.addr c = resolveHushAddr (ip_literal net) host -> ctls c = Some cfg ->
  mode c = TransportQUIC -> len b = 32 -> crandom c = mkReader (b ++ rnd) re -> apiKey c = k0 ->
  len spub = PubKeySize -> in_uint 64 sid = true ->
  SharedSecret b spub = Ok shared -> DeriveSessionKey shared (client_secret k0) = Ok k ->
  exists c' l, dialQUIC net c = (c', Ok tt) /\
    quic_ready c' l coming [used_stream (client_hello k0 (x25519_Public b))]
      (NewSession (clock c (cticks c)) sid (client_id k0) (Some k)) /\
    crandom c' = mkReader rnd re /\ cseq c' = cseq c.
Proof.
  intros Hnet Haddr Hcfg Hm Hb Hrnd Hk0 Hsp Hsid Hsh Hk.
  unfold dialQUIC, new_wire, catch, client_keypair, GenerateKeyPair, CNow, OpenStreamSync, on_quic, stream_Close,
    get, modify, lift, mbind, M_bind.
  rewrite Haddr, Hcfg. unfold transport_Dial. cbn [from_option id]. rewrite Hnet. cbn [wrap_err set_wires wires crandom].
  rewrite lookup_insert_eq. unfold answer_stream at 1. cbn [set_wires crandom]. rewrite Hrnd, ReadFull_app by done.
  cbn [set_crandom set_wires apiKey wires clock cticks mode qconn tcpConn csess cseq dialed crandom].
  rewrite !lookup_insert_eq, Hk0. unfold reader_of.
  pose proof (client_accepts (clock c (cticks c)) k0 b spub sid [] io_EOF empty_writer shared k eq_refl Hsp Hsid Hsh Hk) as Hneg.
  rewrite app_nil_r in Hneg. rewrite Hneg.
  cbn [set_conns set_wires wires]. eexists _, _. split; [reflexivity|]. split; [|done].
  unfold quic_ready. cbn [set_conns set_wires mode dialed qconn csess wires]. split_and!; try done.
  by rewrite lookup_alter_eq, lookup_insert_eq.
Qed.

(** The server's side of a whole connection. *)
Lemma connection_serves respond s e ctx addr k0 pub sc input nonces_c nonces_s rnd er shared k :
  shared_key (keyStore s) k0 -> len pub = PubKeySize ->
  SharedSecret (serverPriv s) pub = Ok shared -> DeriveSessionKey shared (client_secret k0) = Ok k ->
  let sid := wrapU 64 (nextID e + 1) in
  let sess := NewSession (oracle e (ticks e)) sid (client_id k0) (Some k) in
  let t := talk respond sc (app e) 0 input in
  Forall (served s sess) (t_calls t) -> never_dead e sess ->
  length nonces_c = length (t_calls t) -> Forall (fun nc => len nc = NonceSize) nonces_c ->
  length nonces_s = length (t_calls t) -> Forall (fun nc => len nc = NonceSize) nonces_s ->
  random e = mkReader (concat nonces_s ++ rnd) er ->
  exists q, handleConnection s ctx addr (Ok (mkStream (reader_of (client_hello k0 pub)) empty_writer))
      (turns 1 (up_frames (Some k) 0 (t_calls t) nonces_c) ++ [QFail]) (mkQuic e [] true false) = (q, Ok tt) /\
    app (quic_env q) = t_state t /\ sessions (sstore (quic_env q)) !! sid = None /\ quic_closed q = true /\
    quic_streams q = map served_stream ((x25519_Public (serverPriv s) ++ be_put 8 sid) :: down_frames (Some k) 0 (t_calls t) nonces_s).
Proof.
  intros Hks Hp Hsh Hk sid sess t Hs Hlive Hlc Hc Hls Hns Hrnd. pose proof (derived_key_ok _ _ _ Hk) as Hkok.
  destruct (handleConnection_open s e ctx addr k0 pub shared k) as (l & e1 & Hl & Hlive1 & Ha & Hr & Hopen); try done.
  fold sid sess in Hl, Hlive1, Hopen.
  destruct (quic_turns respond s ctx l sid addr sess sc (app e) 0 input nonces_c nonces_s rnd er e1
    [served_stream (x25519_Public (serverPriv s) ++ be_put 8 sid)] (LastUsed sess)) as (e2 & Hrun & Ha2); try done.
  { rewrite Hr, Hrnd. f_equal. f_equal. f_equal. symmetry. apply map_id. }
  rewrite Hopen. cbn [SKey sess NewSession length app] in Hrun. fold t in Hrun.
  rewrite (quic_events_app _ _ _ _ _ _ _ _ _ Hrun). cbn [quic_events quic_event accepting].
  unfold mbind, M_bind, on_quic_env, unfile_session, quic_Close. cbn [quic_env quic_streams accepting quic_closed].
  eexists. split; [reflexivity|]. cbn [quic_env quic_closed quic_streams set_sessions app sstore Store_Delete sessions].
  split; [done|]. split; [apply lookup_delete_eq|]. split; [done|].
  rewrite map_app, map_map. apply (f_equal (cons _)). by apply map_ext.
Qed.

Lemma Close_wire c l coming used closed : qconn c = Some l -> wires c !! l = Some (QUICWire coming used closed) ->
  wires (Close c).1 !! l = Some (QUICWire coming used true).
Proof.
  intros Hq Hw. unfold Close, get, modify, wire_Close, mbind, M_bind. rewrite Hq.
  destruct (tcpConn c) as [l'|]; cbn [fst set_wires set_conns wires mret M_ret modify].
  - destruct (decide (l' = l)) as [->|Hne].
    + by rewrite !lookup_alter_eq, Hw.
    + rewrite lookup_alter_ne by done. by rewrite lookup_alter_eq, Hw.
  - by rewrite lookup_alter_eq, Hw.
Qed.

(** C5. A program and its server, over QUIC.  Let the program be given the
    identifier of an API key the server has, and its secret in hexadecimal; and
    let the calls the program makes, when they are answered by the server's
    handlers one after the other, fit into frames.  Then there are a handshake
    and a stream for each call such that the server's goroutines, given what
    the client sends, end normally having sent what the client receives, with
    the application in the state after the last call and the session gone; and
    over any network that takes the client there, the program reads its
    secret, dials, and prints and ends exactly as it does when it is run with
    the handlers' answers in place of the calls. *)
Theorem program_served respond s e ctx addr clk keyID secret port b body input nonces_c nonces_s rnd_c rnd_s er_c er_s shared k :
  let k0 := Some (mkAPIKey keyID secret) in
  let sid := wrapU 64 (nextID e + 1) in
  let sess := NewSession (oracle e (ticks e)) sid (client_id k0) (Some k) in
  let t := talk respond (body sid) (app e) 0 input in
  shared_key (keyStore s) k0 -> len b = 32 ->
  SharedSecret (serverPriv s) (x25519_Public b) = Ok shared -> DeriveSessionKey shared (client_secret k0) = Ok k ->
  Forall (served s sess) (t_calls t) -> never_dead e sess ->
  length nonces_c = length (t_calls t) -> Forall (fun nc => len nc = NonceSize) nonces_c ->
  length nonces_s = length (t_calls t) -> Forall (fun nc => len nc = NonceSize) nonces_s ->
  random e = mkReader (concat nonces_s ++ rnd_s) er_s ->
  exists hello ups downs q,
    handleConnection s ctx addr (Ok (mkStream (reader_of hello) empty_writer)) (turns 1 ups ++ [QFail])
      (mkQuic e [] true false) = (q, Ok tt) /\
    quic_streams q = map served_stream downs /\
    app (quic_env q) = t_state t /\ sessions (sstore (quic_env q)) !! sid = None /\ quic_closed q = true /\
    forall net, quic_reaches net (example_addr port) example_tls (map answer_stream downs) -> exists p l closed,
      run_client net clk (mkReader (b ++ concat nonces_c ++ rnd_c) er_c) keyID (hex_bytes secret) port input body
        = (Some p, t_ending t) /\
      stdout p = t_output t /\ stdin p = t_stdin t /\
      wires (p_client p) !! l = Some (QUICWire [] (rev (map used_stream (hello :: ups))) closed).
Proof.
  intros k0 sid sess t Hks Hb Hsh Hk Hs Hlive Hlc Hc Hls Hns Hrnd. pose proof (derived_key_ok _ _ _ Hk) as Hkok.
  destruct (connection_serves respond s e ctx addr k0 (x25519_Public b) (body sid) input nonces_c nonces_s rnd_s er_s shared k)
    as (q & Hq & Ha & Hgone & Hcl & Hstr); try done; [apply x25519_Public_len|]. fold sid t in Hq, Ha, Hgone, Hstr.
  eexists _, _, _, q. split; [exact Hq|]. split; [exact Hstr|]. split_and!; [done..|].
  intros net Hnet. unfold run_client. rewrite hex_DecodeString_hex_bytes. fold k0. unfold Dial.
  set (c := set_ctls (Some example_tls) (new_client net clk (mkReader (b ++ concat nonces_c ++ rnd_c) er_c) (example_addr port) k0)).
  change (fold_left _ _ _) with c. change (dial net c) with (dialQUIC net c).
  destruct (dialQUIC_ready net (example_addr port) example_tls c b (concat nonces_c ++ rnd_c) er_c k0
    (x25519_Public (serverPriv s)) sid _ shared k Hnet) as (c0 & l & Hdial & Hready & Hrnd0 & Hseq0); try done.
  { apply x25519_Public_len. }
  { apply wrapU_range. lia. }
  { unfold SharedSecret in *. by rewrite x25519_commutes. }
  rewrite Hdial. assert (SessionID c0 = sid) as ->.
  { unfold SessionID. destruct Hready as (_ & _ & _ & -> & _). done. }
  destruct (run_script_ready respond s (body sid) (app e) 0 input [] c0 l _ _ nonces_c nonces_s rnd_c er_c Hready)
    as (c' & sess' & Hrun & _ & _ & Hqc & _ & Hw); try done.
  { rewrite Hrnd0. cbn [SKey NewSession nonce_used]. f_equal. f_equal. f_equal. symmetry. apply map_id. }
  rewrite Hrun. fold t. cbn [app].
  destruct (t_ending t); do 2 eexists; eexists; (split; [reflexivity|]); (split; [done|]); (split; [done|]);
    cbn [p_client]; first [exact Hw|exact (Close_wire _ _ _ _ _ Hqc Hw)].
Qed.
End program.

(** ** A program on the demo server: one call *)

Definition demo_body (session : Z) : Script := Call 1 None (fun r =>
  match r with inl _ => Output "answered" Finish | inr err => Exit "failed: %v" [AStr (error_text err)] end).
Definition demo_respond (op : Z) (p : option Map) (a : Z) : Z * Response :=
  answer demo_table (mkSrvRequest (mkRequest op p) 8 "") a.

Lemma program_served_witness : exists hello ups downs q,
  handleConnection demo_server [] "" (Ok (mkStream (reader_of hello) empty_writer)) (turns 1 ups ++ [QFail])
    (mkQuic talk_env [] true false) = (q, Ok tt) /\ app (quic_env q) = 1 /\
  forall net, quic_reaches net (example_addr "4433") example_tls (map answer_stream downs) -> exists p,
    run_client net (fun _ => 5) (mkReader (demo_priv_b ++ sample_nonce) io_EOF) "" "" "4433" [] demo_body = (Some p, Returned) /\
    stdout p = ["answered"].
Proof.
  assert (exists shared, SharedSecret (serverPriv demo_server) (x25519_Public demo_priv_b) = Ok shared) as [shared Hsh]
    by (eexists; vm_compute; reflexivity).
  assert (exists k, DeriveSessionKey shared (client_secret (Some (mkAPIKey "" []))) = Ok k) as [k Hk]
    by (vm_compute in Hsh; injection Hsh as <-; eexists; vm_compute; reflexivity).
  destruct (program_served demo_respond demo_server talk_env [] "" (fun _ => 5) "" [] "4433" demo_priv_b demo_body []
    [sample_nonce] [sample_nonce] [] (sample_nonce ++ sample_nonce) io_EOF io_EOF shared k) as (hello & ups & downs & q & Hq & _ & Ha & _ & _ & H).
  all: try reflexivity.
  - by left.
  - exact Hsh.
  - exact Hk.
  - apply list.Forall_singleton. split; [split; [done|vm_compute; discriminate]|].
    split; [exact (demo_fits_any (Some k) (mkSrvRequest (mkRequest 1 None) 8 "") 0 eq_refl)|].
    exact (serves_answers demo_server demo_table _ (mkRequest 1 None) 0 demo_serves).
  - intros i. split_and!; vm_compute; reflexivity.
  - by repeat constructor.
  - by repeat constructor.
  - exists hello, ups, downs, q. split; [exact Hq|]. split; [exact Ha|]. intros net Hnet.
    destruct (H net Hnet) as (p & l & closed & Hp & Hout & _). exists p. split; [exact Hp|exact Hout].
Defined.
