(* ===== verification/ExampleServer.v ===== *)
(** * The servers of the examples

    [runServer] of [src/examples], which the three examples share but for the
    handlers and the lines they print: an API key is made and printed, the
    certificate is loaded, and the server listens on a free port of the local
    host.  The files of the certificate and the socket are parameters. *)

From Stdlib Require Import Ascii.
From S2P Require Import Prelude GoRt Fmt Varint Tlv Crypto Frame Transport Session Negotiate RateLimit Media Handler Server Logger Program.

(** A map with one key. *)
Definition one_key (key : APIKey) : KeyStore := fun id => if bool_decide (id = KeyID key) then Some (Secret key) else None.

(** How far [runServer] gets: it serves, having printed its lines and logged
    its first ones, or it ends. *)
Inductive Started (A PacketConn : Type) :=
| Running (srv : Server A) (st : SessionStore) (conn : PacketConn) (key : APIKey) (port : Z) (out : list string)
    (log : colorWriter)
| Stopped (ending : Ending).
Arguments Running {A PacketConn}.
Arguments Stopped {A PacketConn}.

(** The lines of an example. *)
Record Banner := mkBanner {
  b_tag : string;
  b_log : list string;                            (* each with the port *)
  b_lines : list (string * (APIKey -> Z -> list arg))
}.
Definition the_id : APIKey -> Z -> list arg := fun key _ => [AStr (KeyID key)].
Definition the_secret : APIKey -> Z -> list arg := fun key _ => [AStr (string_of (Secret key))].
Definition the_port : APIKey -> Z -> list arg := fun _ port => [AInt port].
Definition the_command : APIKey -> Z -> list arg := fun key port =>
  [AStr (KeyID key); AStr (string_of (Secret key)); AInt port].
Definition no_args : APIKey -> Z -> list arg := fun _ _ => [].

Section server.
Context {A PacketConn : Type} `{C : CryptoOps}.
(** The certificate and its key; a UDP socket and its port, for an address;
    the time of the log lines. *)
Context (tls_LoadX509KeyPair : string -> string -> res Certificate).
Context (net_ListenUDP : string -> option (PacketConn * Z)) (zone : Z) (now : Time).

Definition run_server (b : Banner) (register : Server A -> Server A) (rnd : Reader) (stderr : Writer)
  : Started A PacketConn :=
  let '(rnd, key) := GenerateAPIKey rnd in
  match key with
  | Ok key =>
      match tls_LoadX509KeyPair "../../test-cert.pem" "../../test-key.pem" with
      | Ok cert =>
          match NewServer (Some (one_key key))
                  [WithTLSConfig (Some (mkTLSConfig [] "" false [cert])); WithLogger true] rnd with
          | (_, Ok (srv, st)) =>
              match net_ListenUDP "127.0.0.1:0" with
              | Some (conn, port) =>
                  let log := fold_left (fun log line => (Logger_Printf zone now line [AInt port] log).1) (b_log b)
                               (NewLogger (b_tag b) stderr) in
                  Running (register srv) st conn key port ((fun '(fmt, args) => Sprintf fmt (args key port)) <$> b_lines b) log
              | None => Stopped (Panicked PNilDeref)     (* the error is dropped *)
              end
          | (_, Err err) => Stopped (Exited (Sprintf "create server: %v" [AStr (error_text err)]))
          | (_, Panic p) => Stopped (Panicked p)
          | (_, OutOfFuel) => Stopped OutOfModel
          end
      | Err err => Stopped (Exited (Sprintf "load cert: %v" [AStr (error_text err)]))
      | Panic p => Stopped (Panicked p)
      | OutOfFuel => Stopped OutOfModel
      end
  | Err _ => Stopped (Panicked PNilDeref)                (* the error is dropped *)
  | Panic p => Stopped (Panicked p)
  | OutOfFuel => Stopped OutOfModel
  end.
End server.

(** What [main] does with its arguments, the first of which is the program. *)
Inductive Command := Usage | ServerCommand | ClientCommand (args : list string) | BadCommand (line : string).
Definition main_command (client_args : nat) (usage : string) (args : list string) : Command :=
  match args with
  | _ :: cmd :: rest =>
      if bool_decide (cmd = "server") then ServerCommand
      else if bool_decide (cmd = "client") then
        if (length args <? 2 + client_args)%nat then BadCommand usage else ClientCommand (take client_args rest)
      else BadCommand (Sprintf "unknown command: %s" [AStr cmd])
  | _ => Usage
  end.

(** ** Facts *)

Lemma length_hex_bytes bs : len (bytes_of (hex_bytes bs)) = 2 * len bs.
Proof.
  induction bs as [|b bs IH]; [done|].
  change (hex_bytes (b :: bs)) with
    (String (hex_digit (byteZ b `div` 16)) (String (hex_digit (byteZ b `mod` 16)) (hex_bytes bs))).
  set (x := hex_digit _). set (y := hex_digit _).
  change (bytes_of (String x (String y (hex_bytes bs)))) with (byte_of_ascii x :: byte_of_ascii y :: bytes_of (hex_bytes bs)).
  rewrite !len_cons, IH. lia.
Qed.

(** A server that runs is the registered one, and knows the key it printed. *)
Lemma run_server_knows {A PacketConn} `{C : CryptoOps} load listen zone now b (register : Server A -> Server A) rnd stderr srv st
  (conn : PacketConn) key port out log :
  run_server load listen zone now b register rnd stderr = Running srv st conn key port out log ->
  out = (fun '(fmt, args) => Sprintf fmt (args key port)) <$> b_lines b /\ len (bytes_of (KeyID key)) = 16 /\
  exists s0, srv = register s0 /\ middlewares s0 = [] /\ streamMiddlewares s0 = [] /\ handlers s0 = ∅ /\
    KeyStore_Get (keyStore s0) (KeyID key) = Some (Secret key).
Proof.
  unfold run_server. destruct (GenerateAPIKey rnd) as [rnd1 [key1|x|p|]] eqn:Hkey; try done.
  destruct (load _ _) as [cert|x|p|]; try done.
  destruct (NewServer _ _ rnd1) as [rnd2 [[srv1 st1]|x|p|]] eqn:Hnew; try done.
  destruct (listen _) as [[conn1 port1]|]; [|done]. intros [= <- <- <- <- <- <- <-]. split; [done|]. split.
  - revert Hkey. unfold GenerateAPIKey, mbind, M_bind. destruct (RandomBytes 32 rnd) as [r1 [secret|x|p|]]; try done.
    destruct (RandomBytes 8 r1) as [r2 [id|x|p|]] eqn:Hid; try done. intros [= _ <-]. cbn [KeyID]. rewrite length_hex_bytes.
    unfold RandomBytes, wrap_errM in Hid. destruct (ReadFull 8 r1) as [r3 [b'|x|p|]] eqn:Hr; try done.
    injection Hid as <- <-. apply ReadFull_inv in Hr as (_ & -> & _); lia.
  - exists srv1. split; [done|]. revert Hnew. unfold NewServer, mbind, M_bind.
    destruct (wrap_errM _ _ _ _) as [? [priv|x|p|]]; try done. intros [= _ <- _]. cbn. split_and!; try done.
    unfold KeyStore_Get, KeyStore_Get_fun, one_key. by rewrite bool_decide_true.
Qed.
