(* ===== verification/CrudProgram.v ===== *)
(** * The notes example as two programs

    The command line, [runServer] and [runClient] of
    [src/examples/crud/main.go], and what they do together: the client's
    session with the server, line by line. *)

From stdpp Require Import pretty.
From S2P Require Import Prelude GoRt Fmt Varint Tlv TlvSpec TlvDecode TlvSafe Crypto Frame Transport Address FrameFacts FrameClaims Session SessionFacts Negotiate NegotiateFacts RateLimit Media Handler Server ServerFacts Pipeline Client EndToEnd Conversation Quic QuicFacts Logger Program ProgramFacts ExampleServer Crud CrudFacts.

(** ** The programs *)

Definition crud_main : list string -> Command := main_command 3 "Usage: go run . client <key_id> <key_secret_hex> <hush_port>".

Definition crud_banner : Banner := mkBanner "crud"
  ["[INF] Hush CRUD Notes ready on port %d"; "[INF] Hush CRUD Notes ready on port %d"; "[INF] Hush CRUD Notes ready on port %d"]
  [("Key ID:       %s" +:+ nl, the_id); ("Key Secret:   %x" +:+ nl, the_secret); ("Port:         %d" +:+ nl, the_port);
   ("Ops:" +:+ nl, no_args); ("  0x0001  Create(text)     → id" +:+ nl, no_args);
   ("  0x0002  List()           → notes[]" +:+ nl, no_args); ("  0x0003  Get(id)          → note" +:+ nl, no_args);
   ("  0x0004  Update(id, text) → ok" +:+ nl, no_args); ("  0x0005  Delete(id)       → ok" +:+ nl +:+ nl, no_args)].

Definition crud_runServer {PacketConn} `{C : CryptoOps} (order : Orders) load listen zone now
  : Reader -> Writer -> Started Notes PacketConn :=
  run_server load listen zone now crud_banner (crud_handlers order).

(** The first loop: a note for each title. *)
Fixpoint create_notes (titles : list string) (ids : list Z) (k : list Z -> Script) : Script :=
  match titles with
  | [] => k ids
  | title :: titles =>
      Call 1 (Some (Map_Set NewMap "text" (tlv_String title))) (fun r =>
        match r with
        | inr err => Exit "create: %v" [AStr (error_text err)]
        | inl _ =>
            get_res (m ← resp_payload r; get_Uint64 m "id") (fun id =>
              printf ("✅ Created note %d: %s" +:+ nl) [AInt id; AStr title]
                (create_notes titles (ids ++ [id]) k))
        end)
  end.

(** The loops over the listed notes. *)
Fixpoint print_notes (notes : list Value) (k : Script) : Script :=
  match notes with
  | [] => k
  | nv :: notes =>
      get_res (m ← Value_Map nv; id ← get_Uint64 m "id"; text ← get_String m "text"; Ok (id, text))
        (fun '(id, text) => printf ("   %d: %s" +:+ nl) [AInt id; AStr text] (print_notes notes k))
  end.
Definition list_notes (fmt : string) (k : Script) : Script :=
  Call 2 None (fun r =>
    get_res (resp_payload r) (fun m =>
      get_res (get_Uint64 m "count") (fun count =>
        printf fmt [AInt count]
          (let '(notesVal, ok) := Map_Get m "notes" in
           if ok then get_res (Value_Array notesVal) (fun vs => print_notes vs k) else k)))).

(** [ids[i]] *)
Definition id_at (ids : list Z) (i : nat) (k : Z -> Script) : Script :=
  match ids !! i with Some id => k id | None => Crash (POther "index out of range") end.

(** The rest of the session, from the update on. *)
Definition change_notes (ids : list Z) : Script :=
  id_at ids 0 (fun first =>
  Call 4 (Some (Map_Set (Map_Set NewMap "id" (tlv_Uint64 first)) "text" (tlv_String "buy milk and eggs"))) (fun _ =>
  printf (nl +:+ "✏️  Updated note %d" +:+ nl) [AInt first]
  (Call 3 (Some (Map_Set NewMap "id" (tlv_Uint64 first))) (fun r =>
   get_res (m ← resp_payload r; get_String m "text") (fun text =>
   printf ("🔍  Note %d: %s" +:+ nl) [AInt first; AStr text]
   (id_at ids 2 (fun third =>
    Call 5 (Some (Map_Set NewMap "id" (tlv_Uint64 third))) (fun _ =>
    printf ("🗑️  Deleted note %d" +:+ nl) [AInt third]
    (list_notes (nl +:+ "📋 %d notes remaining" +:+ nl) Finish))))))))).

Definition crud_runClient (session : Z) : Script :=
  printf ("Session: %d" +:+ nl +:+ nl) [AInt session]
  (create_notes ["buy milk"; "call mom"; "fix the bug"] [] (fun ids =>
   list_notes (nl +:+ "📋 %d notes total" +:+ nl) (change_notes ids))).

(** ** The server's answers *)

Section answers.
Context (order : Orders) (Horder : forall n m, order n m ≡ₚ map_to_list m).

Definition note_answer (o : note_op) (a : Notes) : Notes * Response :=
  match o with
  | NCreate text => ((create_note text a).1, ok_response (id_field (noteID a)))
  | NList =>
      let l := order (note_ranges a) (notes a) in
      ((range_notes order a).1,
       ok_response (Map_Set (Map_Set NewMap "notes" (tlv_Array (note_value <$> l)))
         "count" (tlv_Uint64 (wrapU 64 (Z.of_nat (length (note_value <$> l)))))))
  | NGet id =>
      (a, match notes a !! id with
          | Some text => ok_response (Map_Set (id_field id) "text" (tlv_String text))
          | None => note_not_found
          end)
  | NUpdate id text =>
      ((update_note id text a).1,
       match notes a !! id with
       | Some _ => ok_response (Map_Set (id_field id) "updated" (tlv_Bool true))
       | None => note_not_found
       end)
  | NDelete id => ((delete_note id a).1, ok_response (Map_Set NewMap "deleted" (tlv_Bool (bool_decide (is_Some (notes a !! id))))))
  end.

(** The operation a request stands for. *)
Definition field {B} (get : Map -> string -> res B) (d : B) (p : option Map) (key : string) : B :=
  match p with Some m => match get m key with Ok b => b | _ => d end | None => d end.
Definition op_of (op : Z) (p : option Map) : note_op :=
  if op =? 1 then NCreate (field get_String "" p "text")
  else if op =? 3 then NGet (field get_Uint64 0 p "id")
  else if op =? 4 then NUpdate (field get_Uint64 0 p "id") (field get_String "" p "text")
  else if op =? 5 then NDelete (field get_Uint64 0 p "id")
  else NList.
Definition crud_respond (op : Z) (p : option Map) (a : Notes) : Notes * Response := note_answer (op_of op p) a.

Lemma op_of_op o : op_of (op_code o) (op_payload o) = o.
Proof. by destruct o. Qed.

Lemma note_answers s0 sess o a :
  middlewares s0 = [] -> op_ok o ->
  answers_at (crud_handlers order s0) sess (norm_request (mkRequest (op_code o) (op_payload o))) a
    (note_answer o a).1 (note_answer o a).2.
Proof.
  intros Hmw Hok. assert (norm_request (mkRequest (op_code o) (op_payload o)) = mkRequest (op_code o) (op_payload o)) as ->
    by (by destruct o).
  unfold answers_at, crud_handlers, HandleFunc, Handle, set_handler, wrap_handler. cbn [handlers middlewares].
  rewrite Hmw. cbn [rev fold_left Opcode].
  destruct o as [text| |id|id text|id]; cbn [op_code op_payload];
    repeat (first [rewrite lookup_insert_eq|rewrite lookup_insert_ne by discriminate]);
    intros ctx e <-; unfold note_answer; cbn [fst snd].
  - unfold CreateHandler, lift, mbind, M_bind. change (payload_String _ _) with (@Ok string text). cbn match.
    rewrite bool_decide_false by done. eexists. split; [reflexivity|]. by split_and!.
  - unfold ListHandler, in_app, range_notes, mbind, M_bind. eexists. split; [reflexivity|]. by split_and!.
  - unfold GetHandler, lift, mbind, M_bind. change (payload_Uint64 _ _) with (@Ok Z id). cbn match.
    rewrite (proj2 (Z.eqb_neq id 0)) by done. unfold in_app, get_note.
    destruct (notes (app e) !! id); eexists; (split; [reflexivity|]); by split_and!.
  - destruct Hok as [Hi Ht]. unfold UpdateHandler, lift, mbind, M_bind. change (payload_Uint64 _ _) with (@Ok Z id). cbn match.
    rewrite (proj2 (Z.eqb_neq id 0)) by done. change (payload_String _ _) with (@Ok string text). cbn match.
    rewrite bool_decide_false by done. unfold in_app, update_note.
    destruct (notes (app e) !! id); eexists; (split; [reflexivity|]); by split_and!.
  - unfold DeleteHandler, lift, mbind, M_bind. change (payload_Uint64 _ _) with (@Ok Z id). cbn match.
    rewrite (proj2 (Z.eqb_neq id 0)) by done. eexists. split; [reflexivity|]. by split_and!.
Qed.

(** ** The client's session *)

(** A line of a listing. *)
Definition note_line (note : Z * string) : string := Sprintf ("   %d: %s" +:+ nl) [AInt note.1; AStr note.2].
Definition says (lines : list string) (t : Talk (A := Notes)) : Talk := fold_right said t lines.

Lemma talk_says respond lines k (a : Notes) n input :
  talk respond (fold_right Output k lines) a n input = says lines (talk respond k a n input).
Proof. induction lines as [|l lines IH]; [done|]. cbn. by rewrite IH. Qed.

Lemma print_notes_lines l k : print_notes (norm <$> (note_value <$> l)) k = fold_right Output k (note_line <$> l).
Proof. induction l as [|[id text] l IH]; [done|]. cbn [fmap list_fmap print_notes fold_right]. by rewrite IH. Qed.

Definition serve_op (o : note_op) (a : Notes) : Served :=
  mkServed (op_code o) (op_payload o) a (note_answer o a).1 (note_answer o a).2.

Lemma talk_op o k (a : Notes) n input :
  talk crud_respond (Call (op_code o) (op_payload o) k) a n input
  = called (serve_op o a) (talk crud_respond (k (inl (norm_response (wrapU 32 (n + 1)) (note_answer o a).2)))
      (note_answer o a).1 (wrapU 32 (n + 1)) input).
Proof. cbn [talk]. unfold crud_respond at 1. rewrite op_of_op. unfold serve_op. by destruct (note_answer o a). Qed.

Lemma talk_create title titles ids k a n input :
  talk crud_respond (create_notes (title :: titles) ids k) a n input
  = called (serve_op (NCreate title) a)
      (said (Sprintf ("✅ Created note %d: %s" +:+ nl) [AInt (noteID a); AStr title])
         (talk crud_respond (create_notes titles (ids ++ [noteID a]) k) (create_note title a).1 (wrapU 32 (n + 1)) input)).
Proof. cbn [create_notes]. exact (talk_op (NCreate title) _ a n input). Qed.

Lemma talk_list fmt k a n input :
  talk crud_respond (list_notes fmt k) a n input
  = called (serve_op NList a)
      (said (Sprintf fmt [AInt (wrapU 64 (Z.of_nat (length (order (note_ranges a) (notes a)))))])
         (says (note_line <$> order (note_ranges a) (notes a))
            (talk crud_respond k (range_notes order a).1 (wrapU 32 (n + 1)) input))).
Proof.
  unfold list_notes. rewrite (talk_op NList). f_equal. cbn [note_answer fst snd]. rewrite length_fmap.
  rewrite <-talk_says, <-print_notes_lines. reflexivity.
Qed.

(** The notes after the three creations, and after the rest of the session,
    with the number of listings before. *)
Definition three_notes : nat -> Notes := mkNotes (<[3 := "fix the bug"]> (<[2 := "call mom"]> (<[1 := "buy milk"]> ∅))) 4.
Definition updated_notes : nat -> Notes := mkNotes (<[1 := "buy milk and eggs"]> (notes (three_notes 1))) 4.
Definition last_notes : nat -> Notes := mkNotes (<[1 := "buy milk and eggs"]> (<[2 := "call mom"]> ∅)) 4.

(** What the client prints. *)
Definition transcript (session : Z) : list string :=
  ["Session: " +:+ pretty session +:+ nl +:+ nl; "✅ Created note 1: buy milk" +:+ nl; "✅ Created note 2: call mom" +:+ nl;
   "✅ Created note 3: fix the bug" +:+ nl; nl +:+ "📋 3 notes total" +:+ nl] ++
  (note_line <$> order 0%nat (notes (three_notes 0))) ++
  [nl +:+ "✏️  Updated note 1" +:+ nl; "🔍  Note 1: buy milk and eggs" +:+ nl; "🗑️  Deleted note 3" +:+ nl;
   nl +:+ "📋 2 notes remaining" +:+ nl] ++
  (note_line <$> order 1%nat (notes (last_notes 1))).

(** The calls of the session. *)
Definition session_calls : list Served :=
  [serve_op (NCreate "buy milk") no_notes; serve_op (NCreate "call mom") (mkNotes (<[1 := "buy milk"]> ∅) 2 0);
   serve_op (NCreate "fix the bug") (mkNotes (<[2 := "call mom"]> (<[1 := "buy milk"]> ∅)) 3 0);
   serve_op NList (three_notes 0); serve_op (NUpdate 1 "buy milk and eggs") (three_notes 1);
   serve_op (NGet 1) (updated_notes 1); serve_op (NDelete 3) (updated_notes 1); serve_op NList (last_notes 1)].

Lemma order_length n m : length (order n m) = size m.
Proof. rewrite Horder. apply length_map_to_list. Qed.

Lemma says_eq lines t : says lines t = mkTalk (t_state t) (t_calls t) (t_stdin t) (lines ++ t_output t) (t_ending t).
Proof. induction lines as [|l lines IH]; [by destruct t|]. cbn [says fold_right]. fold (says lines t). by rewrite IH. Qed.

Lemma talk_output line k (a : Notes) n input :
  talk crud_respond (Output line k) a n input = said line (talk crud_respond k a n input).
Proof. done. Qed.

(** From the update on. *)
Lemma talk_change n :
  talk crud_respond (change_notes [1; 2; 3]) (three_notes 1) n []
  = mkTalk (last_notes 2) (drop 4 session_calls) []
      ([nl +:+ "✏️  Updated note 1" +:+ nl; "🔍  Note 1: buy milk and eggs" +:+ nl; "🗑️  Deleted note 3" +:+ nl;
        nl +:+ "📋 2 notes remaining" +:+ nl] ++ (note_line <$> order 1%nat (notes (last_notes 1)))) Returned.
Proof.
  unfold change_notes, id_at, printf. cbn [lookup list_lookup].
  rewrite (talk_op (NUpdate 1 "buy milk and eggs")), talk_output.
  change (note_answer (NUpdate 1 "buy milk and eggs") (three_notes 1)).1 with (updated_notes 1).
  rewrite (talk_op (NGet 1)). change (note_answer (NGet 1) (updated_notes 1)).1 with (updated_notes 1).
  set (r := norm_response _ _). change (m ← resp_payload (inl r); get_String m "text") with (Ok "buy milk and eggs").
  cbn [get_res]. rewrite talk_output, (talk_op (NDelete 3)), talk_output.
  change (note_answer (NDelete 3) (updated_notes 1)).1 with (last_notes 1).
  rewrite talk_list, says_eq, order_length. cbn [talk said called t_state t_calls t_stdin t_output t_ending].
  rewrite app_nil_r. reflexivity.
Qed.

Lemma crud_talk session :
  talk crud_respond (crud_runClient session) no_notes 0 []
  = mkTalk (last_notes 2) session_calls [] (transcript session) Returned.
Proof.
  unfold crud_runClient, printf. rewrite talk_output, !talk_create. cbn [create_notes].
  change (create_note "fix the bug" _).1 with (three_notes 0). change (_ ++ [noteID _]) with [1; 2; 3].
  rewrite talk_list, says_eq, order_length. change (range_notes order (three_notes 0)).1 with (three_notes 1). rewrite talk_change.
  cbn [said called t_state t_calls t_stdin t_output t_ending]. reflexivity.
Qed.

(** The calls fit, whatever the order of the listings. *)
Lemma list_fits k m : (forall l, l ∈ permutations (map_to_list m) ->
    response_fits (Some k) (ok_response (Map_Set (Map_Set NewMap "notes" (tlv_Array (note_value <$> l)))
      "count" (tlv_Uint64 (wrapU 64 (Z.of_nat (length (note_value <$> l)))))))) ->
  forall i r, response_fits (Some k) (note_answer NList (mkNotes m i r)).2.
Proof. intros H i r. apply H. apply permutations_Permutation. by rewrite Horder. Qed.

Lemma session_served s0 sess k :
  middlewares s0 = [] -> SKey sess = Some k -> Forall (served (crud_handlers order s0) sess) session_calls.
Proof.
  intros Hmw Hk.
  assert (forall o a, op_ok o -> request_fits (Some k) (mkRequest (op_code o) (op_payload o)) ->
    response_fits (Some k) (note_answer o a).2 -> served (crud_handlers order s0) sess (serve_op o a)) as H.
  { intros o a Ho Hreq Hresp. unfold served. rewrite Hk. split_and!; [done|done|]. by apply note_answers. }
  unfold session_calls. repeat (apply list.Forall_cons; split; [apply H|]); try done.
  - apply (list_fits k (notes (three_notes 0))). intros l Hl. vm_compute in Hl.
    repeat (apply elem_of_cons in Hl as [->|Hl]; [vm_compute; repeat split; discriminate|]). by apply not_elem_of_nil in Hl.
  - apply (list_fits k (notes (last_notes 1))). intros l Hl. vm_compute in Hl.
    repeat (apply elem_of_cons in Hl as [->|Hl]; [vm_compute; repeat split; discriminate|]). by apply not_elem_of_nil in Hl.
Qed.
End answers.

Lemma printed_secret secret :
  Sprintf ("Key Secret:   %x" +:+ nl) [AStr (string_of secret)] = "Key Secret:   " +:+ hex_bytes secret +:+ nl.
Proof.
  transitivity ("Key Secret:   " +:+ hex_bytes (bytes_of (string_of secret)) +:+ nl); [reflexivity|].
  by rewrite bytes_of_string_of.
Qed.

(** C4. The notes example works.  Let its server have been started, on any
    random bytes and any port, and let it have no notes yet.  It prints its
    API key and its port; the client, started with them, over any network that
    takes it to that server's goroutine for its connection, creates three notes,
    lists them, updates, gets and deletes: it prints exactly the expected
    lines, each listing in the order in which the server ranged over its map
    then, and returns;
    the server's goroutines end normally, its notes are the two that are left,
    and the session is gone. *)
Theorem crud_session `{L : CryptoLaws} {PacketConn} order load listen zone now rnd stderr srv st (conn : PacketConn) key port out log
  e ctx addr clk b nonces_c nonces_s rnd_c rnd_s er_c er_s shared k :
  (forall n m, order n m ≡ₚ map_to_list m) ->
  crud_runServer order load listen zone now rnd stderr = Running srv st conn key port out log ->
  let sid := wrapU 64 (nextID e + 1) in
  let sess := NewSession (oracle e (ticks e)) sid (client_id (Some key)) (Some k) in
  app e = no_notes -> len b = 32 ->
  SharedSecret (serverPriv srv) (x25519_Public b) = Ok shared ->
  DeriveSessionKey shared (client_secret (Some key)) = Ok k -> never_dead e sess ->
  length nonces_c = 8%nat -> Forall (fun nc => len nc = NonceSize) nonces_c ->
  length nonces_s = 8%nat -> Forall (fun nc => len nc = NonceSize) nonces_s ->
  random e = mkReader (concat nonces_s ++ rnd_s) er_s ->
  take 3 out = ["Key ID:       " +:+ KeyID key +:+ nl; "Key Secret:   " +:+ hex_bytes (Secret key) +:+ nl;
                "Port:         " +:+ pretty port +:+ nl] /\
  exists hello ups downs q,
    handleConnection srv ctx addr (Ok (mkStream (reader_of hello) empty_writer)) (turns 1 ups ++ [QFail])
      (mkQuic e [] true false) = (q, Ok tt) /\
    quic_streams q = map served_stream downs /\
    app (quic_env q) = last_notes 2 /\ sessions (sstore (quic_env q)) !! sid = None /\
    forall net, quic_reaches net (example_addr (pretty port)) example_tls (map answer_stream downs) -> exists p,
      run_client net clk (mkReader (b ++ concat nonces_c ++ rnd_c) er_c) (KeyID key) (hex_bytes (Secret key)) (pretty port)
        [] crud_runClient = (Some p, Returned) /\
      stdout p = transcript order sid /\
      exists l closed, wires (p_client p) !! l = Some (QUICWire [] (rev (map used_stream (hello :: ups))) closed).
Proof.
  intros Ho Hrun sid sess Ha Hb Hsh Hk Hlive Hlc Hc Hls Hns Hrnd.
  destruct (run_server_knows _ _ _ _ _ _ _ _ _ _ _ _ _ _ _ Hrun) as (-> & Hlen & s0 & -> & Hmw & _ & _ & Hks).
  destruct key as [id secret]. cbn [KeyID Secret] in *. split; [by rewrite <-printed_secret|].
  pose proof (crud_talk order Ho sid) as Htalk. rewrite <-Ha in Htalk.
  destruct (program_served (crud_respond order) (crud_handlers order s0) e ctx addr clk id secret (pretty port) b
    crud_runClient [] nonces_c nonces_s rnd_c rnd_s er_c er_s shared k) as (hello & ups & downs & q & Hq & Hstr & Hst & Hgone & _ & Hnet);
    fold sid sess; rewrite ?Htalk; try done.
  - right. split; [cbn [KeyID]; lia|done].
  - by apply (session_served order Ho s0 sess k).
  - fold sid sess in Hst, Hgone, Hnet. rewrite Htalk in Hst, Hnet. exists hello, ups, downs, q. split_and!; try done.
    intros net H. destruct (Hnet net H) as (p & l & closed & Hp & Hout & _ & Hw).
    exists p. split_and!; try done. by exists l, closed.
Qed.

(** ** A run *)

Definition crud_demo : Started Notes unit :=
  crud_runServer (fun _ => map_to_list) (fun _ _ => Ok []) (fun _ => Some (tt, 4433)) 0 0
    (reader_of (replicate 72 (Zbyte 7))) empty_writer.
Definition crud_env : Env Notes :=
  mkEnv (fun _ => 5) 0 (reader_of (concat (replicate 8 sample_nonce))) ∅ ∅ (mkStore demo_config ∅) 0 [] no_notes.

Definition crud_demo_key : bool :=
  match crud_demo with
  | Running srv _ _ key _ _ _ =>
      match SharedSecret (serverPriv srv) (x25519_Public demo_priv_b) with
      | Ok shared => is_ok (DeriveSessionKey shared (client_secret (Some key)))
      | _ => false
      end
  | Stopped _ => false
  end.

Lemma crud_session_witness : exists srv key (port : Z) hello ups downs q,
  handleConnection srv [] "" (Ok (mkStream (reader_of hello) empty_writer)) (turns 1 ups ++ [QFail])
    (mkQuic crud_env [] true false) = (q, Ok tt) /\
  app (quic_env q) = last_notes 2 /\
  forall net, quic_reaches net (example_addr (pretty port)) example_tls (map answer_stream downs) -> exists p,
    run_client net (fun _ => 6) (mkReader (demo_priv_b ++ concat (replicate 8 sample_nonce)) io_EOF) (KeyID key)
      (hex_bytes (Secret key)) (pretty port) [] crud_runClient = (Some p, Returned) /\
    nth 9 (stdout p) "" = "🔍  Note 1: buy milk and eggs" +:+ nl.
Proof.
  assert (crud_demo_key = true) as Hok by (vm_compute; reflexivity). revert Hok. unfold crud_demo_key.
  destruct crud_demo as [srv st conn key port out log|] eqn:Hrun; [|discriminate].
  destruct (SharedSecret (serverPriv srv) (x25519_Public demo_priv_b)) as [shared|x|x|] eqn:Hsh; try discriminate.
  destruct (DeriveSessionKey shared (client_secret (Some key))) as [k|x|x|] eqn:Hk; try discriminate. intros _.
  destruct (crud_session (fun _ => map_to_list) _ _ _ _ _ _ srv st conn key port out log crud_env [] "" (fun _ => 6) demo_priv_b
    (replicate 8 sample_nonce) (replicate 8 sample_nonce) [] [] io_EOF io_EOF shared k ltac:(done) Hrun eq_refl eq_refl
    Hsh Hk ltac:(intros i; split_and!; vm_compute; reflexivity) eq_refl ltac:(repeat constructor) eq_refl
    ltac:(repeat constructor) ltac:(cbn [random crud_env]; by rewrite app_nil_r)) as (_ & hello & ups & downs & q & Hrunq & _ & Hq & _ & H).
  exists srv, key, port, hello, ups, downs, q. split; [exact Hrunq|]. split; [exact Hq|]. intros net Hnet.
  destruct (H net Hnet) as (p & Hp & Hout & _). exists p. split; [exact Hp|]. rewrite Hout. vm_compute. reflexivity.
Defined.
