(* ===== verification/Serve.v ===== *)
(** * Serving

    The three entry points of [src/server/server.go] and their accept loops.
    Sockets, QUIC and TLS are parameters. *)

From S2P Require Import Prelude GoRt Varint Tlv Crypto Frame Transport Session RateLimit Media Handler Server.

Section serving.
Context (DefaultALPN : string).
Context {A PacketConn Listener Conn : Type}.
Context (net_ResolveUDPAddr : string -> res string) (net_ListenUDP : string -> res PacketConn).
Context (quic_Listen : PacketConn -> TLSConfig -> res Listener).
Context (tls_Listen : string -> TLSConfig -> res Listener).

(** ** The accept loops

    The goroutines a server starts, and what it logs. *)
Inductive Spawn := SpawnGC | SpawnConn (c : Conn).
Record Serving := mkServing { spawned : list Spawn; serve_log : list LogLine; listener_open : bool }.

Definition go (sp : Spawn) : M Serving unit := fun st =>
  (mkServing (spawned st ++ [sp]) (serve_log st) (listener_open st), Ok tt).
Definition serve_logf (enabled : bool) (level fmt : string) (args : list arg) : M Serving unit := fun st =>
  ((if enabled
    then mkServing (spawned st) (LogLn ("[%s] " +:+ fmt) (AStr level :: args) :: serve_log st) (listener_open st)
    else st), Ok tt).
Definition set_listener (b : bool) : M Serving unit := fun st =>
  (mkServing (spawned st) (serve_log st) b, Ok tt).

(** The loop on the outcomes of [Accept]; the flag says whether the context is
    done when an error is looked at.  [false]: the loop is still in [Accept]
    after the last outcome. *)
Fixpoint accept_loop (enabled : bool) (warning : string) (outcomes : list ((Conn + error) * bool)) : M Serving bool :=
  match outcomes with
  | [] => mret false
  | (inl conn, _) :: outcomes => _ ← go (SpawnConn conn); accept_loop enabled warning outcomes
  | (inr _, true) :: _ => mret true
  | (inr _, false) :: outcomes =>
      _ ← serve_logf enabled LevelWarn warning []; accept_loop enabled warning outcomes
  end.

(** From the listener on: the deferred [listener.Close()] runs when the loop returns. *)
Definition serve_on (enabled : bool) (banner warning addr : string) (outcomes : list ((Conn + error) * bool)) : M Serving bool :=
  _ ← set_listener true;
  _ ← serve_logf enabled LevelInfo banner [AStr addr; AStr ALPN];
  _ ← go SpawnGC;
  returned ← accept_loop enabled warning outcomes;
  _ ← (if returned : bool then set_listener false else mret tt);
  mret returned.

Implicit Types (srv : Server A).
Abbreviation Listen := (transport_Listen DefaultALPN net_ResolveUDPAddr net_ListenUDP quic_Listen).
Abbreviation ListenTCP := (transport_ListenTCP DefaultALPN tls_Listen).

Definition ListenAndServe srv (addr : string) (outcomes : list ((Conn + error) * bool)) : M Serving bool :=
  match tlsConf srv with
  | None => lift (Err (Errorf "server: TLS config required" []))
  | Some cfg =>
      _ ← lift (wrap_err "server: listen: %w" [] (Listen addr (Some cfg)));
      serve_on (Logger srv) "listening on %s (ALPN: %s)" "accept: %v" addr outcomes
  end.

(** [addr] is the address of the packet connection. *)
Definition ListenAndServeOnConn srv (conn : PacketConn) (addr : string)
  (outcomes : list ((Conn + error) * bool)) : M Serving bool :=
  match tlsConf srv with
  | None => lift (Err (Errorf "server: TLS config required" []))
  | Some cfg =>
      _ ← lift (wrap_err "server: listen on conn: %w" [] (quic_Listen conn (set_protos [ALPN] cfg)));
      serve_on (Logger srv) "listening on %s (ALPN: %s)" "accept: %v" addr outcomes
  end.

Definition ListenAndServeTCP srv (addr : string) (outcomes : list ((Conn + error) * bool)) : M Serving bool :=
  match tlsConf srv with
  | None => lift (Err (Errorf "server: TLS config required for TCP" []))
  | Some cfg =>
      _ ← lift (wrap_err "server: listen tcp: %w" [] (ListenTCP addr (Some cfg)));
      serve_on (Logger srv) "listening TCP on %s (ALPN: %s)" "accept tcp: %v" addr outcomes
  end.

(** ** Theorems *)

(** The connections accepted before the loop ends, and whether it ends. *)
Fixpoint accepted (outcomes : list ((Conn + error) * bool)) : list Conn * bool :=
  match outcomes with
  | [] => ([], false)
  | (inl conn, _) :: outcomes => let '(cs, b) := accepted outcomes in (conn :: cs, b)
  | (inr _, true) :: _ => ([], true)
  | (inr _, false) :: outcomes => accepted outcomes
  end.

Lemma accept_loop_spec enabled warning outcomes : forall st,
  let '(cs, b) := accepted outcomes in
  exists log, accept_loop enabled warning outcomes st
    = (mkServing (spawned st ++ map SpawnConn cs) log (listener_open st), Ok b).
Proof.
  induction outcomes as [|[[conn|x] []] outcomes IH]; intros st; cbn [accepted accept_loop]; unfold mbind, M_bind.
  all: try (destruct st as [sp lg op]; exists lg; cbn [spawned map]; by rewrite app_nil_r).
  all: try (unfold serve_logf; match goal with |- context [accept_loop _ _ _ ?st'] => specialize (IH st') end;
    destruct (accepted outcomes) as [cs b]; destruct IH as [log ->]; exists log; by destruct enabled).
  all: unfold go; match goal with |- context [accept_loop _ _ _ ?st'] => specialize (IH st') end;
    destruct (accepted outcomes) as [cs b]; destruct IH as [log ->]; exists log;
    cbn [spawned map listener_open]; by rewrite <-app_assoc.
Qed.

Lemma serve_on_spec enabled banner warning addr outcomes st :
  let '(cs, b) := accepted outcomes in
  exists log, serve_on enabled banner warning addr outcomes st
    = (mkServing (spawned st ++ SpawnGC :: map SpawnConn cs) log (negb b), Ok b).
Proof.
  unfold serve_on. unfold mbind at 1, M_bind at 1, set_listener at 1. unfold mbind at 1, M_bind at 1, serve_logf at 1.
  unfold mbind at 1, M_bind at 1, go at 1. unfold mbind at 1, M_bind at 1.
  match goal with |- context [accept_loop _ _ _ ?st'] => pose proof (accept_loop_spec enabled warning outcomes st') as H end.
  destruct (accepted outcomes) as [cs b]. destruct H as [log ->]. exists log.
  destruct enabled, b; cbn; unfold set_listener; cbn; by rewrite <-app_assoc.
Qed.

(** Serving: when listening succeeds, each of the three entry points starts
    one collection goroutine and then one goroutine for every connection that
    is accepted, in order; errors of [Accept] are skipped until one is met
    with the context done, and only then it returns, with the listener closed.
    So a server whose [Accept] does not fail never stops. *)
Theorem serve_spec srv cfg addr pconn outcomes st :
  tlsConf srv = Some cfg ->
  let after (r : Serving * res bool) :=
    let '(cs, b) := accepted outcomes in
    exists log, r = (mkServing (spawned st ++ SpawnGC :: map SpawnConn cs) log (negb b), Ok b) in
  (is_ok (Listen addr (Some cfg)) = true -> after (ListenAndServe srv addr outcomes st)) /\
  (is_ok (quic_Listen pconn (set_protos [ALPN] cfg)) = true ->
     after (ListenAndServeOnConn srv pconn addr outcomes st)) /\
  (is_ok (ListenTCP addr (Some cfg)) = true -> after (ListenAndServeTCP srv addr outcomes st)) /\
  (Forall (fun o => exists conn, o.1 = inl conn) outcomes -> (accepted outcomes).2 = false).
Proof.
  intros Hcfg after. split_and!.
  - intros H. unfold ListenAndServe. rewrite Hcfg. destruct (Listen addr (Some cfg)); try done.
    unfold mbind, M_bind, lift, wrap_err. apply serve_on_spec.
  - intros H. unfold ListenAndServeOnConn. rewrite Hcfg. destruct (quic_Listen pconn _); try done.
    unfold mbind, M_bind, lift, wrap_err. apply serve_on_spec.
  - intros H. unfold ListenAndServeTCP. rewrite Hcfg. destruct (ListenTCP addr (Some cfg)); try done.
    unfold mbind, M_bind, lift, wrap_err. apply serve_on_spec.
  - clear. induction 1 as [|[[conn|x] f] outcomes [? Ho] _ IH]; try done. cbn [accepted].
    destruct (accepted outcomes). exact IH.
Qed.
End serving.

Definition tls_server : Server unit :=
  mkServer ∅ [] [] (fun _ => None) [] (Some empty_tls) None None (mkSessionConfig 0 0 0) true.

Lemma serve_spec_witness :
  exists log, ListenAndServeTCP (Listener := unit) "hush/1" (fun _ _ => Ok tt) tls_server
    ":8443" [(inl 1, false); (inr io_EOF, false); (inl 2, false); (inr io_EOF, true); (inl 3, false)]
    (mkServing [] [] false) = (mkServing [SpawnGC; SpawnConn 1; SpawnConn 2] log false, Ok true).
Proof.
  apply (serve_spec (PacketConn := unit) (Listener := unit) "hush/1" (fun a => Ok a) (fun _ => Ok tt) (fun _ _ => Ok tt)
    (fun _ _ => Ok tt) tls_server empty_tls ":8443" tt
    [(inl 1, false); (inr io_EOF, false); (inl 2, false); (inr io_EOF, true); (inl 3, false)] (mkServing [] [] false)
    eq_refl).
  reflexivity.
Defined.
