(* ===== verification/Conc.v ===== *)
(** * Goroutines

    Code that several goroutines run at once.  A [Prog] is the code of one
    goroutine cut at the points where another may get in: its atoms are the
    single accesses to what is shared (a clock reading, a call that holds a
    mutex, a read of its own connection), and [go] statements.  A goroutine that
    waits for something that never comes takes no more steps, as one that has
    ended; both are [Done].  A [System] is a
    pool of goroutines over shared state; a schedule is a list of goroutine
    numbers.  An unrecovered panic ends the process.

    The second half is a rely-guarantee logic: [wp] says of one goroutine that
    its atoms meet their obligations whatever the others do between them, and
    [adequacy] that a system of such goroutines refines a sequential
    specification, under every schedule, and comes to rest. *)

From S2P Require Import Prelude GoRt.

(** ** Programs

    [S] is the state that is shared, [L] what a goroutine owns, [C] the two
    together, on which the atoms work; [G] describes what a [go] statement
    starts. *)
Section programs.
Context {C G : Type}.

Inductive Prog (R : Type) : Type :=
| Done (r : res R)
| Atom (B : Type) (m : M C B) (k : res B -> Prog R)
| Fork (g : G) (k : Prog R).
Arguments Done {R}.
Arguments Atom {R}.
Arguments Fork {R}.

Definition atom {B} (m : M C B) : Prog B := Atom B m Done.
Definition fork (g : G) : Prog unit := Fork g (Done (Ok tt)).

#[export] Instance Prog_ret : MRet Prog := fun A a => Done (Ok a).
#[export] Instance Prog_bind : MBind Prog := fun A R f =>
  fix go p :=
    match p with
    | Done (Ok a) => f a
    | Done (Err e) => Done (Err e)
    | Done (Panic x) => Done (Panic x)
    | Done OutOfFuel => Done OutOfFuel
    | Atom B m k => Atom B m (fun r => go (k r))
    | Fork g k => Fork g (go k)
    end.

(** The counterparts of [attempt] and [deferring]. *)
Fixpoint p_attempt {R} (p : Prog R) : Prog (res R) :=
  match p with
  | Done r => Done (Ok r)
  | Atom B m k => Atom B m (fun r => p_attempt (k r))
  | Fork g k => Fork g (p_attempt k)
  end.
Fixpoint p_deferring {R} (p : Prog R) (d : M C unit) : Prog R :=
  match p with
  | Done r => Atom unit d (fun x => match x with Panic e => Done (Panic e) | _ => Done r end)
  | Atom B m k => Atom B m (fun r => p_deferring (k r) d)
  | Fork g k => Fork g (p_deferring k d)
  end.

(** Uninterrupted, a program is a computation; what it forks has not started
    yet when it ends. *)
Fixpoint alone {R} (p : Prog R) : M C R := fun c =>
  match p with
  | Done r => (c, r)
  | Atom B m k => let '(c, r) := m c in alone (k r) c
  | Fork g k => alone k c
  end.

Lemma alone_atom {B} (m : M C B) c : alone (atom m) c = m c.
Proof. cbn. by destruct (m c). Qed.

Lemma alone_bind {B R} (p : Prog B) (f : B -> Prog R) c :
  alone (p ≫= f) c = (alone p ≫= fun b => alone (f b)) c.
Proof.
  revert c. induction p as [[b|e|x|]|B' m k IH|g k IH]; intros c; try done.
  - unfold mbind, Prog_bind, M_bind in *. cbn [alone]. destruct (m c) as [c' r]. apply IH.
  - unfold mbind, Prog_bind, M_bind in *. cbn [alone]. apply IH.
Qed.

Lemma alone_deferring {R} (p : Prog R) (d : M C unit) c :
  alone (p_deferring p d) c = deferring (alone p) d c.
Proof.
  revert c. induction p as [r|B' m k IH|g k IH]; intros c; cbn [p_deferring alone].
  - unfold deferring. cbn [alone]. destruct (d c) as [c' [[]|e|x|]]; done.
  - unfold deferring. cbn [alone]. destruct (m c) as [c' r]. apply IH.
  - apply IH.
Qed.
End programs.
Arguments Prog : clear implicits.
Arguments Done {C G R}.
Arguments Atom {C G R}.
Arguments Fork {C G R}.

(** ** Pools *)
Section pools.
Context {S L C G : Type} (join : S -> L -> C) (sh : C -> S) (lo : C -> L).
Context (start : G -> L * Prog C G unit).

Record Thread := mkThread { th_go : G; th_local : L; th_prog : Prog C G unit }.
Record System := mkSystem { shared : S; threads : list Thread; crashed : option panic }.

Definition spawn (g : G) : Thread := let '(l, p) := start g in mkThread g l p.

Definition runnable (th : Thread) : bool :=
  match th_prog th with Atom _ _ _ | Fork _ _ => true | Done _ => false end.

(** The panic a program has just ended with. *)
Definition panicked (p : Prog C G unit) : option panic :=
  match p with Done (Panic x) => Some x | _ => None end.

(** The [i]-th goroutine makes one step, if it can. *)
Definition sys_step (i : nat) (y : System) : System :=
  match crashed y, threads y !! i with
  | None, Some th =>
      match th_prog th with
      | Atom B m k =>
          let '(c, r) := m (join (shared y) (th_local th)) in
          mkSystem (sh c) (<[i := mkThread (th_go th) (lo c) (k r)]> (threads y)) (panicked (k r))
      | Fork g k =>
          mkSystem (shared y) (<[i := mkThread (th_go th) (th_local th) k]> (threads y) ++ [spawn g]) (panicked k)
      | Done _ => y
      end
  | _, _ => y
  end.
Definition sys_steps (sched : list nat) (y : System) : System := fold_left (fun y i => sys_step i y) sched y.

Definition can_step (y : System) (i : nat) : bool :=
  match crashed y, threads y !! i with None, Some th => runnable th | _, _ => false end.

(** Every entry of the schedule makes a step. *)
Fixpoint busy (sched : list nat) (y : System) : bool :=
  match sched with [] => true | i :: sched => can_step y i && busy sched (sys_step i y) end.
End pools.
Arguments Thread : clear implicits.
Arguments System : clear implicits.

(** Replacing an element of a list changes the sum by the difference. *)
Lemma sum_list_with_insert {A} (f : A -> nat) (xs : list A) i x x' :
  xs !! i = Some x -> (sum_list_with f (<[i := x']> xs) + f x = sum_list_with f xs + f x')%nat.
Proof.
  revert i. induction xs as [|z xs IH]; intros i H; [done|]. destruct i as [|i].
  - injection H as ->. cbn. lia.
  - specialize (IH i H).
    change (sum_list_with f (z :: <[i := x']> xs) + f x = sum_list_with f (z :: xs) + f x')%nat.
    cbn [sum_list_with]. lia.
Qed.

Lemma sum_list_with_const {A} (k : nat) (xs : list A) : sum_list_with (fun _ => k) xs = (k * length xs)%nat.
Proof. induction xs as [|x xs IH]; cbn [sum_list_with length]; [lia|]. rewrite IH. lia. Qed.

(** ** What a schedule can do *)
Section schedules.
Context {S L C G : Type} (join : S -> L -> C) (sh : C -> S) (lo : C -> L) (start : G -> L * Prog C G unit).
Implicit Types (y : System S L C G).
Let step := sys_step join sh lo start.
Let steps := sys_steps join sh lo start.

Lemma sys_steps_app sched sched' y : steps (sched ++ sched') y = steps sched' (steps sched y).
Proof. unfold steps, sys_steps. apply fold_left_app. Qed.

Lemma step_idle i y : can_step y i = false -> step i y = y.
Proof.
  unfold can_step, step, sys_step. destruct (crashed y); [done|].
  destruct (threads y !! i) as [th|]; [|done]. unfold runnable. by destruct (th_prog th).
Qed.

End schedules.

(** ** The logic *)
Section logic.
Context {S L C G : Type} (join : S -> L -> C) (sh : C -> S) (lo : C -> L) (start : G -> L * Prog C G unit).
(** The specification: [spec ev x x'], the event [ev] takes the abstract state
    [x] to [x']; [view] is the abstract state of a shared one. *)
Context {Ev X : Type} (view : S -> X) (spec : Ev -> X -> X -> Prop).
(** What always holds of the shared state, what a step of any goroutine leaves
    as it is, and the amount of a resource that steps use up. *)
Context (inv : S -> Prop) (rely : S -> S -> Prop) `{!PreOrder rely} (supply : S -> nat).
(** A goroutine can be started with so many steps and so much of the resource,
    knowing [K]. *)
Context (can_start : G -> nat -> nat -> (S -> Prop) -> Prop).

Definition stable (K : S -> Prop) : Prop := forall s s', K s -> rely s s' -> K s'.

(** A goroutine's history: its events, and what it started. *)
Abbreviation History := (list (Ev + G)).
Definition commits (h h' : History) (x x' : X) : Prop :=
  (h' = h /\ x' = x) \/ exists ev, h' = h ++ [inl ev] /\ spec ev x x'.

Definition Post (R : Type) : Type := res R -> nat -> nat -> (S -> Prop) -> History -> L -> Prop.

(** With [n] steps and [c] of the resource left, knowing [K], after the history
    [h] and owning [l], the goroutine keeps to the rules, its own state meets
    [J] wherever it can be interrupted, and it ends in [Φ]. *)
Fixpoint wp {R} (J : History -> L -> Prop) (p : Prog C G R) (Φ : Post R)
  (n c : nat) (K : S -> Prop) (h : History) (l : L) : Prop :=
  match p with
  | Done r => Φ r n c K h l
  | Atom B m k => J h l /\ forall s, inv s -> K s -> (c <= supply s)%nat ->
      let '(x, r) := m (join s l) in
      exists n' c' K' h', (n' < n)%nat /\ (c' <= c)%nat /\ (supply s + c' <= supply (sh x) + c)%nat /\
        inv (sh x) /\ rely s (sh x) /\ stable K' /\ K' (sh x) /\ commits h h' (view s) (view (sh x)) /\
        wp J (k r) Φ n' c' K' h' (lo x)
  | Fork g k => J h l /\ exists n1 c1 n2 c2, (n1 + n2 < n)%nat /\ (c1 + c2 <= c)%nat /\
      can_start g n1 c1 K /\ wp J k Φ n2 c2 K (h ++ [inr g]) l
  end.

(** What takes programs apart at their end only keeps to the rules. *)
Lemma wp_hom {R R'} (T : Prog C G R -> Prog C G R') (J J' : History -> L -> Prop) (Φ : Post R) (Ψ : Post R') p :
  (forall B m k, T (Atom B m k) = Atom B m (fun r => T (k r))) -> (forall g k, T (Fork g k) = Fork g (T k)) ->
  (forall h l, J h l -> J' h l) ->
  (forall r n c K h l, Φ r n c K h l -> wp J' (T (Done r)) Ψ n c K h l) ->
  forall n c K h l, wp J p Φ n c K h l -> wp J' (T p) Ψ n c K h l.
Proof.
  intros Hatom Hfork HJ' HΦ. induction p as [r|B m k IH|g k IH]; intros n c K h l; [apply HΦ| |].
  - rewrite Hatom. intros [HJ H]. split; [by apply HJ'|]. intros s Hi HK Hc. specialize (H s Hi HK Hc).
    destruct (m (join s l)) as [x r]. destruct H as (n' & c' & K' & h' & H1 & H2 & H3 & H4 & H5 & H6 & H7 & H8 & H9).
    exists n', c', K', h'. split_and!; try done. by apply IH.
  - rewrite Hfork. intros [HJ (n1 & c1 & n2 & c2 & H1 & H2 & H3 & H4)]. split; [by apply HJ'|].
    exists n1, c1, n2, c2. split_and!; try done. by apply IH.
Qed.

Lemma wp_mono {R} (J J' : History -> L -> Prop) (p : Prog C G R) (Φ Ψ : Post R) n c K h l :
  (forall h l, J h l -> J' h l) -> (forall r n c K h l, Φ r n c K h l -> Ψ r n c K h l) ->
  wp J p Φ n c K h l -> wp J' p Ψ n c K h l.
Proof. intros HJ HΦ. by apply (wp_hom id). Qed.

Lemma wp_bind {B R} (J : History -> L -> Prop) (p : Prog C G B) (f : B -> Prog C G R) (Φ : Post R) n c K h l :
  wp J p (fun r n c K h l => match r with
    | Ok b => wp J (f b) Φ n c K h l
    | Err e => Φ (Err e) n c K h l | Panic x => Φ (Panic x) n c K h l | OutOfFuel => Φ OutOfFuel n c K h l
    end) n c K h l ->
  wp J (p ≫= f) Φ n c K h l.
Proof. apply (wp_hom (fun p => p ≫= f)); try done. by intros [b|e|x|]. Qed.

Lemma wp_attempt {R} (J : History -> L -> Prop) (p : Prog C G R) (Φ : Post (res R)) n c K h l :
  wp J p (fun r => Φ (Ok r)) n c K h l -> wp J (p_attempt p) Φ n c K h l.
Proof. by apply (wp_hom p_attempt). Qed.

Lemma wp_deferring {R} (J : History -> L -> Prop) (p : Prog C G R) (d : M C unit) (Φ : Post R) n c K h l :
  wp J p (fun r => wp J (Atom unit d (fun x => match x with Panic e => Done (Panic e) | _ => Done r end)) Φ) n c K h l ->
  wp J (p_deferring p d) Φ n c K h l.
Proof. by apply (wp_hom (fun p => p_deferring p d)). Qed.

(** More steps do no harm. *)
Lemma wp_more {R} (J : History -> L -> Prop) B (m : M C B) (k : res B -> Prog C G R) (Φ : Post R) n n' c K h l :
  (n <= n')%nat -> wp J (Atom B m k) Φ n c K h l -> wp J (Atom B m k) Φ n' c K h l.
Proof.
  intros Hn [HJ H]. split; [done|]. intros s Hi HK Hc. specialize (H s Hi HK Hc).
  destruct (m (join s l)) as [x r]. destruct H as (n2 & c2 & K2 & h2 & H1 & H). exists n2, c2, K2, h2.
  split; [lia|exact H].
Qed.

(** ** From goroutines to systems

    What is promised of a goroutine: [claim g fin h l] of one started for [g],
    with the history [h] and the state [l]; [fin] once it takes no more steps. *)
Context (claim : G -> bool -> History -> L -> Prop).

Definition goroutine_post (g : G) : Post unit := fun r _ _ _ h l =>
  returns r /\ claim g true h l.
Definition goroutine_ok (g : G) : Prop := forall n c K, can_start g n c K -> stable K ->
  wp (claim g false) (start g).2 (goroutine_post g) n c K [] (start g).1.

(** The events of the system, each with the goroutine that made it; what one of
    them did; what was started, in order. *)
Abbreviation Trace := (list (nat * (Ev + G))).
Definition proj (i : nat) (tr : Trace) : History := omap (fun '(j, ev) => if decide (j = i) then Some ev else None) tr.
Definition started (tr : Trace) : list G := omap (fun e => match e.2 with inr g => Some g | inl _ => None end) tr.

(** The answers of a trace are those of a sequential run of the specification. *)
Fixpoint legal (tr : Trace) (x x' : X) : Prop :=
  match tr with
  | [] => x' = x
  | (_, inl ev) :: tr => exists y, spec ev x y /\ legal tr y x'
  | (_, inr _) :: tr => legal tr x x'
  end.

Lemma legal_app tr tr' x y z : legal tr x y -> legal tr' y z -> legal (tr ++ tr') x z.
Proof.
  revert x. induction tr as [|[i [ev|g]] tr IH]; intros x; cbn; [by intros ->| |apply IH].
  intros (x' & H & Htr) Htr'. exists x'. split; [done|]. by apply IH.
Qed.

Lemma proj_app i tr tr' : proj i (tr ++ tr') = proj i tr ++ proj i tr'.
Proof. apply omap_app. Qed.
Lemma proj_one i j ev : proj i [(j, ev)] = if decide (j = i) then [ev] else [].
Proof. unfold proj. cbn. by destruct (decide (j = i)). Qed.
Lemma started_app tr tr' : started (tr ++ tr') = started tr ++ started tr'.
Proof. apply omap_app. Qed.

Record Ghost := mkGhost { g_steps : nat; g_credit : nat; g_know : S -> Prop; g_hist : History }.

Definition thread_ok (s : S) (th : Thread L C G) (gh : Ghost) : Prop :=
  stable (g_know gh) /\ g_know gh s /\
  wp (claim (th_go th) false) (th_prog th) (goroutine_post (th_go th)) (g_steps gh) (g_credit gh) (g_know gh)
    (g_hist gh) (th_local th).

Definition system_ok (g0 : G) (x0 : X) (n : nat) (y : System S L C G) (tr : Trace) : Prop :=
  crashed y = None /\ inv (shared y) /\ legal tr x0 (view (shared y)) /\
  map th_go (threads y) = g0 :: started tr /\
  exists gs, Forall2 (thread_ok (shared y)) (threads y) gs /\
    (sum_list_with g_steps gs <= n)%nat /\ (sum_list_with g_credit gs <= supply (shared y))%nat /\
    (forall i, proj i tr = from_option g_hist [] (gs !! i)).

Lemma thread_ok_rely s s' th gh : rely s s' -> thread_ok s th gh -> thread_ok s' th gh.
Proof. intros Hr (Hst & HK & Hwp). split_and!; try done. by eapply Hst. Qed.

(** What the [i]-th goroutine adds to the trace. *)
Definition commits_at (i : nat) (tr tr' : Trace) : Prop := tr' = tr \/ exists ev, tr' = tr ++ [(i, ev)].

Lemma credit_le (gs : list Ghost) i gh :
  gs !! i = Some gh -> (g_credit gh <= sum_list_with g_credit gs)%nat.
Proof.
  revert i. induction gs as [|z gs IH]; intros [|i] H; try done; cbn.
  - injection H as ->. lia.
  - specialize (IH i H). lia.
Qed.

Lemma hist_insert tr ev (gs : list Ghost) i gh gh' :
  (forall j, proj j tr = from_option g_hist [] (gs !! j)) -> gs !! i = Some gh ->
  g_hist gh' = g_hist gh ++ [ev] ->
  forall j, proj j (tr ++ [(i, ev)]) = from_option g_hist [] (<[i := gh']> gs !! j).
Proof.
  intros H Hi Hg j. rewrite proj_app, proj_one, H. destruct (decide (i = j)) as [<-|Hne].
  - rewrite list_lookup_insert_eq by (by eapply lookup_lt_Some). rewrite Hi. cbn. by rewrite Hg.
  - rewrite list_lookup_insert_ne by done. by rewrite app_nil_r.
Qed.
Lemma hist_same tr (gs : list Ghost) i gh gh' :
  (forall j, proj j tr = from_option g_hist [] (gs !! j)) -> gs !! i = Some gh ->
  g_hist gh' = g_hist gh ->
  forall j, proj j tr = from_option g_hist [] (<[i := gh']> gs !! j).
Proof.
  intros H Hi Hg j. rewrite H. destruct (decide (i = j)) as [<-|Hne].
  - rewrite list_lookup_insert_eq by (by eapply lookup_lt_Some). rewrite Hi. cbn. by rewrite Hg.
  - by rewrite list_lookup_insert_ne.
Qed.

Lemma threads_go (ths : list (Thread L C G)) i th th' :
  ths !! i = Some th -> th_go th' = th_go th -> map th_go (<[i := th']> ths) = map th_go ths.
Proof.
  intros Hi Hg. change (th_go <$> <[i := th']> ths = th_go <$> ths). rewrite list_fmap_insert, Hg.
  apply list_insert_id. rewrite list_lookup_fmap, Hi. done.
Qed.

(** A goroutine that keeps to the rules does not end in a panic. *)
Lemma wp_panicked g (p : Prog C G unit) n c K h l :
  wp (claim g false) p (goroutine_post g) n c K h l -> panicked p = None.
Proof. destruct p as [[]| |]; try done. by intros [? _]. Qed.

Lemma atom_ok g0 x0 n y tr i th B m (k : res B -> Prog C G unit) :
  system_ok g0 x0 n y tr -> threads y !! i = Some th -> th_prog th = Atom B m k ->
  let '(x, r) := m (join (shared y) (th_local th)) in
  exists n' tr', commits_at i tr tr' /\ (n' < n)%nat /\
    system_ok g0 x0 n' (mkSystem (sh x) (<[i := mkThread (th_go th) (lo x) (k r)]> (threads y)) (panicked (k r))) tr'.
Proof.
  intros (Hcr & Hinv & Hleg & Hgo & gs & Hths & Hn & Hc & Hpr) Hi Hp.
  destruct (Forall2_lookup_l _ _ _ _ _ Hths Hi) as (gh & Hgi & Hst & HK & Hwp).
  pose proof (credit_le _ _ _ Hgi) as Hcr_le. rewrite Hp in Hwp.
  destruct Hwp as [_ Hwp]. specialize (Hwp (shared y) Hinv HK ltac:(lia)).
  destruct (m (join (shared y) (th_local th))) as [x r].
  destruct Hwp as (n' & c' & K' & h' & Hlt & Hcle & Hsup & Hinv' & Hrely & Hst' & HK' & Hcom & Hwp).
  set (gh' := mkGhost n' c' K' h'). set (th' := mkThread _ _ _).
  pose proof (sum_list_with_insert g_steps gs i gh gh' Hgi) as Hsn.
  pose proof (sum_list_with_insert g_credit gs i gh gh' Hgi) as Hsc. cbn [g_steps g_credit gh'] in Hsn, Hsc.
  assert (exists tr', commits_at i tr tr' /\ legal tr' x0 (view (sh x)) /\ started tr' = started tr /\
    forall j, proj j tr' = from_option g_hist [] (<[i := gh']> gs !! j)) as (tr' & Hc1 & Hc2 & Hc3 & Hc4).
  { destruct Hcom as [[-> Hv]|(ev & -> & Hev)].
    - exists tr. split; [by left|]. rewrite Hv. split; [done|]. split; [done|]. by eapply hist_same.
    - exists (tr ++ [(i, inl ev)]). split; [right; by eexists|]. split; [eapply legal_app; [exact Hleg|by eexists]|].
      split; [by rewrite started_app, app_nil_r|]. by eapply hist_insert. }
  exists (sum_list_with g_steps (<[i := gh']> gs)), tr'. split; [done|]. split; [lia|].
  unfold system_ok. cbn [crashed shared threads]. split; [by eapply wp_panicked|]. split; [done|]. split; [done|].
  split; [rewrite (threads_go _ _ th) by done; congruence|].
  exists (<[i := gh']> gs). split; [|split; [lia|split; [lia|done]]].
  apply Forall2_insert; [|by split_and!].
  eapply list.Forall2_impl; [exact Hths|]. intros. by eapply thread_ok_rely.
Qed.

Lemma fork_ok g0 x0 n y tr i th g k :
  (forall g, goroutine_ok g) -> system_ok g0 x0 n y tr -> threads y !! i = Some th -> th_prog th = Fork g k ->
  exists n', (n' < n)%nat /\
    system_ok g0 x0 n' (mkSystem (shared y) (<[i := mkThread (th_go th) (th_local th) k]> (threads y) ++ [spawn start g])
      (panicked k)) (tr ++ [(i, inr g)]).
Proof.
  intros Hg (Hcr & Hinv & Hleg & Hgo & gs & Hths & Hn & Hc & Hpr) Hi Hp.
  destruct (Forall2_lookup_l _ _ _ _ _ Hths Hi) as (gh & Hgi & Hst & HK & Hwp). rewrite Hp in Hwp.
  destruct Hwp as [_ (n1 & c1 & n2 & c2 & Hlt & Hcle & Hcan & Hwp)].
  set (gh' := mkGhost n2 c2 (g_know gh) (g_hist gh ++ [inr g])). set (ghc := mkGhost n1 c1 (g_know gh) []).
  set (th' := mkThread _ _ _).
  pose proof (sum_list_with_insert g_steps gs i gh gh' Hgi) as Hsn.
  pose proof (sum_list_with_insert g_credit gs i gh gh' Hgi) as Hsc. cbn [g_steps g_credit gh'] in Hsn, Hsc.
  exists (sum_list_with g_steps (<[i := gh']> gs ++ [ghc])). rewrite !sum_list_with_app. cbn [sum_list_with g_steps ghc].
  split; [lia|]. unfold system_ok. cbn [crashed shared threads].
  split; [by eapply wp_panicked|]. split; [done|]. split; [eapply legal_app; [exact Hleg|done]|].
  split; [rewrite map_app, (threads_go _ _ th), Hgo, started_app by done; unfold spawn; by destruct (start g)|].
  exists (<[i := gh']> gs ++ [ghc]). rewrite !sum_list_with_app. cbn [sum_list_with g_steps g_credit ghc].
  split; [|split; [lia|split; [lia|]]].
  - apply Forall2_app; [apply Forall2_insert; [done|by split_and!]|]. constructor; [|constructor].
    pose proof (Hg g n1 c1 (g_know gh) Hcan Hst) as Hw. unfold spawn. destruct (start g) as [l0 p0]. by split_and!.
  - intros j. rewrite (hist_insert tr (inr g) gs i gh gh') by done. destruct (decide (j < length gs)%nat).
    + by rewrite lookup_app_l by (by rewrite list.length_insert).
    + rewrite lookup_ge_None_2 by (rewrite list.length_insert; lia).
      rewrite lookup_app_r by (rewrite list.length_insert; lia).
      by destruct (j - length (<[i := gh']> gs))%nat.
Qed.

Lemma step_refined g0 x0 n y tr i :
  (forall g, goroutine_ok g) -> system_ok g0 x0 n y tr ->
  exists n' tr', commits_at i tr tr' /\ system_ok g0 x0 n' (sys_step join sh lo start i y) tr' /\
    (n' <= n)%nat /\ (can_step y i = true -> (n' < n)%nat).
Proof.
  intros Hg Hok. destruct (can_step y i) eqn:Hcan.
  2: { exists n, tr. rewrite step_idle by done. split; [by left|]. split; [done|]. split; [lia|done]. }
  unfold can_step in Hcan. unfold sys_step. destruct (crashed y); [done|].
  destruct (threads y !! i) as [th|] eqn:Hi; [|done]. unfold runnable in Hcan.
  destruct (th_prog th) as [r|B m k|g k] eqn:Hp; [done|clear Hcan|clear Hcan].
  - pose proof (atom_ok g0 x0 n y tr i th B m k Hok Hi Hp) as H. destruct (m _) as [x r].
    destruct H as (n' & tr' & Hc & Hn & H). exists n', tr'. split_and!; [done|done|lia|done].
  - destruct (fork_ok g0 x0 n y tr i th g k Hg Hok Hi Hp) as (n' & Hn & H). exists n', (tr ++ [(i, inr g)]).
    split_and!; [right; by eexists|done|lia|done].
Qed.

Lemma steps_refined g0 x0 sched : forall n y tr,
  (forall g, goroutine_ok g) -> system_ok g0 x0 n y tr ->
  exists n' tr', system_ok g0 x0 n' (sys_steps join sh lo start sched y) (tr ++ tr') /\ (n' <= n)%nat /\
    (busy join sh lo start sched y = true -> (length sched + n' <= n)%nat).
Proof.
  induction sched as [|i sched IH]; intros n y tr Hg Hok.
  - exists n, []. rewrite app_nil_r. split_and!; [done|lia|cbn; lia].
  - destruct (step_refined g0 x0 n y tr i Hg Hok) as (n1 & tr1 & Hc & Hok1 & Hle & Hlt).
    destruct (IH n1 _ tr1 Hg Hok1) as (n' & tr' & Hok' & Hle' & Hb).
    exists n'. destruct Hc as [->|[ev ->]]; [exists tr'|exists ((i, ev) :: tr')].
    + split; [exact Hok'|]. split; [lia|]. cbn [busy length]. intros [H1 H2]%andb_true_iff.
      specialize (Hlt H1). specialize (Hb H2). lia.
    + rewrite <-app_assoc in Hok'. split; [exact Hok'|]. split; [lia|]. cbn [busy length].
      intros [H1 H2]%andb_true_iff. specialize (Hlt H1). specialize (Hb H2). lia.
Qed.

(** What holds of a system after a schedule: nothing has crashed, the answers
    given so far are a sequential run, and each goroutine's claim holds. *)
Definition refined (g0 : G) (x0 : X) (y : System S L C G) (tr : Trace) : Prop :=
  crashed y = None /\ legal tr x0 (view (shared y)) /\ map th_go (threads y) = g0 :: started tr /\
  forall i th, threads y !! i = Some th -> claim (th_go th) (negb (runnable th)) (proj i tr) (th_local th).

Lemma system_refined g0 x0 n y tr : system_ok g0 x0 n y tr -> refined g0 x0 y tr.
Proof.
  intros (Hcr & _ & Hleg & Hgo & gs & Hths & _ & _ & Hpr). split_and!; try done.
  intros i th Hi. destruct (Forall2_lookup_l _ _ _ _ _ Hths Hi) as (gh & Hgi & _ & _ & Hwp).
  rewrite Hpr, Hgi. cbn [from_option]. unfold runnable. destruct (th_prog th) as [r|B m k|g k]; cbn [negb].
  - apply Hwp.
  - by destruct Hwp.
  - by destruct Hwp.
Qed.

(** Adequacy.  From a goroutine that may start with [n] steps: every schedule is
    refined, one that goes on from another only adds to its trace, and a
    schedule that makes a step at each entry has at most [n] of them. *)
Lemma adequacy g0 n c K s :
  (forall g, goroutine_ok g) -> can_start g0 n c K -> stable K -> K s -> inv s -> (c <= supply s)%nat ->
  let run sched := sys_steps join sh lo start sched (mkSystem s [spawn start g0] None) in
  forall sched sched', exists tr tr',
    refined g0 (view s) (run sched) tr /\ refined g0 (view s) (run (sched ++ sched')) (tr ++ tr') /\
    (busy join sh lo start sched (mkSystem s [spawn start g0] None) = true -> (length sched <= n)%nat).
Proof.
  intros Hg H0 Hst HK Hinv Hc run sched sched'.
  assert (system_ok g0 (view s) n (mkSystem s [spawn start g0] None) []) as Hok.
  { unfold system_ok. cbn [crashed shared threads]. split_and!; try done.
    - cbn. unfold spawn. by destruct (start g0).
    - exists [mkGhost n c K []]. split_and!; [|cbn; lia|cbn; lia|by intros [|]].
      constructor; [|constructor]. pose proof (Hg g0 n c K H0 Hst) as Hw. unfold spawn.
      destruct (start g0) as [l0 p0]. by split_and!. }
  destruct (steps_refined _ _ sched _ _ _ Hg Hok) as (n1 & tr & Hok1 & Hn1 & Hb).
  destruct (steps_refined _ _ sched' _ _ _ Hg Hok1) as (n2 & tr' & Hok2 & _ & _).
  exists tr, tr'. split; [by eapply system_refined|]. split; [|intros H; specialize (Hb H); lia].
  unfold run, sys_steps. rewrite fold_left_app. by eapply system_refined.
Qed.
End logic.
