(* ===== verification/Goroutines.v ===== *)
(** * The server's goroutines

    The code of [src/server/server.go] once more, cut at the points where
    another goroutine may get in: what [Server] and [Quic] describe as one
    computation each are programs of [Conc] here, and the theorems of this file
    say that, uninterrupted, they are those computations.  A read or a write of
    a goroutine's own connection, a reading of the clock, a call of the logger
    and a method that holds its object's mutex are single steps; so is a
    handler's access to the application's state, and the handshake, whose only
    accesses to what is shared are [nextID.Add] and a clock reading. *)

From S2P Require Import Prelude GoRt Varint Tlv Crypto Frame Transport Session Negotiate RateLimit Media Handler Server Serve Conc.

(** What a goroutine owns: the two ends of its connection or stream. *)
Record Ends := mkEnds { e_in : Reader; e_out : Writer; e_closed : bool }.

(** A client that connects, and what it is going to send. *)
Inductive Arrival :=
| TCPConn (addr : string) (st : Stream)
| QUICConn (addr : string) (first : Stream) (streams : list Stream).

(** What [go] statements start.  [GoMain] is the application's own goroutine,
    which starts the listeners; a listener is its banner, its address and what
    [Accept] returns (without the end of the context). *)
Record Listener := mkListener { l_banner : string; l_warning : string; l_addr : string; l_outcomes : list (Arrival + error) }.
Inductive Go :=
| GoMain (listeners : list Listener)
| GoServe (l : Listener)
| GoGC
| GoConn (a : Arrival)
| GoStream (l : positive) (addr : string) (st : Stream).

Section goroutines.
Context {A : Type} `{C : CryptoOps}.
Implicit Types (s : Server A).

Definition join (e : Env A) (l : Ends) : Conn A := mkConn e (e_in l) (e_out l) (e_closed l).
Definition ends (c : Conn A) : Ends := mkEnds (conn_in c) (conn_out c) (conn_closed c).

Abbreviation P := (Prog (Conn A) Go).

Definition at_env {B} (m : M (Env A) B) : P B := atom (on_env m).
Definition p_lift {B} (r : res B) : P B := Done r.

Definition session_dead_p (l : positive) : P bool :=
  now ← at_env Now;
  expired ← at_env (expired_at l now);
  if expired : bool then mret true else now ← at_env Now; at_env (idle_at l now).
Definition touch_session_p (l : positive) : P unit := now ← at_env Now; at_env (touch_at l now).

(** ** A QUIC stream *)

Definition stream_serve_p s (ctx : Ctx) (sess : Session) (remoteAddr : string) (req : Request) (seq : Z) : P unit :=
  let key := SKey sess in
  match handlers s !! Opcode req with
  | None => _ ← atom (best_effort (conn_WriteResponse key seq (not_found_resp (Opcode req)))); atom conn_Close
  | Some handler =>
      let hctx := request_ctx ctx sess remoteAddr in
      let srvReq := mkSrvRequest req (ID sess) (APIKeyID sess) in
      match handler with
      | Streaming f _ =>
          r ← p_attempt (atom (f ctx srvReq key));
          match r with
          | Panic p => p_lift (Panic p)
          | OutOfFuel => p_lift OutOfFuel
          | Err err =>
              _ ← at_env (logf s LevelError "session[%d] opcode=0x%04x stream error: %v"
                            [AInt (ID sess); AInt (Opcode req)]);
              atom conn_Close
          | Ok _ => atom conn_Close
          end
      | Plain f =>
          start ← at_env Now;
          r ← p_attempt (at_env (f hctx srvReq));
          match r with
          | Panic p => p_lift (Panic p)
          | OutOfFuel => p_lift OutOfFuel
          | Err err =>
              now ← at_env Now;
              _ ← at_env (logf s LevelError "session[%d] opcode=0x%04x handler error (%s): %v"
                            [AInt (ID sess); AInt (Opcode req); AInt (time_Sub now start)]);
              _ ← atom (best_effort (conn_WriteResponse key seq (ErrorResponse StatusInternalError "internal error")));
              atom conn_Close
          | Ok resp =>
              now ← at_env Now;
              resp ← p_lift (deref resp);
              _ ← at_env (logf s LevelInfo "session[%d] opcode=0x%04x status=%d elapsed=%s"
                            [AInt (ID sess); AInt (Opcode req); AInt (Status resp); AInt (time_Sub now start)]);
              r ← p_attempt (atom (conn_WriteResponse key seq resp));
              match r with
              | Panic p => p_lift (Panic p)
              | OutOfFuel => p_lift OutOfFuel
              | Err err =>
                  _ ← at_env (logf s LevelError "session[%d] write response: %v" [AInt (ID sess)]);
                  atom conn_Close
              | Ok _ => atom conn_Close
              end
          end
      end
  end.

Definition handleStream_body_p s (ctx : Ctx) (l : positive) (remoteAddr : string) : P unit :=
  sess ← at_env (read_session l);
  let key := SKey sess in
  dead ← session_dead_p l;
  if dead : bool then
    _ ← atom (best_effort (conn_WriteResponse key 0 session_expired_resp)); atom conn_Close
  else
  _ ← touch_session_p l;
  r ← p_attempt (atom (conn_ReadRequest key));
  match r with
  | Panic p => p_lift (Panic p)
  | OutOfFuel => p_lift OutOfFuel
  | Err err =>
      _ ← at_env (logf s LevelWarn "session[%d] read request: %v" [AInt (ID sess)]);
      _ ← atom (best_effort (conn_WriteResponse key 0 (ErrorResponse StatusBadRequest "bad request")));
      atom conn_Close
  | Ok (req, seq) => stream_serve_p s ctx sess remoteAddr req seq
  end.

Definition handleStream_p s (ctx : Ctx) (l : positive) (remoteAddr : string) : P unit :=
  sess ← at_env (read_session l);
  r ← p_attempt (handleStream_body_p s ctx l remoteAddr);
  match r with
  | Panic p =>
      _ ← at_env (logf s LevelError "session[%d] panic: %v" [AInt (ID sess)]);
      atom (best_effort (conn_WriteResponse (SKey sess) 0 (ErrorResponse StatusInternalError "internal server error")))
  | r => p_lift r
  end.

(** ** A TCP connection *)

Definition tcp_serve_p s (streamCtx ctx : Ctx) (sess : Session) (remoteAddr : string) (req : Request) (seq : Z)
  : P (option Ctx) :=
  let key := SKey sess in
  let ctx := request_ctx ctx sess remoteAddr in
  match handlers s !! Opcode req with
  | None =>
      _ ← atom (best_effort (conn_WriteResponse key seq (not_found_resp (Opcode req))));
      mret (Some ctx)
  | Some handler =>
      let srvReq := mkSrvRequest req (ID sess) (APIKeyID sess) in
      match handler with
      | Streaming f _ =>
          r ← p_attempt (atom (f streamCtx srvReq key));
          match r with
          | Panic p => p_lift (Panic p)
          | OutOfFuel => p_lift OutOfFuel
          | Err err =>
              _ ← at_env (logf s LevelError "session[%d] opcode=0x%04x tcp stream error: %v"
                            [AInt (ID sess); AInt (Opcode req)]);
              mret (Some ctx)
          | Ok _ => mret (Some ctx)
          end
      | Plain f =>
          start ← at_env Now;
          r ← p_attempt (at_env (f ctx srvReq));
          match r with
          | Panic p => p_lift (Panic p)
          | OutOfFuel => p_lift OutOfFuel
          | Err err =>
              now ← at_env Now;
              _ ← at_env (logf s LevelError "session[%d] opcode=0x%04x handler error (%s): %v"
                            [AInt (ID sess); AInt (Opcode req); AInt (time_Sub now start)]);
              _ ← atom (best_effort (conn_WriteResponse key seq (ErrorResponse StatusInternalError "internal error")));
              mret (Some ctx)
          | Ok resp =>
              now ← at_env Now;
              resp ← p_lift (deref resp);
              _ ← at_env (logf s LevelInfo "session[%d] opcode=0x%04x status=%d elapsed=%s"
                            [AInt (ID sess); AInt (Opcode req); AInt (Status resp); AInt (time_Sub now start)]);
              r ← p_attempt (atom (conn_WriteResponse key seq resp));
              match r with
              | Panic p => p_lift (Panic p)
              | OutOfFuel => p_lift OutOfFuel
              | Err err =>
                  _ ← at_env (logf s LevelError "session[%d] write response: %v" [AInt (ID sess)]);
                  mret None
              | Ok _ => mret (Some ctx)
              end
          end
      end
  end.

Definition tcp_round_p s (streamCtx ctx : Ctx) (l : positive) (remoteAddr : string) : P (option Ctx) :=
  sess ← at_env (read_session l);
  let key := SKey sess in
  dead ← session_dead_p l;
  if dead : bool then
    _ ← atom (best_effort (conn_WriteResponse key 0 session_expired_resp));
    _ ← atom conn_Close; mret None
  else
  _ ← touch_session_p l;
  r ← p_attempt (atom (conn_ReadRequest key));
  match r with
  | Panic p => p_lift (Panic p)
  | OutOfFuel => p_lift OutOfFuel
  | Err err => mret None
  | Ok (req, seq) => tcp_serve_p s streamCtx ctx sess remoteAddr req seq
  end.

Fixpoint tcp_loop_p (fuel : nat) s (cancelled : nat -> bool) (n : nat) (streamCtx ctx : Ctx)
  (l : positive) (remoteAddr : string) : P unit :=
  match fuel with
  | O => p_lift OutOfFuel
  | S fuel =>
      if cancelled n then mret tt else
      r ← tcp_round_p s streamCtx ctx l remoteAddr;
      match r with
      | None => mret tt
      | Some ctx => tcp_loop_p fuel s cancelled (S n) streamCtx ctx l remoteAddr
      end
  end.

Definition handleTCPConnection_p (fuel : nat) s (cancelled : nat -> bool) (ctx : Ctx) (conn : NetConn) (remoteAddr : string)
  : P unit :=
  match conn with OtherConn => atom conn_Close | TLSConn =>
  r ← p_attempt (atom (conn_negotiate s));
  match r with
  | Panic p => p_lift (Panic p)
  | OutOfFuel => p_lift OutOfFuel
  | Err err =>
      _ ← at_env (logf s LevelWarn "session[?] tcp negotiate error: %v (remote=%s)" [AStr remoteAddr]);
      atom conn_Close
  | Ok sess =>
      l ← at_env (file_session sess);
      p_deferring
        (_ ← at_env (logf s LevelInfo "session[%d] tcp established key=%s remote=%s"
                       [AInt (ID sess); AStr (APIKeyID sess); AStr remoteAddr]);
         tcp_loop_p fuel s cancelled 0 ctx ctx l remoteAddr)
        (on_env (unfile_session (ID sess)))
  end end.

(** ** A QUIC connection

    The goroutine owns the first stream, on which it does the handshake and
    which it closes; then it starts a goroutine for each stream that the peer
    opens and goes on waiting for the next (what it does when that fails is in
    [Quic]). *)
Fixpoint accept_streams_p (l : positive) (remoteAddr : string) (streams : list Stream) : P unit :=
  match streams with
  | [] => mret tt
  | st :: streams => _ ← fork (GoStream l remoteAddr st); accept_streams_p l remoteAddr streams
  end.

Definition handleConnection_p s (remoteAddr : string) (streams : list Stream) : P unit :=
  r ← p_attempt (atom (conn_negotiate s));
  _ ← atom conn_Close;
  match r with
  | Panic p => p_lift (Panic p)
  | OutOfFuel => p_lift OutOfFuel
  | Err err => at_env (logf s LevelWarn "session[?] negotiate error: %v (remote=%s)" [AStr remoteAddr])
  | Ok sess =>
      l ← at_env (file_session sess);
      _ ← at_env (logf s LevelInfo "session[%d] established key=%s remote=%s"
                    [AInt (ID sess); AStr (APIKeyID sess); AStr remoteAddr]);
      accept_streams_p l remoteAddr streams
  end.

(** ** Collection and listening *)

(** A tick's collection ranges over the store in the order, and with the clock
    readings, that [visits] gives for the state it meets. *)
Definition gc_tick (visits : Env A -> list (Z * positive * Time)) : M (Env A) unit := fun e =>
  match Store_GC (sheap e) (visits e) (sstore e) with
  | Ok st => (set_sessions (sheap e) st e, Ok tt)
  | Err x => (e, Err x) | Panic p => (e, Panic p) | OutOfFuel => (e, OutOfFuel)
  end.
Fixpoint gc_ticks_p (ticks : list (Env A -> list (Z * positive * Time))) : P unit :=
  match ticks with
  | [] => mret tt
  | visits :: ticks => _ ← at_env (gc_tick visits); gc_ticks_p ticks
  end.
Definition gcLoop_p s (ticks : list (Env A -> list (Z * positive * Time))) : P unit :=
  _ ← p_lift (NewTicker (GCInterval (sessionCfg s))); gc_ticks_p ticks.

Fixpoint accept_loop_p s (warning : string) (outcomes : list (Arrival + error)) : P unit :=
  match outcomes with
  | [] => mret tt
  | inl a :: outcomes => _ ← fork (GoConn a); accept_loop_p s warning outcomes
  | inr _ :: outcomes => _ ← at_env (logf s LevelWarn warning []); accept_loop_p s warning outcomes
  end.
Definition serve_p s (l : Listener) : P unit :=
  _ ← at_env (logf s LevelInfo (l_banner l) [AStr (l_addr l); AStr ALPN]);
  _ ← fork GoGC;
  accept_loop_p s (l_warning l) (l_outcomes l).

Fixpoint main_p (listeners : list Listener) : P unit :=
  match listeners with [] => mret tt | l :: listeners => _ ← fork (GoServe l); main_p listeners end.

Definition no_ends : Ends := mkEnds (reader_of []) empty_writer false.
Definition ends_of (st : Stream) : Ends := mkEnds (incoming st) (outgoing st) false.

(** What each [go] statement runs, and on what; [fuel] is that of the loops of
    TCP connections, [ticks] are those of the collectors. *)
Definition start_go s (ctx : Ctx) (fuel : nat) (ticks : list (Env A -> list (Z * positive * Time))) (g : Go)
  : Ends * P unit :=
  match g with
  | GoMain ls => (no_ends, main_p ls)
  | GoServe l => (no_ends, serve_p s l)
  | GoGC => (no_ends, gcLoop_p s ticks)
  | GoConn (TCPConn addr st) => (ends_of st, handleTCPConnection_p fuel s (fun _ => false) ctx TLSConn addr)
  | GoConn (QUICConn addr first streams) => (ends_of first, handleConnection_p s addr streams)
  | GoStream l addr st => (ends_of st, handleStream_p s ctx l addr)
  end.
End goroutines.

(** ** Uninterrupted, they are the computations of [Server] *)
Section alone.
Context {A : Type} `{C : CryptoOps}.
Implicit Types (s : Server A).
Abbreviation P := (Prog (Conn A) Go).

(** [p] is the program of [m]. *)
Definition runs_as {B} (p : P B) (m : M (Conn A) B) : Prop := forall c, alone p c = m c.

Lemma runs_bind {B R} (p : P B) (m : M (Conn A) B) (f : B -> P R) (g : B -> M (Conn A) R) :
  runs_as p m -> (forall b, runs_as (f b) (g b)) -> runs_as (p ≫= f) (m ≫= g).
Proof.
  intros Hp Hf c. rewrite alone_bind. unfold mbind, M_bind. rewrite Hp.
  destruct (m c) as [c' [b|x|x|]]; [apply Hf|done..].
Qed.
Lemma runs_atom {B} (m : M (Conn A) B) : runs_as (atom m) m.
Proof. intros c. apply alone_atom. Qed.
Lemma runs_attempt {B} (p : P B) (m : M (Conn A) B) : runs_as p m -> runs_as (p_attempt p) (attempt m).
Proof.
  intros Hp c. unfold attempt. rewrite <-Hp. clear Hp. revert c.
  induction p as [r|B' m' k IH|g k IH]; intros c; cbn [alone p_attempt]; [done| |apply IH].
  destruct (m' c) as [c' r]. apply IH.
Qed.
Lemma runs_lift {B} (r : res B) : runs_as (p_lift r) (lift r).
Proof. done. Qed.
Lemma runs_ret {B} (b : B) : runs_as (mret b) (mret b).
Proof. done. Qed.
Lemma runs_deferring {B} (p : P B) (m : M (Conn A) B) d :
  runs_as p m -> runs_as (p_deferring p d) (deferring m d).
Proof. intros Hp c. rewrite alone_deferring. unfold deferring. by rewrite Hp. Qed.

(** Two computations in a row, one of them over the environment. *)
Lemma on_env_bind {B R} (m : M (Env A) B) (f : B -> M (Env A) R) c :
  on_env (m ≫= f) c = (on_env m ≫= fun b => on_env (f b)) c.
Proof. unfold on_env, mbind, M_bind. cbn. destruct (m (env c)) as [e [b|x|x|]]; done. Qed.
Lemma M_bind_ext {St B R} (m : M St B) (f g : B -> M St R) c :
  (forall b c, f b c = g b c) -> (m ≫= f) c = (m ≫= g) c.
Proof. intros H. unfold mbind, M_bind. by destruct (m c) as [c' [b|x|x|]]. Qed.
Lemma runs_ext {B} (p : P B) (m m' : M (Conn A) B) : runs_as p m -> (forall c, m c = m' c) -> runs_as p m'.
Proof. intros Hp Hm c. by rewrite Hp. Qed.

Ltac runs_step :=
  first [ apply runs_atom | apply runs_lift | apply runs_ret | apply runs_attempt | apply runs_deferring
        | (apply runs_bind; [|intros ?]) ].
Ltac runs := repeat (runs_step || (cbv zeta; case_match)).

Lemma touch_session_runs l : runs_as (touch_session_p l) (on_env (touch_session l)).
Proof. eapply runs_ext; [unfold touch_session_p, at_env; runs|]. intros c. unfold touch_session. by rewrite on_env_bind. Qed.

Lemma session_dead_runs l : runs_as (session_dead_p l) (on_env (session_dead l)).
Proof.
  apply (runs_ext _ (now ← on_env Now; expired ← on_env (expired_at l now);
    if expired : bool then mret true else now ← on_env Now; on_env (idle_at l now))).
  { unfold session_dead_p, at_env. runs. }
  intros c. unfold session_dead.
  rewrite on_env_bind. apply M_bind_ext. intros now c1. rewrite on_env_bind. apply M_bind_ext. intros [] c2.
  - unfold on_env, mret, M_ret. by destruct c2.
  - by rewrite on_env_bind.
Qed.

Lemma stream_serve_runs s ctx sess addr req seq :
  runs_as (stream_serve_p s ctx sess addr req seq) (stream_serve s ctx sess addr req seq).
Proof. unfold stream_serve_p, stream_serve, at_env. runs. Qed.

Lemma handleStream_body_runs s ctx l addr :
  runs_as (handleStream_body_p s ctx l addr) (handleStream_body s ctx l addr).
Proof.
  unfold handleStream_body_p, handleStream_body. apply runs_bind; [apply runs_atom|intros sess].
  apply runs_bind; [apply session_dead_runs|intros dead]. destruct dead; [runs|].
  apply runs_bind; [apply touch_session_runs|intros _]. runs. apply stream_serve_runs.
Qed.

Lemma tcp_serve_runs s sctx ctx sess addr req seq :
  runs_as (tcp_serve_p s sctx ctx sess addr req seq) (tcp_serve s sctx ctx sess addr req seq).
Proof. unfold tcp_serve_p, tcp_serve, at_env. runs. Qed.

Lemma tcp_loop_runs s cancelled sctx l addr fuel : forall n ctx,
  runs_as (tcp_loop_p fuel s cancelled n sctx ctx l addr) (tcp_loop fuel s cancelled n sctx ctx l addr).
Proof.
  induction fuel as [|fuel IH]; intros n ctx; cbn [tcp_loop_p tcp_loop]; [apply runs_lift|].
  destruct (cancelled n); [apply runs_ret|]. apply runs_bind.
  - unfold tcp_round_p, tcp_round. apply runs_bind; [apply runs_atom|intros sess].
    apply runs_bind; [apply session_dead_runs|intros dead]. destruct dead; [runs|].
    apply runs_bind; [apply touch_session_runs|intros _]. runs. apply tcp_serve_runs.
  - intros [ctx'|]; [apply IH|apply runs_ret].
Qed.

(** C22. The two goroutines that serve requests, run without interruption, are
    [handleStream] and [handleTCPConnection], on every connection and in every
    state of the server. *)
Theorem goroutines_alone s ctx l addr fuel cancelled conn (c : Conn A) :
  alone (handleStream_p s ctx l addr) c = handleStream s ctx l addr c /\
  alone (handleTCPConnection_p fuel s cancelled ctx conn addr) c = handleTCPConnection fuel s cancelled ctx conn addr c.
Proof.
  split.
  - assert (runs_as (handleStream_p s ctx l addr) (handleStream s ctx l addr)) as H; [|apply H].
    unfold handleStream_p, handleStream. apply runs_bind; [apply runs_atom|intros sess].
    apply runs_bind; [apply runs_attempt, handleStream_body_runs|intros r]. destruct r; unfold at_env; runs.
  - assert (runs_as (handleTCPConnection_p fuel s cancelled ctx conn addr) (handleTCPConnection fuel s cancelled ctx conn addr))
      as H; [|apply H].
    unfold handleTCPConnection_p, handleTCPConnection, at_env. destruct conn; runs. apply tcp_loop_runs.
Qed.
End alone.
