(* ===== verification/SystemFacts.v ===== *)
(** * A whole server under any schedule

    A server that listens for TCP and QUIC clients at once: one goroutine for
    each listener, collector, connection and stream ([Goroutines]), over the
    sessions, the clock, the random source, the log and the application's state
    that they share.  Under every interleaving of their steps it refines the
    handlers run one after the other. *)

From S2P Require Import Prelude GoRt Varint Tlv TlvSpec TlvDecode TlvSafe Crypto Frame FrameFacts FrameClaims Session SessionFacts Negotiate NegotiateFacts RateLimit Media Handler Server ServerFacts Pipeline Client EndToEnd Conversation Serve Conc Goroutines.

(** ** The shared state between steps *)
Section shared.
Context {A : Type}.
Implicit Types (e : Env A).

(** No two readings of the clock are further apart than the sessions live. *)
Definition calm e : Prop := forall i j,
  oracle e i - oracle e j <= IdleTimeout (config (sstore e)) /\
  oracle e i - oracle e j <= MaxLifetime (config (sstore e)).

(** The times in the sessions are readings of the clock. *)
Definition stamped e : Prop := forall l x, sheap e !! l = Some x ->
  exists i j, CreatedAt x = oracle e i /\ LastUsed x = oracle e j.

Definition env_ok e : Prop := calm e /\ store_ok (sheap e) (sstore e) /\ stamped e.

(** Sessions that only differ in their last use. *)
Definition same_session (x y : Session) : Prop := ID y = ID x /\ APIKeyID y = APIKeyID x /\ SKey y = SKey x.

(** What every goroutine leaves as it is. *)
Definition env_rely e e' : Prop :=
  oracle e' = oracle e /\ config (sstore e') = config (sstore e) /\
  forall l x, sheap e !! l = Some x -> exists x', sheap e' !! l = Some x' /\ same_session x x'.

#[export] Instance same_session_preorder : PreOrder same_session.
Proof. split; [done|]. intros x y z (? & ? & ?) (? & ? & ?). split_and!; congruence. Qed.

#[export] Instance env_rely_preorder : PreOrder env_rely.
Proof.
  split.
  - intros e. split_and!; try done. intros l x H. by exists x.
  - intros e e' e'' (H1 & H2 & H3) (H1' & H2' & H3'). split_and!; [congruence..|].
    intros l x Hx. destruct (H3 l x Hx) as (x' & Hx' & Hs). destruct (H3' l x' Hx') as (x'' & Hx'' & Hs').
    exists x''. split; [done|]. by etrans.
Qed.

Definition entropy_left e : nat := length (unread (random e)).

(** A session, with whatever last use, is behind the pointer. *)
Definition known (l : positive) (sess : Session) e : Prop :=
  exists x, sheap e !! l = Some x /\ same_session sess x.
(** [now] is a reading of the clock. *)
Definition reading (now : Time) e : Prop := exists i, now = oracle e i.

Lemma known_stable l sess : stable env_rely (known l sess).
Proof.
  intros e e' (x & Hx & Hs) (_ & _ & H). destruct (H l x Hx) as (x' & Hx' & Hs').
  exists x'. split; [done|]. by etrans.
Qed.
Lemma reading_stable now : stable env_rely (reading now).
Proof. intros e e' [i ->] (Ho & _). exists i. by rewrite Ho. Qed.
Lemma and_stable (K K' : Env A -> Prop) : stable env_rely K -> stable env_rely K' -> stable env_rely (fun e => K e /\ K' e).
Proof. intros H H' e e' [HK HK'] Hr. split; [by eapply H|by eapply H']. Qed.
Lemma true_stable : stable env_rely (fun _ : Env A => True).
Proof. done. Qed.

(** Steps that leave the clock and the sessions alone. *)
Lemma env_same e e' :
  oracle e' = oracle e -> sheap e' = sheap e -> sstore e' = sstore e ->
  env_ok e -> env_ok e' /\ env_rely e e'.
Proof.
  intros Ho Hh Hs (H1 & H2 & H3). unfold env_ok, calm, stamped, env_rely. rewrite Ho, Hh, Hs.
  split; [by split_and!|]. split_and!; try done. intros l x Hx. by exists x.
Qed.

Lemma alive_session e l x now :
  env_ok e -> sheap e !! l = Some x -> reading now e ->
  IsExpired now (sstore e) x = false /\ IsIdleDead now (sstore e) x = false.
Proof.
  intros (Hcalm & [(Hi & Hm & _) _] & Hst) Hx [i ->]. destruct (Hst l x Hx) as (j & j' & Hj & Hj').
  unfold IsExpired, IsIdleDead. rewrite Hj, Hj'. destruct (Hcalm i j) as [_ H1]. destruct (Hcalm i j') as [H2 _].
  unfold time_Sub, minDuration in *. split; apply Z.ltb_ge; lia.
Qed.

Lemma touch_env e l now :
  env_ok e -> reading now e ->
  let e' := set_sessions (Touch now l (sheap e)) (sstore e) e in env_ok e' /\ env_rely e e'.
Proof.
  intros (H1 & H2 & H3) [i ->]. split.
  - split; [done|]. split; [by apply Touch_store_ok|]. intros l' x. cbn [sheap set_sessions oracle].
    unfold Touch. rewrite lookup_alter_Some. intros [(<- & y & Hy & ->)|[_ Hx]]; [|exact (H3 _ _ Hx)].
    destruct (H3 _ _ Hy) as (j & _ & Hj & _). exists j, i. done.
  - split_and!; try done. intros l' x Hx. cbn [sheap set_sessions]. unfold Touch. destruct (decide (l = l')) as [<-|Hne].
    + rewrite lookup_alter_eq, Hx. eexists. split; [done|]. done.
    + rewrite lookup_alter_ne by done. by exists x.
Qed.

Lemma file_env e sess :
  env_ok e -> (exists i j, CreatedAt sess = oracle e i /\ LastUsed sess = oracle e j) ->
  let l := fresh (dom (sheap e)) in
  let e' := set_sessions (<[l := sess]> (sheap e)) (mkStore (config (sstore e)) (<[ID sess := l]> (sessions (sstore e)))) e in
  env_ok e' /\ env_rely e e' /\ known l sess e'.
Proof.
  intros (H1 & [Hc Hs] & H3) Hsess l e'.
  assert (sheap e !! l = None) as Hl by (apply not_elem_of_dom, is_fresh).
  split; [|split].
  - split; [done|]. split; [split; [done|]|].
    + intros id l'. cbn [e' set_sessions sheap sstore sessions]. rewrite lookup_insert_Some. intros [[<- <-]|[_ H]].
      * exists sess. by rewrite lookup_insert_eq.
      * destruct (Hs _ _ H) as (x & Hx & <-). exists x. rewrite lookup_insert_ne; [done|congruence].
    + intros l' x. cbn [e' set_sessions sheap oracle]. rewrite lookup_insert_Some. intros [[<- <-]|[_ H]]; [done|exact (H3 _ _ H)].
  - split_and!; try done. intros l' x Hx. exists x. cbn [e' set_sessions sheap]. rewrite lookup_insert_ne; [done|congruence].
  - exists sess. cbn [e' set_sessions sheap]. by rewrite lookup_insert_eq.
Qed.

Lemma store_env e st :
  env_ok e -> store_ok (sheap e) st -> config st = config (sstore e) ->
  let e' := set_sessions (sheap e) st e in env_ok e' /\ env_rely e e'.
Proof.
  intros (H1 & H2 & H3) Hst Hc. split.
  - split; [|by split]. intros i j. cbn [set_sessions oracle sstore]. rewrite Hc. apply H1.
  - split_and!; try done. intros l x Hx. by exists x.
Qed.
End shared.

(** ** Rules for the steps of the server's goroutines *)
Section rules.
Context {A : Type} `{L : CryptoLaws}.
Context (table : gmap Z (app_handler (A := A))) (can : Go -> nat -> nat -> (Env A -> Prop) -> Prop).
Implicit Types (e : Env A) (J : list (SrvRequest * Response + Go) -> Ends -> Prop) (K : Env A -> Prop).

(** The specification: a request is answered by the handler of its opcode. *)
Definition answered (ev : SrvRequest * Response) (a a' : A) : Prop := answer table ev.1 a = (a', ev.2).

Abbreviation P := (Prog (Conn A) Go).
Abbreviation WP := (wp join env ends app answered env_ok env_rely entropy_left can).
Abbreviation History := (list (SrvRequest * Response + Go)).
Abbreviation Post R := (@Post (Env A) Ends Go (SrvRequest * Response) R).

(** A step on the shared state alone, without an answer. *)
Lemma wp_env {B R} J (m : M (Env A) B) (k : res B -> P R) (Φ : Post R) n c K h l :
  J h l ->
  (forall e, env_ok e -> K e -> exists e' r K', m e = (e', r) /\ env_ok e' /\ env_rely e e' /\
     entropy_left e' = entropy_left e /\ app e' = app e /\ stable env_rely K' /\ K' e' /\
     WP J (k r) Φ n c K' h l) ->
  WP J (Atom B (on_env m) k) Φ (S n) c K h l.
Proof.
  intros HJ H. split; [done|]. intros e Hok HK Hc. destruct (H e Hok HK) as (e' & r & K' & Hm & H1 & H2 & H3 & H4 & H5 & H6 & H7).
  unfold on_env, join. cbn [env conn_in conn_out conn_closed]. rewrite Hm. cbn [env]. exists n, c, K', h.
  rewrite H3, H4. split_and!; try done; try lia; [by left|]. by destruct l.
Qed.

Lemma wp_Now {R} J (k : res Time -> P R) (Φ : Post R) n c K h l :
  J h l -> stable env_rely K ->
  (forall now, WP J (k (Ok now)) Φ n c (fun e => K e /\ reading now e) h l) ->
  WP J (Atom Time (on_env Now) k) Φ (S n) c K h l.
Proof.
  intros HJ HK H. apply wp_env; [done|]. intros e Hok HKe.
  destruct (env_same e (Now e).1 eq_refl eq_refl eq_refl Hok) as [H1 H2].
  eexists _, _, (fun e0 => K e0 /\ reading (oracle e (ticks e)) e0). split; [reflexivity|]. split_and!; try done.
  - apply and_stable; [done|apply reading_stable].
  - by eapply HK.
  - by eexists.
Qed.

(** A step on the shared state that leaves the clock and the sessions alone. *)
Lemma wp_same {B R} J (m : M (Env A) B) (k : res B -> P R) (Φ : Post R) n c K h l :
  J h l -> stable env_rely K ->
  (forall e, env_ok e -> K e -> exists e' r, m e = (e', r) /\ oracle e' = oracle e /\ sheap e' = sheap e /\
     sstore e' = sstore e /\ random e' = random e /\ app e' = app e /\ WP J (k r) Φ n c K h l) ->
  WP J (Atom B (on_env m) k) Φ (S n) c K h l.
Proof.
  intros HJ HK H. apply wp_env; [done|]. intros e Hok HKe.
  destruct (H e Hok HKe) as (e' & r & Hm & H1 & H2 & H3 & H4 & H5 & H6).
  destruct (env_same e e' H1 H2 H3 Hok) as [Hok' Hr]. exists e', r, K. split_and!; try done.
  - unfold entropy_left. by rewrite H4.
  - by eapply HK.
Qed.

Lemma wp_logf {R} J s lvl fmt args (k : res unit -> P R) (Φ : Post R) n c K h l :
  J h l -> stable env_rely K -> WP J (k (Ok tt)) Φ n c K h l ->
  WP J (Atom unit (on_env (logf (A := A) s lvl fmt args)) k) Φ (S n) c K h l.
Proof.
  intros HJ HK H. apply wp_same; [done..|]. intros e _ _. unfold logf, put_log.
  destruct (Logger s); eexists _, _; (split; [reflexivity|]); by split_and!.
Qed.

Lemma wp_read_session {R} J l sess (k : res Session -> P R) (Φ : Post R) n c K h ls :
  J h ls -> stable env_rely K -> (forall e, K e -> known l sess e) ->
  (forall x, same_session sess x -> WP J (k (Ok x)) Φ n c K h ls) ->
  WP J (Atom Session (on_env (read_session (A := A) l)) k) Φ (S n) c K h ls.
Proof.
  intros HJ HK Hkn H. apply wp_same; [done..|]. intros e _ HKe. destruct (Hkn e HKe) as (x & Hx & Hs).
  unfold read_session, load. rewrite Hx. cbn [deref]. eexists _, _. split; [reflexivity|]. split_and!; try done. by apply H.
Qed.

Lemma wp_tick {R} J (k : res Time -> P R) (Φ : Post R) n c K h l :
  J h l -> stable env_rely K -> (forall now, WP J (k (Ok now)) Φ n c K h l) ->
  WP J (Atom Time (on_env Now) k) Φ (S n) c K h l.
Proof.
  intros HJ HK H. apply wp_same; [done..|]. intros e _ _. eexists _, _. split; [reflexivity|]. by split_and!.
Qed.

(** The checks of a known session succeed, and it is touched. *)
Lemma wp_checks {R} J l sess (D k : P R) (Φ : Post R) n c K h ls :
  J h ls -> stable env_rely K -> (forall e, K e -> known l sess e) -> WP J k Φ n c K h ls ->
  WP J (dead ← session_dead_p l; if dead : bool then D else _ ← touch_session_p l; k) Φ (6 + n) c K h ls.
Proof.
  intros HJ HK Hkn H. apply wp_Now; [done..|]. intros now.
  assert (forall e0 x0 (f : SessionStore -> Session -> bool), sheap e0 !! l = Some x0 ->
    (match load (sheap e0) l with Ok sess => (e0, Ok (f (sstore e0) sess)) | Err x => (e0, Err x)
      | Panic p => (e0, Panic p) | OutOfFuel => (e0, OutOfFuel) end) = (e0, Ok (f (sstore e0) x0))) as Hload.
  { intros e0 x0 f Hx. unfold load. by rewrite Hx. }
  apply wp_env; [done|]. intros e Hok [HKe Hnow]. destruct (Hkn e HKe) as (x & Hx & Hs).
  destruct (alive_session e l x now Hok Hx Hnow) as [Hexp _].
  eexists _, _, K. split; [unfold expired_at; by rewrite (Hload e x (IsExpired now))|].
  split_and!; try done. rewrite Hexp.
  apply wp_Now; [done..|]. clear e Hok HKe Hnow x Hx Hs Hexp now. intros now.
  apply wp_env; [done|]. intros e Hok [HKe Hnow]. destruct (Hkn e HKe) as (x & Hx & Hs).
  destruct (alive_session e l x now Hok Hx Hnow) as [_ Hidle].
  eexists _, _, K. split; [unfold idle_at; by rewrite (Hload e x (IsIdleDead now))|].
  split_and!; try done. rewrite Hidle.
  apply wp_Now; [done..|]. clear e Hok HKe Hnow x Hx Hs Hidle now. intros now.
  apply wp_env; [done|]. intros e Hok [HKe Hnow]. destruct (touch_env e l now Hok Hnow) as [H1 H2].
  eexists _, _, K. split; [reflexivity|]. split_and!; try done. by eapply HK.
Qed.

(** Steps on the goroutine's own connection. *)
Lemma wp_read {R} J key req seq fr rest er (k : res (Request * Z) -> P R) (Φ : Post R) n c K h l :
  J h l -> stable env_rely K -> e_in l = mkReader (fr ++ rest) er -> requests key (req, seq) fr ->
  WP J (k (Ok (req, seq))) Φ n c K h (mkEnds (mkReader rest er) (e_out l) (e_closed l)) ->
  WP J (Atom _ (conn_ReadRequest (A := A) key) k) Φ (S n) c K h l.
Proof.
  intros HJ HK Hin (_ & _ & Hreq) H. split; [done|]. intros e Hok HKe Hc.
  unfold conn_ReadRequest, join. cbn [conn_in]. rewrite Hin, Hreq. exists n, c, K, h. cbn [env].
  split_and!; try done; try lia. by left.
Qed.

Lemma wp_read_EOF {R} J key (k : res (Request * Z) -> P R) (Φ : Post R) n c K h l :
  J h l -> stable env_rely K -> e_in l = mkReader [] io_EOF ->
  (forall x rd, WP J (k (Err x)) Φ n c K h (mkEnds rd (e_out l) (e_closed l))) ->
  WP J (Atom _ (conn_ReadRequest (A := A) key) k) Φ (S n) c K h l.
Proof.
  intros HJ HK Hin H. split; [done|]. intros e Hok HKe Hc. destruct (ReadRequest_EOF key) as (x & rd & He).
  unfold conn_ReadRequest, join. cbn [conn_in]. rewrite Hin, He. exists n, c, K, h. cbn [env].
  split_and!; try done; try lia; [by left|apply H].
Qed.

Lemma wp_close {R} J (k : res unit -> P R) (Φ : Post R) n c K h l :
  J h l -> stable env_rely K -> WP J (k (Ok tt)) Φ n c K h (mkEnds (e_in l) (e_out l) true) ->
  WP J (Atom _ (conn_Close (A := A)) k) Φ (S n) c K h l.
Proof.
  intros HJ HK H. split; [done|]. intros e Hok HKe Hc. exists n, c, K, h. cbn [conn_Close join env].
  split_and!; try done; try lia. by left.
Qed.

Definition nonce_bytes : nat := 12.

(** A response that fits is sent; this may be the step that answers a request
    that needs no state. *)
Lemma wp_write {R} J sk seq r (m : M (Conn A) unit) (k : res unit -> P R) (Φ : Post R) n c K h h' l :
  m = conn_WriteResponse (Some sk) seq r \/ m = best_effort (conn_WriteResponse (Some sk) seq r) ->
  J h l -> stable env_rely K -> key_ok (Some sk) -> (forall a : A, response_fits (Some sk) r) -> in_uint 32 seq = true ->
  failing (e_out l) = None -> h' = h \/ (exists ev, h' = h ++ [inl ev] /\ forall a, answered ev a a) ->
  (forall buf, carries (Some sk) seq r buf ->
     WP J (k (Ok tt)) Φ n c K h' (mkEnds (e_in l) (mkWriter (written (e_out l) ++ buf) None) (e_closed l))) ->
  WP J (Atom unit m k) Φ (S n) (nonce_bytes + c) K h l.
Proof.
  intros Hm HJ HK Hk Hfit Hseq Hw Hh H. split; [done|]. intros e Hok HKe Hc.
  unfold entropy_left in Hc. unfold nonce_bytes in *. destruct (random e) as [u er] eqn:Hr. cbn [unread] in Hc.
  assert (len (take 12 u) = NonceSize) as Hlen by (unfold len, NonceSize; rewrite length_take; lia).
  pose proof (conn_WriteResponse_ok (Some sk) seq r (take 12 u) (drop 12 u) er (join e l) (Hfit (app e)) Hk Hlen Hw) as Heq.
  cbn [nonce_used join env] in Heq. rewrite take_drop in Heq. specialize (Heq Hr).
  assert (m (join e l) = (mkConn (set_random (mkReader (drop 12 u) er) e) (e_in l)
    (mkWriter (written (e_out l) ++ frame_bytes seq (envelope (Some sk) (take 12 u) (response_bytes r))) None)
    (e_closed l), Ok tt)) as ->.
  { destruct Hm as [->| ->]; [exact Heq|]. unfold best_effort. by rewrite Heq. }
  destruct (env_same e (set_random (mkReader (drop 12 u) er) e) eq_refl eq_refl eq_refl Hok) as [Hok' Hrely].
  exists n, c, K, h'. cbn [env ends conn_in conn_out conn_closed]. split_and!; try done; try lia.
  - unfold entropy_left. cbn [random set_random unread]. rewrite Hr. cbn [unread]. rewrite length_drop. lia.
  - by eapply HK.
  - destruct Hh as [->|(ev & -> & Hev)]; [by left|]. right. exists ev. split; [done|]. apply Hev.
  - apply H. apply frame_carries; [by apply Hfit, (app e)|done..].
Qed.

(** A handler of the application answers its request. *)
Lemma wp_handler {R} J g ctx req (k : res (option Response) -> P R) (Φ : Post R) n c K h l :
  table !! Opcode (FrameRequest req) = Some g -> J h l -> stable env_rely K ->
  (forall r, (exists a, (answer table req a).2 = r) -> WP J (k (Ok (Some r))) Φ n c K (h ++ [inl (req, r)]) l) ->
  WP J (Atom _ (on_env (lift_app g ctx req)) k) Φ (S n) c K h l.
Proof.
  intros Hg HJ HK H. split; [done|]. intros e Hok HKe Hc.
  unfold on_env, lift_app, in_app, join. cbn [env]. destruct (g req (app e)) as [a r] eqn:Hga. cbn [env].
  match goal with |- context [mkConn ?e' _ _ _] => set (e1 := e') end.
  destruct (env_same e e1 eq_refl eq_refl eq_refl Hok) as [Hok' Hrely].
  assert (answer table req (app e) = (a, r)) as Ha. { unfold answer. unfold app_handler in *. by rewrite Hg. }
  exists n, c, K, (h ++ [inl (req, r)]). split_and!; try done; try lia.
  - by eapply HK.
  - right. exists (req, r). split; [done|]. exact Ha.
  - destruct l. apply H. exists (app e). by rewrite Ha.
Qed.
End rules.

(** ** Serving requests *)
Section serving.
Context {A : Type} `{L : CryptoLaws}.
Context (s : Server A) (table : gmap Z (app_handler (A := A))) (can : Go -> nat -> nat -> (Env A -> Prop) -> Prop).
Context (Hs : serves s table) (Hfit : forall k, fits_all table (Some k)).
Context (sess : Session) (sk : list byte) (Hsk : SKey sess = Some sk) (Hkey : key_ok (Some sk)).
(** What was written before, and the requests that come. *)
Context (w0 : list byte) (rqs : list (Request * Z)).
Implicit Types (e : Env A) (K : Env A -> Prop) (ps qs : list ((Request * Z) * Response)).

Abbreviation P := (Prog (Conn A) Go).
Abbreviation WP := (wp join env ends app (answered table) env_ok env_rely entropy_left can).
Abbreviation History := (list (SrvRequest * Response + Go)).
Abbreviation Post R := (@Post (Env A) Ends Go (SrvRequest * Response) R).

(** The history of having answered, and the output of having sent. *)
Definition srv_req (rq : Request) : SrvRequest := mkSrvRequest rq (ID sess) (APIKeyID sess).
Definition evs (ps : list ((Request * Z) * Response)) : History := map (fun p : (Request * Z) * Response => inl (srv_req p.1.1, p.2)) ps.
Definition said (ps : list ((Request * Z) * Response)) (l : Ends) : Prop :=
  exists bufs, Forall2 (fun (p : (Request * Z) * Response) buf => carries (Some sk) p.1.2 p.2 buf) ps bufs /\ e_out l = mkWriter (w0 ++ concat bufs) None.

(** The requests are answered in their order, and the answers are sent in that
    order, at most the last one not yet; in the end all are. *)
Definition serving (fin : bool) (h : History) (l : Ends) : Prop :=
  exists ps rest, rqs = map fst ps ++ rest /\ h = evs ps /\
    (said ps l \/ exists qs p, ps = qs ++ [p] /\ said qs l) /\ (fin = true -> rest = [] /\ said ps l).

Lemma evs_snoc ps req seq r : evs (ps ++ [((req, seq), r)]) = evs ps ++ [inl (srv_req req, r)].
Proof. unfold evs. by rewrite map_app. Qed.
Lemma map_snoc ps req seq r rest :
  rqs = map fst ps ++ (req, seq) :: rest -> rqs = map fst (ps ++ [((req, seq), r)]) ++ rest.
Proof. intros ->. rewrite map_app, <-app_assoc. done. Qed.

Lemma serving_said ps rest l : rqs = map fst ps ++ rest -> said ps l -> serving false (evs ps) l.
Proof. intros Hr Hl. exists ps, rest. split_and!; [done|done|by left|done]. Qed.
Lemma serving_pending ps req seq r rest l :
  rqs = map fst ps ++ (req, seq) :: rest -> said ps l -> serving false (evs ps ++ [inl (srv_req req, r)]) l.
Proof.
  intros Hr Hl. exists (ps ++ [((req, seq), r)]), rest. split_and!; [by apply map_snoc|by rewrite evs_snoc| |done].
  right. by exists ps, ((req, seq), r).
Qed.

Lemma said_failing ps l : said ps l -> failing (e_out l) = None.
Proof. intros (bufs & _ & ->). done. Qed.
Lemma said_ends ps i c l : said ps l -> said ps (mkEnds i (e_out l) c).
Proof. done. Qed.
Lemma said_snoc ps req seq r buf i c l :
  said ps l -> carries (Some sk) seq r buf ->
  said (ps ++ [((req, seq), r)]) (mkEnds i (mkWriter (written (e_out l) ++ buf) None) c).
Proof.
  intros (bufs & H & ->) Hb. exists (bufs ++ [buf]). split; [apply Forall2_app; [done|by repeat constructor]|].
  cbn [e_out written]. rewrite concat_app. cbn [concat]. by rewrite app_nil_r, app_assoc.
Qed.

Lemma fits_answer req a : in_uint 16 (Opcode req) = true -> response_fits (Some sk) (answer table (srv_req req) a).2.
Proof. intros H. by apply (Hfit sk (srv_req req)). Qed.

(** The steps of serving a request whose handler was found, up to the write. *)
Lemma answer_unknown req : table !! Opcode req = None -> forall a, answered table (srv_req req, not_found_resp (Opcode req)) a a.
Proof. intros Ht a. unfold answered, answer. cbn [fst FrameRequest srv_req]. unfold app_handler in *. by rewrite Ht. Qed.

Lemma tcp_serve_wp x sctx ctx addr req seq ps rest (Φ : Post (option Ctx)) n c K l :
  same_session sess x -> stable env_rely K ->
  in_uint 32 seq = true -> in_uint 16 (Opcode req) = true ->
  rqs = map fst ps ++ (req, seq) :: rest -> said ps l ->
  (forall r l', said (ps ++ [((req, seq), r)]) l' -> e_in l' = e_in l ->
     Φ (Ok (Some (request_ctx ctx x addr))) n c K (evs (ps ++ [((req, seq), r)])) l') ->
  WP (serving false) (tcp_serve_p s sctx ctx x addr req seq) Φ (5 + n) (nonce_bytes + c) K (evs ps) l.
Proof.
  intros (HID & HAK & HSK) HK Hseq Hop Hr Hl HΦ. unfold tcp_serve_p. rewrite HSK, Hsk, (Hs (Opcode req)).
  replace (mkSrvRequest req (ID x) (APIKeyID x)) with (srv_req req) by (unfold srv_req; congruence).
  destruct (table !! Opcode req) as [g|] eqn:Hg; cbn [fmap option_fmap option_map].
  - apply wp_tick; [by eapply serving_said|done|]. intros start.
    eapply wp_handler; [exact Hg|by eapply serving_said|done|]. intros r [a Ha].
    assert (response_fits (Some sk) r) as Hrf by (rewrite <-Ha; by apply fits_answer).
    apply wp_tick; [by eapply serving_pending|done|]. intros now.
    apply wp_logf; [by eapply serving_pending|done|].
    eapply (wp_write _ _ _ sk seq r); [by left|by eapply serving_pending|done..|by eapply said_failing|by left|].
    intros buf Hb. rewrite <-(evs_snoc _ _ seq). apply HΦ; [by apply said_snoc|done].
  - apply wp_more with (n := S n); [lia|].
    eapply (wp_write _ _ _ sk seq (not_found_resp (Opcode req)));
      [by right|by eapply serving_said|done|done| |done|by eapply said_failing| |].
    + pose proof (fits_answer req) as H. unfold answer in H. cbn [FrameRequest srv_req] in H.
      unfold app_handler in *. rewrite Hg in H. exact (fun a => H a Hop).
    + right. exists (srv_req req, not_found_resp (Opcode req)). split; [done|]. by apply answer_unknown.
    + intros buf Hb. rewrite <-(evs_snoc _ _ seq). apply HΦ; [by apply said_snoc|done].
Qed.

(** What is left to read. *)
Definition coming (rest : list (Request * Z)) (l : Ends) : Prop :=
  exists frames, Forall2 (requests (Some sk)) rest frames /\ e_in l = mkReader (concat frames) io_EOF.

Lemma stream_serve_wp x ctx addr req seq (Φ : Post unit) n c K l :
  same_session sess x -> stable env_rely K ->
  in_uint 32 seq = true -> in_uint 16 (Opcode req) = true -> rqs = [(req, seq)] -> said [] l ->
  (forall r l', said [((req, seq), r)] l' -> e_closed l' = true ->
     Φ (Ok tt) n c K (evs [((req, seq), r)]) l') ->
  WP (serving false) (stream_serve_p s ctx x addr req seq) Φ (6 + n) (nonce_bytes + c) K [] l.
Proof.
  intros (HID & HAK & HSK) HK Hseq Hop Hr Hl HΦ. unfold stream_serve_p. rewrite HSK, Hsk, (Hs (Opcode req)).
  replace (mkSrvRequest req (ID x) (APIKeyID x)) with (srv_req req) by (unfold srv_req; congruence).
  assert (serving false [] l) as H0 by (apply (serving_said [] rqs); done).
  assert (forall r, serving false ([] ++ [inl (srv_req req, r)]) l) as H1.
  { intros r. apply (serving_pending [] req seq r []); [by rewrite Hr|done]. }
  assert (forall r buf, carries (Some sk) seq r buf ->
    let l' := mkEnds (e_in l) (mkWriter (written (e_out l) ++ buf) None) (e_closed l) in
    said [((req, seq), r)] l' /\ serving false ([] ++ [inl (srv_req req, r)]) l') as H2.
  { intros r buf Hb l'. assert (said [((req, seq), r)] l') as Hs' by by apply (said_snoc []).
    split; [done|]. by apply (serving_said [((req, seq), r)] []). }
  destruct (table !! Opcode req) as [g|] eqn:Hg; cbn [fmap option_fmap option_map].
  - apply wp_tick; [done|done|]. intros start.
    eapply wp_handler; [exact Hg|done|done|]. intros r [a Ha].
    assert (response_fits (Some sk) r) as Hrf by (rewrite <-Ha; by apply fits_answer).
    apply wp_tick; [done|done|]. intros now. apply wp_logf; [done|done|].
    eapply (wp_write _ _ _ sk seq r); [by left|done..|by eapply said_failing|by left|].
    intros buf Hb. destruct (H2 r buf Hb) as [Hs1 Hs2]. apply wp_close; [done|done|].
    apply HΦ; [exact Hs1|done].
  - apply wp_more with (n := S (S n)); [lia|].
    eapply (wp_write _ _ _ sk seq (not_found_resp (Opcode req)));
      [by right|done|done|done| |done|by eapply said_failing| |].
    + pose proof (fits_answer req) as H. unfold answer in H. cbn [FrameRequest srv_req] in H.
      unfold app_handler in *. rewrite Hg in H. exact (fun a => H a Hop).
    + right. exists (srv_req req, not_found_resp (Opcode req)). split; [done|]. by apply answer_unknown.
    + intros buf Hb. destruct (H2 _ buf Hb) as [Hs1 Hs2]. apply wp_close; [done|done|].
      apply HΦ; [exact Hs1|done].
Qed.

(** The goroutine of a QUIC stream. *)
Lemma handleStream_wp ctx l addr req seq (Φ : Post unit) n c K ls :
  stable env_rely K -> (forall e, K e -> known l sess e) -> rqs = [(req, seq)] -> coming [(req, seq)] ls -> said [] ls ->
  (forall r l', said [((req, seq), r)] l' -> e_closed l' = true -> Φ (Ok tt) n c K (evs [((req, seq), r)]) l') ->
  WP (serving false) (handleStream_p s ctx l addr) Φ (15 + n) (nonce_bytes + c) K [] ls.
Proof.
  intros HK Hkn Hr (frames & Hfr & Hin) Hl HΦ.
  assert (serving false [] ls) as H0 by (by apply (serving_said [] rqs)).
  unfold handleStream_p. eapply wp_read_session; [done|done|exact Hkn|]. intros x Hx.
  apply wp_bind, wp_attempt. eapply wp_read_session; [done|done|exact Hkn|]. intros y Hy.
  apply (wp_checks table can (serving false) l sess _ _ _ (7 + n)); [done|done|exact Hkn|].
  inversion Hfr as [|? fr ? frs Hfr1 Hfrs]; subst. inversion Hfrs; subst. cbn [concat] in Hin.
  destruct Hy as (HID & HAK & HSK). rewrite HSK, Hsk. destruct Hfr1 as (Hseq & Hop & Hreq).
  eapply wp_read; [done|done|exact Hin|by split_and!|].
  eapply stream_serve_wp; [by split_and!|done|done|done|done|by apply said_ends|].
  intros r l' Hs' Hc. by apply HΦ.
Qed.

(** The loop of a TCP connection, on the requests that are left. *)
Lemma tcp_loop_wp sctx l addr rest : forall fuel i ctx ps (Φ : Post unit) n c K ls,
  stable env_rely K -> (forall e, K e -> known l sess e) -> rqs = map fst ps ++ rest -> coming rest ls -> said ps ls ->
  (length rest < fuel)%nat ->
  (forall ps' l', rqs = map fst ps' -> said ps' l' -> Φ (Ok tt) n c K (evs ps') l') ->
  WP (serving false) (tcp_loop_p fuel s (fun _ => false) i sctx ctx l addr) Φ
    (8 + 13 * length rest + n) (nonce_bytes * length rest + c) K (evs ps) ls.
Proof.
  induction rest as [|[req seq] rest IH]; intros [|fuel] i ctx ps Φ n c K ls HK Hkn Hr (frames & Hfr & Hin) Hl Hfuel HΦ;
    cbn [length] in Hfuel; try lia; cbn [tcp_loop_p].
  all: assert (serving false (evs ps) ls) as H0 by (by eapply serving_said).
  - apply wp_bind. unfold tcp_round_p. eapply wp_read_session; [done|done|exact Hkn|]. intros x Hx.
    apply (wp_checks table can (serving false) l sess _ _ _ (S n)); [done|done|exact Hkn|].
    inversion Hfr; subst. eapply wp_read_EOF; [done|done|exact Hin|]. intros e rd.
    apply HΦ; [by rewrite Hr, app_nil_r|by apply said_ends].
  - inversion Hfr as [|? fr ? frs Hfr1 Hfrs]; subst.
    replace (8 + 13 * length ((req, seq) :: rest) + n)%nat with (S (6 + S (5 + (8 + 13 * length rest + n))))%nat
      by (cbn [length]; lia).
    apply wp_bind. unfold tcp_round_p. eapply wp_read_session; [done|done|exact Hkn|]. intros x Hx.
    apply (wp_checks table can (serving false) l sess _ _ _ (S (5 + (8 + 13 * length rest + n))));
      [done|done|exact Hkn|].
    destruct Hx as (HID & HAK & HSK). rewrite HSK, Hsk. destruct Hfr1 as (Hseq & Hop & Hreq).
    eapply wp_read; [done|done|exact Hin|by split_and!|].
    replace (nonce_bytes * length ((req, seq) :: rest) + c)%nat with (nonce_bytes + (nonce_bytes * length rest + c))%nat
      by (cbn [length]; lia).
    eapply tcp_serve_wp; [by split_and!|done|done|done|exact Hr|by apply said_ends|].
    intros r l' Hs' Hin'. apply IH; try done; [by apply map_snoc|by exists frs|lia].
Qed.
End serving.
