(* ===== verification/System.v ===== *)
(** * Theorems about a whole server

    TCP and QUIC clients connect to one server and send their requests; the
    schedule decides who makes the next step.  At any time what was answered is
    a sequential run of the handlers, and each client gets its own answers, in
    its order; and the server answers everything without going round in
    circles. *)

From S2P Require Import Prelude GoRt Varint Tlv TlvSpec TlvDecode TlvSafe Crypto Frame FrameFacts FrameClaims Session SessionFacts Negotiate NegotiateFacts RateLimit Media Handler Server ServerFacts Pipeline Client EndToEnd Conversation Quic QuicFacts Serve Conc Goroutines SystemFacts.

(** ** The clients *)

(** A client: its address, its API key, its public key, the session key of its
    handshake, and its requests with the frames that carry them. *)
Record Peer := mkPeer {
  p_addr : string;
  p_quic : bool;
  p_key : option APIKey;
  p_pub : list byte;
  p_sk : list byte;
  p_reqs : list ((Request * Z) * list byte)
}.

Definition stream_of (bytes : list byte) : Stream := mkStream (reader_of bytes) empty_writer.

(** Over TCP all requests follow the hello; over QUIC each has a stream. *)
Definition arrival (p : Peer) : Arrival :=
  let hello := client_hello (p_key p) (p_pub p) in
  if p_quic p then QUICConn (p_addr p) (stream_of hello) (map (fun x => stream_of x.2) (p_reqs p))
  else TCPConn (p_addr p) (stream_of (hello ++ concat (map snd (p_reqs p)))).

(** A listener by the clients that connect to it, and the failures of [Accept]. *)
Record PeerListener := mkPeerListener {
  pl_banner : string; pl_warning : string; pl_addr : string; pl_outcomes : list (Peer + error)
}.
Definition listener_of (pl : PeerListener) : Listener :=
  mkListener (pl_banner pl) (pl_warning pl) (pl_addr pl)
    (map (fun o => match o with inl p => inl (arrival p) | inr x => inr x end) (pl_outcomes pl)).
Definition peers_of (pl : PeerListener) : list Peer :=
  omap (fun o => match o with inl p => Some p | inr _ => None end) (pl_outcomes pl).
Definition all_peers (pls : list PeerListener) : list Peer := concat (map peers_of pls).

(** What a listener starts: a collector, and a goroutine for each connection. *)
Definition starts (l : Listener) : list Go :=
  GoGC :: omap (fun o => match o with inl a => Some (GoConn a) | inr _ => None end) (l_outcomes l).

(** How many steps, and how much randomness, a goroutine takes with all that it
    starts. *)
Section costs.
Context {A : Type} (ticks : list (Env A -> list (Z * positive * Time))).

Definition peer_steps (p : Peer) : nat :=
  if p_quic p then 5 + 17 * length (p_reqs p) else 13 + 13 * length (p_reqs p).
Definition peer_cost (p : Peer) : nat := nonce_bytes * length (p_reqs p).
Definition gc_steps : nat := S (length ticks).
Definition outcome_steps (o : Peer + error) : nat := match o with inl p => 2 + peer_steps p | inr _ => 1 end.
Definition outcome_cost (o : Peer + error) : nat := match o with inl p => peer_cost p | inr _ => 0 end.
Definition listener_steps (pl : PeerListener) : nat := 4 + gc_steps + sum_list_with outcome_steps (pl_outcomes pl).
Definition listener_cost (pl : PeerListener) : nat := sum_list_with outcome_cost (pl_outcomes pl).
Definition main_steps (pls : list PeerListener) : nat := S (sum_list_with (fun pl => 2 + listener_steps pl)%nat pls).
Definition main_cost (pls : list PeerListener) : nat := sum_list_with listener_cost pls.
End costs.

Section system.
Context {A : Type} `{L : CryptoLaws}.
Context (s : Server A) (table : gmap Z (app_handler (A := A))).
Context (Hs : serves s table) (Hfit : forall k, fits_all table (Some k)).
Context (ctx : Ctx) (ticks : list (Env A -> list (Z * positive * Time))).
Context (Hticks : Forall (fun visits => forall e, ranges (sstore e) (visits e)) ticks).
Context (Hgc : 0 < GCInterval (sessionCfg s)).
Context (pls : list PeerListener) (fuel : nat).
Implicit Types (e : Env A) (K : Env A -> Prop) (p : Peer).

(** The key that a client shares with the server is the one its frames are
    sealed under. *)
Definition peer_ok p : Prop :=
  shared_key (keyStore s) (p_key p) /\ len (p_pub p) = PubKeySize /\
  (exists shared, SharedSecret (serverPriv s) (p_pub p) = Ok shared /\
     DeriveSessionKey shared (client_secret (p_key p)) = Ok (p_sk p)) /\
  Forall (fun x => requests (Some (p_sk p)) x.1 x.2) (p_reqs p) /\ (length (p_reqs p) < fuel)%nat.
Context (Hpeers : Forall peer_ok (all_peers pls)).

Abbreviation P := (Prog (Conn A) Go).
Abbreviation History := (list (SrvRequest * Response + Go)).

(** The session a client gets, and the hello that tells it. *)
Definition session_of p (sess : Session) : Prop :=
  APIKeyID sess = client_id (p_key p) /\ SKey sess = Some (p_sk p).
Definition hello (sess : Session) : list byte := x25519_Public (serverPriv s) ++ be_put 8 (ID sess).

Definition can_start (g : Go) (n c : nat) (K : Env A -> Prop) : Prop :=
  match g with
  | GoMain ls => ls = map listener_of pls /\ (main_steps ticks pls <= n)%nat /\ (main_cost pls <= c)%nat
  | GoServe l => exists pl, pl ∈ pls /\ l = listener_of pl /\ (listener_steps ticks pl <= n)%nat /\ (listener_cost pl <= c)%nat
  | GoGC => (gc_steps ticks <= n)%nat
  | GoConn a => exists p, p ∈ all_peers pls /\ a = arrival p /\ (peer_steps p <= n)%nat /\ (peer_cost p <= c)%nat
  | GoStream l addr st => exists p x sess, p ∈ all_peers pls /\ addr = p_addr p /\ x ∈ p_reqs p /\ st = stream_of x.2 /\
      session_of p sess /\ (forall e, K e -> known l sess e) /\ (16 <= n)%nat /\ (nonce_bytes <= c)%nat
  end.

(** ** What is promised of each goroutine

    [h] is its history and [l] its state; [fin] when it makes no more steps. *)
Definition promised (g : Go) (fin : bool) (h : History) (l : Ends) : Prop :=
  match g with
  | GoMain ls => h `prefix_of` map (fun l => inr (GoServe l)) ls /\ (fin = true -> h = map (fun l => inr (GoServe l)) ls)
  | GoServe ln => h `prefix_of` map inr (starts ln) /\ (fin = true -> h = map inr (starts ln))
  | GoGC => h = []
  | GoConn a => exists p, p ∈ all_peers pls /\ a = arrival p /\
      ((fin = false /\ h = [] /\ e_out l = empty_writer) \/
       exists sess, session_of p sess /\
         if p_quic p then
           e_out l = mkWriter (hello sess) None /\
           exists loc, let streams := map (fun x => inr (GoStream loc (p_addr p) (stream_of x.2))) (p_reqs p) in
             h `prefix_of` streams /\ (fin = true -> h = streams)
         else serving sess (p_sk p) (hello sess) (map fst (p_reqs p)) fin h l)
  | GoStream loc addr st => exists p x sess, p ∈ all_peers pls /\ addr = p_addr p /\ x ∈ p_reqs p /\ st = stream_of x.2 /\
      session_of p sess /\ serving sess (p_sk p) [] [x.1] fin h l /\ (fin = true -> e_closed l = true)
  end.

Abbreviation WP := (wp join env ends app (answered table) env_ok env_rely entropy_left can_start).
Abbreviation Post R := (@Post (Env A) Ends Go (SrvRequest * Response) R).
Abbreviation OK := (goroutine_ok join env ends (start_go s ctx fuel ticks) app (answered table) env_ok env_rely
  entropy_left can_start promised).

Lemma peer_in p : p ∈ all_peers pls -> peer_ok p /\ key_ok (Some (p_sk p)).
Proof.
  intros Hp. pose proof (proj1 (list.Forall_forall _ _) Hpeers p Hp) as H. split; [done|].
  destruct H as (_ & _ & (sh & _ & Hk) & _). by eapply derived_key_ok.
Qed.

(** ** The goroutines *)

Lemma stream_ok l addr st : OK (GoStream l addr st).
Proof.
  intros n c K (p & x & sess & Hp & -> & Hx & -> & [HAK HSK] & Hkn & Hn & Hc) HK. cbn [start_go fst snd].
  destruct (peer_in p Hp) as [(_ & _ & _ & Hreqs & _) Hkok].
  pose proof (proj1 (list.Forall_forall _ _) Hreqs x Hx) as Hreq.
  replace n with (15 + (n - 15))%nat by lia. replace c with (nonce_bytes + (c - nonce_bytes))%nat by lia.
  eapply wp_mono; [|done|eapply (handleStream_wp s table can_start Hs Hfit sess (p_sk p) HSK Hkok [] [x.1] ctx l (p_addr p) x.1.1 x.1.2)].
  - intros h l' H. exists p, x, sess. by split_and!.
  - done.
  - done.
  - by destruct x as [[req seq] fr].
  - exists [x.2]. split; [constructor; [by destruct x as [[req seq] fr]|constructor]|]. cbn. by rewrite app_nil_r.
  - exists []. split; [constructor|done].
  - intros r l' Hsaid Hcl. split; [done|]. exists p, x, sess. split_and!; try done.
    exists [((x.1.1, x.1.2), r)], []. split_and!; [by destruct x as [[req seq] fr]|done|by left|done].
Qed.

(** The handshake, as a step: the client's session. *)
Lemma wp_negotiate {R} J p rest er (k : res Session -> P R) (Φ : Post R) n c K h l :
  peer_ok p -> J h l -> stable env_rely K ->
  e_in l = mkReader (client_hello (p_key p) (p_pub p) ++ rest) er -> e_out l = empty_writer ->
  (forall sess, session_of p sess -> LastUsed sess = CreatedAt sess ->
     WP J (k (Ok sess)) Φ n c (fun e => K e /\ reading (CreatedAt sess) e) h
       (mkEnds (mkReader rest er) (mkWriter (hello sess) None) (e_closed l))) ->
  WP J (Atom Session (conn_negotiate s) k) Φ (S n) c K h l.
Proof.
  intros (Hks & Hlen & (sh & Hsh & Hk) & _) HJ HK Hin Hout H. split; [done|]. intros e Hok HKe Hc.
  unfold join. rewrite Hin, Hout.
  rewrite (conn_negotiate_ok s e (p_key p) (p_pub p) rest er empty_writer (e_closed l) sh (p_sk p)) by done.
  set (sid := wrapU 64 (nextID e + 1)). set (sess := NewSession _ _ _ _).
  destruct (env_same e (Now (set_nextID sid e)).1 eq_refl eq_refl eq_refl Hok) as [Hok' Hrely].
  exists n, c, (fun e => K e /\ reading (CreatedAt sess) e), h. cbn [env]. split_and!; try done; try lia.
  - apply and_stable; [done|apply reading_stable].
  - by eapply HK.
  - by eexists.
  - by left.
  - by apply (H sess).
Qed.

(** The session is filed. *)
Lemma wp_file {R} J sess (k : res positive -> P R) (Φ : Post R) n c K h l :
  J h l -> stable env_rely K -> (forall e, K e -> reading (CreatedAt sess) e) -> LastUsed sess = CreatedAt sess ->
  (forall loc, WP J (k (Ok loc)) Φ n c (known loc sess) h l) ->
  WP J (Atom positive (on_env (file_session sess)) k) Φ (S n) c K h l.
Proof.
  intros HJ HK Hr Hlu H. apply wp_env; [done|]. intros e Hok HKe. destruct (Hr e HKe) as [i Hi].
  destruct (file_env e sess Hok) as (H1 & H2 & H3); [exists i, i; split; congruence|].
  eexists _, _, (known (fresh (dom (sheap e))) sess). split; [apply file_session_eq|].
  split_and!; try done. apply known_stable.
Qed.

(** ... and taken out of the store again. *)
Lemma wp_unfile {R} J id (k : res unit -> P R) (Φ : Post R) n c K h l :
  J h l -> stable env_rely K -> WP J (k (Ok tt)) Φ n c K h l ->
  WP J (Atom unit (on_env (unfile_session id)) k) Φ (S n) c K h l.
Proof.
  intros HJ HK H. apply wp_env; [done|]. intros e Hok HKe. pose proof Hok as (_ & Hst & _).
  destruct (store_env e (Store_Delete id (sstore e)) Hok) as [H1 H2]; [by apply Store_Delete_spec|done|].
  eexists _, _, K. split; [reflexivity|]. split_and!; try done. by eapply HK.
Qed.

(** A TCP connection after its handshake. *)
Lemma tcp_session_wp p sess addr n c K l :
  p ∈ all_peers pls -> session_of p sess -> LastUsed sess = CreatedAt sess -> stable env_rely K ->
  let m := length (p_reqs p) in
  (12 + 13 * m <= n)%nat -> (nonce_bytes * m <= c)%nat ->
  e_in l = mkReader (concat (map snd (p_reqs p))) io_EOF -> e_out l = mkWriter (hello sess) None ->
  let J fin := serving sess (p_sk p) (hello sess) (map fst (p_reqs p)) fin in
  WP (J false)
    (loc ← at_env (file_session sess);
     p_deferring
       (_ ← at_env (logf s LevelInfo "session[%d] tcp established key=%s remote=%s"
                      [AInt (ID sess); AStr (APIKeyID sess); AStr addr]);
        tcp_loop_p fuel s (fun _ => false) 0 ctx ctx loc addr)
       (on_env (unfile_session (ID sess))))
    (fun r _ _ _ h l => r = Ok tt /\ J true h l) n c (fun e => K e /\ reading (CreatedAt sess) e) [] l.
Proof.
  intros Hp [HAK HSK] Hlu HK m Hn Hc Hin Hout J.
  destruct (peer_in p Hp) as [(_ & _ & _ & Hreqs & Hfuel) Hkok].
  assert (said (p_sk p) (hello sess) [] l) as Hsaid by (exists []; split; [constructor|cbn; by rewrite app_nil_r]).
  assert (J false [] l) as HJ by by apply (serving_said _ _ _ _ [] (map fst (p_reqs p))).
  replace n with (S (S (8 + 13 * length (map fst (p_reqs p)) + S (n - 11 - 13 * m))))%nat by (rewrite length_map; lia).
  replace c with (nonce_bytes * length (map fst (p_reqs p)) + (c - nonce_bytes * m))%nat by (rewrite length_map; lia).
  apply wp_file; [done|apply and_stable; [done|apply reading_stable]|by intros e [_ ?]|done|]. intros loc.
  apply wp_deferring. apply wp_logf; [done|apply known_stable|].
  apply (tcp_loop_wp s table can_start Hs Hfit sess (p_sk p) HSK Hkok (hello sess) (map fst (p_reqs p)) ctx loc addr
    (map fst (p_reqs p)) fuel 0 ctx []); [apply known_stable|done|done| |done|by rewrite length_map|].
  - exists (map snd (p_reqs p)). split; [|done]. clear -Hreqs. induction Hreqs as [|x xs Hx _ IH]; [constructor|].
    constructor; [|exact IH]. by destruct x as [[req seq] fr].
  - intros ps' l' Hps Hs'. assert (forall b, J b (evs sess ps') l') as HJ'.
    { intros b. exists ps', []. rewrite app_nil_r. split_and!; [done|done|by left|done]. }
    apply wp_unfile; [apply HJ'|apply known_stable|]. by split.
Qed.

Lemma tcp_conn_ok p n c K : p_quic p = false ->
  p ∈ all_peers pls -> (peer_steps p <= n)%nat -> (peer_cost p <= c)%nat -> stable env_rely K ->
  let g := GoConn (arrival p) in
  WP (promised g false) (start_go s ctx fuel ticks g).2 (goroutine_post promised g) n c K []
    (start_go s ctx fuel ticks g).1.
Proof.
  intros Hq Hp Hn Hc HK g. destruct (peer_in p Hp) as [Hok Hkok].
  assert (forall fin h l, (fin = false /\ h = [] /\ e_out l = empty_writer) \/ (exists sess, session_of p sess /\
    serving sess (p_sk p) (hello sess) (map fst (p_reqs p)) fin h l) -> promised g fin h l) as Hprom.
  { intros fin h l H. exists p. split_and!; try done. destruct H as [H|(sess & Hse & H)]; [by left|right].
    exists sess. split; [done|]. by rewrite Hq. }
  assert (start_go s ctx fuel ticks g = (ends_of (stream_of (client_hello (p_key p) (p_pub p) ++ concat (map snd (p_reqs p)))),
    handleTCPConnection_p fuel s (fun _ => false) ctx TLSConn (p_addr p))) as -> by (unfold g, arrival; by rewrite Hq).
  unfold peer_steps, peer_cost in *. rewrite Hq in *. destruct n as [|n]; [lia|]. cbn [fst snd].
  unfold handleTCPConnection_p. eapply wp_negotiate; [exact Hok|apply Hprom; by left|done|reflexivity|done|].
  intros sess Hse Hlu. eapply wp_mono; [| |apply (tcp_session_wp p sess (p_addr p) n c K); try done; lia].
  - intros h l H. apply Hprom. right. by exists sess.
  - intros r n1 c1 K1 h l [-> H]. split; [done|]. apply Hprom. right. by exists sess.
Qed.

(** Starting goroutines one after the other, each with its share. *)
Lemma wp_forks {R} J (gs : list Go) (share cost : Go -> nat) (k : P R) (Φ : Post R) n c K l :
  (forall h, h `prefix_of` map inr gs -> J h l) ->
  (forall g, g ∈ gs -> can_start g (share g) (cost g) K) ->
  WP J k Φ n c K (map inr gs) l ->
  forall gs1 gs2, gs = gs1 ++ gs2 ->
  WP J (foldr (fun g (q : P R) => Fork g q) k gs2) Φ (sum_list_with (fun g => S (share g)) gs2 + n)
    (sum_list_with cost gs2 + c) K (map inr gs1) l.
Proof.
  intros HJ Hcan H gs1 gs2. revert gs1. induction gs2 as [|g gs2 IH]; intros gs1 ->.
  - rewrite app_nil_r in *. exact H.
  - cbn [foldr sum_list_with]. split; [apply HJ; rewrite map_app; by eexists|].
    exists (share g), (cost g), (sum_list_with (fun g => S (share g)) gs2 + n)%nat, (sum_list_with cost gs2 + c)%nat.
    split; [lia|]. split; [lia|]. split; [apply Hcan; set_solver|].
    replace (map inr gs1 ++ [inr g]) with (map (inr (A := SrvRequest * Response)) (gs1 ++ [g])) by (by rewrite map_app).
    apply IH. by rewrite <-app_assoc.
Qed.

Lemma accept_streams_eq loc addr sts :
  accept_streams_p loc addr sts = foldr (fun g (q : P unit) => Fork g q) (mret tt) (map (GoStream loc addr) sts).
Proof. induction sts as [|st sts IH]; [done|]. cbn [accept_streams_p map foldr]. by rewrite <-IH. Qed.

(** A QUIC connection after its handshake. *)
Lemma quic_session_wp J p sess n c K l :
  p ∈ all_peers pls -> p_quic p = true -> session_of p sess -> LastUsed sess = CreatedAt sess -> stable env_rely K ->
  let m := length (p_reqs p) in
  let streams loc := map (GoStream loc (p_addr p)) (map (fun x => stream_of x.2) (p_reqs p)) in
  (2 + 17 * m <= n)%nat -> (nonce_bytes * m <= c)%nat ->
  (forall loc h, h `prefix_of` map inr (streams loc) -> J h l) ->
  WP J
    (loc ← at_env (file_session sess);
     _ ← at_env (logf s LevelInfo "session[%d] established key=%s remote=%s"
                   [AInt (ID sess); AStr (APIKeyID sess); AStr (p_addr p)]);
     accept_streams_p loc (p_addr p) (map (fun x => stream_of x.2) (p_reqs p)))
    (fun r _ _ _ h l' => r = Ok tt /\ l' = l /\ exists loc, h = map inr (streams loc)) n c
    (fun e => K e /\ reading (CreatedAt sess) e) [] l.
Proof.
  intros Hp Hq Hse Hlu HK m streams Hn Hc HJ.
  replace n with (S (S (17 * m + (n - 2 - 17 * m))))%nat by lia.
  replace c with (nonce_bytes * m + (c - nonce_bytes * m))%nat by lia.
  apply wp_file; [apply (HJ 1%positive), prefix_nil|apply and_stable; [done|apply reading_stable]|by intros e [_ ?]|done|].
  intros loc. apply wp_logf; [apply (HJ loc), prefix_nil|apply known_stable|].
  assert (m = length (streams loc)) as -> by (unfold streams; by rewrite !length_map).
  rewrite <-!(sum_list_with_const _ (streams loc)).
  change (Prog_bind _ _ _ (Done (Ok tt))) with (accept_streams_p (A := A) loc (p_addr p) (map (fun x => stream_of x.2) (p_reqs p))).
  rewrite accept_streams_eq.
  refine (wp_forks J (streams loc) (fun _ => 16%nat) (fun _ => nonce_bytes) _ _ _ _ _ _ (HJ loc) _ _ [] (streams loc) eq_refl);
    [|by repeat eexists].
  intros g (st & -> & (x & -> & Hx)%list_elem_of_fmap)%list_elem_of_fmap. exists p, x, sess. by split_and!.
Qed.

Lemma quic_conn_ok p n c K : p_quic p = true ->
  p ∈ all_peers pls -> (peer_steps p <= n)%nat -> (peer_cost p <= c)%nat -> stable env_rely K ->
  let g := GoConn (arrival p) in
  WP (promised g false) (start_go s ctx fuel ticks g).2 (goroutine_post promised g) n c K []
    (start_go s ctx fuel ticks g).1.
Proof.
  intros Hq Hp Hn Hc HK g. destruct (peer_in p Hp) as [Hok Hkok].
  set (streams := fun loc => map (GoStream loc (p_addr p)) (map (fun x => stream_of x.2) (p_reqs p))).
  assert (forall fin h l, (fin = false /\ h = [] /\ e_out l = empty_writer) \/ (exists sess, session_of p sess /\
    e_out l = mkWriter (hello sess) None /\ exists loc, h `prefix_of` map inr (streams loc) /\
      (fin = true -> h = map inr (streams loc))) -> promised g fin h l) as Hprom.
  { intros fin h l H. exists p. split_and!; try done. destruct H as [H|(sess & Hse & Ho & loc & H)]; [by left|right].
    exists sess. split; [done|]. rewrite Hq. split; [done|]. exists loc. unfold streams in H. by rewrite !map_map in H. }
  assert (start_go s ctx fuel ticks g = (ends_of (stream_of (client_hello (p_key p) (p_pub p))),
    handleConnection_p s (p_addr p) (map (fun x => stream_of x.2) (p_reqs p)))) as -> by (unfold g, arrival; by rewrite Hq).
  unfold peer_steps, peer_cost in *. rewrite Hq in *. destruct n as [|[|n]]; [lia..|]. cbn [fst snd].
  unfold handleConnection_p. eapply wp_negotiate with (rest := []);
    [exact Hok|apply Hprom; by left|done|cbn; by rewrite app_nil_r|done|].
  intros sess Hse Hlu.
  assert (forall i b h loc, h `prefix_of` map inr (streams loc) ->
    promised g false h (mkEnds i (mkWriter (hello sess) None) b)) as HJ.
  { intros i b h loc Hh. apply Hprom. right. exists sess. split; [done|]. split; [done|]. by exists loc. }
  apply wp_close; [apply (HJ _ _ _ 1%positive), prefix_nil|apply and_stable; [done|apply reading_stable]|].
  eapply wp_mono; [done| |apply (quic_session_wp _ p sess n c K); try done; [lia|]].
  - intros r n1 c1 K1 h l (-> & -> & loc & ->). split; [done|]. apply Hprom. right. exists sess.
    split; [done|]. split; [done|]. by exists loc.
  - intros loc h. apply HJ.
Qed.

(** A collector. *)
Lemma gc_ticks_wp ts : Forall (fun visits => forall e, ranges (sstore e) (visits e)) ts -> forall n c K l,
  (length ts < n)%nat -> stable env_rely K ->
  WP (promised GoGC false) (gc_ticks_p ts) (goroutine_post promised GoGC) n c K [] l.
Proof.
  induction 1 as [|visits ts Hv _ IH]; intros n c K l Hn HK; [done|].
  cbn [length] in Hn. destruct n as [|n]; [lia|]. cbn [gc_ticks_p].
  apply wp_env; [done|]. intros e Hok HKe. pose proof Hok as (_ & Hst & _).
  destruct (GC_spec (sheap e) (sstore e) (visits e) Hst (Hv e)) as (st & Hgc' & Hst' & Hcfg & _).
  destruct (store_env e st Hok Hst' Hcfg) as [H1 H2].
  eexists _, _, K. split; [unfold gc_tick; by rewrite Hgc'|]. split_and!; try done; [by eapply HK|].
  apply IH; [lia|done].
Qed.

Lemma gc_ok : OK GoGC.
Proof.
  intros n c K Hn HK. cbn [start_go fst snd can_start] in *. unfold gcLoop_p, NewTicker.
  rewrite (proj2 (Z.leb_gt _ _)) by done. by apply gc_ticks_wp.
Qed.

(** A listener, from its accept loop on. *)
Lemma accept_loop_wp ln outcomes : forall pre n c K l,
  (forall o, o ∈ outcomes -> forall p, o = inl p -> p ∈ all_peers pls) -> stable env_rely K ->
  let starts_as : History := map inr (starts ln) in
  let conns := omap (fun o : Peer + error => match o with inl p => Some (GoConn (arrival p)) | inr _ => None end) outcomes in
  starts_as = pre ++ map inr conns ->
  (sum_list_with outcome_steps outcomes <= n)%nat -> (sum_list_with outcome_cost outcomes <= c)%nat ->
  WP (promised (GoServe ln) false)
    (accept_loop_p s (l_warning ln) (map (fun o => match o with inl p => inl (arrival p) | inr x => inr x end) outcomes))
    (goroutine_post promised (GoServe ln)) n c K pre l.
Proof.
  induction outcomes as [|[p|x] outcomes IH]; intros pre n c K l Hin HK starts_as conns Heq Hn Hc;
    cbn [map accept_loop_p].
  - subst conns. cbn in Heq. rewrite app_nil_r in Heq. split; [done|]. subst pre. done.
  - cbn [sum_list_with outcome_steps outcome_cost] in Hn, Hc. subst conns. cbn [omap list_omap] in Heq.
    split; [split; [fold starts_as; rewrite Heq; by eexists|done]|].
    exists (peer_steps p), (peer_cost p), (n - 1 - peer_steps p)%nat, (c - peer_cost p)%nat.
    split; [lia|]. split; [lia|]. split; [exists p; split_and!; try done; by eapply Hin; [left|]|].
    apply IH; try done; [intros o Ho; apply Hin; by right|by rewrite <-app_assoc|lia|lia].
  - cbn [sum_list_with outcome_steps outcome_cost] in Hn, Hc. subst conns. cbn [omap list_omap] in Heq.
    destruct n as [|n]; [lia|]. apply wp_logf; [split; [fold starts_as; rewrite Heq; by eexists|done]|done|].
    apply IH; try done; [intros o Ho; apply Hin; by right|lia].
Qed.

Lemma serve_ok ln : OK (GoServe ln).
Proof.
  intros n c K (pl & Hpl & -> & Hn & Hc) HK. cbn [start_go fst snd]. unfold listener_steps, listener_cost in *.
  assert (starts (listener_of pl) = GoGC :: omap (fun o : Peer + error =>
    match o with inl p => Some (GoConn (arrival p)) | inr _ => None end) (pl_outcomes pl)) as Hst.
  { unfold starts. f_equal. cbn [listener_of l_outcomes]. clear.
    induction (pl_outcomes pl) as [|[p|x] os IH]; [done| |]; cbn; rewrite ?IH; done. }
  destruct n as [|n]; [lia|]. unfold serve_p. apply wp_logf; [split; [apply prefix_nil|done]|done|].
  split; [split; [apply prefix_nil|done]|].
  exists (gc_steps ticks), 0%nat, (n - 1 - gc_steps ticks)%nat, c. split; [lia|]. split; [lia|]. split; [cbn; lia|].
  apply (accept_loop_wp (listener_of pl) (pl_outcomes pl)); [|done|by rewrite Hst|lia|lia].
  intros o Ho p ->. apply list_elem_of_In, in_concat. exists (peers_of pl). split.
  - apply in_map, list_elem_of_In. done.
  - apply list_elem_of_In. unfold peers_of. apply list_elem_of_omap. by exists (inl p).
Qed.

Lemma main_wp sub : forall pre n c K l,
  (forall pl, pl ∈ sub -> pl ∈ pls) -> stable env_rely K ->
  let all : History := map (fun ln => inr (GoServe ln)) (map listener_of pls) in
  all = pre ++ map (fun ln => inr (GoServe ln)) (map listener_of sub) ->
  (main_steps ticks sub <= n)%nat -> (main_cost sub <= c)%nat ->
  WP (promised (GoMain (map listener_of pls)) false) (main_p (map listener_of sub))
    (goroutine_post promised (GoMain (map listener_of pls))) n c K pre l.
Proof.
  induction sub as [|pl sub IH]; intros pre n c K l Hin HK all Heq Hn Hc; cbn [map main_p].
  - cbn in Heq. rewrite app_nil_r in Heq. split; [done|]. subst pre. done.
  - unfold main_steps, main_cost in *. cbn [sum_list_with] in Hn, Hc. cbn [map] in Heq.
    split; [split; [fold all; rewrite Heq; by eexists|done]|].
    exists (listener_steps ticks pl), (listener_cost pl), (n - 1 - listener_steps ticks pl)%nat, (c - listener_cost pl)%nat.
    split; [lia|]. split; [lia|]. split; [exists pl; split_and!; try done; apply Hin; by left|].
    apply IH; [intros x Hx; apply Hin; by right|done|by rewrite <-app_assoc|lia|lia].
Qed.

Lemma goroutines_ok g : OK g.
Proof.
  destruct g as [ls|ln| |a|l addr st].
  - intros n c K (-> & Hn & Hc) HK. by apply (main_wp pls).
  - apply serve_ok.
  - apply gc_ok.
  - intros n c K (p & Hp & -> & Hn & Hc) HK. destruct (p_quic p) eqn:Hq; [by apply quic_conn_ok|by apply tcp_conn_ok].
  - apply stream_ok.
Qed.

(** ** Every schedule *)

(** The server before it starts, in the state [e]. *)
Definition boot e : System (Env A) Ends (Conn A) Go :=
  mkSystem e [spawn (start_go s ctx fuel ticks) (GoMain (map listener_of pls))] None.
Definition run (sched : list nat) e : System (Env A) Ends (Conn A) Go :=
  sys_steps join env ends (start_go s ctx fuel ticks) sched (boot e).

(** The state the trace's answers start from is [a]: they are a sequential run,
    which ends in the application's state; and what is promised holds of each
    goroutine, and of what it did. *)
Definition linearized (a : A) (y : System (Env A) Ends (Conn A) Go) (tr : list (nat * (SrvRequest * Response + Go))) : Prop :=
  crashed y = None /\ legal (answered table) tr a (app (shared y)) /\
  map th_go (threads y) = GoMain (map listener_of pls) :: started tr /\
  forall i th, threads y !! i = Some th -> promised (th_go th) (negb (runnable th)) (proj i tr) (th_local th).

Lemma run_linearized e : env_ok e -> (main_cost pls <= entropy_left e)%nat ->
  forall sched sched', exists tr tr',
    linearized (app e) (run sched e) tr /\ linearized (app e) (run (sched ++ sched') e) (tr ++ tr') /\
    (busy join env ends (start_go s ctx fuel ticks) sched (boot e) = true -> (length sched <= main_steps ticks pls)%nat).
Proof.
  intros Hok Hc sched sched'.
  exact (adequacy join env ends (start_go s ctx fuel ticks) app (answered table) env_ok env_rely entropy_left can_start
    promised (GoMain (map listener_of pls)) (main_steps ticks pls) (main_cost pls) (fun _ => True) e goroutines_ok
    ltac:(done) true_stable I Hok Hc sched sched').
Qed.

(** ** At rest *)
Section rest.
Context (y : System (Env A) Ends (Conn A) Go) (tr : list (nat * (SrvRequest * Response + Go))) (a0 : A).
Context (Hlin : linearized a0 y tr) (Hrest : forall i, can_step y i = false).

Lemma thread_rests i th : threads y !! i = Some th -> promised (th_go th) true (proj i tr) (th_local th).
Proof.
  intros Hi. destruct Hlin as (Hcr & _ & _ & Hpr). specialize (Hpr i th Hi). specialize (Hrest i).
  unfold can_step in Hrest. rewrite Hcr, Hi in Hrest. by rewrite Hrest in Hpr.
Qed.

(** What was started has a goroutine. *)
Lemma started_thread i g : inr g ∈ proj i tr -> exists j th, threads y !! j = Some th /\ th_go th = g.
Proof.
  intros Hg. assert (g ∈ map th_go (threads y)) as Hin.
  { destruct Hlin as (_ & _ & -> & _). right. apply list_elem_of_omap in Hg as ([j ev] & Hin & Hev).
    destruct (decide (j = i)); [|done]. injection Hev as ->. apply list_elem_of_omap. by exists (j, inr g). }
  apply list_elem_of_lookup in Hin as [j Hj]. rewrite list_lookup_fmap in Hj.
  destruct (threads y !! j) as [th|] eqn:E; [|done]. injection Hj as <-. by exists j, th.
Qed.

Lemma connection_thread p : p ∈ all_peers pls -> exists i th, threads y !! i = Some th /\ th_go th = GoConn (arrival p).
Proof.
  intros (qs & Hp & Hqs)%list_elem_of_In%in_concat. apply in_map_iff in Hp as (pl & <- & Hpl%list_elem_of_In).
  destruct (Hlin) as (_ & _ & Hgo & _).
  destruct (threads y) as [|th0 ths] eqn:Hths; [done|]. injection Hgo as Hgo0 _. rewrite <-Hths in *.
  assert (threads y !! 0%nat = Some th0) as H0 by by rewrite Hths.
  pose proof (thread_rests 0 th0 H0) as Hmain. rewrite Hgo0 in Hmain. destruct Hmain as [_ Hmain]. specialize (Hmain eq_refl).
  destruct (started_thread 0 (GoServe (listener_of pl))) as (j & th & Hj & Hgoj).
  { rewrite Hmain. apply (list_elem_of_fmap_2 (fun ln => inr (GoServe ln))). by apply (list_elem_of_fmap_2 listener_of). }
  pose proof (thread_rests j th Hj) as Hserve. rewrite Hgoj in Hserve. destruct Hserve as [_ Hserve]. specialize (Hserve eq_refl).
  apply (started_thread j). rewrite Hserve. apply (list_elem_of_fmap_2 inr). right.
  apply list_elem_of_In, list_elem_of_omap in Hqs as ([q|x] & Hq & [= ->]).
  apply list_elem_of_omap. exists (inl (arrival p)). split; [|done].
  cbn [listener_of l_outcomes]. apply list_elem_of_fmap. by exists (inl p).
Qed.

(** What a client has got when all is done. *)
Definition served p : Prop :=
  if p_quic p then
    forall x, x ∈ p_reqs p -> exists i th loc sess r buf,
      threads y !! i = Some th /\ th_go th = GoStream loc (p_addr p) (stream_of x.2) /\ session_of p sess /\
      proj i tr = [inl (srv_req sess x.1.1, r)] /\ carries (Some (p_sk p)) x.1.2 r buf /\
      e_out (th_local th) = mkWriter buf None /\ e_closed (th_local th) = true
  else exists i th sess outs bufs,
      threads y !! i = Some th /\ th_go th = GoConn (arrival p) /\ session_of p sess /\
      map fst outs = map fst (p_reqs p) /\ proj i tr = evs sess outs /\
      Forall2 (fun (o : (Request * Z) * Response) buf => carries (Some (p_sk p)) o.1.2 o.2 buf) outs bufs /\
      e_out (th_local th) = mkWriter (hello sess ++ concat bufs) None.

Lemma addr_arrival p p' : arrival p = arrival p' -> p_addr p = p_addr p'.
Proof. unfold arrival. destruct (p_quic p), (p_quic p'); congruence. Qed.

Lemma peer_of_addr (p p' : Peer) : NoDup (map p_addr (all_peers pls)) ->
  p ∈ all_peers pls -> p' ∈ all_peers pls -> p_addr p = p_addr p' -> p = p'.
Proof.
  intros Hnd [i Hi]%list_elem_of_lookup [j Hj]%list_elem_of_lookup Ha.
  assert (i = j) as ->; [|congruence].
  apply (NoDup_lookup _ i j (p_addr p) Hnd); rewrite list_lookup_fmap; [by rewrite Hi|by rewrite Hj, Ha].
Qed.

Lemma requests_inj key rq rq' fr : requests key rq fr -> requests key rq' fr -> rq = rq'.
Proof. intros (_ & _ & H) (_ & _ & H'). specialize (H [] io_EOF). specialize (H' [] io_EOF). congruence. Qed.

Lemma stream_served p x loc j th : NoDup (map p_addr (all_peers pls)) ->
  p ∈ all_peers pls -> x ∈ p_reqs p -> threads y !! j = Some th -> th_go th = GoStream loc (p_addr p) (stream_of x.2) ->
  exists sess r buf, session_of p sess /\ proj j tr = [inl (srv_req sess x.1.1, r)] /\
    carries (Some (p_sk p)) x.1.2 r buf /\ e_out (th_local th) = mkWriter buf None /\ e_closed (th_local th) = true.
Proof.
  intros Hnd Hp Hx Hj Hgo. pose proof (thread_rests j th Hj) as Hst. rewrite Hgo in Hst.
  destruct Hst as (p2 & x2 & sess & Hp2 & Ha2 & Hx2 & Heq & Hse & (ps & rest & Hr & Hps & _ & Hfin) & Hcl).
  destruct (Hfin eq_refl) as [-> (bufs & Hb & Hout)]. specialize (Hcl eq_refl). clear Hfin.
  assert (p2 = p) as -> by (by apply peer_of_addr).
  destruct (peer_in p Hp) as [(_ & _ & _ & Hreqs & _) _]. rewrite list.Forall_forall in Hreqs.
  assert (x2.1 = x.1) as Hx1.
  { injection Heq as Heq. apply (requests_inj (Some (p_sk p)) _ _ x.2); [|by apply Hreqs].
    rewrite Heq. by apply Hreqs. }
  rewrite Hx1, app_nil_r in Hr. destruct ps as [|[rq r] [|]]; try done. injection Hr as ->.
  inversion Hb as [|? buf ? bufs' Hbuf Hnil]; subst. inversion Hnil; subst. cbn in Hbuf, Hout.
  rewrite app_nil_r in Hout. exists sess, r, buf. by split_and!.
Qed.

Lemma all_served : NoDup (map p_addr (all_peers pls)) -> Forall served (all_peers pls).
Proof.
  intros Hnd. apply list.Forall_forall. intros p Hp.
  destruct (connection_thread p Hp) as (i & th & Hi & Hgo).
  pose proof (thread_rests i th Hi) as Hpr. rewrite Hgo in Hpr.
  destruct Hpr as (p' & Hp' & Ha & [(? & _)|(sess & Hse & Hpr)]); [done|].
  assert (p' = p) as -> by (apply peer_of_addr; try done; by rewrite (addr_arrival p p')).
  unfold served. destruct (p_quic p).
  - destruct Hpr as (_ & loc & _ & Hh). specialize (Hh eq_refl). intros x Hx.
    destruct (started_thread i (GoStream loc (p_addr p) (stream_of x.2))) as (j & th' & Hj & Hgo').
    { rewrite Hh. apply list_elem_of_fmap. by exists x. }
    destruct (stream_served p x loc j th') as (sess' & r & buf & H); try done.
    exists j, th', loc, sess', r, buf. split_and!; try done; apply H.
  - destruct Hpr as (ps & rest & Hr & Hps & _ & Hfin). destruct (Hfin eq_refl) as [-> (bufs & Hb & Hout)].
    rewrite app_nil_r in Hr. exists i, th, sess, ps, bufs. by split_and!.
Qed.
End rest.

(** C2. The answers a server gives are a sequential run of its handlers, under
    every schedule.  Let TCP and QUIC clients connect to the listeners of one
    server, each with requests of its own, and let the goroutines of the
    listeners, of the collectors, of the connections and of the streams be
    interleaved in any way: after any schedule the process has not crashed, the
    requests answered so far, taken in the order in which their handlers ran,
    are a sequential run of the handlers from the first state to the present
    one; each TCP connection has answered the first so many of its requests in
    their order and sent all of these answers, or all but the last, and each
    QUIC stream its own; and a schedule that goes on only adds to that order,
    so what was answered comes before everything that is read later. *)
Theorem server_linearizable e sched sched' :
  env_ok e -> (main_cost pls <= entropy_left e)%nat ->
  exists tr tr', linearized (app e) (run sched e) tr /\ linearized (app e) (run (sched ++ sched') e) (tr ++ tr').
Proof.
  intros Hok Hc. destruct (run_linearized e Hok Hc sched sched') as (tr & tr' & H1 & H2 & _). by exists tr, tr'.
Qed.

(** C3. A server comes to rest, and then everybody is served.  However the
    goroutines are scheduled, they make no more than [main_steps] steps
    altogether; and when none of them can make another one, every client has
    all its answers: over TCP one after the other on its connection, over QUIC
    each on its stream, which is closed, and with the responses of the
    sequential run. *)
Theorem server_serves_all e sched :
  env_ok e -> (main_cost pls <= entropy_left e)%nat -> NoDup (map p_addr (all_peers pls)) ->
  (busy join env ends (start_go s ctx fuel ticks) sched (boot e) = true -> (length sched <= main_steps ticks pls)%nat) /\
  ((forall i, can_step (run sched e) i = false) ->
   exists tr, legal (answered table) tr (app e) (app (shared (run sched e))) /\
     Forall (served (run sched e) tr) (all_peers pls)).
Proof.
  intros Hok Hc Hnd. destruct (run_linearized e Hok Hc sched []) as (tr & tr' & H1 & _ & Hb). split; [exact Hb|].
  intros Hrest. exists tr. split; [apply H1|]. by apply (all_served _ _ (app e)).
Qed.
End system.

(** ** A TCP client and a QUIC client on the demo server *)

Definition sys_key (priv : list byte) : list byte :=
  match SharedSecret (serverPriv demo_server) (x25519_Public priv) with
  | Ok shared => match DeriveSessionKey shared (client_secret None) with Ok k => k | _ => [] end
  | _ => []
  end.
Definition sys_frame (k : list byte) (op seq : Z) : (Request * Z) * list byte :=
  ((mkRequest op None, seq), frame_bytes seq (envelope (Some k) sample_nonce (request_bytes (mkRequest op None)))).
Definition sys_peer (addr : string) (quic : bool) (priv : list byte) (ops : list Z) : Peer :=
  mkPeer addr quic None (x25519_Public priv) (sys_key priv) (imap (fun i op => sys_frame (sys_key priv) op (Z.of_nat i)) ops).
Definition sys_listeners : list PeerListener :=
  [mkPeerListener "listening on %s (ALPN: %s)" "accept: %v" ":4433" [inl (sys_peer "b" true demo_priv_b [1])];
   mkPeerListener "listening TCP on %s (ALPN: %s)" "accept tcp: %v" ":8443"
     [inr io_EOF; inl (sys_peer "a" false demo_priv_b [1; 9])]].
Definition sys_run : list nat -> System (Env Z) Ends (Conn Z) Go :=
  fun sched => run demo_server [] [fun e => map (fun x => (x, 0)) (map_to_list (sessions (sstore e)))] sys_listeners 5 sched talk_env.
(** Eight goroutines, in turn. *)
Definition sys_sched : list nat := concat (replicate 45 (seq 0 8)).

Lemma sys_ticks : Forall (fun visits : Env Z -> list (Z * positive * Time) => forall e, ranges (sstore e) (visits e))
  [fun e => map (fun x => (x, 0)) (map_to_list (sessions (sstore e)))].
Proof. repeat constructor. intros e. unfold ranges. rewrite map_map. cbn [fst]. by rewrite map_id. Qed.

Lemma sys_env_ok : env_ok talk_env.
Proof.
  split; [|split].
  - intros i j. split; vm_compute; discriminate.
  - apply hello_ids_ok.
  - intros l x. cbn [talk_env demo_env sheap]. rewrite lookup_singleton_Some. intros [<- <-]. by exists 0%nat, 0%nat.
Qed.

Lemma sys_peer_ok addr quic ops : Forall (fun op => in_uint 16 op = true) ops -> (length ops < 5)%nat ->
  peer_ok demo_server 5 (sys_peer addr quic demo_priv_b ops).
Proof.
  intros Hops Hlen. split; [exact I|]. split; [apply x25519_Public_len|]. destruct demo_session_key as (shared & k & Hsh & Hk & Hkok).
  assert (sys_key demo_priv_b = k) as Hsk by (unfold sys_key; by rewrite Hsh, Hk).
  split; [exists shared; cbn [p_pub p_key p_sk sys_peer]; by rewrite Hsk|].
  cbn [p_reqs sys_peer p_sk]. rewrite Hsk, length_imap. split; [|done].
  apply list.Forall_lookup. intros i x (op & Hop & ->)%list_lookup_imap_Some.
  assert (in_uint 16 op = true) as Hop' by (exact (proj1 (list.Forall_lookup (fun op => in_uint 16 op = true) ops) Hops i op Hop)).
  assert (i < 5)%nat as Hi by (apply lookup_lt_Some in Hop; lia).
  apply (frame_requests (Some k) (Z.of_nat i) (mkRequest op None)); [|done|done|].
  - split; [by split|vm_compute; discriminate].
  - do 5 (destruct i as [|i]; [done|]). lia.
Qed.

Lemma sys_peers_ok : Forall (peer_ok demo_server 5) (all_peers sys_listeners).
Proof.
  change (Forall (peer_ok demo_server 5) [sys_peer "b" true demo_priv_b [1]; sys_peer "a" false demo_priv_b [1; 9]]).
  apply list.Forall_cons. split; [|apply list.Forall_singleton]; apply sys_peer_ok; cbn; by repeat constructor.
Qed.

(** After 135 turns one request has been answered, and goroutines still run. *)
Lemma server_linearizable_witness :
  exists tr, legal (G := Go) (answered demo_table) tr 0 (app (shared (sys_run (take 135 sys_sched)))) /\
    app (shared (sys_run (take 135 sys_sched))) = 1.
Proof.
  destruct (server_linearizable demo_server demo_table demo_serves (fun k => demo_fits_any _) []
    [fun e => map (fun x => (x, 0)) (map_to_list (sessions (sstore e)))] sys_ticks ltac:(vm_compute; reflexivity)
    sys_listeners 5 sys_peers_ok talk_env (take 135 sys_sched) [] sys_env_ok ltac:(apply Nat.leb_le; vm_compute; reflexivity))
    as (tr & _ & (_ & H & _) & _).
  exists tr. split; [exact H|]. vm_compute. reflexivity.
Defined.

Lemma server_serves_all_witness :
  exists tr, legal (answered demo_table) tr 0 (app (shared (sys_run sys_sched))) /\
    Forall (served demo_server (sys_run sys_sched) tr) (all_peers sys_listeners).
Proof.
  destruct (server_serves_all demo_server demo_table demo_serves (fun k => demo_fits_any _) []
    [fun e => map (fun x => (x, 0)) (map_to_list (sessions (sstore e)))] sys_ticks ltac:(vm_compute; reflexivity)
    sys_listeners 5 sys_peers_ok talk_env sys_sched sys_env_ok ltac:(apply Nat.leb_le; vm_compute; reflexivity)
    ltac:(vm_compute; repeat constructor; set_solver)) as [_ H].
  apply H. intros i. destruct (decide (i < 8)%nat) as [Hi|Hi].
  - do 8 (destruct i as [|i]; [vm_compute; reflexivity|]). lia.
  - unfold can_step. destruct (crashed _); [done|]. rewrite lookup_ge_None_2; [done|].
    transitivity 8%nat; [apply Nat.leb_le; vm_compute; reflexivity|lia].
Defined.
