(* ===== verification/Alias.v ===== *)
(** * Maps behind pointers: what is shared

    [src/tlv/types.go] again, with the pointers and slices that [Tlv] hides.  A
    [*Map] points to a slice header; the entries are in an array that several
    headers can share, since [MapValue] copies the header into the [Value] and
    the accessor [Map] of a value copies it out again.  [Set] on an existing key
    writes to the array; on a new key it appends, in place while the array has
    room.  The theorems say when the operations are those of [Tlv] (when the
    array is not shared), that the copies of [Clone] and [GetMap] are
    independent of the original at the top level, and what sharing does below
    it. *)

From S2P Require Import Prelude GoRt Varint Tlv.

(** A slice of entries: its array (none for a nil slice) and its length. *)
Record Slice := mkSlice { s_arr : option positive; s_len : nat }.

(** A value made by the package's constructors: a map, by its header, an array
    (the package never writes to one), or something without maps in it. *)
Inductive HValue := HMap (sl : Slice) | HArray (vs : list HValue) | HLeaf (v : Value).
Record HEntry := mkHEntry { h_key : string; h_val : HValue }.

(** The arrays, of their full capacity, and the [Map] objects. *)
Record Mem := mkMem { arrays : gmap positive (list HEntry); maps : gmap positive Slice }.

Definition zero_entry : HEntry := mkHEntry "" (HLeaf zeroValue).

Section operations.
(** How much the runtime's [append] allocates for a slice that grows to the
    length [n]: at least [n]. *)
Context (growth : nat -> nat).

Definition load_map (p : positive) : M Mem Slice := fun m => (m, deref (maps m !! p)).
Definition store_map (p : positive) (sl : Slice) : M Mem unit := fun m =>
  (mkMem (arrays m) (<[p := sl]> (maps m)), Ok tt).
(** A new [Map] object. *)
Definition new_map (sl : Slice) : M Mem positive := fun m =>
  let p := fresh (dom (maps m)) in (mkMem (arrays m) (<[p := sl]> (maps m)), Ok p).

(** The entries of a slice. *)
Definition entries_of (m : Mem) (sl : Slice) : list HEntry :=
  match s_arr sl with
  | Some l => take (s_len sl) (default [] (arrays m !! l))
  | None => []
  end.
Definition get_entries (sl : Slice) : M Mem (list HEntry) := fun m => (m, Ok (entries_of m sl)).

(** [sl[i] = e], for an [i] in range. *)
Definition write_entry (sl : Slice) (i : nat) (e : HEntry) : M Mem unit := fun m =>
  match s_arr sl with
  | Some l => (mkMem (alter <[i := e]> l (arrays m)) (maps m), Ok tt)
  | None => (m, Panic (POther "index out of range"))
  end.

(** A new array with these entries, and room for more. *)
Definition new_array (es : list HEntry) (cap : nat) : M Mem Slice := fun m =>
  let l := fresh (dom (arrays m)) in
  (mkMem (<[l := es ++ replicate (cap - length es) zero_entry]> (arrays m)) (maps m), Ok (mkSlice (Some l) (length es))).

(** [append(sl, es...)]: in place if there is room. *)
Definition append_entries (sl : Slice) (es : list HEntry) : M Mem Slice := fun m =>
  match es with
  | [] => (m, Ok sl)
  | _ =>
      let old := entries_of m sl in
      let n := length (old ++ es) in
      match s_arr sl with
      | Some l =>
          let arr := default [] (arrays m !! l) in
          if (n <=? length arr)%nat
          then (mkMem (<[l := old ++ es ++ drop n arr]> (arrays m)) (maps m), Ok (mkSlice (Some l) n))
          else new_array (old ++ es) (growth n) m
      | None => new_array es (growth n) m
      end
  end.

(** ** The operations *)

Definition h_NewMap : M Mem positive := new_map (mkSlice None 0).

(** The index of the first entry with the key. *)
Definition find_key (key : string) (es : list HEntry) : option nat :=
  fst <$> list_find (fun e => h_key e = key) es.

Definition h_Set (p : positive) (key : string) (v : HValue) : M Mem unit :=
  sl ← load_map p;
  es ← get_entries sl;
  match find_key key es with
  | Some i => write_entry sl i (mkHEntry key v)
  | None => sl ← append_entries sl [mkHEntry key v]; store_map p sl
  end.

Definition h_Get (p : positive) (key : string) : M Mem (HValue * bool) :=
  sl ← load_map p;
  es ← get_entries sl;
  match list_find (fun e => h_key e = key) es with
  | Some (_, e) => mret (h_val e, true)
  | None => mret (HLeaf zeroValue, false)
  end.

(** [MapValue(m)] copies the header; a nil pointer panics. *)
Definition h_MapValue (p : positive) : M Mem HValue := sl ← load_map p; mret (HMap sl).

(** A copy of the entries, [append([]MapEntry(nil), sl...)], behind a new
    pointer. *)
Definition copy_map (sl : Slice) : M Mem positive :=
  es ← get_entries sl;
  sl' ← append_entries (mkSlice None 0) es;
  new_map sl'.

(** [x := v.Map()], with [x] a variable of its own. *)
Definition h_Map (v : HValue) : M Mem positive :=
  match v with
  | HMap sl => copy_map sl
  | _ => lift (Panic PTypeAssertion)
  end.

Definition h_GetMap (p : positive) (key : string) : M Mem (option positive * bool) :=
  '(v, ok) ← h_Get p key;
  if negb ok then mret (None, false) else
  match v with
  | HMap original => q ← copy_map original; mret (Some q, true)
  | _ => mret (None, false)
  end.

(** [Clone]: [make([]MapEntry, len(m.entries))], then the entries. *)
Definition h_Clone (p : positive) : M Mem positive :=
  sl ← load_map p;
  es ← get_entries sl;
  sl' ← new_array es (length es);
  new_map sl'.
End operations.

(** ** What a value in memory stands for *)

(** Reading a value, as the encoder does: to the bottom, so [n] bounds how
    deep it may go. *)
Fixpoint h_value (n : nat) (m : Mem) (v : HValue) : option Value :=
  match n with
  | O => None
  | S n =>
      match v with
      | HLeaf v => Some v
      | HArray vs => tlv_Array <$> mapM (h_value n m) vs
      | HMap sl => MapValue <$> mapM (fun e => mkEntry (h_key e) <$> h_value n m (h_val e)) (entries_of m sl)
      end
  end.

(** The slice is within its array. *)
Definition valid (m : Mem) (sl : Slice) : Prop :=
  match s_arr sl with
  | Some l => exists arr, arrays m !! l = Some arr /\ (s_len sl <= length arr)%nat
  | None => s_len sl = 0%nat
  end.
Definition own (sl : Slice) : gset positive := match s_arr sl with Some l => {[l]} | None => ∅ end.

(** In the memory [m], [v] stands for a value of [Tlv]; all arrays it is made
    of are in [F]. *)
Inductive denotes (m : Mem) (F : gset positive) : HValue -> Value -> Prop :=
| den_leaf v : Typ v <> TypeMap -> denotes m F (HLeaf v) v
| den_array vs ws : denotes_all m F vs ws -> denotes m F (HArray vs) (tlv_Array ws)
| den_map sl ws :
    valid m sl -> own sl ⊆ F -> denotes_map m F (entries_of m sl) ws -> denotes m F (HMap sl) (MapValue ws)
with denotes_all (m : Mem) (F : gset positive) : list HValue -> list Value -> Prop :=
| den_nil : denotes_all m F [] []
| den_cons v w vs ws : denotes m F v w -> denotes_all m F vs ws -> denotes_all m F (v :: vs) (w :: ws)
with denotes_map (m : Mem) (F : gset positive) : list HEntry -> Map -> Prop :=
| den_empty : denotes_map m F [] []
| den_entry k v w es ws :
    denotes m F v w -> denotes_map m F es ws -> denotes_map m F (mkHEntry k v :: es) (mkEntry k w :: ws).

Scheme denotes_ind' := Minimality for denotes Sort Prop
  with denotes_all_ind' := Minimality for denotes_all Sort Prop
  with denotes_map_ind' := Minimality for denotes_map Sort Prop.
Combined Scheme denotes_mutind from denotes_ind', denotes_all_ind', denotes_map_ind'.

(** Only the arrays in [F] matter, and there they have to be. *)
Definition agree (F : gset positive) (m m' : Mem) : Prop := forall l, l ∈ F -> arrays m' !! l = arrays m !! l.

Lemma entries_agree F m m' sl : agree F m m' -> own sl ⊆ F -> entries_of m' sl = entries_of m sl /\ (valid m sl -> valid m' sl).
Proof.
  intros H Ho. unfold entries_of, valid, own in *. destruct (s_arr sl) as [l|]; [|done].
  rewrite H by set_solver. done.
Qed.

Lemma denotes_frame F F' m m' : agree F m m' -> F ⊆ F' ->
  (forall v w, denotes m F v w -> denotes m' F' v w) /\
  (forall vs ws, denotes_all m F vs ws -> denotes_all m' F' vs ws) /\
  (forall es ws, denotes_map m F es ws -> denotes_map m' F' es ws).
Proof.
  intros Hag HF. apply denotes_mutind; try by constructor.
  intros sl ws Hv Ho _ IH. destruct (entries_agree F m m' sl Hag Ho) as [He Hv'].
  constructor; [by apply Hv'|set_solver|by rewrite He].
Qed.

Lemma mapM_ext_Some {X Y} (f g : X -> option Y) xs ys :
  (forall x y, f x = Some y -> g x = Some y) -> mapM f xs = Some ys -> mapM g xs = Some ys.
Proof. intros H. rewrite !mapM_Some. intros Hf. eapply list.Forall2_impl; [exact Hf|]. intros. by apply H. Qed.

Lemma h_value_more n m v w : h_value n m v = Some w -> forall n', (n <= n')%nat -> h_value n' m v = Some w.
Proof.
  revert v w. induction n as [|n IH]; intros v w H n' Hn; [done|]. destruct n' as [|n']; [lia|].
  destruct v as [sl|vs|v]; cbn [h_value] in *; [| |done].
  - apply fmap_Some in H as (ws & Hws & ->). erewrite mapM_ext_Some; [done| |exact Hws].
    intros e y (x & Hx & ->)%fmap_Some. by rewrite (IH _ _ Hx) by lia.
  - apply fmap_Some in H as (ws & Hws & ->). erewrite mapM_ext_Some; [done| |exact Hws].
    intros e y Hy. by apply IH; [|lia].
Qed.

(** What a value stands for is what reading it gives. *)
Lemma denotes_value m F :
  (forall v w, denotes m F v w -> exists n, h_value n m v = Some w) /\
  (forall vs ws, denotes_all m F vs ws -> exists n, mapM (h_value n m) vs = Some ws) /\
  (forall es ws, denotes_map m F es ws ->
     exists n, mapM (fun e => mkEntry (h_key e) <$> h_value n m (h_val e)) es = Some ws).
Proof.
  apply denotes_mutind.
  - intros v _. by exists 1%nat.
  - intros vs ws _ [n Hn]. exists (S n). cbn [h_value]. by rewrite Hn.
  - intros sl ws _ _ _ [n Hn]. exists (S n). cbn [h_value]. by rewrite Hn.
  - by exists 0%nat.
  - intros v w vs ws _ [n1 H1] _ [n2 H2]. exists (n1 + n2)%nat. cbn [mapM].
    rewrite (h_value_more _ _ _ _ H1) by lia. erewrite mapM_ext_Some; [done| |exact H2].
    intros x y Hx. by apply (h_value_more n2); [|lia].
  - by exists 0%nat.
  - intros k v w es ws _ [n1 H1] _ [n2 H2]. exists (n1 + n2)%nat. cbn [mapM h_key h_val].
    rewrite (h_value_more _ _ _ _ H1) by lia. erewrite mapM_ext_Some; [done| |exact H2].
    intros x y (z & Hz & ->)%fmap_Some. by rewrite (h_value_more n2 _ _ _ Hz) by lia.
Qed.

(** ** A map that does not share its array *)

(** [p] points to a header of an array that none of its values is made of; it
    stands for [ws]. *)
Definition owns (m : Mem) (p : positive) (sl : Slice) (ws : Map) (F : gset positive) : Prop :=
  maps m !! p = Some sl /\ valid m sl /\ denotes_map m F (entries_of m sl) ws /\ own sl ## F /\ F ⊆ dom (arrays m).

(** What an operation on [p] with the slice [sl] leaves alone. *)
Definition untouched (sl : Slice) (p : positive) (m m' : Mem) : Prop :=
  (forall l, l ∉ own sl -> l ∈ dom (arrays m) -> arrays m' !! l = arrays m !! l) /\
  (forall q, q <> p -> maps m' !! q = maps m !! q).

Lemma set_existing m F key v w es ws : denotes_map m F es ws -> denotes m F v w -> forall i,
  find_key key es = Some i -> denotes_map m F (<[i := mkHEntry key v]> es) (Map_Set ws key w).
Proof.
  intros Hes Hv. induction Hes as [|k v0 w0 es ws Hv0 Hes IH]; intros i; [done|].
  unfold find_key. cbn [list_find h_key Map_Set Key]. destruct (decide (k = key)) as [->|Hne].
  - intros [= <-]. rewrite bool_decide_true by done. by constructor.
  - rewrite bool_decide_false by done. destruct (list_find _ es) as [[j e]|] eqn:E; [|done]. intros [= <-].
    change (<[S j := mkHEntry key v]> (mkHEntry k v0 :: es)) with (mkHEntry k v0 :: <[j := mkHEntry key v]> es).
    constructor; [done|]. apply IH. unfold find_key. by rewrite E.
Qed.

Lemma set_new m F key v w es ws : denotes_map m F es ws -> denotes m F v w ->
  find_key key es = None -> denotes_map m F (es ++ [mkHEntry key v]) (Map_Set ws key w).
Proof.
  intros Hes Hv. induction Hes as [|k v0 w0 es ws Hv0 Hes IH]; [repeat constructor; done|].
  unfold find_key. cbn [list_find h_key Map_Set Key]. destruct (decide (k = key)) as [->|Hne]; [done|].
  rewrite bool_decide_false by done. destruct (list_find _ es) as [[j e]|] eqn:E; [done|]. intros _.
  change ((mkHEntry k v0 :: es) ++ [mkHEntry key v]) with (mkHEntry k v0 :: (es ++ [mkHEntry key v])).
  constructor; [done|]. apply IH. unfold find_key. by rewrite E.
Qed.

(** The entries after [Set]. *)
Definition set_entry (key : string) (v : HValue) (es : list HEntry) : list HEntry :=
  match find_key key es with
  | Some i => <[i := mkHEntry key v]> es
  | None => es ++ [mkHEntry key v]
  end.

Lemma set_entry_denotes m F key v w es ws :
  denotes_map m F es ws -> denotes m F v w -> denotes_map m F (set_entry key v es) (Map_Set ws key w).
Proof.
  intros Hes Hv. unfold set_entry. destruct (find_key key es) as [i|] eqn:E; [by apply set_existing|by apply set_new].
Qed.

Lemma find_key_lt key es i : find_key key es = Some i -> (i < length es)%nat.
Proof.
  unfold find_key. destruct (list_find _ es) as [[j e]|] eqn:E; [|done]. intros [= <-].
  apply list_find_Some in E as (H & _). by eapply lookup_lt_Some.
Qed.

Lemma length_entries m sl : valid m sl -> length (entries_of m sl) = s_len sl.
Proof.
  unfold valid, entries_of. destruct (s_arr sl) as [l|]; [|done]. intros (arr & -> & H). cbn. rewrite length_take. lia.
Qed.

Lemma new_array_spec es cap m :
  exists l m', new_array es cap m = (m', Ok (mkSlice (Some l) (length es))) /\ l ∉ dom (arrays m) /\
    maps m' = maps m /\ (forall x, x ∈ dom (arrays m) -> arrays m' !! x = arrays m !! x) /\
    dom (arrays m) ⊆ dom (arrays m') /\
    valid m' (mkSlice (Some l) (length es)) /\ entries_of m' (mkSlice (Some l) (length es)) = es.
Proof.
  set (l := fresh (dom (arrays m))). assert (l ∉ dom (arrays m)) as Hl by exact (is_fresh (dom (arrays m))).
  exists l. eexists. split; [reflexivity|]. fold l. clearbody l. split; [done|]. split; [done|]. split; [|split; [|split]].
  - intros x Hx. cbn [arrays]. rewrite lookup_insert_ne; [done|]. by intros ->.
  - cbn [arrays]. set_solver.
  - unfold valid. cbn [s_arr s_len arrays]. rewrite lookup_insert_eq. eexists. split; [done|]. rewrite length_app. lia.
  - unfold entries_of. cbn [s_arr s_len arrays]. rewrite lookup_insert_eq. cbn [from_option id]. by rewrite take_app_length.
Qed.

Section owned.
Context (growth : nat -> nat) (Hgrow : forall n, (n <= growth n)%nat).

(** Appending one entry. *)
Lemma append_spec sl e m :
  valid m sl -> exists sl' m', append_entries growth sl [e] m = (m', Ok sl') /\ maps m' = maps m /\
    valid m' sl' /\ entries_of m' sl' = entries_of m sl ++ [e] /\
    valid m' sl /\ entries_of m' sl = entries_of m sl /\
    (own sl' = own sl \/ exists l, own sl' = {[l]} /\ l ∉ dom (arrays m)) /\
    dom (arrays m) ⊆ dom (arrays m') /\
    (forall l, l ∉ own sl -> l ∈ dom (arrays m) -> arrays m' !! l = arrays m !! l).
Proof.
  intros Hv. pose proof (length_entries m sl Hv) as Hlen. unfold append_entries.
  destruct (s_arr sl) as [l|] eqn:Hl.
  - unfold valid in Hv. rewrite Hl in Hv. destruct Hv as (arr & Harr & Hle). rewrite Harr. cbn [from_option id].
    set (n := length (entries_of m sl ++ [e])). assert (n = S (s_len sl)) as Hn by (unfold n; rewrite length_app, Hlen; cbn; lia).
    destruct (Nat.leb_spec n (length arr)) as [Hroom|Hfull].
    + eexists (mkSlice (Some l) n), _. split; [reflexivity|]. split; [done|].
      assert (length (entries_of m sl ++ e :: drop n arr) = length arr) as Hlen'.
      { rewrite length_app, Hlen. cbn [length]. rewrite length_drop. lia. }
      split; [|split; [|split; [|split]]].
      * unfold valid. cbn [s_arr s_len arrays]. rewrite lookup_insert_eq. eexists. split; [done|].
        change ([e] ++ drop n arr) with (e :: drop n arr). lia.
      * unfold entries_of at 1. cbn [s_arr s_len arrays]. rewrite lookup_insert_eq. cbn [from_option id].
        rewrite app_assoc. unfold n. by rewrite take_app_length.
      * unfold valid. rewrite Hl. cbn [arrays]. rewrite lookup_insert_eq. eexists. split; [done|].
        change ([e] ++ drop n arr) with (e :: drop n arr). lia.
      * unfold entries_of at 1. rewrite Hl. cbn [arrays]. rewrite lookup_insert_eq. cbn [from_option id].
        rewrite <-Hlen. by rewrite take_app_length.
      * split; [|split].
        -- left. unfold own. cbn [s_arr]. by rewrite Hl.
        -- cbn [arrays]. set_solver.
        -- intros x Hx _. cbn [arrays]. rewrite lookup_insert_ne; [done|]. intros ->. apply Hx. unfold own. rewrite Hl. set_solver.
    + destruct (new_array_spec (entries_of m sl ++ [e]) (growth n) m) as (x & m' & -> & Hx & H1 & H2 & H3 & H4 & H5).
      eexists _, _. split; [reflexivity|].
      assert (agree (own sl) m m') as Hag by (intros y Hy; apply H2; unfold own in Hy; rewrite Hl in Hy; apply elem_of_dom; set_solver).
      destruct (entries_agree _ m m' sl Hag) as [He Hval]; [done|].
      split_and!; try done; [apply Hval; unfold valid; rewrite Hl; by exists arr|right; by exists x|]. intros y _ Hy. by apply H2.
  - assert (entries_of m sl = []) as -> by (unfold entries_of; by rewrite Hl).
    destruct (new_array_spec [e] (growth (length ([] ++ [e]))) m) as (x & m' & -> & Hx & H1 & H2 & H3 & H4 & H5).
    eexists _, _. split; [reflexivity|]. split_and!; try done; [unfold valid in *; by rewrite Hl in *|unfold entries_of; by rewrite Hl|right; by exists x|].
    intros y _ Hy. by apply H2.
Qed.

(** What [Set] does to the memory.  Through the slice that the map had before,
    an existing key reads as set, and a new one is not there. *)
Lemma Set_spec m p sl key v : maps m !! p = Some sl -> valid m sl ->
  exists m' sl', h_Set growth p key v m = (m', Ok tt) /\ maps m' !! p = Some sl' /\ valid m' sl' /\
    entries_of m' sl' = set_entry key v (entries_of m sl) /\
    match find_key key (entries_of m sl) with
    | Some _ => sl' = sl
    | None => valid m' sl /\ entries_of m' sl = entries_of m sl
    end /\
    untouched sl p m m' /\ dom (arrays m) ⊆ dom (arrays m') /\
    (own sl' = own sl \/ exists l, own sl' = {[l]} /\ l ∉ dom (arrays m)).
Proof.
  intros Hp Hv. unfold h_Set, load_map, get_entries, set_entry. unfold mbind at 1, M_bind at 1.
  rewrite Hp. cbn [deref]. unfold mbind at 1, M_bind at 1. destruct (find_key key (entries_of m sl)) as [i|] eqn:Hfind.
  - pose proof (find_key_lt _ _ _ Hfind) as Hi. rewrite length_entries in Hi by done.
    unfold write_entry, untouched, own, valid in *. destruct (s_arr sl) as [l|] eqn:Hl; [|lia].
    destruct Hv as (arr & Harr & Hle). eexists _, sl. split; [reflexivity|]. cbn [arrays maps]. rewrite Hl.
    split_and!; try done; [| | |by rewrite dom_alter|by left].
    + exists (<[i:=mkHEntry key v]> arr). rewrite lookup_alter_eq, Harr. split; [done|]. by rewrite list.length_insert.
    + unfold entries_of. rewrite Hl. cbn [arrays]. rewrite lookup_alter_eq, Harr. cbn [fmap option_fmap option_map from_option id].
      by rewrite take_insert_lt by lia.
    + intros x Hx _. rewrite lookup_alter_ne; [done|]. set_solver.
  - destruct (append_spec sl (mkHEntry key v) m Hv) as (sl' & m1 & Happ & Hm & Hv' & He & Hvs & Hes & Hown & Hdom' & Hfr).
    unfold mbind, M_bind. rewrite Happ. unfold store_map. eexists _, sl'. split; [reflexivity|].
    split; [cbn [maps]; apply lookup_insert_eq|]. do 3 (split; [done|]). split; [split; [exact Hfr|]|done].
    intros q Hq. cbn [maps]. rewrite lookup_insert_ne by done. by rewrite Hm.
Qed.

(** [Set] is [Tlv]'s. *)
Lemma Set_owned m p sl ws F key v w :
  owns m p sl ws F -> denotes m F v w ->
  exists m' sl', h_Set growth p key v m = (m', Ok tt) /\ owns m' p sl' (Map_Set ws key w) F /\ untouched sl p m m' /\
    dom (arrays m) ⊆ dom (arrays m') /\
    (own sl' = own sl \/ exists l, own sl' = {[l]} /\ l ∉ dom (arrays m)) /\
    entries_of m' sl' = set_entry key v (entries_of m sl).
Proof.
  intros (Hp & Hv & Hes & Hdis & Hdom) Hval.
  destruct (Set_spec m p sl key v Hp Hv) as (m' & sl' & Hr & Hp' & Hv' & He & _ & Hu & Hd & Hown).
  exists m', sl'. split_and!; try done; try apply Hu.
  split_and!; try done; [| |set_solver].
  - rewrite He. apply set_entry_denotes; eapply (denotes_frame F F m m'); try done; intros l Hl; apply Hu; set_solver.
  - destruct Hown as [->|(l & -> & Hl)]; [done|set_solver].
Qed.
End owned.

(** ** Copies *)
Lemma own_dom m sl : valid m sl -> own sl ⊆ dom (arrays m).
Proof.
  unfold valid, own. destruct (s_arr sl) as [l|]; [|set_solver]. intros (arr & H & _).
  apply singleton_subseteq_l. by eapply elem_of_dom_2.
Qed.

Lemma owns_untouched m m' a b sla slb ws F :
  owns m b slb ws F -> untouched sla a m m' -> b <> a -> own sla ## own slb -> own sla ## F ->
  dom (arrays m) ⊆ dom (arrays m') -> owns m' b slb ws F.
Proof.
  intros (Hb & Hv & Hes & Hdis & Hdom) [Harr Hmaps] Hne Hd1 Hd2 Hdom'. pose proof (own_dom m slb Hv) as Hod.
  assert (agree (own slb ∪ F) m m') as Hag by (intros l Hl; apply Harr; set_solver).
  destruct (entries_agree _ m m' slb Hag) as [He Hv']; [set_solver|].
  split_and!; [by rewrite Hmaps|by apply Hv'| |done|set_solver].
  rewrite He. eapply (denotes_frame F F m m'); [|done|exact Hes]. intros l Hl. apply Hag. set_solver.
Qed.

(** A copy of entries in an array of its own, behind a new pointer. *)
Lemma copied m p sl ws F es ws' m1 slq :
  owns m p sl ws F -> denotes_map m F es ws' ->
  maps m1 = maps m -> valid m1 slq -> entries_of m1 slq = es -> own slq ## dom (arrays m) ->
  (forall x, x ∈ dom (arrays m) -> arrays m1 !! x = arrays m !! x) -> dom (arrays m) ⊆ dom (arrays m1) ->
  let q := fresh (dom (maps m1)) in let m2 := mkMem (arrays m1) (<[q := slq]> (maps m1)) in
  q <> p /\ owns m2 p sl ws F /\ owns m2 q slq ws' F /\ own sl ## own slq.
Proof.
  intros Hown Hes Hm Hvq Heq Hd Harr Hdom q m2. pose proof Hown as (Hp & Hv & _ & _ & HF).
  assert (q ∉ dom (maps m1)) as Hq by exact (is_fresh (dom (maps m1))).
  assert (q <> p) as Hne by (intros ->; apply Hq; rewrite Hm; by eapply elem_of_dom_2).
  assert (own sl ## own slq) as Hsl by (pose proof (own_dom m sl Hv); set_solver).
  split; [done|]. split; [|split; [|done]].
  - apply (owns_untouched m m2 q p (mkSlice None 0)); [done| |done|set_solver|set_solver|done].
    split; [intros l _ Hl; by apply Harr|]. intros x Hx. cbn [m2 maps]. by rewrite lookup_insert_ne, Hm.
  - split_and!; [cbn [m2 maps]; apply lookup_insert_eq|done| |set_solver|cbn [m2 arrays]; set_solver].
    change (entries_of m2 slq) with (entries_of m1 slq). rewrite Heq.
    eapply (denotes_frame F F m m2); [|done|exact Hes]. intros l Hl. cbn [m2 arrays]. apply Harr. set_solver.
Qed.

Lemma Clone_spec m p sl ws F : owns m p sl ws F -> exists m1 q slq, h_Clone p m = (m1, Ok q) /\
  (q ∉ dom (maps m) /\ untouched (mkSlice None 0) q m m1 /\ dom (arrays m) ⊆ dom (arrays m1) /\
   entries_of m1 slq = entries_of m sl) /\
  q <> p /\ owns m1 p sl ws F /\ owns m1 q slq ws F /\ own sl ## own slq.
Proof.
  intros Hown. pose proof Hown as (Hp & Hv & Hes & _). unfold h_Clone, load_map, get_entries.
  unfold mbind at 1, M_bind at 1. rewrite Hp. cbn [deref]. unfold mbind at 1, M_bind at 1. unfold mbind at 1, M_bind at 1.
  destruct (new_array_spec (entries_of m sl) (length (entries_of m sl)) m) as (l & m1 & -> & Hl & H1 & H2 & H3 & H4 & H5).
  unfold new_map. eexists _, _, (mkSlice (Some l) (length (entries_of m sl))). split; [reflexivity|]. split; [split_and!|].
  - rewrite <-H1. exact (is_fresh (dom (maps m1))).
  - split; [intros x _ Hx; by apply H2|]. intros x Hx. cbn [maps]. by rewrite lookup_insert_ne, H1 by done.
  - done.
  - exact H5.
  - apply (copied m p sl ws F (entries_of m sl)); try done. unfold own. cbn [s_arr]. set_solver.
Qed.

Lemma Get_denotes m F es ws key : denotes_map m F es ws ->
  match list_find (fun e => h_key e = key) es with
  | Some (_, e) => exists w, Map_Get ws key = (w, true) /\ denotes m F (h_val e) w
  | None => Map_Get ws key = (zeroValue, false)
  end.
Proof.
  induction 1 as [|k v w es ws Hv Hes IH]; [done|]. cbn [list_find h_key Map_Get Key Val].
  destruct (decide (k = key)) as [->|Hne]; [rewrite bool_decide_true by done; by exists w|].
  rewrite bool_decide_false by done. by destruct (list_find _ es) as [[j e]|].
Qed.

Lemma copy_map_spec growth m p sl ws F v ws' : owns m p sl ws F -> denotes m F v (MapValue ws') ->
  exists sl0 m1 q slq, v = HMap sl0 /\ copy_map growth sl0 m = (m1, Ok q) /\
    q <> p /\ owns m1 p sl ws F /\ owns m1 q slq ws' F /\ own sl ## own slq.
Proof.
  intros Hown He. inversion He as [v' Hleaf Hle|vs ws0 Hvs|sl0 ws0 Hv0 Ho0 Hes0 Hle]; subst; [done|].
  exists sl0. unfold copy_map, get_entries, append_entries. unfold mbind at 1, M_bind at 1.
  destruct (entries_of m sl0) as [|e0 es0] eqn:Hee.
  - unfold new_map, mbind, M_bind. do 3 eexists. split; [done|]. split; [reflexivity|].
    by apply (copied m p sl ws F [] ws' m (mkSlice None 0)).
  - cbn [s_arr]. unfold mbind at 1, M_bind at 1.
    destruct (new_array_spec (e0 :: es0) (growth (length (entries_of m (mkSlice None 0) ++ e0 :: es0))) m)
      as (l & m1 & -> & Hl & H1 & H2 & H3 & H4 & H5).
    unfold new_map. do 3 eexists. split; [done|]. split; [reflexivity|].
    apply (copied m p sl ws F (e0 :: es0)); try done. unfold own. cbn [s_arr]. set_solver.
Qed.

Lemma Map_spec growth m p sl ws F v ws' : owns m p sl ws F -> denotes m F v (MapValue ws') ->
  exists m1 q slq, h_Map growth v m = (m1, Ok q) /\
    q <> p /\ owns m1 p sl ws F /\ owns m1 q slq ws' F /\ own sl ## own slq.
Proof. intros Hown He. by destruct (copy_map_spec growth m p sl ws F v ws' Hown He) as (sl0 & m1 & q & slq & -> & H); exists m1, q, slq. Qed.

Lemma GetMap_spec growth m p sl ws F key ws' : owns m p sl ws F -> Map_Get ws key = (MapValue ws', true) ->
  exists m1 q slq, h_GetMap growth p key m = (m1, Ok (Some q, true)) /\
    q <> p /\ owns m1 p sl ws F /\ owns m1 q slq ws' F /\ own sl ## own slq.
Proof.
  intros Hown Hget. pose proof Hown as (Hp & Hv & Hes & _).
  pose proof (Get_denotes m F (entries_of m sl) ws key Hes) as Hd.
  unfold h_GetMap, h_Get, load_map, get_entries. unfold mbind at 1, M_bind at 1. unfold mbind at 1, M_bind at 1.
  rewrite Hp. cbn [deref]. unfold mbind at 1, M_bind at 1.
  destruct (list_find _ (entries_of m sl)) as [[i e]|]; [|congruence].
  destruct Hd as (w & Hw & He). rewrite Hget in Hw. injection Hw as <-. unfold mret at 1, M_ret at 1. cbn [negb].
  destruct (copy_map_spec growth m p sl ws F _ ws' Hown He) as (sl0 & m1 & q & slq & -> & Hc & H).
  exists m1, q, slq. unfold mbind, M_bind. by rewrite Hc.
Qed.

(** ** Copies are independent *)

(** A call of [Set] on the first or on the second of two maps. *)
Record SetCall := mkSetCall { on_first : bool; set_key : string; set_hval : HValue; set_val : Value }.

Fixpoint h_Sets (growth : nat -> nat) (p q : positive) (cs : list SetCall) : M Mem unit :=
  match cs with
  | [] => mret tt
  | c :: cs => _ ← h_Set growth (if on_first c then p else q) (set_key c) (set_hval c); h_Sets growth p q cs
  end.
(** The calls on one of the maps, as [Tlv] has them. *)
Definition sets (first : bool) (ws : Map) (cs : list SetCall) : Map :=
  fold_left (fun ws c => if eqb (on_first c) first then Map_Set ws (set_key c) (set_val c) else ws) cs ws.

(** Reading [p] to the bottom gives [ws]. *)
Definition reads (m : Mem) (p : positive) (ws : Map) : Prop :=
  exists sl n, maps m !! p = Some sl /\ h_value n m (HMap sl) = Some (MapValue ws).

(** Whatever is set on the two, in any order, each of them has its own calls. *)
Definition independent (growth : nat -> nat) (m : Mem) (F : gset positive) (p q : positive) (ws1 ws2 : Map) : Prop :=
  forall cs, Forall (fun c => denotes m F (set_hval c) (set_val c)) cs ->
  exists m', h_Sets growth p q cs m = (m', Ok tt) /\
    reads m' p (sets true ws1 cs) /\ reads m' q (sets false ws2 cs).

Lemma owns_reads m p sl ws F : owns m p sl ws F -> reads m p ws.
Proof.
  intros (Hp & _ & Hes & _). destruct (denotes_value m F) as (_ & _ & H). destruct (H _ _ Hes) as [n Hn].
  exists sl, (S n). split; [done|]. cbn [h_value]. by rewrite Hn.
Qed.

Section independence.
Context (growth : nat -> nat) (Hgrow : forall n, (n <= growth n)%nat).

(** One [Set] on [a], next to [b]. *)
Lemma Set_beside m F a b sla slb wsa wsb key v w :
  a <> b -> owns m a sla wsa F -> owns m b slb wsb F -> own sla ## own slb -> denotes m F v w ->
  exists m' sla', h_Set growth a key v m = (m', Ok tt) /\ owns m' a sla' (Map_Set wsa key w) F /\
    owns m' b slb wsb F /\ own sla' ## own slb /\ (forall v w, denotes m F v w -> denotes m' F v w).
Proof.
  intros Hne Ha Hb Hd Hv. destruct (Set_owned growth Hgrow m a sla wsa F key v w Ha Hv) as (m' & sla' & Hr & Ha' & Hu & Hdom & Hown & _).
  pose proof Ha as (_ & _ & _ & HaF & HF). pose proof Hb as (_ & Hvb & _). pose proof (own_dom m slb Hvb) as Hbd.
  exists m', sla'. split; [done|]. split; [done|]. split; [|split].
  - by apply (owns_untouched m m' a b sla slb wsb F).
  - destruct Hown as [->|(l & -> & Hl)]; [done|set_solver].
  - apply (denotes_frame F F m m'); [|done]. intros l Hl. apply Hu; set_solver.
Qed.

Lemma Sets_independent cs : forall m F p q sl slq ws1 ws2,
  p <> q -> owns m p sl ws1 F -> owns m q slq ws2 F -> own sl ## own slq ->
  Forall (fun c => denotes m F (set_hval c) (set_val c)) cs ->
  exists m', h_Sets growth p q cs m = (m', Ok tt) /\ reads m' p (sets true ws1 cs) /\ reads m' q (sets false ws2 cs).
Proof.
  induction cs as [|c cs IH]; intros m F p q sl slq ws1 ws2 Hne Hp Hq Hd Hcs.
  - exists m. split; [done|]. split; by eapply owns_reads.
  - apply list.Forall_cons in Hcs as [Hc Hcs]. cbn [h_Sets sets fold_left]. unfold mbind, M_bind.
    destruct (on_first c); cbn [eqb].
    + destruct (Set_beside m F p q sl slq ws1 ws2 (set_key c) _ _ Hne Hp Hq Hd Hc) as (m' & sl' & -> & Hp' & Hq' & Hd' & Hfr).
      apply (IH m' F p q sl' slq); try done. eapply list.Forall_impl; [exact Hcs|]. intros x. apply Hfr.
    + destruct (Set_beside m F q p slq sl ws2 ws1 (set_key c) _ _ (not_eq_sym Hne) Hq Hp ltac:(set_solver) Hc)
        as (m' & sl' & -> & Hq' & Hp' & Hd' & Hfr).
      apply (IH m' F p q sl sl'); try done.
      eapply list.Forall_impl; [exact Hcs|]. intros x. apply Hfr.
Qed.

End independence.

Lemma NewMap_owns m F : F ⊆ dom (arrays m) ->
  exists m' p, h_NewMap m = (m', Ok p) /\ owns m' p (mkSlice None 0) [] F /\
    p ∉ dom (maps m) /\ untouched (mkSlice None 0) p m m' /\ arrays m' = arrays m.
Proof.
  intros HF. do 2 eexists. split; [reflexivity|]. split.
  - split_and!; [apply lookup_insert_eq|done|constructor|set_solver|done].
  - split; [exact (is_fresh (dom (maps m)))|]. split; [|done]. split; [done|]. intros q Hq. cbn [maps]. by rewrite lookup_insert_ne.
Qed.

(** A map beside a new one. *)
Lemma owns_beside_new m m' a b slb ws F :
  owns m b slb ws F -> a ∉ dom (maps m) -> untouched (mkSlice None 0) a m m' -> dom (arrays m) ⊆ dom (arrays m') ->
  b <> a /\ owns m' b slb ws F.
Proof.
  intros Hown Ha Hu Hd. assert (b <> a) as Hne.
  { intros ->. apply Ha. destruct Hown as (Hb & _). by eapply elem_of_dom_2. }
  split; [done|]. apply (owns_untouched m m' a b (mkSlice None 0)); try done; unfold own; cbn [s_arr]; set_solver.
Qed.

(** C33. Copies of maps are independent at the top level.  Take a [*Map] whose
    array of entries no value inside it shares.  [Clone], [GetMap] (on a key
    that has a map) and [Value.Map] (on a value that is a map) succeed and give
    another pointer; whatever values are set afterwards through either pointer,
    any number of times and in any order, on new keys or on existing ones, and
    however [append] grows its arrays, no call fails, and each of the two maps
    reads as the map of [Tlv] after its own calls only. *)
Theorem map_copies growth m p sl ws F :
  (forall n, (n <= growth n)%nat) -> owns m p sl ws F ->
  (exists m' q, h_Clone p m = (m', Ok q) /\ independent growth m' F p q ws ws) /\
  (forall key ws', Map_Get ws key = (MapValue ws', true) ->
     exists m' q, h_GetMap growth p key m = (m', Ok (Some q, true)) /\ independent growth m' F p q ws ws') /\
  (forall v ws', denotes m F v (MapValue ws') ->
     exists m' q, h_Map growth v m = (m', Ok q) /\ independent growth m' F p q ws ws').
Proof.
  intros Hgrow Hown. split_and!; [|intros key ws' Hget|intros v ws' Hv].
  - destruct (Clone_spec m p sl ws F Hown) as (m' & q & slq & -> & _ & Hne & Hp & Hq & Hd).
    exists m', q. split; [done|]. intros cs Hcs. by eapply Sets_independent.
  - destruct (GetMap_spec growth m p sl ws F key ws' Hown Hget) as (m' & q & slq & -> & Hne & Hp & Hq & Hd).
    exists m', q. split; [done|]. intros cs Hcs. by eapply Sets_independent.
  - destruct (Map_spec growth m p sl ws F v ws' Hown Hv) as (m' & q & slq & -> & Hne & Hp & Hq & Hd).
    exists m', q. split; [done|]. intros cs Hcs. by eapply Sets_independent.
Qed.

(** A memory with a map [{"in": {"k": 1}}] built by the package. *)
Definition nested_map (growth : nat -> nat) : M Mem positive :=
  inner ← h_NewMap;
  _ ← h_Set growth inner "k" (HLeaf (tlv_Uint8 1));
  outer ← h_NewMap;
  v ← h_MapValue inner;
  _ ← h_Set growth outer "in" v;
  mret outer.
Definition empty_mem : Mem := mkMem ∅ ∅.
Definition exact_growth (n : nat) : nat := n.

Lemma nested_map_owned : exists m p sl, nested_map exact_growth empty_mem = (m, Ok p) /\
  owns m p sl [mkEntry "in" (MapValue [mkEntry "k" (tlv_Uint8 1)])] {[1%positive]}.
Proof.
  do 3 eexists. split; [vm_compute; reflexivity|]. split; [reflexivity|].
  split_and!; [eexists; split; [reflexivity|]; cbn; lia| |unfold own; cbn [s_arr]; set_solver|].
  - constructor; [|constructor]. apply den_map; [eexists; split; [reflexivity|]; cbn; lia|set_solver|].
    constructor; [by constructor|constructor].
  - apply singleton_subseteq_l. by apply elem_of_dom_2 with (x := [mkHEntry "k" (HLeaf (tlv_Uint8 1))]).
Qed.

Lemma map_copies_witness : exists m p m1 q m2, nested_map exact_growth empty_mem = (m, Ok p) /\
  h_GetMap exact_growth p "in" m = (m1, Ok (Some q, true)) /\
  h_Sets exact_growth p q [mkSetCall false "k" (HLeaf tlv_Null) tlv_Null] m1 = (m2, Ok tt) /\
  reads m2 p [mkEntry "in" (MapValue [mkEntry "k" (tlv_Uint8 1)])] /\ reads m2 q [mkEntry "k" tlv_Null].
Proof.
  destruct nested_map_owned as (m & p & sl & Hm & Hown).
  destruct (map_copies exact_growth m p sl _ _ (fun n => le_n n) Hown) as (_ & H & _).
  destruct (H "in"%string [mkEntry "k" (tlv_Uint8 1)] eq_refl) as (m1 & q & H1 & Hi).
  destruct (Hi [mkSetCall false "k" (HLeaf tlv_Null) tlv_Null]) as (m2 & H2 & Hp & Hq).
  { constructor; [|constructor]. by constructor. }
  exists m, p, m1, q, m2. by split_and!.
Defined.

(** ** What is shared *)

(** [outer := NewMap().Set(k, MapValue(inner)); c := outer.Clone();
    inner.Set(key, v)], and [c]. *)
Definition clone_then_Set (growth : nat -> nat) (inner : positive) (k key : string) (v : HValue) : M Mem positive :=
  outer ← h_NewMap;
  x ← h_MapValue inner;
  _ ← h_Set growth outer k x;
  c ← h_Clone outer;
  _ ← h_Set growth inner key v;
  mret c.
(** [m.Set(key, MapValue(m))]. *)
Definition Set_self (growth : nat -> nat) (p : positive) (key : string) : M Mem unit :=
  x ← h_MapValue p; h_Set growth p key x.

Lemma MapValue_eq m p sl : maps m !! p = Some sl -> h_MapValue p m = (m, Ok (HMap sl)).
Proof. intros Hp. unfold h_MapValue, load_map, mbind, M_bind. by rewrite Hp. Qed.

Lemma find_key_Get m F es ws key : denotes_map m F es ws -> (Map_Get ws key).2 = bool_decide (is_Some (find_key key es)).
Proof.
  intros H. apply (Get_denotes m F es ws key) in H. unfold find_key.
  destruct (list_find _ es) as [[i e]|]; [destruct H as (w & -> & _)|rewrite H]; symmetry.
  - by apply bool_decide_eq_true; eexists.
  - by apply bool_decide_eq_false; intros [].
Qed.

(** A value made by [MapValue] after a [Set] on the map it was made of. *)
Lemma shared_header growth m p sl ws F key v w : (forall n, (n <= growth n)%nat) ->
  owns m p sl ws F -> denotes m F v w ->
  exists m' sl', h_Set growth p key v m = (m', Ok tt) /\ untouched sl p m m' /\
    denotes m' (F ∪ own sl) (HMap sl) (MapValue (if (Map_Get ws key).2 then Map_Set ws key w else ws)) /\
    owns m' p sl' (Map_Set ws key w) F.
Proof.
  intros Hg Hown Hval. pose proof Hown as (Hp & Hv & Hes & Hdis & Hdom).
  destruct (Set_owned growth Hg m p sl ws F key v w Hown Hval) as (m' & sl' & Hr & Hown' & Hu & _).
  exists m', sl'. do 2 (split; [done|]). split; [|done].
  destruct (Set_spec growth Hg m p sl key v Hp Hv) as (m1 & sl1 & Hr1 & Hp1 & Hv1 & He1 & Hold & _).
  rewrite Hr in Hr1. injection Hr1 as <-. rewrite (find_key_Get m F (entries_of m sl)) by done.
  destruct (find_key key (entries_of m sl)) as [i|] eqn:Hf.
  - subst sl1. rewrite bool_decide_true by (by eexists). destruct Hown' as (Hp' & _ & Hes' & _).
    rewrite Hp1 in Hp'. injection Hp' as <-. constructor; [done|set_solver|].
    eapply (denotes_frame F _ m' m'); [done|set_solver|done].
  - rewrite bool_decide_false by (by intros []). destruct Hold as [Hvo Heo]. constructor; [done|set_solver|]. rewrite Heo.
    eapply (denotes_frame F _ m m'); [|set_solver|done]. intros l Hl. apply Hu; set_solver.
Qed.

Lemma denotes_reads m F p sl ws : maps m !! p = Some sl -> denotes m F (HMap sl) (MapValue ws) -> reads m p ws.
Proof. intros Hp H. apply denotes_value in H as [n Hn]. by exists sl, n. Qed.

(** A map one of whose entries is its own slice. *)
Lemma self_unreadable n m key sl i : entries_of m sl !! i = Some (mkHEntry key (HMap sl)) -> h_value n m (HMap sl) = None.
Proof.
  intros H. induction n as [|n IH]; [done|]. cbn [h_value].
  rewrite (proj2 (mapM_None _ _)); [done|]. apply list.Exists_exists. eexists. split; [by eapply list_elem_of_lookup_2|].
  cbn [h_key h_val]. by rewrite IH.
Qed.

Lemma Set_self_spec growth m p sl ws F key : (forall n, (n <= growth n)%nat) -> owns m p sl ws F ->
  exists m', Set_self growth p key m = (m', Ok tt) /\
    if (Map_Get ws key).2 then forall ws', ~ reads m' p ws' else reads m' p (Map_Set ws key (MapValue ws)).
Proof.
  intros Hg (Hp & Hv & Hes & Hdis & Hdom).
  destruct (Set_spec growth Hg m p sl key (HMap sl) Hp Hv) as (m' & sl' & Hr & Hp' & Hv' & He & Hold & Hu & _ & Hown).
  exists m'. unfold Set_self, mbind, M_bind. rewrite (MapValue_eq m p sl Hp). split; [done|].
  rewrite (find_key_Get m F (entries_of m sl)) by done. unfold set_entry in He.
  destruct (find_key key (entries_of m sl)) as [i|] eqn:Hf.
  - rewrite bool_decide_true by (by eexists). subst sl'. intros ws' (sl1 & n & Hsl & Hn). rewrite Hp' in Hsl. injection Hsl as <-.
    rewrite (self_unreadable n m' key sl i) in Hn; [done|]. rewrite He. apply list_lookup_insert_eq. by eapply find_key_lt.
  - rewrite bool_decide_false by (by intros []). destruct Hold as [Hvo Heo].
    assert (denotes_map m' (F ∪ own sl) (entries_of m sl) ws) as Hes'.
    { eapply (denotes_frame F _ m m'); [|set_solver|done]. intros l Hl. apply Hu; set_solver. }
    apply (denotes_reads m' (F ∪ own sl ∪ own sl') p sl'); [done|]. constructor; [done|set_solver|]. rewrite He.
    eapply (denotes_frame (F ∪ own sl) _ m' m'); [done|set_solver|].
    apply set_new; [done| |done]. constructor; [done|set_solver|]. by rewrite Heo.
Qed.

Lemma clone_then_Set_spec growth m p sl ws F k key v w : (forall n, (n <= growth n)%nat) ->
  owns m p sl ws F -> denotes m F v w ->
  exists m' c, clone_then_Set growth p k key v m = (m', Ok c) /\
    reads m' c [mkEntry k (MapValue (if (Map_Get ws key).2 then Map_Set ws key w else ws))].
Proof.
  intros Hg Hown Hval. pose proof Hown as (Hp & Hv & Hes & Hdis & Hdom). pose proof (own_dom m sl Hv) as Hod.
  destruct (NewMap_owns m (F ∪ own sl)) as (m1 & o & E1 & Ho1 & Ho & Hu1 & Ha1); [set_solver|].
  destruct (owns_beside_new m m1 o p sl ws F Hown Ho Hu1) as [Hpo Hp1]; [by rewrite Ha1|].
  assert (denotes m1 (F ∪ own sl) (HMap sl) (MapValue ws)) as Hx.
  { destruct Hp1 as (_ & Hv1 & Hes1 & _). constructor; [done|set_solver|].
    eapply (denotes_frame F _ m1 m1); [done|set_solver|done]. }
  destruct (Set_owned growth Hg m1 o _ _ _ k _ _ Ho1 Hx) as (m2 & slo & E2 & Ho2 & Hu2 & Hd2 & _ & He2).
  assert (owns m2 p sl ws F) as Hp2 by (apply (owns_untouched m1 m2 o p (mkSlice None 0)); try done; unfold own; cbn [s_arr]; set_solver).
  destruct (Clone_spec m2 o slo _ _ Ho2) as (m3 & c & slc & E3 & (Hc & Hu3 & Hd3 & He3) & _ & _ & Hc3 & _).
  destruct (owns_beside_new m2 m3 c p sl ws F Hp2 Hc Hu3 Hd3) as [Hpc Hp3].
  assert (denotes m3 F v w) as Hval3.
  { eapply (denotes_frame F F m m3); [|done|exact Hval]. intros l Hl%Hdom.
    rewrite (proj1 Hu3), (proj1 Hu2), Ha1; try done; try apply not_elem_of_empty; [by rewrite Ha1|]. apply Hd2. by rewrite Ha1. }
  destruct (shared_header growth m3 p sl ws F key v w Hg Hp3 Hval3) as (m4 & sl' & E4 & [Hu4 Hm4] & Hden & _).
  exists m4, c. split.
  - unfold clone_then_Set, mbind, M_bind. rewrite E1, (MapValue_eq m1 p sl) by apply Hp1. by rewrite E2, E3, E4.
  - destruct Hc3 as (Hmc & Hvc & _ & Hdc & _). pose proof (own_dom m3 slc Hvc) as Hoc.
    assert (agree (own slc) m3 m4) as Hag by (intros l Hl; apply Hu4; set_solver).
    destruct (entries_agree _ m3 m4 slc Hag) as [He4 Hv4]; [done|].
    apply (denotes_reads m4 (F ∪ own sl ∪ own slc) c slc); [by rewrite Hm4|].
    constructor; [by apply Hv4|set_solver|]. rewrite He4, He3, He2.
    change (entries_of m1 (mkSlice None 0)) with (@nil HEntry). constructor; [|constructor].
    eapply (denotes_frame (F ∪ own sl) _ m4 m4); [done|set_solver|exact Hden].
Qed.

(** C34. What [MapValue] shares.  [MapValue(m)] takes [m]'s slice, not its
    entries.  Let a map, whose array nothing inside it shares, be put into an
    outer map with [MapValue], let the outer map be cloned, and let then a key
    of the inner map be set: (1) a key that the inner map already had is set in
    the clone too, in spite of the documentation of [Clone] as a deep copy,
    while a new key is not.  (2) [m.Set(key, MapValue(m))] puts the map
    as it was under a new key, and for a key that the map already has it makes
    a map that contains itself: reading it to the bottom, as the encoder does,
    never ends. *)
Theorem map_sharing growth m p sl ws F key :
  (forall n, (n <= growth n)%nat) -> owns m p sl ws F ->
  (forall k v w, denotes m F v w ->
     exists m' c, clone_then_Set growth p k key v m = (m', Ok c) /\
       reads m' c [mkEntry k (MapValue (if (Map_Get ws key).2 then Map_Set ws key w else ws))]) /\
  (exists m', Set_self growth p key m = (m', Ok tt) /\
     if (Map_Get ws key).2 then forall ws', ~ reads m' p ws' else reads m' p (Map_Set ws key (MapValue ws))).
Proof.
  intros Hg Hown. split; [intros k v w Hv; by eapply clone_then_Set_spec|by eapply Set_self_spec].
Qed.

Lemma map_sharing_witness : exists m p m1 c m2, nested_map exact_growth empty_mem = (m, Ok p) /\
  clone_then_Set exact_growth p "outer" "in" (HLeaf tlv_Null) m = (m1, Ok c) /\
  reads m1 c [mkEntry "outer" (MapValue [mkEntry "in" tlv_Null])] /\
  Set_self exact_growth p "in" m = (m2, Ok tt) /\ forall ws, ~ reads m2 p ws.
Proof.
  destruct nested_map_owned as (m & p & sl & Hm & Hown).
  destruct (map_sharing exact_growth m p sl _ _ "in" (fun n => le_n n) Hown) as [H1 (m2 & E2 & H2)].
  destruct (H1 "outer"%string (HLeaf tlv_Null) tlv_Null) as (m1 & c & E1 & Hr); [by constructor|].
  exists m, p, m1, c, m2. by split_and!.
Defined.
