(* ===== verification/Examples.v ===== *)
(** * The chat and weather examples

    The handlers of [src/examples/chat/main.go] and
    [src/examples/weather/main.go].  The HTTP service behind the weather server is a parameter. *)

From S2P Require Import Prelude GoRt Varint Tlv Crypto Frame Session SessionFacts RateLimit Media Handler Server ServerFacts Pipeline Hub HubFacts Crud.

(** ** Chat: 0x0001 sends, 0x0002 subscribes *)

Definition chat_message (nick msg : string) (now : Time) : Map :=
  Map_Set (Map_Set (Map_Set NewMap "nick" (tlv_String nick)) "message" (tlv_String msg)) "time" (tlv_Timestamp now).

(** [order] is the order of [Publish]'s range. *)
Definition SendHandler (order : Hub -> string -> list positive) : HandlerFunc Hub := fun ctx r =>
  nick ← lift (payload_String r "nick");
  msg ← lift (payload_String r "message");
  if bool_decide (nick = "") || bool_decide (msg = "")
  then mret (Some (ErrorResponse StatusBadRequest "nick and message required")) else
  written ← Now;
  now ← Now;
  _ ← in_app (fun h => (Publish now "chat" (Some (chat_message nick msg written)) (order h "chat") h, Ok tt));
  mret (Some (NewResponse (Some (Map_Set NewMap "sent" (tlv_Bool true))))).

Definition chat_handlers `{C : CryptoOps} (order : Hub -> string -> list positive) (turns : list Turn)
  (s : Server Hub) : Server Hub :=
  HandleStreamFunc 2 (SubscribeHandler turns) (HandleFunc 1 (SendHandler order) s).

(** ** Weather: 0x0001 *)

Section weather.
Context {A HTTPRequest : Type}.
(** Building a request fails for some URLs; fetching gives a body or an error. *)
Context (http_NewRequest : string -> option HTTPRequest) (http_Do : HTTPRequest -> string + string).

Definition weather_url (city : string) : string := "https://wttr.in/" +:+ city +:+ "?format=%C+%t+%w+%h".

(** The error of [NewRequestWithContext] is dropped; its request is then nil. *)
Definition WeatherHandler : HandlerFunc A := fun ctx r =>
  city ← lift (payload_String r "city");
  if bool_decide (city = "") then mret (Some (ErrorResponse StatusBadRequest "city required")) else
  req ← lift (deref (http_NewRequest (weather_url city)));
  match http_Do req with
  | inr err => mret (Some (ErrorResponse StatusInternalError ("fetch failed: " +:+ err)))
  | inl body =>
      mret (Some (NewResponse (Some (Map_Set (Map_Set NewMap "city" (tlv_String city)) "weather" (tlv_String body)))))
  end.

(** A city that makes the URL invalid panics the handler. *)
Lemma WeatherHandler_bad_url ctx r e city :
  payload_String r "city" = Ok city -> city <> "" -> http_NewRequest (weather_url city) = None ->
  (WeatherHandler ctx r e).2 = Panic PNilDeref.
Proof.
  intros Hc Hne Hu. unfold WeatherHandler. rewrite Hc. unfold mbind, M_bind, lift.
  rewrite bool_decide_false by done. by rewrite Hu.
Qed.
End weather.

(** ** What a chat message does *)

Lemma Publish_objects evt order : forall (o : gmap positive Subscriber) l,
  NoDup order ->
  fold_left (fun o l => alter (send_event evt) l o) order o !! l
  = if decide (l ∈ order) then send_event evt <$> o !! l else o !! l.
Proof.
  induction order as [|x order IH]; intros o l Hnd; [done|]. apply list.NoDup_cons in Hnd as [Hx Hnd].
  cbn [fold_left]. rewrite IH by done. destruct (decide (x = l)) as [->|Hne].
  - rewrite (decide_False (P := l ∈ order)), decide_True by (done || set_solver). by rewrite lookup_alter_eq.
  - rewrite lookup_alter_ne by done. by destruct (decide (l ∈ order)), (decide (l ∈ x :: order)); set_solver.
Qed.

(** A chat message reaches the whole room: whoever is registered for the topic
    gets the event at the end of its channel, unless that is full; every other
    subscriber is untouched, and so are the tables of the hub. *)
Theorem chat_reaches_room order ctx r (e : Env Hub) nick msg :
  hub_ok (app e) -> publish_order (app e) "chat" (order (app e) "chat") ->
  payload_String r "nick" = Ok nick -> payload_String r "message" = Ok msg -> nick <> "" -> msg <> "" ->
  exists e' evt, SendHandler order ctx r e
      = (e', Ok (Some (NewResponse (Some (Map_Set NewMap "sent" (tlv_Bool true)))))) /\
    EvTopic evt = "chat" /\ EvPayload evt = Some (chat_message nick msg (oracle e (ticks e))) /\
    subscribers (app e') = subscribers (app e) /\
    forall l sub, objects (app e) !! l = Some sub ->
      ((exists id, registered (app e) "chat" id l) -> objects (app e') !! l = Some (send_event evt sub)) /\
      (~ (exists id, registered (app e) "chat" id l) -> objects (app e') !! l = Some sub).
Proof.
  intros Hh Ho Hn Hm Hnn Hmn. unfold SendHandler. rewrite Hn, Hm. unfold mbind, M_bind, lift, Now, in_app.
  rewrite !bool_decide_false by done. cbn [orb app oracle ticks].
  eexists _, (mkEvent "chat" (Some (chat_message nick msg (oracle e (ticks e)))) (oracle e (S (ticks e)))).
  split; [reflexivity|]. split; [done|]. split; [done|]. split; [done|].
  intros l sub Hl. cbn [app Publish set_objects objects].
  rewrite Publish_objects, Hl by (by eapply order_NoDup). rewrite <-(registered_order _ _ _ l Ho).
  by case_decide.
Qed.
