(* ===== verification/ExamplePrograms.v ===== *)
(** * The chat and weather examples as programs

    The command lines, [runServer] and [runClient] of
    [src/examples/chat/main.go] and [src/examples/weather/main.go], and what
    they do. *)

From stdpp Require Import pretty.
From S2P Require Import Prelude GoRt Fmt Varint Tlv TlvSpec TlvDecode TlvSafe Crypto Frame Transport Address FrameFacts FrameClaims Session SessionFacts Negotiate NegotiateFacts RateLimit Media Handler Server ServerFacts Pipeline Client EndToEnd Conversation Quic QuicFacts Logger Program ProgramFacts ExampleServer Crud Hub Examples.

(** ** Weather *)

Definition weather_main : list string -> Command :=
  main_command 4 "Usage: go run . client <key_id> <key_secret_hex> <hush_port> <city>".

Definition weather_banner : Banner := mkBanner "weather" ["[INF] Hush Weather ready on port %d"]
  [("Key ID:       %s" +:+ nl, the_id); ("Key Secret:   %x" +:+ nl, the_secret); ("Port:         %d" +:+ nl, the_port);
   ("Try:          go run . client %s %x %d London" +:+ nl +:+ nl, the_command)].

Definition weather_runServer {A PacketConn HTTPRequest} `{C : CryptoOps} (http_NewRequest : string -> option HTTPRequest)
  (http_Do : HTTPRequest -> string + string) load listen zone now : Reader -> Writer -> Started A PacketConn :=
  run_server load listen zone now weather_banner (HandleFunc 1 (WeatherHandler http_NewRequest http_Do)).

Definition weather_runClient (city : string) (session : Z) : Script :=
  Call 1 (Some (Map_Set NewMap "city" (tlv_String city))) (fun r =>
    match r with
    | inr err => Exit "request: %v" [AStr (error_text err)]
    | inl resp =>
        if negb (Status resp =? 0)
        then get_res (m ← resp_payload r; get_String m "error") (fun errMsg => Exit "error: %s" [AStr errMsg])
        else get_res (m ← resp_payload r; get_String m "weather") (fun weather =>
               printf (nl +:+ "🌍  %s" +:+ nl) [AStr city]
               (printf ("🌤   %s" +:+ nl) [AStr weather] Finish))
    end).

(** ** Chat *)

Definition chat_main : list string -> Command :=
  main_command 4 "Usage: go run . client <key_id> <key_secret_hex> <hush_port> <nickname>".

Definition chat_banner : Banner := mkBanner "chat" ["[INF] Hush Chat ready on port %d"]
  [("Key ID:       %s" +:+ nl, the_id); ("Key Secret:   %x" +:+ nl, the_secret); ("Port:         %d" +:+ nl, the_port);
   ("Join:         go run . client %s %x %d <nick>" +:+ nl +:+ nl, the_command)].

Definition chat_runServer {PacketConn} `{C : CryptoOps} (order : Hub -> string -> list positive) (turns : list Turn)
  load listen zone now : Reader -> Writer -> Started Hub PacketConn :=
  run_server load listen zone now chat_banner (chat_handlers order turns).

Definition chat_payload (nick msg : string) : Map :=
  Map_Set (Map_Set NewMap "nick" (tlv_String nick)) "message" (tlv_String msg).

(** The loop over the lines of the input; [n] bounds their number. *)
Fixpoint chat_loop (n : nat) (nick : string) : Script :=
  match n with
  | O => Unfinished
  | S n =>
      Input (fun line =>
        match line with
        | None => Finish
        | Some text =>
            let msg := TrimSpace text in
            if bool_decide (msg = "") then chat_loop n nick else
            if bool_decide (msg = "/quit") || bool_decide (msg = "/exit") then Finish else
            Call 1 (Some (chat_payload nick msg)) (fun r =>
              let rest := Output "> " (chat_loop n nick) in
              match r with
              | inr err => printf ("send error: %v" +:+ nl) [AStr (error_text err)] rest
              | inl _ => rest
              end)
        end)
  end.

Definition chat_runClient (n : nat) (nick : string) (session : Z) : Script :=
  printf (nl +:+ "💬 Joined chat as %s (session %d)" +:+ nl) [AStr nick; AInt session]
  (Output ("Type a message and press Enter. Ctrl+C to quit." +:+ nl +:+ nl) (chat_loop n nick)).

(** ** Theorems *)

(** The messages of an input: the trimmed lines that are not empty, up to the
    first "/quit" or "/exit". *)
Fixpoint messages (input : list string) : list string :=
  match input with
  | [] => []
  | line :: input =>
      let msg := TrimSpace line in
      if bool_decide (msg = "") then messages input
      else if bool_decide (msg = "/quit") || bool_decide (msg = "/exit") then [] else msg :: messages input
  end.

(** The chat client sends exactly the messages of its input, under its
    nickname and in their order, prompts after each, and returns, whatever the
    server answers. *)
Lemma chat_sends {A} respond nick input : forall n (a : A) seq,
  (length input < n)%nat ->
  let t := talk respond (chat_loop n nick) a seq input in
  map (fun c => (s_op c, s_payload c)) (t_calls t) = map (fun msg => (1, Some (chat_payload nick msg))) (messages input) /\
  t_output t = map (fun _ => "> ") (messages input) /\ t_ending t = Returned.
Proof.
  induction input as [|line input IH]; intros [|n] a seq Hn; cbn in Hn; try lia; [by split_and!|].
  cbn [chat_loop talk messages]. destruct (bool_decide (TrimSpace line = "")); [apply IH; lia|].
  destruct (bool_decide (TrimSpace line = "/quit") || bool_decide (TrimSpace line = "/exit")); [by split_and!|].
  cbn [talk]. destruct (respond _ _ _) as [a' r]. cbn [called said t_calls t_output t_ending map].
  destruct (IH n a' (wrapU 32 (seq + 1))) as (H1 & H2 & H3); [lia|]. rewrite H1, H2, H3. done.
Qed.

Section weather.
Context {A HTTPRequest : Type} (http_NewRequest : string -> option HTTPRequest) (http_Do : HTTPRequest -> string + string).

(** What the server answers for a city whose URL is valid. *)
Definition weather_answer (city : string) (req : HTTPRequest) : Response :=
  match http_Do req with
  | inr err => ErrorResponse StatusInternalError ("fetch failed: " +:+ err)
  | inl body => NewResponse (Some (Map_Set (Map_Set NewMap "city" (tlv_String city)) "weather" (tlv_String body)))
  end.
Definition weather_request (city : string) : Request := mkRequest 1 (Some (Map_Set NewMap "city" (tlv_String city))).

Lemma weather_answers (s0 : Server A) sess city req a :
  middlewares s0 = [] -> city <> "" -> http_NewRequest (weather_url city) = Some req ->
  answers_at (HandleFunc 1 (WeatherHandler http_NewRequest http_Do) s0) sess (norm_request (weather_request city)) a a
    (weather_answer city req).
Proof.
  intros Hmw Hc Hreq. unfold answers_at, HandleFunc, Handle, set_handler, wrap_handler, norm_request, weather_request.
  cbn [handlers middlewares Opcode]. rewrite Hmw. cbn [rev fold_left]. rewrite lookup_insert_eq. intros ctx e <-.
  unfold WeatherHandler, lift, mbind, M_bind. change (payload_String _ _) with (@Ok string city). cbn match.
  rewrite bool_decide_false, Hreq by done. cbn [deref]. unfold weather_answer.
  destruct (http_Do req); (eexists; split; [reflexivity|]; by split_and!).
Qed.

(** How the client ends, and what it prints. *)
Lemma weather_talk city req session (a : A) :
  talk (fun _ _ a => (a, weather_answer city req)) (weather_runClient city session) a 0 []
  = mkTalk a [mkServed 1 (Payload (weather_request city)) a a (weather_answer city req)] []
      (match http_Do req with inl body => [nl +:+ "🌍  " +:+ city +:+ nl; "🌤   " +:+ body +:+ nl] | inr _ => [] end)
      (match http_Do req with inl _ => Returned | inr err => Exited ("error: fetch failed: " +:+ err) end).
Proof.
  unfold weather_runClient. cbn [talk]. unfold weather_answer. destruct (http_Do req) as [body|err].
  - reflexivity.
  - set (resp := ErrorResponse _ _).
    change (m ← resp_payload (inl (norm_response (wrapU 32 (0 + 1)) resp)); get_String m "error")
      with (Ok ("fetch failed: " +:+ err)).
    change (negb _) with true. cbn [get_res talk called t_state t_calls t_stdin t_output t_ending].
    change (Sprintf "error: %s" [AStr ("fetch failed: " +:+ err)]) with ("error: " +:+ ("fetch failed: " +:+ err) +:+ "").
    by rewrite string_app_nil.
Qed.

(** The weather example works: started with the key and the port of a running
    server, over any network that takes it to its connection there, the client
    prints the weather that the server fetched for its city, or, when fetching
    failed, exits with the server's error message. *)
Theorem weather_session `{L : CryptoLaws} {PacketConn} load listen zone now rnd stderr (srv : Server A) st (conn : PacketConn) key port out log
  e ctx addr clk b nonce_c nonce_s rnd_c rnd_s er_c er_s shared k city req :
  weather_runServer http_NewRequest http_Do load listen zone now rnd stderr = Running srv st conn key port out log ->
  let sid := wrapU 64 (nextID e + 1) in
  let sess := NewSession (oracle e (ticks e)) sid (client_id (Some key)) (Some k) in
  city <> "" -> http_NewRequest (weather_url city) = Some req ->
  request_fits (Some k) (weather_request city) -> response_fits (Some k) (weather_answer city req) ->
  len b = 32 -> SharedSecret (serverPriv srv) (x25519_Public b) = Ok shared ->
  DeriveSessionKey shared (client_secret (Some key)) = Ok k -> never_dead e sess ->
  len nonce_c = NonceSize -> len nonce_s = NonceSize -> random e = mkReader (nonce_s ++ rnd_s) er_s ->
  exists hello ups downs q,
    handleConnection srv ctx addr (Ok (mkStream (reader_of hello) empty_writer)) (turns 1 ups ++ [QFail])
      (mkQuic e [] true false) = (q, Ok tt) /\ quic_streams q = map served_stream downs /\
    forall net, quic_reaches net (example_addr (pretty port)) example_tls (map answer_stream downs) -> exists p,
      run_client net clk (mkReader (b ++ nonce_c ++ rnd_c) er_c) (KeyID key) (hex_bytes (Secret key)) (pretty port)
        [] (weather_runClient city)
      = (Some p, match http_Do req with inl _ => Returned | inr err => Exited ("error: fetch failed: " +:+ err) end) /\
      stdout p = match http_Do req with
                 | inl body => [nl +:+ "🌍  " +:+ city +:+ nl; "🌤   " +:+ body +:+ nl]
                 | inr _ => []
                 end.
Proof.
  intros Hrun sid sess Hc Hreq Hfit Hfit' Hb Hsh Hk Hlive Hnc Hns Hrnd.
  destruct (run_server_knows _ _ _ _ _ _ _ _ _ _ _ _ _ _ _ Hrun) as (-> & Hlen & s0 & -> & Hmw & _ & _ & Hks).
  destruct key as [id secret]. cbn [KeyID Secret] in *.
  pose proof (weather_talk city req sid (app e)) as Htalk.
  destruct (program_served (fun _ _ a => (a, weather_answer city req)) (HandleFunc 1 (WeatherHandler http_NewRequest http_Do) s0)
    e ctx addr clk id secret (pretty port) b (weather_runClient city) [] [nonce_c] [nonce_s] rnd_c rnd_s er_c er_s shared k)
    as (hello & ups & downs & q & Hq & Hstr & _ & _ & _ & Hnet);
    fold sid sess; rewrite ?Htalk; try done.
  - right. split; [cbn [KeyID]; lia|done].
  - apply list.Forall_singleton. split; [exact Hfit|]. split; [exact Hfit'|]. by apply weather_answers.
  - by constructor.
  - by constructor.
  - cbn [concat]. by rewrite app_nil_r.
  - fold sid sess in Hnet. rewrite Htalk in Hnet. exists hello, ups, downs, q. split_and!; try done.
    intros net H. destruct (Hnet net H) as (p & l & closed & Hp & Hout & _).
    cbn [concat] in Hp. rewrite app_nil_r in Hp. by exists p.
Qed.
End weather.
